(* ===== verification/_CoqProject ===== *)
-Q . S2P
Prelude.v
Mem.v
Words.v
Ctype.v
MemFuncs.v
Strings.v
StrlenFacts.v
StrcpyFacts.v
StrlFacts.v
StrcmpFacts.v
HashStream.v
Sha2.v
Sha2Facts.v
Md5.v
Convert.v
ConvertFacts.v
Crypt.v
CryptFacts.v
Wide.v
WideFacts.v
Alloc.v
AllocFacts.v
AllocSafety.v
Random.v
Sort.v
SortFacts.v
Time.v
TimeFacts.v
Tzone.v
TimeFmt.v
Inet.v
InetFacts.v
Dns.v
DnsFacts.v
Siphash.v
Hsearch.v
HsearchFacts.v
Threads.v
ThreadsFacts.v
Stdio.v
StdioLogic.v
StdioFacts.v
StdioRefine.v
Printf.v
PrintfSpec.v
PrintfFacts.v
PrintfParse.v
Fnmatch.v
FnmatchFacts.v
Regex.v
RegexSpec.v
RegexFacts.v
RegexParse.v
Des.v
DesFacts.v
Scanf.v
ScanfFacts.v
ScanfParse.v
ScanPrint.v
