(* ===== verification/Prelude.v ===== *)
(** * A verification development for the diet libc

    The diet libc is a small C library.  Its core is code that computes: on bytes and
    strings, on numbers and their texts, on dates, addresses, passwords, patterns,
    hash tables, streams and locks.  This development models that code and proves what
    it is for.  File names such as [lib/strlen.c] are relative to [src/].

    ** How the code is modelled

    A C function is a computation over a state ([CM] below): it returns a value and the
    new state, or ends in [Fault], an access that the program may not make, or in [Hang],
    when the fuel of a loop is used up.  A loop is [loop fuel body], where [body] says
    whether to go round again.  The fuel is either a number that the model computes from
    the inputs (the size of the memory for a scan, the number of bytes that are left, the
    value of a counter), or an argument that the theorems quantify over: they say which
    fuel is enough, and that the result is then the same.  No theorem is about runs that
    are assumed to end.  Functions without state are plain functions; where their only
    failure is an access outside an array they return an [option].

    Integers are [Z] with the conversions [u8] ... [u64], [s8] ... [s64] written where the
    code converts.  The build is the default one of [dietfeatures.h] on a 64-bit
    little-endian machine: [char] is signed, [int] has 32 bits, [long] and [size_t] have
    64, right shifts of negative numbers are arithmetic.

    Code that works on pointers runs over the byte memory of [Mem], in which regions may
    overlap and unmapped addresses fault.  Code that only reads a string from front to
    back gets the list of the bytes that are left, and a read behind the terminator is a
    fault where the code can do one.  Static variables are part of the state.

    What is not code of the library is an interface or an argument:
    - [Alloc.Kernel]: what [mmap], [munmap] and [mremap] do;
    - [Stdio.Syscalls] and [StdioLogic.RegularFiles]: the system calls on files, and the
      laws of a kernel with regular files, which may transfer less than it is asked to;
    - [Threads]: the two [futex] calls, with the freedom [sleep_may_end] of the kernel to
      wake a thread early, over sequentially consistent memory;
    - [Printf.Doubles] and [Scanf.DoubleOps]: the text of a double ([__dtostr]), the
      comparisons and the arithmetic of doubles;
    - the bytes that the kernel gives as random numbers, the contents of the zone file,
      the results of [malloc] in [Hsearch], the room that [alloca] gives in [Regex].
    Within the library, [HashStream.StreamHash] is what the password hashes know of the
    block hashes, [Sha2.Sha2Params] with [Sha2Facts.Sha2Laws] what SHA-256 and SHA-512
    share, [SortFacts.Comparison] what [qsort] and [bsearch] ask of a comparison, and
    [Scanf.CharStream] the input of the scanner, with strings and streams as instances.
    Every interface has an instance that a witness uses.

    ** The parts

    - Prelude, Mem, Words: integers, computations, loops; memory; zero bytes in words.
    - MemFuncs, Strings, StrlenFacts, StrcpyFacts, StrlFacts, StrcmpFacts: [lib/mem*.c],
      [lib/str*.c].  The functions that work word by word compute what a byte loop would,
      for every alignment, and touch nothing else.
    - Ctype: [lib/is*.c], [lib/to*.c], [liblatin1/], [lib/ffs.c], [lib/div.c].
    - Convert, ConvertFacts: [lib/strtoul.c], [lib/strtol.c], [lib/__ltostr.c] and their
      long long versions.  Every numeral is converted, overflow is found, numbers that
      were printed are read back.
    - HashStream, Sha2, Sha2Facts, Md5, Crypt, CryptFacts, Des, DesFacts: [libcrypt/].
      The streaming hashes compute the hash of the concatenation of their pieces; the
      password hashes compute their algorithms over these; the traditional hash is
      salted DES, whose inverse is the reversed key schedule.  [Des.crypt] chooses.
    - Wide, WideFacts: [lib/mb*.c], [lib/wc*.c], [lib/isw*.c].  UTF-8 round trips.
    - Alloc, AllocFacts, AllocSafety: [lib/alloc.c].  An invariant of the heap, and the
      safety of every sequence of calls ([client_step]).
    - Random, Sort, SortFacts: [lib/rand*.c], [lib/arc4random.c], [lib/qsort.c],
      [lib/bsearch.c].  Sorting takes its pivots from [rand]; it terminates and sorts for
      all of them.
    - Time, TimeFacts, Tzone, TimeFmt: the calendar of [libugly/] against a reference
      calendar that counts days; zone files; [strftime].
    - Inet, InetFacts, Dns, DnsFacts: addresses and domain names of [libcruft/].  Texts
      and packets are read back; the decoder of names is safe on hostile packets.
    - Siphash, Hsearch, HsearchFacts: [lib/siphash24.c], [lib/hsearch_r.c].  A table of
      linked chains is a map; the hash function is that of the paper.
    - Threads, ThreadsFacts: [lib/mtx_*.c], [lib/cnd_*.c].  Interleavings of any number of
      threads; mutual exclusion, no lost wake-ups, and the deadlock of [cnd_wait].
    - Stdio, StdioLogic, StdioFacts, StdioRefine: [libstdio/].  Programs that use a stream
      refine programs that use a file with one position.
    - Printf, PrintfSpec, PrintfFacts, PrintfParse: [lib/__v_printf.c] and
      [lib/vsnprintf.c] print what the C standard says a format means.
    - Scanf, ScanfFacts, ScanfParse, ScanPrint: [lib/__v_scanf.c], [lib/vsscanf.c] and
      [libstdio/vfscanf.c].  The input is taken apart as the format says, and numbers that
      were printed are read back with the same format.
    - Fnmatch, FnmatchFacts: [libshell/fnmatch.c] decides the meaning of a pattern.
    - Regex, RegexSpec, RegexFacts, RegexParse: [libregex/rx.c].  The parser returns, the
      matcher returns, and what it finds is in the language of the tree.

    Components meet as in the code: the conversions call the classes of [Ctype], [Inet],
    [Printf] and [Crypt] the conversions, [Crypt] the hashes, [Des] the other password
    hashes, [Sort] the generator of [Random], [Hsearch] the hash of [Siphash], [Tzone] and
    [TimeFmt] the calendar of [Time], [Scanf] the streams of [Stdio]; [Alloc] and [MemFuncs] share the memory of [Mem].

    The name of a file that ends in [Facts] says that it holds theorems on the file in
    front of it.  Where the code does something else than it means to, a theorem with a
    name such as [des_flaws] or [plus_backs_off] states what it does.

    ** Not modelled

    - Floating point: [libm/], [softfpu/], [lib/__dtostr.c], [lib/strtod.c], [drand48].
      The integers of this development are no doubles; [Printf] takes the text of a
      double from an interface.
    - The assembler of the architecture directories, the start-up code and the system
      call wrappers, which are macros that expand to one instruction.
    - Thread creation ([lib/thrd_create.c]) and [libpthread/]: stacks, [clone], signals.
    - [librpc/], the RPC library of Sun; the dynamic linker ([ldso.c], [libdl/]); the
      compiler wrapper [diet.c].
    - Files under /etc, sockets and directories: the name service of [libcruft/] and
      [libugly/], [glob], [scandir].
    - [libugly/strptime.c]; of [libregex/], [regfree] and [regerror];
      of [libstdio/], the locking wrappers, [tmpfile] and [popen]; of the wide strings,
      [wcstok] and [wmemmove]. *)

From Stdlib Require Export Ascii.
From stdpp Require Export base tactics list numbers gmap strings.
From Stdlib Require Export ZArith Lia ZifyBool Btauto.

#[global] Open Scope Z_scope.

(** ** Machine integers

    A [w]-bit unsigned value is a [Z] in [0, 2^w); [u8] ... [u64] are the
    conversions to the unsigned C types (reduction modulo [2^w], written as the
    mask the hardware applies), [s8] ... [s64] the conversions to the signed
    ones (two's complement, the behaviour of every target of the library). *)

Definition u8 (x : Z) : Z := Z.land x 0xff.
Definition u16 (x : Z) : Z := Z.land x 0xffff.
Definition u32 (x : Z) : Z := Z.land x 0xffffffff.
Definition u64 (x : Z) : Z := Z.land x 0xffffffffffffffff.

Definition s8 (x : Z) : Z := let y := u8 x in if y <? 0x80 then y else y - 0x100.
Definition s16 (x : Z) : Z := let y := u16 x in if y <? 0x8000 then y else y - 0x10000.
Definition s32 (x : Z) : Z :=
  let y := u32 x in if y <? 0x80000000 then y else y - 0x100000000.
Definition s64 (x : Z) : Z :=
  let y := u64 x in
  if y <? 0x8000000000000000 then y else y - 0x10000000000000000.

(** Bitwise complement at width 32 and 64. *)
Definition not32 (x : Z) : Z := Z.lxor (u32 x) 0xffffffff.
Definition not64 (x : Z) : Z := Z.lxor (u64 x) 0xffffffffffffffff.

(** C's [!!b] and [b ? 1 : 0]. *)
Definition b2z (b : bool) : Z := if b then 1 else 0.

Lemma u8_mod x : u8 x = x mod 2 ^ 8.
Proof. unfold u8. change 0xff with (Z.ones 8). apply Z.land_ones. lia. Qed.

Lemma u16_mod x : u16 x = x mod 2 ^ 16.
Proof. unfold u16. change 0xffff with (Z.ones 16). apply Z.land_ones. lia. Qed.

Lemma u32_mod x : u32 x = x mod 2 ^ 32.
Proof. unfold u32. change 0xffffffff with (Z.ones 32). apply Z.land_ones. lia. Qed.

Lemma u64_mod x : u64 x = x mod 2 ^ 64.
Proof.
  unfold u64. change 0xffffffffffffffff with (Z.ones 64). apply Z.land_ones. lia.
Qed.

Lemma land_lt_pow2 a b n : 0 <= n → 0 <= a < 2 ^ n → 0 <= Z.land a b < 2 ^ n.
Proof.
  intros Hn Ha. assert (Z.land a b = Z.land a b mod 2 ^ n) as ->.
  { rewrite <- !Z.land_ones, <- (Z.mod_small a (2 ^ n)), <- Z.land_ones by lia.
    apply Z.bits_inj'. intros i Hi. rewrite !Z.land_spec. btauto. }
  apply Z.mod_pos_bound. lia.
Qed.

(** Or-ing bits that do not overlap. *)
Lemma lor_add a k b : 0 <= k → 0 <= b < 2 ^ k → Z.lor (a * 2 ^ k) b = a * 2 ^ k + b.
Proof.
  intros Hk Hb. symmetry. apply Z.add_nocarry_lor. apply Z.bits_inj'. intros i Hi.
  rewrite Z.land_spec, Z.bits_0, <- Z.shiftl_mul_pow2 by done. destruct (Z.lt_ge_cases i k).
  - by rewrite Z.shiftl_spec_low.
  - rewrite <- (Z.mod_small b (2 ^ k)), Z.mod_pow2_bits_high by lia. apply andb_false_r.
Qed.

Lemma pow_256 n : 256 ^ Z.of_nat n = 2 ^ (8 * Z.of_nat n).
Proof. rewrite Z.pow_mul_r by lia. done. Qed.

(** [uwrap] turns every conversion of the context into a [mod], so that [lia]
    (through [Z.div_mod_to_equations]) sees the arithmetic. *)
Ltac uwrap :=
  unfold s8, s16, s32, s64, b2z in *;
  rewrite ?u8_mod, ?u16_mod, ?u32_mod, ?u64_mod in *;
  change (2 ^ 8) with 256 in *; change (2 ^ 16) with 65536 in *;
  change (2 ^ 32) with 4294967296 in *;
  change (2 ^ 64) with 18446744073709551616 in *.

Ltac bool_case :=
  match goal with
  | |- context [if ?b then _ else _] => destruct b eqn:?
  | H : context [if ?b then _ else _] |- _ => destruct b eqn:?
  end.

(** [int_lia] decides linear goals over wrapped integers. *)
Ltac int_lia := uwrap; repeat bool_case; Z.div_mod_to_equations; lia.

(** Character and string literals: [CH "a"] is the code of the character, and
    [STR "abc"] the list of the codes (both become numerals when parsed). *)
Definition code_of (c : Ascii.ascii) : Z := Z.of_N (Ascii.N_of_ascii c).
Fixpoint codes_of (s : String.string) : list Z :=
  match s with
  | String.EmptyString => []
  | String.String c s => code_of c :: codes_of s
  end.
Notation "'CH' c" := (ltac:(let x := eval vm_compute in (code_of c%char) in exact x))
  (at level 10, c at level 0, only parsing).
Notation "'STR' s" := (ltac:(let x := eval vm_compute in (codes_of s%stdpp) in exact x))
  (at level 10, s at level 0, only parsing).

(** A byte of memory, and a byte that does not end a string. *)
Definition byte (b : Z) : Prop := 0 <= b < 256.
Definition nzbyte (b : Z) : Prop := 0 < b < 256.

Lemma nzbyte_byte b : nzbyte b → byte b.
Proof. unfold nzbyte, byte. lia. Qed.

Lemma Forall_nzbyte_byte l : Forall nzbyte l → Forall byte l.
Proof. intros H. eapply Forall_impl; [exact H|]. apply nzbyte_byte. Qed.

Lemma u8_byte x : byte (u8 x).
Proof. unfold byte. int_lia. Qed.

Lemma u8_id b : byte b → u8 b = b.
Proof. unfold byte. intros. int_lia. Qed.

Lemma u32_range x : 0 <= u32 x < 4294967296.
Proof. int_lia. Qed.

Lemma u32_id x : 0 <= x < 4294967296 → u32 x = x.
Proof. intros. int_lia. Qed.

Lemma u64_range x : 0 <= u64 x < 18446744073709551616.
Proof. int_lia. Qed.

Lemma u64_id x : 0 <= x < 18446744073709551616 → u64 x = x.
Proof. intros. int_lia. Qed.

Lemma s8_inj a b : byte a → byte b → s8 a = s8 b → a = b.
Proof. unfold byte. intros. int_lia. Qed.

Lemma s8_range x : -128 <= s8 x < 128.
Proof. int_lia. Qed.

Lemma s8_zero b : byte b → (s8 b =? 0) = (b =? 0).
Proof. unfold byte. intros. apply eq_bool_prop_intro. rewrite !Is_true_true, !Z.eqb_eq. int_lia. Qed.

(** Reasoning by evaluation over all arguments of an interval. *)
Lemma interval_forallb (P : Z → bool) (lo : Z) (n : nat) :
  forallb P (seqZ lo (Z.of_nat n)) = true → ∀ x, lo <= x < lo + Z.of_nat n → P x = true.
Proof.
  intros H x Hx. rewrite forallb_forall in H. apply H, list_elem_of_In, elem_of_seqZ. lia.
Qed.

Create HintDb cint.
#[global] Create Rewrite HintDb cint.
#[export] Hint Resolve nzbyte_byte Forall_nzbyte_byte u8_byte : cint.
#[export] Hint Rewrite u8_id u32_id u64_id using lia : cint.

(** ** Computations

    A C function is a computation over a state [W]: it returns a value and the
    new state, or stops in [Fault] (an access the C program may not make, such
    as a load from an unmapped address) or in [Hang] (the fuel of a loop ran
    out; every theorem of the development shows that this does not happen). *)

Inductive outcome (A : Type) : Type :=
| Ok (a : A)
| Fault
| Hang.
Arguments Ok {A} a.
Arguments Fault {A}.
Arguments Hang {A}.

#[global] Instance outcome_eq_dec {A} `{EqDecision A} : EqDecision (outcome A).
Proof. solve_decision. Defined.

Definition CM (W A : Type) : Type := W → outcome (A * W).

#[global] Instance CM_ret W : MRet (CM W) := λ A a w, Ok (a, w).
#[global] Instance CM_bind W : MBind (CM W) := λ A B k m w,
  match m w with
  | Ok (a, w') => k a w'
  | Fault => Fault
  | Hang => Hang
  end.

Definition fault {W A} : CM W A := λ _, Fault.

Lemma bind_Ok {W A B} (m : CM W A) (k : A → CM W B) w a w' :
  m w = Ok (a, w') → (m ≫= k) w = k a w'.
Proof. intros H. unfold mbind, CM_bind. by rewrite H. Qed.

Lemma bind_Fault {W A B} (m : CM W A) (k : A → CM W B) w :
  m w = Fault → (m ≫= k) w = Fault.
Proof. intros H. unfold mbind, CM_bind. by rewrite H. Qed.

Lemma bind_inv {W A B} (m : CM W A) (k : A → CM W B) w b w'' :
  (m ≫= k) w = Ok (b, w'') → ∃ a w', m w = Ok (a, w') ∧ k a w' = Ok (b, w'').
Proof.
  unfold mbind, CM_bind. destruct (m w) as [[a w']| |] eqn:E; [|done..]. eauto.
Qed.

Lemma bind_assoc {W A B C} (m : CM W A) (f : A → CM W B) (g : B → CM W C) w :
  ((m ≫= f) ≫= g) w = (m ≫= (λ a, f a ≫= g)) w.
Proof. unfold mbind, CM_bind. by destruct (m w) as [[a w']| |]. Qed.

(** ** Loops

    A loop body maps the loop state (the C locals the loop changes) to
    [Next] (go round again) or to [Done] (leave the loop with a value). *)

Inductive step (S A : Type) : Type :=
| Next (s : S)
| Done (a : A).
Arguments Next {S A} s.
Arguments Done {S A} a.

Fixpoint loop {W S A} (fuel : nat) (body : S → CM W (step S A)) (s : S) : CM W A :=
  match fuel with
  | O => λ _, Hang
  | Datatypes.S fuel =>
      r ← body s;
      match r with
      | Next s' => loop fuel body s'
      | Done a => mret a
      end
  end.

Section loop_rules.
Context {W S A : Type} (body : S → CM W (step S A)).

Lemma loop_Done fuel s w a w' :
  body s w = Ok (Done a, w') → loop (Datatypes.S fuel) body s w = Ok (a, w').
Proof. intros H. simpl. by rewrite (bind_Ok _ _ _ _ _ H). Qed.

Lemma loop_Next fuel s w s' w' :
  body s w = Ok (Next s', w') →
  loop (Datatypes.S fuel) body s w = loop fuel body s' w'.
Proof. intros H. simpl. by rewrite (bind_Ok _ _ _ _ _ H). Qed.

Lemma loop_Fault fuel s w :
  body s w = Fault → loop (Datatypes.S fuel) body s w = Fault.
Proof. intros H. simpl. by rewrite (bind_Fault _ _ _ H). Qed.

(** Total correctness: an invariant [I n] with a variant [n] that every
    [Next] decreases; [Q] holds when the loop is left. *)
Lemma loop_total (I : nat → S → W → Prop) (Q : A → W → Prop) :
  (∀ n s w, I n s w →
     (∃ a w', body s w = Ok (Done a, w') ∧ Q a w') ∨
     (∃ n' s' w', body s w = Ok (Next s', w') ∧ (n' < n)%nat ∧ I n' s' w')) →
  ∀ n s w fuel, I n s w → (n < fuel)%nat →
  ∃ a w', loop fuel body s w = Ok (a, w') ∧ Q a w'.
Proof.
  intros Hbody n s w fuel. revert n s w.
  induction fuel as [|fuel IH]; intros n s w HI Hn; [lia|].
  destruct (Hbody n s w HI) as [(a & w' & Hb & HQ)|(n' & s' & w' & Hb & Hlt & HI')].
  - exists a, w'. split; [by apply loop_Done|done].
  - rewrite (loop_Next _ _ _ _ _ Hb). apply (IH n'); [done|lia].
Qed.
Lemma loop_mono n m s w r :
  loop n body s w = Ok r → (n <= m)%nat → loop m body s w = Ok r.
Proof.
  revert m s w. induction n as [|n IH]; intros [|m] s w H Hm; [done|done|lia|].
  destruct r as [a w']. simpl in *. apply bind_inv in H as (x & w1 & Hb & Hx).
  rewrite (bind_Ok _ _ _ _ _ Hb). destruct x; [|done]. apply IH; [done|lia].
Qed.
End loop_rules.

(** [cstep] runs the first computation of a sequence, whose result [eauto]
    finds in the hint database [cspec] or among the hypotheses. *)
Create HintDb cspec.
Ltac cstep :=
  match goal with
  | |- context [mbind (M := CM _) ?k ?m ?w] =>
      erewrite (bind_Ok m k w) by (solve [eauto with cspec]); cbv beta iota zeta
  end.

(** [cif] decides the condition of a C [if] by [lia]. *)
Ltac cif :=
  match goal with
  | |- context [if ?b then _ else _] =>
      first [ replace b with true by (symmetry; lia)
            | replace b with false by (symmetry; lia) ];
      cbv iota beta zeta
  end.

(** [crun] runs a straight-line body: decided conditionals and known steps. *)
Ltac crun := cbv beta iota zeta; repeat first [cstep | cif]; try reflexivity.

(** [cnext s] and [cdone] run one round of a [loop]. *)
Ltac cnext := erewrite loop_Next by crun.
Ltac cdone := erewrite loop_Done by crun.

(** [gen_fuel n] replaces the fuel of the goal's loop by any [fuel] above [n]. *)
Ltac gen_fuel n :=
  match goal with
  | |- context [loop ?f _ _ _] =>
      let Hf := fresh "Hf" in
      assert (n < f)%nat as Hf by lia;
      revert Hf; generalize f as fuel; intros fuel Hf
  end.

(** A list of at least [n] elements is a prefix of [n] elements and the rest. *)
Lemma list_split_at {A} (n : nat) (l : list A) :
  (n <= length l)%nat → ∃ h t, l = h ++ t ∧ length h = n.
Proof.
  intros H. exists (take n l), (drop n l). rewrite take_drop, length_take. split; [done|lia].
Qed.

(** Filtering by predicates that agree, or fail, on the elements of the list. *)
Lemma list_filter_ext_in {A} (P Q : A → Prop) `{∀ x, Decision (P x), ∀ x, Decision (Q x)} (l : list A) :
  (∀ x, x ∈ l → P x ↔ Q x) → filter P l = filter Q l.
Proof.
  induction l as [|x l IH]; intros HPQ; [done|]. rewrite !filter_cons.
  assert (P x ↔ Q x) as Hx by (apply HPQ, list_elem_of_here).
  rewrite IH by (intros y Hy; by apply HPQ, list_elem_of_further).
  destruct (decide (P x)), (decide (Q x)); tauto.
Qed.

Lemma list_filter_none {A} (P : A → Prop) `{∀ x, Decision (P x)} (l : list A) :
  (∀ x, x ∈ l → ¬ P x) → filter P l = [].
Proof.
  induction l as [|x l IH]; intros HP; [done|].
  rewrite filter_cons_False by (apply HP, list_elem_of_here). apply IH.
  intros y Hy. by apply HP, list_elem_of_further.
Qed.

(** ** Unrolled loops

    [unroll k body] runs up to [k] rounds of [body] as one round, the way the
    unrolled loops of the library are written. *)
Fixpoint unroll {W S A} (k : nat) (body : S → CM W (step S A)) (s : S) : CM W (step S A) :=
  match k with
  | O => mret (Next s)
  | Datatypes.S k =>
      r ← body s;
      match r with
      | Next s' => unroll k body s'
      | Done a => mret (Done a)
      end
  end.

Section unroll.
Context {W S A : Type} (body : S → CM W (step S A)).

Lemma unroll_run k n s w r :
  loop n body s w = Ok r →
  (∃ a w', unroll k body s w = Ok (Done a, w') ∧ (a, w') = r) ∨
  (∃ s' w', unroll k body s w = Ok (Next s', w') ∧ loop (n - k)%nat body s' w' = Ok r).
Proof.
  revert n s w. induction k as [|k IH]; intros n s w H.
  { right. exists s, w. by rewrite Nat.sub_0_r. }
  destruct n as [|n]; [done|]. destruct r as [a w']. simpl in *.
  apply bind_inv in H as (x & w1 & Hb & Hx). rewrite (bind_Ok _ _ _ _ _ Hb).
  destruct x as [s1|a1].
  - apply IH, Hx.
  - left. inversion Hx; subst. eauto.
Qed.

(** An unrolled loop gives the result of the plain one. *)
Lemma loop_unroll k n s w r :
  (0 < k)%nat → loop n body s w = Ok r → loop n (unroll k body) s w = Ok r.
Proof.
  intros Hk. revert s w. induction n as [n IH] using lt_wf_ind; intros s w H.
  destruct n as [|n]; [done|].
  destruct (unroll_run k _ _ _ _ H) as [(a & w' & Hu & <-)|(s' & w' & Hu & Hl)].
  - by apply loop_Done.
  - rewrite (loop_Next _ _ _ _ _ _ Hu). apply loop_mono with (n := (Datatypes.S n - k)%nat); [|lia].
    apply IH; [lia|done].
Qed.
End unroll.

(** [cret] closes an equation between results that differ in their arithmetic. *)
Ltac cret := unfold mret, CM_ret; repeat (lia || f_equal).
