(* ===== verification/Mem.v ===== *)
(** * Memory

    The byte-addressed memory the pointer code of the library works on, the
    loads and stores of C lvalues, the predicates that say what a region holds,
    and the loop bound of scanning loops.  Addresses are integers (0 is the null
    pointer); an access to an address outside the mapped memory is [Fault]. *)

From S2P Require Import Prelude.

(** The state of a C thread: its memory and its [errno]. *)
Record world := World { mem : gmap Z Z; errno : Z }.

Abbreviation M := (CM world).

Definition set_mem (f : gmap Z Z → gmap Z Z) (w : world) : world :=
  World (f (mem w)) (errno w).
Definition set_errno (e : Z) : M unit := λ w, Ok (tt, World (mem w) e).

(** [*(unsigned char* )p], and the assignment to it. *)
Definition load (p : Z) : M Z := λ w,
  match mem w !! p with Some b => Ok (b, w) | None => Fault end.
Definition store (p v : Z) : M unit := λ w,
  match mem w !! p with
  | Some _ => Ok (tt, set_mem <[p := u8 v]> w)
  | None => Fault
  end.
(** [*p] for a plain [char], promoted to [int]: [char] is signed. *)
Definition load_char (p : Z) : M Z := c ← load p; mret (s8 c).

(** Little-endian words. *)
Fixpoint le_combine (l : list Z) : Z :=
  match l with [] => 0 | b :: l => b + 256 * le_combine l end.
Fixpoint le_split (n : nat) (x : Z) : list Z :=
  match n with O => [] | S n => u8 x :: le_split n (Z.shiftr x 8) end.

Fixpoint load_bytes (n : nat) (p : Z) : M (list Z) :=
  match n with
  | O => mret []
  | S n => b ← load p; l ← load_bytes n (p + 1); mret (b :: l)
  end.
Fixpoint store_bytes (p : Z) (l : list Z) : M unit :=
  match l with
  | [] => mret tt
  | b :: l => _ ← store p b; store_bytes (p + 1) l
  end.
Definition load_le (n : nat) (p : Z) : M Z := l ← load_bytes n p; mret (le_combine l).
Definition store_le (n : nat) (p v : Z) : M unit := store_bytes p (le_split n v).

Abbreviation load32 := (load_le 4).
Abbreviation load64 := (load_le 8).
Abbreviation store32 := (store_le 4).
Abbreviation store64 := (store_le 8).

(** A scanning loop reads a new address in every round, so it ends within as
    many rounds as there are mapped addresses. *)
Definition scan {S A} (body : S → M (step S A)) (s : S) : M A :=
  λ w, loop (Datatypes.S (size (mem w))) body s w.

(** ** Regions *)

(** [bytes_at w p l]: the bytes [l] are in memory from [p] on. *)
Definition bytes_at (w : world) (p : Z) (l : list Z) : Prop :=
  ∀ i b, l !! i = Some b → mem w !! (p + Z.of_nat i) = Some b.

(** [mapped w p n]: the [n] bytes from [p] on may be accessed. *)
Definition mapped (w : world) (p n : Z) : Prop :=
  ∀ a, p <= a < p + n → is_Some (mem w !! a).

(** [cstr w p s]: at [p] there is the NUL-terminated string [s]. *)
Definition cstr (w : world) (p : Z) (s : list Z) : Prop :=
  bytes_at w p (s ++ [0]) ∧ Forall nzbyte s.

(** The world with the bytes [l] written from [p] on. *)
Fixpoint write_bytes (p : Z) (l : list Z) (w : world) : world :=
  match l with
  | [] => w
  | b :: l => write_bytes (p + 1) l (set_mem <[p := b]> w)
  end.

(** Two regions that share no address. *)
Definition disjoint (p n q m : Z) : Prop := p + n <= q ∨ q + m <= p.

(** ** Little-endian lemmas *)

Lemma le_combine_app l k : le_combine (l ++ k) = le_combine l + 256 ^ Z.of_nat (length l) * le_combine k.
Proof.
  induction l as [|b l IH]; cbn [app le_combine length]; [lia|]. rewrite IH, Nat2Z.inj_succ, Z.pow_succ_r by lia. lia.
Qed.

Lemma le_combine_range l : Forall byte l → 0 <= le_combine l < 256 ^ Z.of_nat (length l).
Proof.
  induction 1 as [|b l Hb Hl IH]; [done|].
  cbn [le_combine length]. rewrite Nat2Z.inj_succ, Z.pow_succ_r by lia.
  unfold byte in Hb. lia.
Qed.

Lemma length_le_split n x : length (le_split n x) = n.
Proof. revert x. induction n; intros; simpl; auto. Qed.

Lemma le_split_byte n x : Forall byte (le_split n x).
Proof. revert x. induction n; intros; simpl; constructor; auto using u8_byte. Qed.

Lemma le_split_combine l : Forall byte l → le_split (length l) (le_combine l) = l.
Proof.
  induction 1 as [|b l Hb Hl IH]; [done|]. cbn [length le_split le_combine].
  unfold byte in Hb.
  rewrite Z.shiftr_div_pow2 by lia. change (2 ^ 8) with 256.
  replace ((b + 256 * le_combine l) / 256) with (le_combine l) by (Z.div_mod_to_equations; lia).
  rewrite IH. f_equal. int_lia.
Qed.

Lemma le_combine_split n x : le_combine (le_split n x) = x mod 256 ^ Z.of_nat n.
Proof.
  revert x. induction n as [|n IH]; intros x; [by rewrite Z.mod_1_r|].
  cbn [le_split le_combine]. rewrite IH, Nat2Z.inj_succ, Z.pow_succ_r by lia.
  rewrite Z.shiftr_div_pow2, u8_mod by lia. change (2 ^ 8) with 256.
  rewrite Z.rem_mul_r by lia. lia.
Qed.

(** ** Region lemmas *)

Lemma bytes_at_nil w p : bytes_at w p [].
Proof. intros i b H. done. Qed.

Lemma bytes_at_cons w p b l :
  bytes_at w p (b :: l) ↔ mem w !! p = Some b ∧ bytes_at w (p + 1) l.
Proof.
  split.
  - intros H. split.
    + specialize (H 0%nat b eq_refl). by rewrite Z.add_0_r in H.
    + intros i c Hi. specialize (H (S i) c Hi). rewrite <- H. f_equal. lia.
  - intros [H0 H] [|i] c Hi; simpl in Hi.
    + simplify_eq. by rewrite Z.add_0_r.
    + rewrite <- (H i c Hi). f_equal. lia.
Qed.

Lemma bytes_at_app w p l1 l2 :
  bytes_at w p (l1 ++ l2) ↔ bytes_at w p l1 ∧ bytes_at w (p + Z.of_nat (length l1)) l2.
Proof.
  revert p. induction l1 as [|b l1 IH]; intros p; simpl.
  - rewrite Z.add_0_r. split; [intros H; split; [apply bytes_at_nil|done]|by intros [_ ?]].
  - rewrite !bytes_at_cons, IH. rewrite Nat2Z.inj_succ.
    replace (p + 1 + Z.of_nat (length l1)) with (p + Z.succ (Z.of_nat (length l1))) by lia.
    naive_solver.
Qed.

Lemma bytes_at_lookup w p l i b :
  bytes_at w p l → l !! Z.to_nat i = Some b → 0 <= i → mem w !! (p + i) = Some b.
Proof. intros H Hl Hi. specialize (H _ _ Hl). by rewrite Z2Nat.id in H by lia. Qed.

Lemma bytes_at_mapped w p l : bytes_at w p l → mapped w p (Z.of_nat (length l)).
Proof.
  intros H a Ha. destruct (lookup_lt_is_Some_2 l (Z.to_nat (a - p))) as [b Hb]; [lia|].
  exists b. replace a with (p + (a - p)) by lia. eapply bytes_at_lookup; [done|done|lia].
Qed.

Lemma mapped_sub w p n q m : mapped w p n → p <= q → q + m <= p + n → mapped w q m.
Proof. intros H Hq Hm a Ha. apply H. lia. Qed.

Lemma bytes_at_length w p l : bytes_at w p l → (length l <= size (mem w))%nat.
Proof.
  intros H.
  assert (list_to_set (C := gset Z) ((λ i, p + Z.of_nat i) <$> seq 0 (length l)) ⊆ dom (mem w)) as Hs.
  { intros a. rewrite elem_of_list_to_set, list_elem_of_fmap.
    intros (i & -> & Hi). apply elem_of_seq in Hi.
    destruct (lookup_lt_is_Some_2 l i) as [b Hb]; [lia|].
    apply elem_of_dom. exists b. by apply H. }
  apply subseteq_size in Hs. rewrite size_list_to_set in Hs.
  - by rewrite length_fmap, length_seq, size_dom in Hs.
  - apply NoDup_fmap_2; [intros ???; lia|]. apply NoDup_seq.
Qed.

(** *** Writing *)

Lemma mem_set_mem f w : mem (set_mem f w) = f (mem w).
Proof. done. Qed.
Lemma errno_write_bytes p l w : errno (write_bytes p l w) = errno w.
Proof. revert p w. induction l as [|b l IH]; intros; simpl; [done|]. by rewrite IH. Qed.

Lemma write_bytes_lookup_ne p l w a :
  a < p ∨ p + Z.of_nat (length l) <= a → mem (write_bytes p l w) !! a = mem w !! a.
Proof.
  revert p w. induction l as [|b l IH]; intros p w Ha; [done|].
  cbn [write_bytes length] in *. rewrite IH by lia. simpl.
  apply lookup_insert_ne. lia.
Qed.

Lemma write_bytes_at p l w : bytes_at (write_bytes p l w) p l.
Proof.
  revert p w. induction l as [|b l IH]; intros p w; [apply bytes_at_nil|].
  apply bytes_at_cons. split; [|apply IH].
  cbn [write_bytes]. rewrite write_bytes_lookup_ne by lia. apply lookup_insert_eq.
Qed.

Lemma write_bytes_app p l1 l2 w :
  write_bytes p (l1 ++ l2) w =
  write_bytes (p + Z.of_nat (length l1)) l2 (write_bytes p l1 w).
Proof.
  revert p w. induction l1 as [|b l1 IH]; intros p w; simpl.
  - by rewrite Z.add_0_r.
  - rewrite IH. f_equal. lia.
Qed.

Lemma write_bytes_bytes_at_ne w p l q k :
  bytes_at w q k → disjoint p (Z.of_nat (length l)) q (Z.of_nat (length k)) →
  bytes_at (write_bytes p l w) q k.
Proof.
  intros H D i b Hi. pose proof (lookup_lt_Some _ _ _ Hi).
  rewrite write_bytes_lookup_ne; [by apply H|]. unfold disjoint in D. lia.
Qed.

Lemma write_bytes_mapped w p l q n : mapped w q n → mapped (write_bytes p l w) q n.
Proof.
  revert p w. induction l as [|b l IH]; intros p w H; [done|].
  apply IH. intros a Ha. simpl. destruct (decide (p = a)) as [->|].
  - rewrite lookup_insert_eq. eauto.
  - rewrite lookup_insert_ne by done. by apply H.
Qed.

Lemma write_bytes_size w p l :
  mapped w p (Z.of_nat (length l)) → size (mem (write_bytes p l w)) = size (mem w).
Proof.
  revert p w. induction l as [|b l IH]; intros p w H; [done|].
  cbn [write_bytes length] in *. destruct (H p) as [x Hx]; [lia|].
  rewrite IH.
  - simpl. apply map_size_insert_Some. eauto.
  - apply (write_bytes_mapped _ p [b]). eapply mapped_sub; [done|lia|lia].
Qed.

(** Writing what is already there changes nothing. *)
Lemma write_bytes_id w p l : bytes_at w p l → write_bytes p l w = w.
Proof.
  revert p. induction l as [|b l IH]; intros p H; [done|].
  apply bytes_at_cons in H as [H0 H]. cbn [write_bytes].
  assert (set_mem <[p:=b]> w = w) as ->.
  { unfold set_mem. rewrite insert_id by done. by destruct w. }
  by apply IH.
Qed.

(** ** Loads and stores *)

Lemma load_ok w p b : mem w !! p = Some b → load p w = Ok (b, w).
Proof. intros H. unfold load. by rewrite H. Qed.

Lemma load_fault w p : mem w !! p = None → load p w = Fault.
Proof. intros H. unfold load. by rewrite H. Qed.

Lemma load_char_ok w p b : mem w !! p = Some b → load_char p w = Ok (s8 b, w).
Proof. intros H. unfold load_char. by rewrite (bind_Ok _ _ _ _ _ (load_ok _ _ _ H)). Qed.

Lemma store_ok w p v :
  is_Some (mem w !! p) → store p v w = Ok (tt, write_bytes p [u8 v] w).
Proof. intros [b H]. unfold store. by rewrite H. Qed.

Lemma store_mapped w p v n :
  mapped w p n → 0 < n → store p v w = Ok (tt, write_bytes p [u8 v] w).
Proof. intros H Hn. apply store_ok, H. lia. Qed.

Lemma store_zero w p n : mapped w p n → 0 < n → store p 0 w = Ok (tt, write_bytes p [0] w).
Proof. intros Hm Hn. by rewrite (store_mapped _ _ _ _ Hm Hn). Qed.

#[export] Hint Resolve load_ok load_char_ok store_ok : cspec.

Lemma load_bytes_ok w p l : bytes_at w p l → load_bytes (length l) p w = Ok (l, w).
Proof.
  revert p. induction l as [|b l IH]; intros p H; [done|].
  apply bytes_at_cons in H as [H0 H]. cbn [load_bytes length].
  cstep. rewrite (bind_Ok _ _ _ _ _ (IH _ H)). done.
Qed.

Lemma load_le_ok w p l : bytes_at w p l → load_le (length l) p w = Ok (le_combine l, w).
Proof. intros H. unfold load_le. by rewrite (bind_Ok _ _ _ _ _ (load_bytes_ok _ _ _ H)). Qed.

Lemma store_bytes_ok w p l :
  mapped w p (Z.of_nat (length l)) → Forall byte l →
  store_bytes p l w = Ok (tt, write_bytes p l w).
Proof.
  intros H Hl. revert p w H. induction Hl as [|b l Hb Hl IH]; intros p w H; [done|].
  cbn [store_bytes write_bytes length] in *.
  rewrite (bind_Ok _ _ _ _ _ (store_mapped _ _ _ _ H ltac:(lia))).
  rewrite u8_id by done. cbn [write_bytes].
  apply IH. apply (write_bytes_mapped _ p [b]). eapply mapped_sub; [done|lia|lia].
Qed.

(** Storing the word that was loaded from [l] writes the bytes [l]. *)
Lemma store_le_combine w p l n :
  length l = n → mapped w p (Z.of_nat n) → Forall byte l →
  store_le n p (le_combine l) w = Ok (tt, write_bytes p l w).
Proof.
  intros <- H Hl. unfold store_le. rewrite le_split_combine by done.
  by apply store_bytes_ok.
Qed.

(** ** Strings *)

Lemma cstr_nil w p : cstr w p [] ↔ mem w !! p = Some 0.
Proof.
  unfold cstr. simpl. rewrite bytes_at_cons. split; [by intros [[? _] _]|].
  intros H. split; [split; [done|apply bytes_at_nil]|constructor].
Qed.

Lemma cstr_cons w p c s :
  cstr w p (c :: s) ↔ mem w !! p = Some c ∧ nzbyte c ∧ cstr w (p + 1) s.
Proof.
  unfold cstr. simpl. rewrite bytes_at_cons, Forall_cons. naive_solver.
Qed.

Lemma cstr_app w p s t :
  cstr w p (s ++ t) ↔ bytes_at w p s ∧ Forall nzbyte s ∧ cstr w (p + Z.of_nat (length s)) t.
Proof.
  unfold cstr. rewrite <- (assoc_L app), bytes_at_app, Forall_app. naive_solver.
Qed.

Lemma cstr_length w p s : cstr w p s → (length s < size (mem w))%nat.
Proof.
  intros [H _]. apply bytes_at_length in H. rewrite length_app in H. simpl in H. lia.
Qed.

(** The string at an address is unique. *)
Lemma cstr_inj w p s t : cstr w p s → cstr w p t → s = t.
Proof.
  revert p t. induction s as [|c s IH]; intros p [|d t].
  - done.
  - rewrite cstr_nil, cstr_cons. unfold nzbyte. intros H (H1 & H2 & _). simplify_eq. lia.
  - rewrite cstr_nil, cstr_cons. unfold nzbyte. intros (H1 & H2 & _) H. simplify_eq. lia.
  - rewrite !cstr_cons. intros (H1 & _ & Hs) (H2 & _ & Ht). simplify_eq. f_equal. eauto.
Qed.

Lemma write_bytes_cstr_ne w p l q s :
  cstr w q s → disjoint p (Z.of_nat (length l)) q (Z.of_nat (length s) + 1) →
  cstr (write_bytes p l w) q s.
Proof.
  intros [H Hs] D. split; [|done]. apply write_bytes_bytes_at_ne; [done|].
  rewrite length_app. simpl. unfold disjoint in *. lia.
Qed.

Lemma cstr_write w p s : Forall nzbyte s → cstr (write_bytes p (s ++ [0]) w) p s.
Proof. intros Hs. split; [apply write_bytes_at|done]. Qed.

(** A scanning loop that is left after at most [n] rounds is left by [scan]. *)
Lemma scan_loop {S A} (body : S → M (step S A)) s w n r :
  (∀ fuel, (n < fuel)%nat → loop fuel body s w = r) → (n <= size (mem w))%nat →
  scan body s w = r.
Proof. intros H Hn. unfold scan. apply H. lia. Qed.

(** [solve_mapped] proves that a part of a mapped region is still mapped. *)
Ltac solve_mapped :=
  repeat apply write_bytes_mapped;
  first [ assumption
        | eapply mapped_sub; [eassumption | cbn [length] in *; lia | cbn [length] in *; lia]
        | match goal with
          | H : mapped ?w _ _ |- is_Some (mem ?w !! _) => apply H; cbn [length] in *; lia
          end ].
#[export] Hint Extern 2 (is_Some (mem _ !! _)) => solve_mapped : cspec.

(** The first byte of a region, written on its own. *)
Lemma write_bytes_cons p b l w :
  write_bytes p (b :: l) w = write_bytes (p + 1) l (write_bytes p [b] w).
Proof. done. Qed.

(** Two worlds with the same memory and the same [errno]. *)
Lemma world_eq w w' : (∀ a, mem w !! a = mem w' !! a) → errno w = errno w' → w = w'.
Proof.
  destruct w as [m e], w' as [m' e']; simpl. intros H ->. f_equal. by apply map_eq.
Qed.

Lemma write_bytes_comm p l q k w :
  disjoint p (Z.of_nat (length l)) q (Z.of_nat (length k)) →
  write_bytes p l (write_bytes q k w) = write_bytes q k (write_bytes p l w).
Proof.
  intros D. apply world_eq; [|by rewrite !errno_write_bytes]. intros a.
  destruct (decide (p <= a < p + Z.of_nat (length l))) as [Ha|Ha].
  - rewrite (write_bytes_lookup_ne q) by (unfold disjoint in D; lia).
    destruct (lookup_lt_is_Some_2 l (Z.to_nat (a - p))) as [b Hb]; [lia|].
    replace a with (p + (a - p)) by lia.
    by rewrite !(bytes_at_lookup _ p l (a - p) b (write_bytes_at _ _ _)) by (done || lia).
  - rewrite (write_bytes_lookup_ne p) by lia.
    destruct (decide (q <= a < q + Z.of_nat (length k))) as [Hq|Hq].
    + destruct (lookup_lt_is_Some_2 k (Z.to_nat (a - q))) as [b Hb]; [lia|].
      replace a with (q + (a - q)) by lia.
      by rewrite !(bytes_at_lookup _ q k (a - q) b (write_bytes_at _ _ _)) by (done || lia).
    + by rewrite !write_bytes_lookup_ne by lia.
Qed.

(** ** Well-formed memory *)

(** Every cell of the memory holds a byte: the invariant of every operation. *)
Definition mem_ok (w : world) : Prop := ∀ a b, mem w !! a = Some b → byte b.

(** Every 8-byte word that touches the region is mapped as a whole (memory is
    mapped in pages, never in parts of a word). *)
Definition words_mapped (w : world) (p n : Z) : Prop :=
  ∀ a b, p <= a < p + n → b / 8 = a / 8 → is_Some (mem w !! b).

Lemma mem_ok_bytes w p l : mem_ok w → bytes_at w p l → Forall byte l.
Proof.
  intros Hw Hl. apply Forall_lookup. intros i b Hi. eapply Hw, Hl, Hi.
Qed.

Lemma write_bytes_mem_ok w p l : mem_ok w → Forall byte l → mem_ok (write_bytes p l w).
Proof.
  intros Hw Hl. revert p w Hw. induction Hl as [|b l Hb Hl IH]; intros p w Hw; [done|].
  apply IH. intros a c. simpl. rewrite lookup_insert_Some. intros [[_ <-]|[_ H]]; [done|].
  by eapply Hw.
Qed.

Lemma mapped_bytes w p n : mapped w p (Z.of_nat n) → ∃ l, length l = n ∧ bytes_at w p l.
Proof.
  revert p. induction n as [|n IH]; intros p H; [exists []; by split; [|apply bytes_at_nil]|].
  destruct (H p) as [b Hb]; [lia|].
  destruct (IH (p + 1)) as (l & Hl & Hbl); [eapply mapped_sub; [done|lia|lia]|].
  exists (b :: l). split; [simpl; lia|]. by apply bytes_at_cons.
Qed.

Lemma words_mapped_word w p n t :
  words_mapped w p n → t mod 8 = 0 → p <= t < p + n → mapped w t 8.
Proof.
  intros H Ht Hr a Ha. apply (H t); [done|]. Z.div_mod_to_equations. lia.
Qed.

Lemma words_mapped_sub w p n q m :
  words_mapped w p n → p <= q → q + m <= p + n → words_mapped w q m.
Proof. intros H ?? a b Ha Hb. apply (H a); [lia|done]. Qed.

(** ** Concrete worlds

    Worlds made of a list of regions, and checkers that decide the region
    predicates by evaluation. *)

Definition world_of (rs : list (Z * list Z)) : world :=
  foldr (λ r w, write_bytes r.1 r.2 w) (World ∅ 0) rs.

Fixpoint bytes_atb (w : world) (p : Z) (l : list Z) : bool :=
  match l with
  | [] => true
  | b :: l => match mem w !! p with Some c => c =? b | None => false end && bytes_atb w (p + 1) l
  end.
Definition mappedb (w : world) (p n : Z) : bool :=
  forallb (λ a, match mem w !! a with Some _ => true | None => false end) (seqZ p n).
Definition mem_okb (w : world) : bool :=
  forallb (λ ab, (0 <=? ab.2) && (ab.2 <? 256)) (map_to_list (mem w)).
Definition nzbytesb (l : list Z) : bool := forallb (λ b, (0 <? b) && (b <? 256)) l.
Definition bytesb (l : list Z) : bool := forallb (λ b, (0 <=? b) && (b <? 256)) l.

Lemma bytes_atb_true w p l : bytes_atb w p l = true → bytes_at w p l.
Proof.
  revert p. induction l as [|b l IH]; intros p H; [apply bytes_at_nil|].
  simpl in H. apply andb_prop in H as [H1 H2]. apply bytes_at_cons. split; [|by apply IH].
  destruct (mem w !! p); [|done]. f_equal. lia.
Qed.

Lemma mappedb_true w p n : mappedb w p n = true → mapped w p n.
Proof.
  unfold mappedb. rewrite forallb_forall. intros H a Ha.
  specialize (H a). rewrite <- list_elem_of_In, elem_of_seqZ in H. specialize (H Ha).
  destruct (mem w !! a); [eauto|done].
Qed.

Lemma mem_okb_true w : mem_okb w = true → mem_ok w.
Proof.
  unfold mem_okb. rewrite forallb_forall. intros H a b Hab.
  specialize (H (a, b)). rewrite <- list_elem_of_In, elem_of_map_to_list in H.
  specialize (H Hab). simpl in H. unfold byte. lia.
Qed.

Lemma nzbytesb_true l : nzbytesb l = true → Forall nzbyte l.
Proof.
  unfold nzbytesb. rewrite forallb_forall. intros H. apply Forall_forall. intros b Hb.
  specialize (H b). rewrite <- list_elem_of_In in H. specialize (H Hb). unfold nzbyte. lia.
Qed.

Lemma bytesb_true l : bytesb l = true → Forall byte l.
Proof.
  unfold bytesb. rewrite forallb_forall. intros H. apply Forall_forall. intros b Hb.
  specialize (H b). rewrite <- list_elem_of_In in H. specialize (H Hb). unfold byte. lia.
Qed.

Lemma cstr_check w p s : bytes_atb w p (s ++ [0]) = true → nzbytesb s = true → cstr w p s.
Proof. intros H1 H2. split; [by apply bytes_atb_true|by apply nzbytesb_true]. Qed.

Lemma words_mapped_check w p n :
  mappedb w (p / 8 * 8) ((p + n + 7) / 8 * 8 - p / 8 * 8) = true → words_mapped w p n.
Proof.
  intros H%mappedb_true a b Ha Hb. apply H. revert Ha Hb. Z.div_mod_to_equations. lia.
Qed.

(** [world_check] proves a region predicate of a concrete world by evaluation. *)
Ltac world_check :=
  first [ apply mem_okb_true | apply cstr_check | apply words_mapped_check
        | apply mappedb_true | apply bytes_atb_true | apply nzbytesb_true | apply bytesb_true ];
  vm_compute; reflexivity.

Lemma write_bytes_words_mapped w p l q n :
  words_mapped w q n → words_mapped (write_bytes p l w) q n.
Proof.
  intros H a b Ha Hb. eapply (write_bytes_mapped _ p l b 1); [|lia].
  intros c Hc. replace c with b by lia. by apply (H a b).
Qed.
