(* ===== verification/Words.v ===== *)
(** * Finding a zero byte in a word

    The word tricks of [lib/strlen.c], [lib/strcpy.c] and [lib/strcmp.c]:
    [(w - 0x01..01) & ~w & 0x80..80] is not 0 exactly when the word [w] has a
    zero byte, and its lowest set bit is in the first (lowest-addressed) one. *)

From S2P Require Import Prelude Mem.

Lemma byte_testbit_high b i : byte b → 8 <= i → Z.testbit b i = false.
Proof. intros Hb Hi. rewrite <- (u8_id b Hb), u8_mod. apply Z.mod_pow2_bits_high. lia. Qed.

Lemma byte_cons_testbit b x i :
  byte b → 0 <= i → Z.testbit (b + 256 * x) i = if i <? 8 then Z.testbit b i else Z.testbit x (i - 8).
Proof.
  intros Hb Hi. unfold byte in Hb. destruct (Z.ltb_spec i 8).
  - rewrite <- (Z.mod_pow2_bits_low _ 8) by lia. f_equal. change (2 ^ 8) with 256.
    Z.div_mod_to_equations. lia.
  - replace x with ((b + 256 * x) / 2 ^ 8) at 2
      by (change (2 ^ 8) with 256; Z.div_mod_to_equations; lia).
    rewrite <- Z.shiftr_div_pow2, Z.shiftr_spec by lia. f_equal. lia.
Qed.

Lemma byte_land a b : byte a → byte (Z.land a b).
Proof.
  intros Ha. rewrite <- (u8_id a Ha). unfold u8. rewrite <- Z.land_assoc, (Z.land_comm 0xff), Z.land_assoc.
  apply u8_byte.
Qed.

(** The operations of words, byte by byte. *)
Lemma land_bytes a x b y :
  byte a → byte b → Z.land (a + 256 * x) (b + 256 * y) = Z.land a b + 256 * Z.land x y.
Proof.
  intros Ha Hb. apply Z.bits_inj'. intros i Hi.
  rewrite Z.land_spec, !byte_cons_testbit by auto using byte_land.
  destruct (i <? 8); by rewrite Z.land_spec.
Qed.

Lemma lxor_ones n x : 0 <= n → 0 <= x < 2 ^ n → Z.lxor x (Z.ones n) = 2 ^ n - 1 - x.
Proof.
  intros Hn Hx. replace (2 ^ n - 1) with (Z.ones n) by (rewrite Z.ones_equiv; lia).
  rewrite Z.sub_nocarry_ldiff.
  - apply Z.bits_inj'. intros i Hi. rewrite Z.lxor_spec, Z.ldiff_spec.
    destruct (decide (i < n)).
    + rewrite Z.ones_spec_low by lia. by destruct (Z.testbit x i).
    + rewrite Z.ones_spec_high by lia.
      rewrite <- (Z.mod_small x (2 ^ n)), Z.mod_pow2_bits_high by lia. done.
  - apply Z.bits_inj'. intros i Hi. rewrite Z.ldiff_spec, Z.bits_0.
    destruct (decide (i < n)).
    + rewrite Z.ones_spec_low by lia. by rewrite andb_false_r.
    + rewrite <- (Z.mod_small x (2 ^ n)), Z.mod_pow2_bits_high by lia. done.
Qed.

Ltac solve_byte := solve [unfold byte in *; lia | apply byte_land; unfold byte in *; lia].

(** [n]-byte versions of [0x01..01], [0x80..80] and of the test. *)
Definition ones (n : nat) : Z := le_combine (replicate n 1).
Definition highs (n : nat) : Z := le_combine (replicate n 128).
Definition zero_test (n : nat) (x : Z) : Z :=
  Z.land (Z.land ((x - ones n) mod 256 ^ Z.of_nat n) (256 ^ Z.of_nat n - 1 - x)) (highs n).

Definition flag (b : bool) : Z := if b then 128 else 0.
Definition flags (p : list bool) : Z := le_combine (flag <$> p).

(** The position of the first element that satisfies [P]. *)
Fixpoint first_idx {A} (P : A → bool) (l : list A) : option nat :=
  match l with
  | [] => None
  | x :: l => if P x then Some 0%nat else S <$> first_idx P l
  end.

Lemma land_128 b : byte b → Z.land b 128 = flag (Z.testbit b 7).
Proof.
  intros Hb. apply Z.bits_inj'. intros i Hi. rewrite Z.land_spec.
  change 128 with (2 ^ 7). rewrite Z.pow2_bits_eqb by lia. unfold flag.
  destruct (Z.eqb_spec 7 i) as [<-|Hne].
  - destruct (Z.testbit b 7); by rewrite ?Z.pow2_bits_true by lia.
  - rewrite andb_false_r. destruct (Z.testbit b 7); [|by rewrite Z.bits_0].
    change 128 with (2 ^ 7). by rewrite Z.pow2_bits_false by lia.
Qed.

(** Whatever is masked with [0x80..80] is a pattern of flags. *)
Lemma highs_flags l :
  Forall byte l → ∃ p, length p = length l ∧ Z.land (le_combine l) (highs (length l)) = flags p.
Proof.
  induction 1 as [|b l Hb Hl (p & Hp & E)]; [by exists []|].
  exists (Z.testbit b 7 :: p). split; [simpl; lia|].
  change (highs (length (b :: l))) with (128 + 256 * highs (length l)).
  cbn [le_combine]. rewrite land_bytes, E, land_128 by (done || unfold byte; lia). done.
Qed.

Lemma byte_complement_range l :
  Forall byte l → 0 <= 256 ^ Z.of_nat (length l) - 1 - le_combine l < 256 ^ Z.of_nat (length l).
Proof. intros H%le_combine_range. lia. Qed.

(** The test flags the first zero byte exactly; behind it the flags are arbitrary. *)
Lemma zero_test_flags l :
  Forall byte l →
  ∃ p, length p = length l ∧ zero_test (length l) (le_combine l) = flags p ∧
       first_idx (λ b, b) p = first_idx (λ b, b =? 0) l.
Proof.
  induction 1 as [|b l Hb Hl (p & Hp & E & Hi)]; [by exists []|].
  unfold zero_test. set (n := length l) in *.
  change (length (b :: l)) with (S n). change (ones (S n)) with (1 + 256 * ones n).
  change (highs (S n)) with (128 + 256 * highs n). cbn [le_combine].
  set (X := le_combine l) in *. set (B := 256 ^ Z.of_nat n) in *.
  replace (256 ^ Z.of_nat (S n)) with (256 * B) by (unfold B; rewrite Nat2Z.inj_succ, Z.pow_succ_r; lia).
  assert (0 < B) by (apply Z.pow_pos_nonneg; lia). unfold byte in Hb.
  pose proof (le_combine_range l Hl) as HX. fold X n B in HX.
  replace (256 * B - 1 - (b + 256 * X)) with (255 - b + 256 * (B - 1 - X)) by lia.
  destruct (Z.eqb_spec b 0) as [->|Hne].
  - (* the zero byte: a flag, then anything *)
    set (q := (X - ones n - 1) mod B).
    assert ((0 + 256 * X - (1 + 256 * ones n)) mod (256 * B) = 255 + 256 * q) as ->.
    { replace (0 + 256 * X - (1 + 256 * ones n)) with (255 + 256 * (X - ones n - 1)) by lia.
      unfold q. rewrite Z.add_comm, Z.add_mod, Z.mul_mod_distr_l by lia.
      pose proof (Z.mod_pos_bound (X - ones n - 1) B ltac:(lia)).
      rewrite (Z.mod_small 255), Z.mod_small by lia. lia. }
    rewrite !land_bytes by solve_byte.
    destruct (highs_flags (le_split n (Z.land q (B - 1 - X)))) as (p' & Hp' & E');
      [apply le_split_byte|]. rewrite length_le_split in *.
    exists (true :: p'). split; [simpl; lia|]. split; [|done].
    rewrite le_combine_split in E'. fold B in E'. unfold flags in *. cbn [fmap list_fmap le_combine].
    rewrite <- E'. change (Z.land (Z.land 255 (255 - 0)) 128) with (flag true).
    do 3 f_equal. symmetry. apply Z.mod_small.
    assert (0 <= q < B) by (apply Z.mod_pos_bound; lia).
    revert H0. unfold B. rewrite pow_256. apply land_lt_pow2. lia.
  - exists (false :: p). split; [simpl; lia|]. split.
    + assert ((b + 256 * X - (1 + 256 * ones n)) mod (256 * B) =
              (b - 1) + 256 * ((X - ones n) mod B)) as ->.
      { replace (b + 256 * X - (1 + 256 * ones n)) with (b - 1 + 256 * (X - ones n)) by lia.
        rewrite Z.add_comm, Z.add_mod, Z.mul_mod_distr_l by lia.
        pose proof (Z.mod_pos_bound (X - ones n) B ltac:(lia)).
        rewrite (Z.mod_small (b - 1)), Z.mod_small by lia. lia. }
      rewrite !land_bytes by solve_byte.
      unfold flags in *. cbn [fmap list_fmap le_combine]. unfold zero_test in E. fold B in E.
      rewrite <- E. f_equal. assert (∀ c, 0 < c < 256 → Z.land (Z.land (c - 1) (255 - c)) 128 = 0) as Hc.
      { intros c Hc. enough (forallb (λ c, Z.land (Z.land (c - 1) (255 - c)) 128 =? 0) (seqZ 1 255) = true) as F.
        - rewrite forallb_forall in F. apply Z.eqb_eq, F, list_elem_of_In, elem_of_seqZ. lia.
        - vm_compute. reflexivity. }
      apply Hc. lia.
    + cbn [first_idx]. replace (b =? 0) with false by lia. by rewrite Hi.
Qed.
