(* ===== verification/Ctype.v ===== *)
(** * Character classification and small integer functions

    [lib/is*.c], [lib/to*.c], [libcompat/toascii.c], the Latin-1 overrides of
    [liblatin1/], and the integer functions of [lib/]: [ffs*], [*div], [*abs],
    [htonl], [htons].  An [int] argument is a [Z] in the range of a 32-bit int;
    a truth value returned as [int] is a [bool]. *)

From S2P Require Import Prelude.

(** ** [lib/is*.c] *)

Definition isalnum (ch : Z) : bool :=
  (u32 (Z.lor ch 0x20 - CH "a") <? 26) || (u32 (ch - CH "0") <? 10).
Definition isalpha (ch : Z) : bool := u32 (Z.lor ch 0x20 - CH "a") <? 26.
Definition isascii (ch : Z) : bool := u32 ch <? 128.
Definition isblank (ch : Z) : bool := (ch =? CH " ") || (ch =? 9).
Definition iscntrl_ascii (ch : Z) : bool := (u32 ch <? 32) || (ch =? 127).
Definition isdigit (ch : Z) : bool := u32 (ch - CH "0") <? 10.
Definition isgraph_ascii (ch : Z) : bool := u32 (ch - CH "!") <? 127 - CH "!".
Definition islower_ascii (ch : Z) : bool := u32 (ch - CH "a") <? 26.
Definition isprint (ch : Z) : bool :=
  let ch := Z.land ch 0x7f in (32 <=? ch) && (ch <? 127).
Definition isspace (ch : Z) : bool := (u32 (ch - 9) <? 5) || (ch =? CH " ").
Definition ispunct (ch : Z) : bool :=
  isprint ch && negb (isalnum ch) && negb (isspace ch).
Definition isupper_ascii (ch : Z) : bool := u32 (ch - CH "A") <? 26.
Definition isxdigit (ch : Z) : bool :=
  (u32 (ch - CH "0") <? 10) || (u32 (Z.lor ch 0x20 - CH "a") <? 6).
Definition tolower (ch : Z) : Z :=
  if u32 (ch - CH "A") <? 26 then ch + (CH "a" - CH "A") else ch.
Definition toupper (ch : Z) : Z :=
  if u32 (ch - CH "a") <? 26 then ch + (CH "A" - CH "a") else ch.
Definition toascii (c : Z) : Z := Z.land c 0x7f.

(** ** [liblatin1/]: the classes an application linked with it gets instead *)
Module Latin1.

Definition iscntrl (x : Z) : bool :=
let c := Z.land x 0xff in (c <? 32) || ((127 <=? c) && (c <=? 160)).
Definition isgraph (x : Z) : bool :=
let c := Z.land x 0xff in ((33 <=? c) && (c <=? 126)) || (161 <=? c).
Definition islower (c : Z) : bool :=
let x := Z.land c 0xff in
((CH "a" <=? x) && (x <=? CH "z")) || ((223 <=? x) && negb (x =? 247)).
Definition isprint (x : Z) : bool :=
let c := Z.land x 0xff in ((32 <=? c) && (c <=? 126)) || (160 <=? c).
Definition isupper (c : Z) : bool :=
let x := Z.land c 0xff in
((CH "A" <=? x) && (x <=? CH "Z")) ||
((192 <=? x) && (x <=? 222) && negb (x =? 215)).

End Latin1.

(** ** Integer functions *)

Definition ffs (i : Z) : Z :=
  let '(plus, i) := (0, i) in
  let '(plus, i) := if Z.land i 0xffff =? 0 then (plus + 16, Z.shiftr i 16) else (plus, i) in
  let '(plus, i) := if Z.land i 0xff =? 0 then (plus + 8, Z.shiftr i 8) else (plus, i) in
  let '(plus, i) := if Z.land i 0xf =? 0 then (plus + 4, Z.shiftr i 4) else (plus, i) in
  if negb (Z.land i 1 =? 0) then plus + 1 else
  if negb (Z.land i 2 =? 0) then plus + 2 else
  if negb (Z.land i 4 =? 0) then plus + 3 else
  if negb (Z.land i 8 =? 0) then plus + 4 else 0.

Definition ffsl (i : Z) : Z :=
  let '(plus, i) := if Z.land i 0xffffffff =? 0 then (32, Z.shiftr i 32) else (0, i) in
  let '(plus, i) := if Z.land i 0xffff =? 0 then (plus + 16, Z.shiftr i 16) else (plus, i) in
  let '(plus, i) := if Z.land i 0xff =? 0 then (plus + 8, Z.shiftr i 8) else (plus, i) in
  let '(plus, i) := if Z.land i 0xf =? 0 then (plus + 4, Z.shiftr i 4) else (plus, i) in
  if negb (Z.land i 1 =? 0) then plus + 1 else
  if negb (Z.land i 2 =? 0) then plus + 2 else
  if negb (Z.land i 4 =? 0) then plus + 3 else
  if negb (Z.land i 8 =? 0) then plus + 4 else 0.

Definition ffsll (i : Z) : Z :=
  let '(plus, i) := if Z.land i 0xffffffff =? 0 then (32, Z.shiftr i 32) else (0, i) in
  let '(plus, i) := if Z.land i 0xffff =? 0 then (plus + 16, Z.shiftr i 16) else (plus, i) in
  let '(plus, i) := if Z.land i 0xff =? 0 then (plus + 8, Z.shiftr i 8) else (plus, i) in
  let '(plus, i) := if Z.land i 0xf =? 0 then (plus + 4, Z.shiftr i 4) else (plus, i) in
  if negb (Z.land i 1 =? 0) then plus + 1 else
  if negb (Z.land i 2 =? 0) then plus + 2 else
  if negb (Z.land i 4 =? 0) then plus + 3 else
  if negb (Z.land i 8 =? 0) then plus + 4 else 0.

(** C division truncates ([Z.quot]); the C code may not divide by zero, and
    [INT_MIN / -1] traps: both are [None]. *)
Definition div_gen (min numerator denominator : Z) : option (Z * Z) :=
  if denominator =? 0 then None else
  if (numerator =? min) && (denominator =? -1) then None else
  let quot := Z.quot numerator denominator in
  Some (quot, numerator - quot * denominator).
Definition div : Z → Z → option (Z * Z) := div_gen (- 2 ^ 31).
Definition ldiv : Z → Z → option (Z * Z) := div_gen (- 2 ^ 63).
Definition lldiv : Z → Z → option (Z * Z) := div_gen (- 2 ^ 63).

Definition abs (i : Z) : Z := if 0 <=? i then i else s32 (- i).
Definition labs (i : Z) : Z := if 0 <=? i then i else s64 (- i).

Definition htonl (hostlong : Z) : Z :=
  Z.lor (Z.lor (Z.lor (Z.shiftr hostlong 24) (Z.shiftr (Z.land hostlong 0xff0000) 8))
               (u32 (Z.shiftl (Z.land hostlong 0xff00) 8)))
        (u32 (Z.shiftl hostlong 24)).
Definition htons (hostshort : Z) : Z :=
  u16 (Z.lor (Z.land (Z.shiftr hostshort 8) 0xff) (Z.shiftl hostshort 8)).

(** ** Lemmas *)

Definition in_range (lo hi c : Z) : bool := (lo <=? c) && (c <=? hi).

(** The C-locale sets, by code ranges. *)
Definition ctype_row_ok (c : Z) : bool :=
  let digit := in_range 48 57 c in
  let upper := in_range 65 90 c in
  let lower := in_range 97 122 c in
  Bool.eqb (isdigit c) digit &&
  Bool.eqb (isupper_ascii c) upper &&
  Bool.eqb (islower_ascii c) lower &&
  Bool.eqb (isalpha c) (upper || lower) &&
  Bool.eqb (isalnum c) (digit || upper || lower) &&
  Bool.eqb (isxdigit c) (digit || in_range 65 70 c || in_range 97 102 c) &&
  Bool.eqb (isspace c) ((c =? 32) || in_range 9 13 c) &&
  Bool.eqb (isblank c) ((c =? 32) || (c =? 9)) &&
  Bool.eqb (iscntrl_ascii c) (in_range 0 31 c || (c =? 127)) &&
  Bool.eqb (isgraph_ascii c) (in_range 33 126 c) &&
  Bool.eqb (isascii c) (in_range 0 127 c) &&
  Bool.eqb (isprint c) (in_range 32 126 c || in_range 160 254 c) &&
  (tolower c =? (if upper then c + 32 else c)) &&
  (toupper c =? (if lower then c - 32 else c)).

(** For [EOF] and every byte, the classes of the ASCII variant are the sets of
    the C locale, and the case conversions move exactly the letters; the one
    exception is [isprint], which looks at seven bits and also accepts 160 to 254. *)
Theorem ctype_classes c : -1 <= c < 256 → ctype_row_ok c = true.
Proof. apply (interval_forallb ctype_row_ok (-1) 257). vm_compute. reflexivity. Qed.

Lemma ctype_classes_witness : ctype_row_ok (CH "x") = true.
Proof. apply (ctype_classes 120). lia. Defined.
