(* ===== verification/MemFuncs.v ===== *)
(** * Memory functions

    [lib/mem*.c], [libcompat/mempcpy.c], [lib/swab.c], [lib/explicit_bzero.c]
    and [lib/timingsafe_*.c], over the byte memory of [Mem].  [size_t] arguments
    are in [0, 2^64); the build is the default one ([WANT_FASTER_STRING_ROUTINES],
    64-bit little-endian), so [memcpy] is the word-copying version. *)

From S2P Require Import Prelude Mem.

(** ** Definitions *)

(** [dietstring.h]: bytes up to the next word boundary, and whether two
    pointers sit differently in their words. *)
Definition STRALIGN (x : Z) : Z := u64 (Z.land (u64 (x + 7)) (u64 (-8)) - x).
Definition UNALIGNED (x y : Z) : Z := Z.lxor (Z.land x 7) (Z.land y 7).

(** [while (n--) *c1++ = *c2++;] *)
Definition copy_bytes (c1 c2 n : Z) : M (Z * Z) :=
  loop (S (Z.to_nat n)) (λ '(c1, c2, n),
    if n =? 0 then mret (Done (c1, c2)) else
    b ← load c2; _ ← store c1 b; mret (Next (c1 + 1, c2 + 1, n - 1))) (c1, c2, n).

(** [while (tmp-- && n--) *c1++ = *c2++;], with the final [c1], [c2] and [n] *)
Definition memcpy_head (tmp n c1 c2 : Z) : M (Z * Z * Z) :=
  loop 9 (λ '(tmp, n, c1, c2),
    if tmp =? 0 then mret (Done (c1, c2, n)) else
    if n =? 0 then mret (Done (c1, c2, u64 (n - 1))) else
    b ← load c2; _ ← store c1 b;
    mret (Next (tmp - 1, n - 1, c1 + 1, c2 + 1))) (tmp, n, c1, c2).

(** [for (; n >= sizeof(unsigned long); n -= sizeof(unsigned long)) *lx1++ = *lx2++;] *)
Definition memcpy_words (lx1 lx2 n : Z) : M (Z * Z * Z) :=
  loop (S (Z.to_nat n)) (λ '(lx1, lx2, n),
    if 8 <=? n then
      x ← load64 lx2; _ ← store64 lx1 x;
      mret (Next (lx1 + 8, lx2 + 8, n - 8))
    else mret (Done (lx1, lx2, n))) (lx1, lx2, n).

(** [if (n) { ... while (n--) *c1++ = *c2++; }] *)
Definition memcpy_tail (lx1 lx2 dst src n : Z) : M unit :=
  if negb (n =? 0) then
    let c1 := if negb (lx1 =? 0) then lx1 else dst in
    let c2 := if negb (lx1 =? 0) then lx2 else src in
    _ ← copy_bytes c1 c2 n; mret tt
  else mret tt.

Definition memcpy (dst src n : Z) : M Z :=
  let res := dst in
  if (UNALIGNED dst src =? 0) && (8 <? n) then
    let tmp := STRALIGN dst in
    '(c1, c2, n) ← (if negb (tmp =? 0) then memcpy_head tmp n dst src
                    else mret (dst, src, n));
    if negb (tmp =? 0) && (n =? u64 (-1)) then mret res else
    '(lx1, lx2, n) ← memcpy_words c1 c2 n;
    _ ← memcpy_tail lx1 lx2 c1 c2 n;
    mret res
  else
    _ ← memcpy_tail 0 0 dst src n;
    mret res.

Definition mempcpy (dst src n : Z) : M Z := p ← memcpy dst src n; mret (p + n).

Definition memmove (dst src count : Z) : M Z :=
  if negb (src =? dst) then
    if dst <? src then
      _ ← copy_bytes dst src count; mret dst
    else
      _ ← loop (S (Z.to_nat count)) (λ '(a, b, count),
        if count =? 0 then mret (Done tt) else
        x ← load b; _ ← store a x; mret (Next (a - 1, b - 1, count - 1)))
        (dst + count - 1, src + count - 1, count);
      mret dst
  else mret dst.

(** [count++; while (--count) *a++ = s;] *)
Definition memset (dst s count : Z) : M Z :=
  _ ← loop (S (Z.to_nat count)) (λ '(a, count),
    let count := u64 (count - 1) in
    if count =? 0 then mret (Done tt) else
    _ ← store a s; mret (Next (a + 1, count))) (dst, u64 (count + 1));
  mret dst.

Definition explicit_bzero (dest len : Z) : M unit := _ ← memset dest 0 len; mret tt.

Definition memcmp (dst src count : Z) : M Z :=
  loop (S (Z.to_nat count)) (λ '(d, s, count),
    let count := u64 (count - 1) in
    if count =? 0 then mret (Done 0) else
    x ← load d; y ← load s;
    let r := x - y in
    if negb (r =? 0) then mret (Done r) else mret (Next (d + 1, s + 1, count)))
    (dst, src, u64 (count + 1)).

Definition memchr (s c n : Z) : M Z :=
  loop (S (Z.to_nat n)) (λ '(pc, n),
    if n =? 0 then mret (Done 0) else
    x ← load pc;
    if x =? c then mret (Done pc) else mret (Next (pc + 1, n - 1))) (s, n).

(** The counter is an [int]: [n] is truncated. *)
Definition memrchr (s c n : Z) : M Z :=
  loop (S (Z.to_nat (u32 n))) (λ '(t, last, i),
    if i =? 0 then mret (Done last) else
    x ← load_char t;
    mret (Next (t + 1, if x =? c then t else last, s32 (i - 1)))) (s, 0, s32 n).

Definition memccpy (dst src c count : Z) : M Z :=
  loop (S (Z.to_nat count)) (λ '(a, b, count),
    if count =? 0 then mret (Done 0) else
    x ← load b; _ ← store a x;
    y ← load_char b;
    if y =? c then mret (Done (a + 1)) else mret (Next (a + 1, b + 1, count - 1)))
    (dst, src, count).

(** The counter is an [int] here too. *)
Definition memmem (haystack hl needle nl : Z) : M Z :=
  if hl <? nl then mret 0 else
  loop (S (Z.to_nat (u32 (hl - nl + 1)))) (λ '(haystack, i),
    if i =? 0 then mret (Done 0) else
    r ← memcmp haystack needle nl;
    if r =? 0 then mret (Done haystack) else mret (Next (haystack + 1, s32 (i - 1))))
    (haystack, s32 (hl - nl + 1)).

Definition swab (src dest nbytes : Z) : M unit :=
  let nbytes := Z.land nbytes (-2) in
  loop (S (Z.to_nat nbytes)) (λ i,
    if i <? nbytes then
      x ← load (src + (i + 1)); _ ← store (dest + i) x;
      y ← load (src + i); _ ← store (dest + (i + 1)) y;
      mret (Next (i + 2))
    else mret (Done tt)) 0.

Definition timingsafe_bcmp (a b n : Z) : M Z :=
  r ← loop (S (Z.to_nat n)) (λ '(i, r),
    if i <? n then
      x ← load (a + i); y ← load (b + i);
      mret (Next (i + 1, Z.lor r (Z.lxor x y)))
    else mret (Done r)) (0, 0);
  mret (b2z (negb (r =? 0))).

(** [sizeof(int)-1] is 3: the shift is by 3 bits. *)
Definition timingsafe_memcmp (a b n : Z) : M Z :=
  '(r, _) ← loop (S (Z.to_nat n)) (λ '(i, r, done),
    if i <? n then
      x ← load (a + i); y ← load (b + i);
      let t := x - y in
      let minusone := Z.shiftr (Z.lor t (- t)) (4 - 1) in
      mret (Next (i + 1, Z.lor r (Z.land t (Z.lnot done)), Z.lor done minusone))
    else mret (Done (r, done))) (0, 0, 0);
  mret r.

(** ** Copying *)

Lemma land_align8 y : Z.land (u64 y) (u64 (-8)) = u64 y - u64 y mod 8.
Proof.
  transitivity (Z.land (u64 y) (Z.lnot (Z.ones 3))).
  - apply Z.bits_inj'. intros i Hi. unfold u64. rewrite !Z.land_spec.
    change (-8) with (Z.lnot (Z.ones 3)). btauto.
  - rewrite <- Z.ldiff_land, Z.ldiff_ones_r by lia.
    rewrite Z.shiftl_mul_pow2, Z.shiftr_div_pow2 by lia. change (2 ^ 3) with 8.
    Z.div_mod_to_equations; lia.
Qed.

Lemma STRALIGN_mod x : STRALIGN x = (- x) mod 8.
Proof. unfold STRALIGN. rewrite land_align8. int_lia. Qed.

Lemma UNALIGNED_zero x y : UNALIGNED x y = 0 ↔ x mod 8 = y mod 8.
Proof.
  unfold UNALIGNED. rewrite Z.lxor_eq_0_iff.
  change 7 with (Z.ones 3). rewrite !Z.land_ones by lia. done.
Qed.

(** A forward copy to [c1] from [c2] reads every byte before it is overwritten
    when the regions do not overlap or the destination starts first. *)
Definition fwd_ok (c1 c2 : Z) (l : list Z) : Prop :=
  c1 <= c2 ∨ c2 + Z.of_nat (length l) <= c1.

Lemma fwd_ok_bytes_at c1 c2 l k w :
  fwd_ok c1 c2 (l ++ k) → bytes_at w c2 (l ++ k) →
  bytes_at (write_bytes c1 l w) (c2 + Z.of_nat (length l)) k ∧
  fwd_ok (c1 + Z.of_nat (length l)) (c2 + Z.of_nat (length l)) k.
Proof.
  unfold fwd_ok. rewrite bytes_at_app, length_app. intros Hd [_ H].
  split; [|lia]. apply write_bytes_bytes_at_ne; [done|]. unfold disjoint. lia.
Qed.

Section copy_loops.
Context (l : list Z) (Hl : Forall byte l).

Lemma copy_bytes_ok c1 c2 w :
  bytes_at w c2 l → mapped w c1 (Z.of_nat (length l)) → fwd_ok c1 c2 l →
  copy_bytes c1 c2 (Z.of_nat (length l)) w =
  Ok ((c1 + Z.of_nat (length l), c2 + Z.of_nat (length l)), write_bytes c1 l w).
Proof.
  unfold copy_bytes. gen_fuel (length l). revert fuel Hf c1 c2 w.
  induction Hl as [|b k Hb Hk IH]; intros fuel Hf c1 c2 w Hs Hm Hd;
    (destruct fuel as [|fuel]; [lia|]); cbn [length] in *.
  - cdone. cbn. by rewrite !Z.add_0_r.
  - pose proof Hs as [H0 _]%bytes_at_cons.
    apply (fwd_ok_bytes_at _ _ [b] k w Hd) in Hs as [Hs Hd']. cnext.
    replace (Z.of_nat (S (length k)) - 1) with (Z.of_nat (length k)) by lia.
    rewrite u8_id, IH, write_bytes_cons by (done || lia || solve_mapped).
    do 3 f_equal; lia.
Qed.

Lemma memcpy_head_ok n c1 c2 w :
  bytes_at w c2 l → mapped w c1 (Z.of_nat (length l)) → fwd_ok c1 c2 l →
  (length l < 8)%nat → Z.of_nat (length l) < n →
  memcpy_head (Z.of_nat (length l)) n c1 c2 w =
  Ok ((c1 + Z.of_nat (length l), c2 + Z.of_nat (length l), n - Z.of_nat (length l)),
      write_bytes c1 l w).
Proof.
  intros Hs Hm Hd Hlt. unfold memcpy_head. gen_fuel (length l). clear Hlt.
  revert fuel Hf n c1 c2 w Hs Hm Hd.
  induction Hl as [|b k Hb Hk IH]; intros fuel Hf n c1 c2 w Hs Hm Hd Hn;
    (destruct fuel as [|fuel]; [lia|]); cbn [length] in *.
  - cdone. cbn. by rewrite !Z.add_0_r, Z.sub_0_r.
  - pose proof Hs as [H0 _]%bytes_at_cons.
    apply (fwd_ok_bytes_at _ _ [b] k w Hd) in Hs as [Hs Hd']. cnext.
    replace (Z.of_nat (S (length k)) - 1) with (Z.of_nat (length k)) by lia.
    rewrite u8_id, IH, write_bytes_cons by (done || lia || solve_mapped).
    do 3 f_equal; [f_equal|]; lia.
Qed.
End copy_loops.

(** The word loop copies the largest prefix made of whole words. *)
Lemma memcpy_words_ok l c1 c2 w :
  Forall byte l → bytes_at w c2 l → mapped w c1 (Z.of_nat (length l)) →
  disjoint c1 (Z.of_nat (length l)) c2 (Z.of_nat (length l)) →
  ∃ h t, l = h ++ t ∧
    memcpy_words c1 c2 (Z.of_nat (length l)) w =
    Ok ((c1 + Z.of_nat (length h), c2 + Z.of_nat (length h), Z.of_nat (length t)),
        write_bytes c1 h w).
Proof.
  unfold memcpy_words. gen_fuel (length l). revert l c1 c2 w Hf.
  induction fuel as [|fuel IH]; intros l c1 c2 w Hf Hl Hs Hm Hd; [lia|].
  destruct (decide (8 <= Z.of_nat (length l))) as [H8|H8].
  - destruct (list_split_at 8 l) as (h & t & -> & Hh); [lia|]. rewrite length_app, Hh, Nat2Z.inj_add in *.
    apply Forall_app in Hl as [Hhb Htb]. apply bytes_at_app in Hs as [Hhs Hts]. rewrite Hh in Hts.
    destruct (IH t (c1 + 8) (c2 + 8) (write_bytes c1 h w)) as (h' & t' & Et & Hrun);
      [lia|done| |solve_mapped|unfold disjoint in *; lia|].
    { apply write_bytes_bytes_at_ne; [done|]. unfold disjoint in *. lia. }
    exists (h ++ h'), t'. rewrite <- (assoc_L app), <- Et. split; [done|].
    pose proof (load_le_ok _ _ _ Hhs) as Hload. rewrite Hh in Hload.
    pose proof (store_le_combine w c1 h 8 Hh ltac:(solve_mapped) Hhb) as Hstore.
    cnext. replace (Z.of_nat 8 + Z.of_nat (length t) - 8) with (Z.of_nat (length t)) by lia.
    rewrite Hrun, write_bytes_app, length_app, Hh, Nat2Z.inj_add. repeat (lia || f_equal).
  - exists [], l. split; [done|]. cdone. cbn. by rewrite !Z.add_0_r.
Qed.

Lemma memcpy_tail_ok l lx1 lx2 dst src w :
  let c1 := if negb (lx1 =? 0) then lx1 else dst in
  let c2 := if negb (lx1 =? 0) then lx2 else src in
  Forall byte l → bytes_at w c2 l → mapped w c1 (Z.of_nat (length l)) → fwd_ok c1 c2 l →
  memcpy_tail lx1 lx2 dst src (Z.of_nat (length l)) w = Ok (tt, write_bytes c1 l w).
Proof.
  intros c1 c2 Hl Hs Hm Hd. unfold memcpy_tail. cbv zeta. fold c1 c2. destruct l as [|b l]; [done|].
  replace (negb (Z.of_nat (length (b :: l)) =? 0)) with true by (cbn [length]; lia). by rewrite (bind_Ok _ _ _ _ _ (copy_bytes_ok _ Hl _ _ _ Hs Hm Hd)).
Qed.

Lemma memcpy_words_tail_ok l c1 c2 w :
  Forall byte l → bytes_at w c2 l → mapped w c1 (Z.of_nat (length l)) →
  disjoint c1 (Z.of_nat (length l)) c2 (Z.of_nat (length l)) → 0 < c1 →
  ('(lx1, lx2, n) ← memcpy_words c1 c2 (Z.of_nat (length l));
   memcpy_tail lx1 lx2 c1 c2 n) w = Ok (tt, write_bytes c1 l w).
Proof.
  intros Hl Hs Hm Hd Hpos.
  destruct (memcpy_words_ok l c1 c2 w Hl Hs Hm Hd) as (h & t & -> & Hrun).
  rewrite (bind_Ok _ _ _ _ _ Hrun).
  rewrite length_app, Nat2Z.inj_add in *. apply Forall_app in Hl as [_ Ht].
  apply bytes_at_app in Hs as [_ Hs]. rewrite memcpy_tail_ok.
  - replace (negb (c1 + Z.of_nat (length h) =? 0)) with true by lia. by rewrite write_bytes_app.
  - done.
  - replace (negb (c1 + Z.of_nat (length h) =? 0)) with true by lia.
    apply write_bytes_bytes_at_ne; [done|]. unfold disjoint in *. lia.
  - replace (negb (c1 + Z.of_nat (length h) =? 0)) with true by lia. solve_mapped.
  - replace (negb (c1 + Z.of_nat (length h) =? 0)) with true by lia.
    unfold fwd_ok, disjoint in *. lia.
Qed.

Lemma memcpy_ok dst src l w :
  Forall byte l → bytes_at w src l → mapped w dst (Z.of_nat (length l)) →
  disjoint dst (Z.of_nat (length l)) src (Z.of_nat (length l)) →
  0 < dst → Z.of_nat (length l) < 2 ^ 64 →
  memcpy dst src (Z.of_nat (length l)) w = Ok (dst, write_bytes dst l w).
Proof.
  intros Hl Hs Hm Hd Hpos Hsz. unfold memcpy. cbv zeta.
  destruct ((UNALIGNED dst src =? 0) && (8 <? Z.of_nat (length l))) eqn:Hw; cycle 1.
  { erewrite bind_Ok; [reflexivity|]. apply (memcpy_tail_ok l 0 0 dst src); [done..|].
    simpl. unfold fwd_ok, disjoint in *. lia. }
  rewrite STRALIGN_mod. pose proof (Z.mod_pos_bound (- dst) 8 ltac:(lia)) as Ht.
  set (tmp := (- dst) mod 8) in *. clearbody tmp.
  destruct (list_split_at (Z.to_nat tmp) l) as (h & t & -> & Hh); [lia|].
  rewrite length_app, Nat2Z.inj_add in *. apply Forall_app in Hl as [Hhb Htb].
  apply bytes_at_app in Hs as [Hhs Hts].
  assert (Z.of_nat (length h) = tmp) as Hht by lia. rewrite Hht in *.
  assert ((if negb (tmp =? 0) then memcpy_head tmp (tmp + Z.of_nat (length t)) dst src
           else mret (dst, src, tmp + Z.of_nat (length t))) w
          = Ok ((dst + tmp, src + tmp, Z.of_nat (length t)), write_bytes dst h w)) as Hhead.
  { destruct (negb (tmp =? 0)) eqn:Hz.
    - rewrite <- Hht at 1. rewrite memcpy_head_ok;
        [|done|done|solve_mapped|unfold fwd_ok, disjoint in *; lia|lia|lia].
      rewrite Hht. repeat (lia || f_equal).
    - destruct h; [|cbn [length] in *; lia]. replace tmp with 0 by lia. by rewrite !Z.add_0_r. }
  rewrite (bind_Ok _ _ _ _ _ Hhead).
  change (u64 (-1)) with 18446744073709551615. change (2 ^ 64) with 18446744073709551616 in *. cif.
  assert (bytes_at (write_bytes dst h w) (src + tmp) t) as Hts'
    by (apply write_bytes_bytes_at_ne; [done|unfold disjoint in *; lia]).
  destruct (bind_inv _ _ _ _ _ (memcpy_words_tail_ok t (dst + tmp) (src + tmp)
    (write_bytes dst h w) Htb Hts' ltac:(solve_mapped)
    ltac:(unfold disjoint in *; lia) ltac:(lia))) as ([[lx1 lx2] n] & w' & Hwords & Htail).
  rewrite (bind_Ok _ _ _ _ _ Hwords), (bind_Ok _ _ _ _ _ Htail).
  by rewrite write_bytes_app, Hht.
Qed.

(** C37: [memcpy] on regions that do not overlap copies the bytes of the source,
    whatever the alignment of the two pointers, touches nothing else, and
    returns the destination. *)
Theorem memcpy_correct dst src l w :
  Forall byte l → bytes_at w src l → mapped w dst (Z.of_nat (length l)) →
  disjoint dst (Z.of_nat (length l)) src (Z.of_nat (length l)) →
  0 < dst → Z.of_nat (length l) < 2 ^ 64 →
  memcpy dst src (Z.of_nat (length l)) w = Ok (dst, write_bytes dst l w).
Proof. apply memcpy_ok. Qed.

(** Six bytes between addresses of different alignment. *)
Lemma memcpy_correct_witness :
  let w := world_of [(1000, [7] ++ STR "hello!"); (2000, replicate 10 0)] in
  memcpy 2003 1001 6 w = Ok (2003, write_bytes 2003 (STR "hello!") w).
Proof.
  intros w. apply (memcpy_correct 2003 1001 (STR "hello!") w);
    [world_check|world_check|world_check|right; discriminate|reflexivity|reflexivity].
Defined.

(** The backward loop of [memmove]. *)
Lemma copy_back_ok l dst src fuel w :
  Forall byte l → bytes_at w src l → mapped w dst (Z.of_nat (length l)) →
  src <= dst → (length l < fuel)%nat →
  loop fuel (λ '(a, b, count),
    if count =? 0 then mret (Done tt) else
    x ← load b; _ ← store a x; mret (Next (a - 1, b - 1, count - 1)))
    (dst + Z.of_nat (length l) - 1, src + Z.of_nat (length l) - 1, Z.of_nat (length l)) w =
  Ok (tt, write_bytes dst l w).
Proof.
  intros Hl Hs Hm Hd. revert fuel w Hs Hm.
  induction l as [|b l IH] using rev_ind; intros fuel w Hs Hm Hf;
    (destruct fuel as [|fuel]; [lia|]).
  { by cdone. }
  rewrite length_app in *. cbn [length] in *. apply Forall_app in Hl as [Hl Hb].
  apply bytes_at_app in Hs as [Hs [H0 _]%bytes_at_cons].
  replace (src + Z.of_nat (length l + 1) - 1) with (src + Z.of_nat (length l)) by lia.
  replace (dst + Z.of_nat (length l + 1) - 1) with (dst + Z.of_nat (length l)) by lia.
  cnext. replace (Z.of_nat (length l + 1) - 1) with (Z.of_nat (length l)) by lia.
  rewrite u8_id by (by inversion Hb). rewrite IH; [|done| |solve_mapped|lia].
  - rewrite write_bytes_app. f_equal. f_equal. apply write_bytes_comm.
    unfold disjoint. simpl. lia.
  - apply write_bytes_bytes_at_ne; [done|]. unfold disjoint. simpl. lia.
Qed.

(** [memmove] leaves at the destination the bytes the source held before the
    call, however the two regions overlap, touches nothing else, and returns the
    destination. *)
Theorem memmove_correct dst src l w :
  Forall byte l → bytes_at w src l → mapped w dst (Z.of_nat (length l)) →
  memmove dst src (Z.of_nat (length l)) w = Ok (dst, write_bytes dst l w).
Proof.
  intros Hl Hs Hm. unfold memmove. destruct (decide (src = dst)) as [->|Hne].
  { rewrite write_bytes_id by done. by cif. }
  cif. destruct (decide (dst < src)).
  - cif. by rewrite (bind_Ok _ _ _ _ _ (copy_bytes_ok _ Hl dst src w Hs Hm ltac:(left; lia))).
  - cif. erewrite bind_Ok; [|apply copy_back_ok; [done..|lia|lia]]. done.
Qed.

(** The regions overlap by four bytes. *)
Lemma memmove_correct_witness :
  let w := world_of [(1000, STR "hello!" ++ replicate 4 0)] in
  memmove 1002 1000 6 w = Ok (1002, write_bytes 1002 (STR "hello!") w).
Proof. intros w. apply (memmove_correct 1002 1000 (STR "hello!") w); world_check. Defined.

(** [memset] fills the region with the low byte of its argument. *)
Lemma memset_ok dst s n w :
  Z.of_nat n < 2 ^ 64 → mapped w dst (Z.of_nat n) →
  memset dst s (Z.of_nat n) w = Ok (dst, write_bytes dst (replicate n (u8 s)) w).
Proof.
  intros Hn Hm. unfold memset. erewrite bind_Ok; [reflexivity|]. gen_fuel n.
  revert dst w n Hm Hn Hf. induction fuel as [|fuel IH]; intros dst w n Hm Hn Hf; [lia|].
  assert (u64 (u64 (Z.of_nat n + 1) - 1) = Z.of_nat n) as Hc by int_lia.
  destruct n as [|n].
  - by erewrite loop_Done by (cbv beta iota zeta; rewrite Hc; crun).
  - erewrite loop_Next by (cbv beta iota zeta; rewrite Hc; crun).
    replace (Z.of_nat (S n)) with (u64 (Z.of_nat n + 1)) by int_lia.
    rewrite IH; [done|solve_mapped|lia|lia].
Qed.

(** ** Comparing and searching *)

(** The difference of the first pair of bytes that differ, 0 when none does. *)
Fixpoint cmp_ref (l k : list Z) : Z :=
  match l, k with
  | x :: l, y :: k => if x =? y then cmp_ref l k else x - y
  | _, _ => 0
  end.

Lemma cmp_ref_zero l k : length l = length k → cmp_ref l k = 0 ↔ l = k.
Proof.
  revert k. induction l as [|x l IH]; intros [|y k] Hk; simpl in *; try done.
  destruct (Z.eqb_spec x y) as [->|Hne].
  - rewrite IH by lia. naive_solver.
  - split; [lia|]. naive_solver.
Qed.

(** [memcmp] reads up to the first difference only: the regions need not reach
    further than that. *)
Lemma memcmp_loop l k d s n w :
  bytes_at w d l → bytes_at w s k → length l = length k → Z.of_nat (length l) <= n < 2 ^ 64 →
  cmp_ref l k ≠ 0 ∨ n = Z.of_nat (length l) → memcmp d s n w = Ok (cmp_ref l k, w).
Proof.
  unfold memcmp. intros Hl Hk Hlen Hn Hd. gen_fuel (Z.to_nat n).
  revert l k d s n Hl Hk Hlen Hn Hd Hf.
  induction fuel as [|fuel IH]; intros l k d s n Hl Hk Hlen Hn Hd Hf; [lia|].
  assert (u64 (u64 (n + 1) - 1) = n) as Hc by int_lia.
  destruct l as [|x l], k as [|y k]; try discriminate Hlen; cbn [cmp_ref length] in *.
  { by erewrite loop_Done by (cbv beta iota zeta; rewrite Hc; crun). }
  apply bytes_at_cons in Hl as [Hx Hl]. apply bytes_at_cons in Hk as [Hy Hk].
  destruct (Z.eqb_spec x y) as [->|Hne].
  - erewrite loop_Next by (cbv beta iota zeta; rewrite Hc; crun).
    replace n with (u64 ((n - 1) + 1)) at 1 by int_lia. apply IH; (done || lia).
  - by erewrite loop_Done by (cbv beta iota zeta; rewrite Hc; crun).
Qed.

Lemma memcmp_ok l k d s w :
  bytes_at w d l → bytes_at w s k → length l = length k → Z.of_nat (length l) < 2 ^ 64 →
  memcmp d s (Z.of_nat (length l)) w = Ok (cmp_ref l k, w).
Proof. intros. apply memcmp_loop; [done..|lia|by right]. Qed.

(** [memchr] finds the first byte equal to its [int] argument. *)
Lemma memchr_found h c s n w :
  bytes_at w s (h ++ [c]) → c ∉ h → Z.of_nat (length h) < n →
  memchr s c n w = Ok (s + Z.of_nat (length h), w).
Proof.
  unfold memchr. intros Hs Hc Hn. gen_fuel (Z.to_nat n). revert fuel s n Hn Hs Hf.
  induction h as [|b h IH]; intros fuel s n Hn Hs Hf; (destruct fuel as [|fuel]; [lia|]);
    cbn [app length] in *; apply bytes_at_cons in Hs as [H0 Hs].
  - cdone. by rewrite Z.add_0_r.
  - apply not_elem_of_cons in Hc as [Hb Hc]. cnext.
    rewrite IH by (done || lia). repeat (lia || f_equal).
Qed.

Lemma memchr_none l c s w :
  bytes_at w s l → c ∉ l → memchr s c (Z.of_nat (length l)) w = Ok (0, w).
Proof.
  unfold memchr. intros Hs Hc. gen_fuel (length l). revert fuel s Hf Hs.
  induction l as [|b l IH]; intros fuel s Hf Hs; (destruct fuel as [|fuel]; [lia|]);
    cbn [length] in *.
  - by cdone.
  - apply bytes_at_cons in Hs as [H0 Hs]. apply not_elem_of_cons in Hc as [Hb Hc]. cnext.
    replace (Z.of_nat (S (length l)) - 1) with (Z.of_nat (length l)) by lia.
    by apply IH; (done || lia).
Qed.

(** The C standard converts the searched value to [unsigned char]; this code
    compares it as an [int], so a value outside [0, 255] is never found. *)
Lemma memchr_int_argument l c s w :
  bytes_at w s l → Forall byte l → ¬ byte c → memchr s c (Z.of_nat (length l)) w = Ok (0, w).
Proof.
  intros Hs Hl Hc. apply memchr_none; [done|]. intros Hin. apply Hc.
  by eapply Forall_forall in Hin; [|exact Hl].
Qed.

(** [memccpy] copies up to and including the first byte whose [char] value is [c]. *)
Lemma memccpy_found h b c dst src n w :
  Forall byte (h ++ [b]) → bytes_at w src (h ++ [b]) → c = s8 b → b ∉ h →
  Z.of_nat (length h) < n → mapped w dst (Z.of_nat (length h) + 1) →
  disjoint dst (Z.of_nat (length h) + 1) src (Z.of_nat (length h) + 1) →
  memccpy dst src c n w =
  Ok (dst + Z.of_nat (length h) + 1, write_bytes dst (h ++ [b]) w).
Proof.
  unfold memccpy. intros Hb Hs -> Hc Hn Hm Hd. gen_fuel (Z.to_nat n).
  revert fuel dst src n w Hf Hn Hs Hm Hd.
  induction h as [|x h IH]; intros fuel dst src n w Hf Hn Hs Hm Hd;
    (destruct fuel as [|fuel]; [lia|]); cbn [app length] in *;
    pose proof Hs as [H0 _]%bytes_at_cons; apply Forall_cons in Hb as [Hx Hb].
  - assert (bytes_at (write_bytes dst [u8 b] w) src [b]) as [H1 _]%bytes_at_cons
      by (apply write_bytes_bytes_at_ne; [done|unfold disjoint in *; simpl; lia]).
    cdone. rewrite u8_id by done. by rewrite Z.add_0_r.
  - assert (bytes_at (write_bytes dst [u8 x] w) src (x :: h ++ [b])) as [H1 Hs']%bytes_at_cons.
    { apply write_bytes_bytes_at_ne; [done|]. unfold disjoint in *. simpl.
      rewrite length_app. simpl. lia. }
    apply not_elem_of_cons in Hc as [Hne Hc].
    assert (s8 x ≠ s8 b) as Hne8.
    { intros E%s8_inj; [done..|]. apply Forall_app in Hb as [_ Hb]. by inversion Hb. }
    cnext. rewrite u8_id in * by done.
    rewrite IH; [|done|done|lia|lia|done|solve_mapped|unfold disjoint in *; lia].
    repeat (lia || f_equal).
Qed.

(** ** Constant-time comparison *)

(** [timingsafe_memcmp] is the fold of [tm_step] over the pairs of bytes. *)
Definition tm_step (st : Z * Z) (xy : Z * Z) : Z * Z :=
  let t := xy.1 - xy.2 in
  (Z.lor st.1 (Z.land t (Z.lnot st.2)),
   Z.lor st.2 (Z.shiftr (Z.lor t (- t)) (4 - 1))).

Lemma timingsafe_memcmp_fold l k a b w :
  bytes_at w a l → bytes_at w b k → length l = length k →
  timingsafe_memcmp a b (Z.of_nat (length l)) w =
  Ok ((foldl tm_step (0, 0) (zip l k)).1, w).
Proof.
  intros Hl Hk Hlen. unfold timingsafe_memcmp.
  assert (∀ r d, loop (S (Z.to_nat (Z.of_nat (length l)))) (λ '(i, r, done),
    if i <? Z.of_nat (length l) then
      x ← load (a + i); y ← load (b + i);
      let t := x - y in
      let minusone := Z.shiftr (Z.lor t (- t)) (4 - 1) in
      mret (Next (i + 1, Z.lor r (Z.land t (Z.lnot done)), Z.lor done minusone))
    else mret (Done (r, done))) (0, r, d) w = Ok (foldl tm_step (r, d) (zip l k), w)) as H.
  { intros r d. replace 0 with (Z.of_nat 0) by done.
    assert (zip l k = drop 0 (zip l k)) as -> by done.
    gen_fuel (length l - 0)%nat. revert Hf. generalize 0%nat as i. revert r d.
    induction fuel as [|fuel IH]; intros r d i Hf; [lia|].
    destruct (decide (i < length l)%nat) as [Hi|Hi].
    - destruct (lookup_lt_is_Some_2 l i Hi) as [x Hx].
      destruct (lookup_lt_is_Some_2 k i ltac:(lia)) as [y Hy].
      pose proof (Hl _ _ Hx). pose proof (Hk _ _ Hy). cnext.
      replace (Z.of_nat i + 1) with (Z.of_nat (S i)) by lia. rewrite IH by lia.
      rewrite (drop_S (zip l k) (x, y) i); [done|]. by rewrite lookup_zip_with, Hx, Hy.
    - cdone. rewrite drop_ge; [done|]. rewrite length_zip_with. lia. }
  rewrite (bind_Ok _ _ _ _ _ (H 0 0)). by destruct (foldl _ _ _).
Qed.

(** Once a mismatch was seen ([done < 0]) the sign of [r] is fixed. *)
Lemma tm_fold_done r d ps :
  d < 0 → r ≠ 0 → Z.sgn (foldl tm_step (r, d) ps).1 = Z.sgn r.
Proof.
  revert r d. induction ps as [|[x y] ps IH]; intros r d Hd Hr; [done|].
  cbn [foldl]. unfold tm_step at 2. cbn [fst snd].
  set (m := Z.land (x - y) (Z.lnot d)).
  assert (0 <= m) by (apply Z.land_nonneg; right; unfold Z.lnot; lia).
  rewrite IH.
  - destruct (Z.lt_trichotomy r 0) as [Hs|[Hs|Hs]]; [|lia|].
    + rewrite !Z.sgn_neg; [done|lia|]. apply Z.lor_neg. by left.
    + rewrite (Z.sgn_pos r) by lia. apply Z.sgn_pos.
      assert (0 <= Z.lor r m) by (apply Z.lor_nonneg; lia).
      assert (Z.lor r m ≠ 0) by (rewrite Z.lor_eq_0_iff; lia). lia.
  - apply Z.lor_neg. by left.
  - rewrite Z.lor_eq_0_iff. lia.
Qed.

Lemma tm_fold_sgn l k :
  length l = length k → Z.sgn (foldl tm_step (0, 0) (zip l k)).1 = Z.sgn (cmp_ref l k).
Proof.
  revert k. induction l as [|x l IH]; intros [|y k] Hk; simpl in *; try done.
  unfold tm_step at 2. cbn [fst snd]. destruct (Z.eqb_spec x y) as [->|Hne].
  - rewrite Z.sub_diag. simpl. rewrite <- IH by lia. done.
  - change (Z.lnot 0) with (-1). rewrite Z.land_m1_r, !Z.lor_0_l.
    apply tm_fold_done; [|lia]. apply Z.shiftr_neg, Z.lor_neg. lia.
Qed.

(** [timingsafe_memcmp] always returns a value with the sign of [memcmp]'s,
    although its mask of later differences is not complete. *)
Theorem timingsafe_memcmp_sign l k a b w :
  bytes_at w a l → bytes_at w b k → length l = length k →
  ∃ r, timingsafe_memcmp a b (Z.of_nat (length l)) w = Ok (r, w) ∧
       Z.sgn r = Z.sgn (cmp_ref l k).
Proof.
  intros Hl Hk Hlen. eexists. split; [by apply timingsafe_memcmp_fold|by apply tm_fold_sgn].
Qed.

Lemma timingsafe_memcmp_sign_witness :
  let w := world_of [(1000, STR "abcd"); (2000, STR "abdc")] in
  ∃ r, timingsafe_memcmp 1000 2000 4 w = Ok (r, w) ∧ Z.sgn r = -1.
Proof.
  intros w. apply (timingsafe_memcmp_sign (STR "abcd") (STR "abdc") 1000 2000 w);
    [world_check|world_check|reflexivity].
Defined.

(** The comment promises that differences after the first one leave the result
    alone; the mask is shifted by [sizeof(int)-1 = 3] bits instead of 31, and a
    first difference of 16 lets a later one in. *)
Example tm_value_is_not_memcmp :
  (foldl tm_step (0, 0) (zip [16; 1] [0; 0])).1 = 17 ∧ cmp_ref [16; 1] [0; 0] = 16.
Proof. done. Qed.
