(* ===== verification/Strings.v ===== *)
(** * String functions

    [lib/str*.c] (and [stpcpy], [stpncpy]) over the byte memory of [Mem], in the
    default build: 64-bit little-endian words, [WANT_FASTER_STRING_ROUTINES], no
    [WANT_FULL_POSIX_COMPAT], no valgrind support.  Comparisons between two
    [char]s compare the bytes; where a [char] is used as an [int] it is
    sign-extended ([load_char]). *)

From S2P Require Import Prelude Mem MemFuncs Ctype.

(** ** [lib/strlen.c] *)

Definition magic : Z := 0x0101010101010101.

(** Byte compare up until a word boundary: the length, or the aligned pointer. *)
Definition strlen_head (s : Z) : M (Z + Z) :=
  scan (λ t,
    if negb (Z.land t 7 =? 0) then
      c ← load t; if c =? 0 then mret (Done (inl (t - s))) else mret (Next (t + 1))
    else mret (Done (inr t))) s.

(** Word compare: the first word with a zero byte, reduced to the bits of [magic << 7]. *)
Definition strlen_words (t : Z) : M (Z * Z) :=
  scan (λ t,
    word ← load64 t;
    let t := t + 8 in
    let word := Z.land (u64 (word - magic)) (not64 word) in
    let word := Z.land word (u64 (Z.shiftl magic 7)) in
    if word =? 0 then mret (Next t) else mret (Done (t, word))) t.

(** The number of bytes in front of the first zero byte. *)
Definition strlen_tail (word : Z) : Z :=
  let word := Z.land (u64 (word - 1)) (u64 (Z.shiftl magic 8)) in
  let word := u64 (word + u64 (Z.shiftl word 32)) in
  let word := u64 (word + u64 (Z.shiftl word 16)) in
  let word := u64 (word + u64 (Z.shiftl word 8)) in
  Z.shiftr word 56.

Definition strlen (s : Z) : M Z :=
  if s =? 0 then mret 0 else
  r ← strlen_head s;
  match r with
  | inl n => mret n
  | inr t =>
      '(t, word) ← strlen_words t;
      let t := t + strlen_tail word in
      mret (t - 8 - s)
  end.

Definition strnlen (s maxlen : Z) : M Z :=
  x ← memchr s 0 maxlen;
  let x := if x =? 0 then s + maxlen else x in
  mret (x - s).

(** ** Copying *)

Definition MKW (x : Z) : Z := u64 (x * 0x0101010101010101).
Definition GFC (x : Z) : Z := Z.land x 0xff.
Definition INCSTR (x : Z) : Z := Z.shiftr x 8.

(** [((l - MKW(0x1ul)) & ~l) & MKW(0x80ul)] *)
Definition haszero (l : Z) : Z := Z.land (Z.land (u64 (l - MKW 1)) (not64 l)) (MKW 0x80).

(** [while (( *s1++ = *s2++));], with the final [s1] *)
Definition copy_str (s1 s2 : Z) : M Z :=
  scan (λ '(s1, s2),
    c ← load s2; _ ← store s1 c;
    if c =? 0 then mret (Done (s1 + 1)) else mret (Next (s1 + 1, s2 + 1))) (s1, s2).

(** [while (tmp-- && ( *s1++ = *s2++));], with the final [tmp], [s1] and [s2] *)
Definition strcpy_head (tmp s1 s2 : Z) : M (Z * Z * Z) :=
  loop 9 (λ '(tmp, s1, s2),
    if tmp =? 0 then mret (Done (tmp - 1, s1, s2)) else
    c ← load s2; _ ← store s1 c;
    if c =? 0 then mret (Done (tmp - 1, s1 + 1, s2 + 1))
    else mret (Next (tmp - 1, s1 + 1, s2 + 1))) (tmp, s1, s2).

(** [while (( *s1++ = GFC(l))) INCSTR(l);] *)
Definition strcpy_last (s1 l : Z) : M unit :=
  loop 9 (λ '(s1, l),
    let c := GFC l in
    _ ← store s1 c;
    if c =? 0 then mret (Done tt) else mret (Next (s1 + 1, INCSTR l))) (s1, l).

(** One round of the word loop. *)
Definition strcpy_word_body : Z * Z → M (step (Z * Z) unit) := λ '(s1, s2),
  l ← load64 s2;
  if negb (haszero l =? 0) then _ ← strcpy_last s1 l; mret (Done tt)
  else _ ← store64 s1 l; mret (Next (s1 + 8, s2 + 8)).

Definition strcpy (s1 s2 : Z) : M Z :=
  let res := s1 in
  if negb (UNALIGNED s1 s2 =? 0) then _ ← copy_str s1 s2; mret res else
  let tmp := STRALIGN s1 in
  '(tmp', s1, s2) ← (if negb (tmp =? 0) then strcpy_head tmp s1 s2
                     else mret (-1, s1, s2));
  if negb (tmp' =? -1) then mret res else
  _ ← scan strcpy_word_body (s1, s2);
  mret res.

Definition stpcpy (dst src : Z) : M Z := d ← copy_str dst src; mret (d - 1).

Definition strcat (s t : Z) : M Z :=
  let dest := s in
  n ← strlen s;
  let s := s + n in
  _ ← scan (unroll 4 (λ '(s, t),
    c ← load t; _ ← store s c;
    if c =? 0 then mret (Done tt) else mret (Next (s + 1, t + 1)))) (s, t);
  mret dest.

(** [max=s+n] wraps around like every [uintptr_t] sum. *)
Definition strncat (s t n : Z) : M Z :=
  let dest := s in
  k ← strlen s;
  let s := s + k in
  let max := u64 (s + n) in
  if max =? s then mret dest else
  s ← scan (unroll 4 (λ '(s, t),
    c ← load t; _ ← store s c;
    if c =? 0 then mret (Done s) else
    let s := s + 1 in
    if s =? max then mret (Done s) else mret (Next (s, t + 1)))) (s, t);
  _ ← store s 0;
  mret dest.

Definition strncpy (dest src n : Z) : M Z := _ ← memccpy dest src 0 n; mret dest.

Definition stpncpy (dest src n : Z) : M Z :=
  x ← memccpy dest src 0 n;
  if negb (x =? 0) then mret (x - 1) else mret (dest + n).

Definition strxfrm (dest src n : Z) : M Z := _ ← memccpy dest src 0 n; strlen dest.

Definition strlcpy (dst src siz : Z) : M Z :=
  (* Copy as many bytes as will fit *)
  let '(d, s, n) := (dst, src, siz) in
  '(d, s, n) ← (if negb (n =? 0) then
      let n := n - 1 in
      if negb (n =? 0) then
        scan (λ '(d, s, n),
          c ← load s; _ ← store d c;
          let d := d + 1 in let s := s + 1 in
          if c =? 0 then mret (Done (d, s, n)) else
          let n := n - 1 in
          if negb (n =? 0) then mret (Next (d, s, n)) else mret (Done (d, s, n))) (d, s, n)
      else mret (d, s, n)
    else mret (d, s, n));
  (* Not enough room in dst, add NUL and traverse rest of src *)
  s ← (if n =? 0 then
      _ ← (if negb (siz =? 0) then store d 0 else mret tt);
      scan (λ s, c ← load s; if c =? 0 then mret (Done (s + 1)) else mret (Next (s + 1))) s
    else mret s);
  mret (s - src - 1).

Definition strlcat (dst src siz : Z) : M Z :=
  let '(d, s, n) := (dst, src, siz) in
  (* while ( *d != '\0' && n-- != 0) d++; *)
  d ← scan (λ '(d, n),
    c ← load d;
    if c =? 0 then mret (Done d) else
    if n =? 0 then mret (Done d) else mret (Next (d + 1, n - 1))) (d, n);
  let dlen := d - dst in
  let n := u64 (siz - dlen) in
  if n =? 0 then l ← strlen s; mret (dlen + l) else
  '(d, s) ← scan (λ '(d, s, n),
    c ← load s;
    if c =? 0 then mret (Done (d, s)) else
    if negb (n =? 1) then
      _ ← store d c; mret (Next (d + 1, s + 1, u64 (n - 1)))
    else mret (Next (d, s + 1, n))) (d, s, n);
  _ ← store d 0;
  mret (dlen + (s - src)).

(** ** Comparing *)

(** [while ( *s1 && *s1 == *s2) s1++, s2++; return ( *s1 - *s2);] *)
Definition strcmp_bytes (s1 s2 : Z) : M Z :=
  '(s1, s2) ← scan (λ '(s1, s2),
    x ← load s1;
    if x =? 0 then mret (Done (s1, s2)) else
    y ← load s2;
    if x =? y then mret (Next (s1 + 1, s2 + 1)) else mret (Done (s1, s2))) (s1, s2);
  x ← load_char s1; y ← load_char s2; mret (x - y).

(** The bytes of two words, as [unsigned char]s, up to the first difference or NUL. *)
Definition strcmp_in_word (l1 l2 : Z) : M Z :=
  loop 9 (λ '(l1, l2),
    let c1 := GFC l1 in let c2 := GFC l2 in
    if (c1 =? 0) || negb (c1 =? c2) then mret (Done (c1 - c2))
    else mret (Next (INCSTR l1, INCSTR l2))) (l1, l2).

(** [for (; tmp--; s1++, s2++) if (! *s1 || *s1 != *s2) return ( *s1 - *s2);] *)
Definition strcmp_head (tmp s1 s2 : Z) : M (Z + Z * Z) :=
  loop 9 (λ '(tmp, s1, s2),
    if tmp =? 0 then mret (Done (inr (s1, s2))) else
    x ← load s1; y ← load s2;
    if (x =? 0) || negb (x =? y) then mret (Done (inl (s8 x - s8 y)))
    else mret (Next (tmp - 1, s1 + 1, s2 + 1))) (tmp, s1, s2).

(** The first pair of words with a NUL or a difference. *)
Definition strcmp_words (lx1 lx2 : Z) : M (Z * Z) :=
  scan (λ '(lx1, lx2),
    l1 ← load64 lx1; l2 ← load64 lx2;
    if negb (haszero l1 =? 0) || negb (haszero l2 =? 0) || negb (l1 =? l2)
    then mret (Done (l1, l2)) else mret (Next (lx1 + 8, lx2 + 8))) (lx1, lx2).

Definition strcmp (s1 s2 : Z) : M Z :=
  if negb (UNALIGNED s1 s2 =? 0) then strcmp_bytes s1 s2 else
  let tmp := STRALIGN s1 in
  r ← (if negb (tmp =? 0) then strcmp_head tmp s1 s2 else mret (inr (s1, s2)));
  match r with
  | inl d => mret d
  | inr (lx1, lx2) => '(l1, l2) ← strcmp_words lx1 lx2; strcmp_in_word l1 l2
  end.

Definition strncmp (s1 s2 n : Z) : M Z :=
  let fini := s1 + n in
  scan (λ '(a, b),
    if a =? fini then mret (Done 0) else
    x ← load a; y ← load b;
    let res := x - y in
    if negb (res =? 0) then mret (Done res) else
    if x =? 0 then mret (Done 0) else mret (Next (a + 1, b + 1))) (s1, s2).

(** [x = *s - 'A'; if (x < 26u) x += 32;] on an [unsigned int] *)
Definition casefold (c : Z) : Z :=
  let x := u32 (c - CH "A") in if x <? 26 then u32 (x + 32) else x.

Definition strcasecmp (s1 s2 : Z) : M Z :=
  scan (λ '(s1, s2),
    y ← load_char s2; x ← load_char s1;
    let x2 := casefold y in let x1 := casefold x in
    if negb (x2 =? x1) then mret (Done (s32 (x1 - x2))) else
    if x1 =? u32 (- CH "A") then mret (Done (s32 (x1 - x2))) else
    mret (Next (s1 + 1, s2 + 1))) (s1, s2).

(** [end = s1 + len] wraps around like every [uintptr_t] sum. *)
Definition strncasecmp (s1 s2 len : Z) : M Z :=
  let fin := u64 (s1 + len) in
  scan (λ '(s1, s2),
    if fin <=? s1 then mret (Done 0) else
    y ← load_char s2; x ← load_char s1;
    let x2 := casefold y in let x1 := casefold x in
    if negb (x2 =? x1) then mret (Done (s32 (x1 - x2))) else
    if x1 =? u32 (- CH "A") then mret (Done (s32 (x1 - x2))) else
    mret (Next (s1 + 1, s2 + 1))) (s1, s2).

(** [while (isdigit(s[i])) { v=v*10+s[i]-'0'; ++i; }] on a [long long] *)
Definition scan_digits (s i v : Z) : M Z :=
  '(_, v) ← scan (λ '(i, v),
    c ← load_char (s + i);
    if isdigit c then mret (Next (i + 1, s64 (v * 10 + c - CH "0")))
    else mret (Done (i, v))) (i, v);
  mret v.

Definition strverscmp (s1 s2 : Z) : M Z :=
  r ← scan (λ i,
    x ← load (s1 + i); y ← load (s2 + i);
    if x =? y then (if x =? 0 then mret (Done None) else mret (Next (i + 1)))
    else mret (Done (Some i))) 0;
  match r with
  | None => mret 0                             (* perfect match *)
  | Some i =>
      x ← load_char (s1 + i); y ← load_char (s2 + i);
      if negb (isdigit x) || negb (isdigit y) then mret (x - y) else
      (* backtrack over the matching digits *)
      j ← loop (S (Z.to_nat i)) (λ j,
        if 0 <? j then
          c ← load_char (s1 + (j - 1));
          if isdigit c then mret (Next (j - 1)) else mret (Done j)
        else mret (Done j)) i;
      a ← loop (S (Z.to_nat (i - j))) (λ '(j, a),
        if j <? i then
          c ← load_char (s1 + j); mret (Next (j + 1, s64 (a * 10 + c - CH "0")))
        else mret (Done a)) (j, 0);
      let b := a in
      a ← scan_digits s1 i a;
      b ← scan_digits s2 i b;
      mret (if a <? b then -1 else 1)
  end.

(** ** Searching *)

Definition strchr (t c : Z) : M Z :=
  let ch := u8 c in
  scan (unroll 4 (λ t,
    x ← load t;
    if x =? ch then mret (Done t) else
    if x =? 0 then mret (Done 0) else mret (Next (t + 1)))) t.

Definition strrchr (t c : Z) : M Z :=
  let ch := u8 c in
  scan (unroll 4 (λ '(t, l),
    x ← load t;
    let l := if x =? ch then t else l in
    if x =? 0 then mret (Done l) else mret (Next (t + 1, l)))) (t, 0).

Definition strstr (haystack needle : Z) : M Z :=
  nl ← strlen needle;
  hl ← strlen haystack;
  if nl =? 0 then mret haystack else
  if hl <? nl then mret 0 else
  loop (S (Z.to_nat (hl - nl + 1))) (λ '(haystack, i),
    if i =? 0 then mret (Done 0) else
    x ← load haystack; y ← load needle;
    r ← (if x =? y then r ← memcmp haystack needle nl; mret (r =? 0) else mret false);
    if (r : bool) then mret (Done haystack) else mret (Next (haystack + 1, i - 1)))
    (haystack, hl - nl + 1).

(** [for (a = accept; *a && *s != *a; a++);] and the byte it stops at *)
Definition find_char (accept x : Z) : M Z :=
  scan (λ a,
    y ← load a;
    if y =? 0 then mret (Done y) else
    if x =? y then mret (Done y) else mret (Next (a + 1))) accept.

Definition strspn (s accept : Z) : M Z :=
  scan (λ '(s, l),
    x ← load s;
    if x =? 0 then mret (Done l) else
    y ← find_char accept x;
    if y =? 0 then mret (Done l) else mret (Next (s + 1, l + 1))) (s, 0).

(** The index into [reject] is an [int] that never leaves its range. *)
Definition strcspn (s reject : Z) : M Z :=
  scan (λ '(s, l),
    x ← load s;
    if x =? 0 then mret (Done l) else
    y ← find_char reject x;
    if negb (y =? 0) then mret (Done l) else mret (Next (s + 1, l + 1))) (s, 0).

Definition strpbrk (s accept : Z) : M Z :=
  scan (λ s,
    x ← load s;
    if x =? 0 then mret (Done 0) else
    y ← find_char accept x;
    if negb (y =? 0) then mret (Done s) else mret (Next (s + 1))) s.

(** ** Tokens *)

(** [*ptrptr] is a pointer in memory. *)
Definition strtok_r (s delim ptrptr : Z) : M Z :=
  s ← (if s =? 0 then load64 ptrptr else mret s);
  n ← strspn s delim;                          (* overread leading delimiter *)
  let s := s + n in
  c ← load s;
  '(s, tmp) ← (if negb (c =? 0) then
      let tmp := s in
      n ← strcspn s delim;
      let s := s + n in
      c ← load s;
      if negb (c =? 0) then _ ← store s 0; mret (s + 1, tmp) else mret (s, tmp)
    else mret (s, 0));
  _ ← store64 ptrptr s;
  mret tmp.

(** [strtok_pos] is the address of the static of that name. *)
Definition strtok (strtok_pos s delim : Z) : M Z := strtok_r s delim strtok_pos.

Definition strsep (stringp delim : Z) : M Z :=
  tmp ← load64 stringp;
  if tmp =? 0 then mret 0 else
  r ← scan (λ tmp2,
    x ← load tmp2;
    if x =? 0 then mret (Done None) else
    y ← find_char delim x;
    if negb (y =? 0) then mret (Done (Some tmp2)) else mret (Next (tmp2 + 1))) tmp;
  match r with
  | Some tmp2 =>                               (* delimiter found *)
      _ ← store tmp2 0; _ ← store64 stringp (tmp2 + 1); mret tmp
  | None => _ ← store64 stringp 0; mret tmp
  end.
