(* ===== verification/StrlenFacts.v ===== *)
(** * [strlen] finds the terminator word by word

    The word test of [Words] applied to the three word loops of the string
    functions, and the correctness of [strlen] and [strnlen]. *)

From S2P Require Import Prelude Mem Words MemFuncs Strings.

Lemma haszero_test x : 0 <= x < 2 ^ 64 → haszero x = zero_test 8 x.
Proof.
  intros Hx. unfold haszero, zero_test, not64. rewrite (u64_id x) by lia.
  change 0xffffffffffffffff with (Z.ones 64). rewrite lxor_ones, u64_mod by lia. done.
Qed.

Lemma strlen_word_test x :
  0 <= x < 2 ^ 64 →
  Z.land (Z.land (u64 (x - magic)) (not64 x)) (u64 (Z.shiftl magic 7)) = zero_test 8 x.
Proof. apply haszero_test. Qed.

Lemma flags_zero p : flags p = 0 ↔ first_idx (λ b, b) p = None.
Proof.
  induction p as [|b p IH]; [done|]. unfold flags in *. cbn [fmap list_fmap le_combine first_idx].
  assert (0 <= le_combine (flag <$> p)).
  { apply le_combine_range, Forall_fmap, Forall_true. intros []; unfold byte; simpl; lia. }
  destruct b; simpl; [split; [lia|done]|].
  destruct (first_idx _ p); simpl; [split; [|done]|split; [done|]].
  - intros E. apply proj1 in IH. discriminate IH; lia.
  - intros _. apply proj2 in IH. rewrite IH by done. lia.
Qed.

Lemma strlen_tail_flags p k :
  length p = 8%nat → first_idx (λ b, b) p = Some k → strlen_tail (flags p) = Z.of_nat k.
Proof.
  intros Hp. do 8 (destruct p as [|[] p]; [discriminate Hp| |]);
    (destruct p; [|discriminate Hp]); intros [= <-]; vm_compute; reflexivity.
Qed.

(** In a word that starts inside a string, the first zero byte is the
    terminator, when it is in the word. *)
Lemma cstr_first_zero w t u ws :
  cstr w t u → bytes_at w t ws →
  first_idx (λ b, b =? 0) ws =
  if decide (length u < length ws)%nat then Some (length u) else None.
Proof.
  revert t u. induction ws as [|b ws IH]; intros t u Hu Hws; [done|].
  apply bytes_at_cons in Hws as [Hb Hws]. cbn [first_idx].
  destruct u as [|c u].
  - apply cstr_nil in Hu. simplify_eq. done.
  - apply cstr_cons in Hu as (Hc & Hnz & Hu). simplify_eq. unfold nzbyte in Hnz.
    replace (c =? 0) with false by lia. rewrite (IH _ _ Hu Hws). cbn [length].
    repeat case_decide; (done || lia).
Qed.

Section strlen.
Context (w : world) (s : Z) (str : list Z).
Hypothesis Hok : mem_ok w.
Hypothesis Hs : cstr w s str.
Hypothesis Hw : words_mapped w s (Z.of_nat (length str) + 1).

(** The string from its [j]-th byte on. *)
Lemma cstr_drop j : (j <= length str)%nat → cstr w (s + Z.of_nat j) (drop j str).
Proof.
  intros Hj. rewrite <- (take_drop j str) in Hs. apply cstr_app in Hs as (_ & _ & H).
  by rewrite length_take, Nat.min_l in H by lia.
Qed.

Lemma strlen_head_ok :
  strlen_head s w = Ok (inl (Z.of_nat (length str)), w) ∨
  ∃ j, (j <= length str)%nat ∧ (s + Z.of_nat j) mod 8 = 0 ∧
       strlen_head s w = Ok (inr (s + Z.of_nat j), w).
Proof.
  unfold strlen_head, scan. pose proof (cstr_length _ _ _ Hs) as Hsz.
  assert (length str - 0 < S (size (mem w)))%nat as Hf by lia.
  assert (0 <= length str)%nat as Hi by lia. revert Hf Hi.
  replace (s, w).2 with w by done.
  enough (∀ fuel i, (length str - i < fuel)%nat → (i <= length str)%nat →
    let r := loop fuel (λ t, if negb (Z.land t 7 =? 0) then
      c ← load t; if c =? 0 then mret (Done (inl (t - s))) else mret (Next (t + 1))
      else mret (Done (inr t))) (s + Z.of_nat i) w in
    r = Ok (inl (Z.of_nat (length str)), w) ∨
    ∃ j, (j <= length str)%nat ∧ (s + Z.of_nat j) mod 8 = 0 ∧ r = Ok (inr (s + Z.of_nat j), w)) as H.
  { intros. specialize (H (S (size (mem w))) 0%nat). rewrite Z.add_0_r in H. apply H; lia. }
  induction fuel as [|fuel IH]; intros i Hf Hi; [lia|]. cbv zeta.
  pose proof (cstr_drop i Hi) as Hd.
  assert (Z.land (s + Z.of_nat i) 7 = (s + Z.of_nat i) mod 8) as Hal
    by (change 7 with (Z.ones 3); by rewrite Z.land_ones by lia).
  destruct (decide ((s + Z.of_nat i) mod 8 = 0)) as [Ha|Ha].
  { right. exists i. split; [done|]. split; [done|]. apply loop_Done. rewrite Hal. cif. done. }
  destruct (drop i str) as [|c u] eqn:Ed.
  - left. apply cstr_nil in Hd. assert (i = length str) as ->.
    { apply (f_equal length) in Ed. rewrite length_drop in Ed. simpl in Ed. lia. }
    apply loop_Done. rewrite Hal. cif. cstep. cif. cret.
  - apply cstr_cons in Hd as (Hc & Hnz & Hd). unfold nzbyte in Hnz.
    assert (S i <= length str)%nat as Hi'.
    { apply (f_equal length) in Ed. rewrite length_drop in Ed. simpl in Ed. lia. }
    erewrite loop_Next by (rewrite Hal; crun).
    replace (s + Z.of_nat i + 1) with (s + Z.of_nat (S i)) by lia. apply IH; lia.
Qed.

Lemma strlen_words_ok j :
  (j <= length str)%nat → (s + Z.of_nat j) mod 8 = 0 →
  ∃ t word, strlen_words (s + Z.of_nat j) w = Ok ((t, word), w) ∧
            t - 8 + strlen_tail word = s + Z.of_nat (length str).
Proof.
  intros Hj Ha. unfold strlen_words, scan. pose proof (cstr_length _ _ _ Hs) as Hsz.
  assert (length str - j < S (size (mem w)))%nat as Hf by lia. revert Hf.
  generalize (S (size (mem w))) as fuel. intros fuel. clear Hsz. revert j Hj Ha.
  induction fuel as [|fuel IH]; intros j Hj Ha Hf; [lia|].
  destruct (mapped_bytes w (s + Z.of_nat j) 8) as (ws & Hlen & Hws).
  { apply (words_mapped_word w s (Z.of_nat (length str) + 1)); [done|done|lia]. }
  pose proof (mem_ok_bytes _ _ _ Hok Hws) as Hb.
  pose proof (load_le_ok _ _ _ Hws) as Hload. rewrite Hlen in Hload.
  pose proof (le_combine_range _ Hb) as Hr. rewrite Hlen in Hr.
  change (256 ^ Z.of_nat 8) with (2 ^ 64) in Hr.
  destruct (zero_test_flags ws Hb) as (p & Hp & Et & Hi). rewrite Hlen in *.
  rewrite (cstr_first_zero _ _ _ _ (cstr_drop j Hj) Hws), Hlen, length_drop in Hi.
  assert (∀ r, r = Z.land (Z.land (u64 (le_combine ws - magic)) (not64 (le_combine ws)))
            (u64 (Z.shiftl magic 7)) → r = flags p) as Hr'.
  { intros r ->. rewrite strlen_word_test by done. done. }
  case_decide as Hlt.
  - exists (s + Z.of_nat j + 8), (flags p). split.
    + apply loop_Done. rewrite (bind_Ok _ _ _ _ _ Hload). cbv zeta.
      rewrite (Hr' _ eq_refl). destruct (flags p =? 0) eqn:E; [|done].
      apply Z.eqb_eq, flags_zero in E. by rewrite E in Hi.
    + rewrite (strlen_tail_flags _ _ Hp Hi). lia.
  - assert (flags p = 0) as E by (apply flags_zero; done).
    destruct (IH (j + 8)%nat) as (t & word & Hrun & Ht); [lia| |lia|].
    { replace (s + Z.of_nat (j + 8)) with (s + Z.of_nat j + 1 * 8) by lia. by rewrite Z.mod_add. }
    exists t, word. split; [|done]. rewrite <- Hrun.
    replace (s + Z.of_nat (j + 8)) with (s + Z.of_nat j + 8) by lia.
    apply loop_Next. rewrite (bind_Ok _ _ _ _ _ Hload). cbv zeta.
    rewrite (Hr' _ eq_refl), E. done.
Qed.
End strlen.

Lemma strlen_ok w s str :
  mem_ok w → cstr w s str → words_mapped w s (Z.of_nat (length str) + 1) → s ≠ 0 →
  strlen s w = Ok (Z.of_nat (length str), w).
Proof.
  intros Hok Hs Hw Hnz. unfold strlen. cif.
  destruct (strlen_head_ok w s str Hs) as [Hh|(j & Hj & Ha & Hh)];
    rewrite (bind_Ok _ _ _ _ _ Hh); [done|].
  destruct (strlen_words_ok w s str Hok Hs Hw j Hj Ha) as (t & word & Hrun & Ht).
  rewrite (bind_Ok _ _ _ _ _ Hrun). unfold mret, CM_ret. do 2 f_equal. lia.
Qed.

(** C30: the word-at-a-time [strlen] returns the length of the string at any
    alignment, and reads no byte outside the aligned words the string touches. *)
Theorem strlen_correct w s str :
  mem_ok w → cstr w s str → words_mapped w s (Z.of_nat (length str) + 1) → s ≠ 0 →
  strlen s w = Ok (Z.of_nat (length str), w).
Proof. apply strlen_ok. Qed.

(** A string of five bytes, two bytes into a word. *)
Lemma strlen_correct_witness :
  let w := world_of [(1000, replicate 2 7 ++ STR "hello" ++ [0])] in
  strlen 1002 w = Ok (5, w).
Proof.
  intros w. apply (strlen_correct w 1002 (STR "hello")); [world_check..|lia].
Defined.
