(* ===== verification/StrcpyFacts.v ===== *)
(** * The copying string functions

    [strcpy] copies word by word when both pointers sit alike in their words;
    [stpcpy], [strcat], [strncat], [strlcpy], [strlcat] copy bytes. *)

From S2P Require Import Prelude Mem Words MemFuncs Strings StrlenFacts.

(** Source string [str] at [s2], room for it and its terminator at [s1]. *)
Record copy_pre (w : world) (s1 s2 : Z) (str : list Z) : Prop := {
  cp_src : cstr w s2 str;
  cp_dst : mapped w s1 (Z.of_nat (length str) + 1);
  cp_disjoint : disjoint s1 (Z.of_nat (length str) + 1) s2 (Z.of_nat (length str) + 1);
}.

(** After the first bytes [h] of the string were copied, the rest is as before. *)
Lemma copy_pre_step w s1 s2 h t :
  copy_pre w s1 s2 (h ++ t) →
  copy_pre (write_bytes s1 h w) (s1 + Z.of_nat (length h)) (s2 + Z.of_nat (length h)) t.
Proof.
  intros [Hs Hm Hd]. unfold disjoint in Hd. rewrite length_app in *.
  apply cstr_app in Hs as (_ & _ & Hs).
  constructor; [|solve_mapped|unfold disjoint; lia].
  apply write_bytes_cstr_ne; [done|]. unfold disjoint. lia.
Qed.

Lemma copy_pre_tail w s1 s2 c t :
  copy_pre w s1 s2 (c :: t) → copy_pre (write_bytes s1 [c] w) (s1 + 1) (s2 + 1) t.
Proof. exact (copy_pre_step w s1 s2 [c] t). Qed.

Lemma copy_pre_head w s1 s2 c t :
  copy_pre w s1 s2 (c :: t) → mem w !! s2 = Some c ∧ nzbyte c ∧ is_Some (mem w !! s1).
Proof.
  intros [Hs Hm _]. apply cstr_cons in Hs as (Hc & Hnz & _).
  split; [done|]. split; [done|]. apply Hm. simpl. lia.
Qed.

Lemma copy_pre_nil w s1 s2 :
  copy_pre w s1 s2 [] → mem w !! s2 = Some 0 ∧ is_Some (mem w !! s1).
Proof. intros [Hs%cstr_nil Hm _]. split; [done|]. apply Hm. simpl. lia. Qed.

Lemma copy_pre_sizes w s1 s2 str :
  copy_pre w s1 s2 str → (length str < size (mem w))%nat.
Proof. intros [Hs _ _]. by eapply cstr_length. Qed.

(** The loop of the byte copies, for any fuel above the length; [k] is what the
    loop is left with at the terminator. *)
Lemma copy_str_loop {A} (k : Z → Z → A) str s1 s2 w fuel :
  copy_pre w s1 s2 str → (length str < fuel)%nat →
  loop fuel (λ '(s1, s2),
    c ← load s2; _ ← store s1 c;
    if c =? 0 then mret (Done (k s1 s2)) else mret (Next (s1 + 1, s2 + 1))) (s1, s2) w =
  Ok (k (s1 + Z.of_nat (length str)) (s2 + Z.of_nat (length str)),
      write_bytes s1 (str ++ [0]) w).
Proof.
  revert s1 s2 w fuel. induction str as [|c str IH]; intros s1 s2 w fuel Hp Hf;
    (destruct fuel as [|fuel]; [lia|]); cbn [length app] in *.
  - apply copy_pre_nil in Hp as [Hc Hm]. cdone. by rewrite !Z.add_0_r.
  - pose proof Hp as (Hc & Hnz & Hm)%copy_pre_head. unfold nzbyte in Hnz.
    apply copy_pre_tail in Hp. cnext.
    rewrite u8_id by (unfold byte; lia). rewrite (IH _ _ _ fuel Hp) by lia.
    cbn [write_bytes]. cret.
Qed.

Lemma copy_str_ok str s1 s2 w :
  copy_pre w s1 s2 str →
  copy_str s1 s2 w = Ok (s1 + Z.of_nat (length str) + 1, write_bytes s1 (str ++ [0]) w).
Proof.
  intros Hp. unfold copy_str. eapply scan_loop.
  - intros fuel Hf. by apply (copy_str_loop (λ s1 _, s1 + 1)).
  - apply copy_pre_sizes in Hp. lia.
Qed.

(** [stpcpy] copies the string and returns the address of the copied terminator. *)
Lemma stpcpy_ok str s1 s2 w :
  copy_pre w s1 s2 str →
  stpcpy s1 s2 w = Ok (s1 + Z.of_nat (length str), write_bytes s1 (str ++ [0]) w).
Proof.
  intros Hp. unfold stpcpy. rewrite (bind_Ok _ _ _ _ _ (copy_str_ok _ _ _ _ Hp)). cret.
Qed.

(** ** [strcpy] *)

Lemma strcpy_head_ok str n s1 s2 w :
  copy_pre w s1 s2 str → (n < 9)%nat →
  strcpy_head (Z.of_nat n) s1 s2 w =
  (if decide (n <= length str)%nat
   then Ok ((-1, s1 + Z.of_nat n, s2 + Z.of_nat n), write_bytes s1 (take n str) w)
   else Ok ((Z.of_nat (n - length str) - 1, s1 + Z.of_nat (length str) + 1,
             s2 + Z.of_nat (length str) + 1), write_bytes s1 (str ++ [0]) w)).
Proof.
  intros Hp Hn. unfold strcpy_head. gen_fuel n. clear Hn. revert n s1 s2 w fuel Hp Hf.
  induction str as [|c str IH]; intros n s1 s2 w fuel Hp Hf;
    (destruct fuel as [|fuel]; [lia|]); (destruct n as [|n]; [cdone; cbn; by rewrite !Z.add_0_r|]).
  - apply copy_pre_nil in Hp as [Hc Hm]. cdone. cbn [length app]. case_decide; [lia|].
    rewrite Nat.sub_0_r, !Z.add_0_r. done.
  - pose proof Hp as (Hc & Hnz & Hm)%copy_pre_head. unfold nzbyte in Hnz.
    apply copy_pre_tail in Hp. cnext.
    replace (Z.of_nat (S n) - 1) with (Z.of_nat n) by lia.
    rewrite u8_id by (unfold byte; lia). rewrite (IH n _ _ _ fuel Hp) by lia.
    cbn [length take app Nat.sub write_bytes]. repeat case_decide; try lia; cret.
Qed.

(** The bytes of a word in a register. *)
Lemma GFC_cons b l : byte b → GFC (le_combine (b :: l)) = b.
Proof.
  intros Hb. change (GFC ?x) with (u8 x). cbn [le_combine]. unfold byte in Hb. int_lia.
Qed.

Lemma INCSTR_cons b l : byte b → INCSTR (le_combine (b :: l)) = le_combine l.
Proof.
  intros Hb. unfold INCSTR. rewrite Z.shiftr_div_pow2 by lia. change (2 ^ 8) with 256.
  cbn [le_combine]. unfold byte in Hb. Z.div_mod_to_equations. lia.
Qed.

(** The last word: its bytes are written up to the terminator. *)
Lemma strcpy_last_ok u r s1 w :
  Forall nzbyte u → Forall byte r → mapped w s1 (Z.of_nat (length u) + 1) →
  (length u < 9)%nat → strcpy_last s1 (le_combine (u ++ 0 :: r)) w = Ok (tt, write_bytes s1 (u ++ [0]) w).
Proof.
  intros Hu Hr Hm Hlt. unfold strcpy_last. gen_fuel (length u). clear Hlt. revert s1 w fuel Hm Hf.
  induction Hu as [|c u Hc Hu IH]; intros s1 w fuel Hm Hf;
    (destruct fuel as [|fuel]; [lia|]); cbn [app length] in *.
  - apply loop_Done. rewrite GFC_cons by (unfold byte; lia).
    cbv zeta. by rewrite (bind_Ok _ _ _ _ _ (store_mapped _ _ _ _ Hm ltac:(lia))).
  - unfold nzbyte in Hc. erewrite loop_Next; cycle 1.
    { rewrite GFC_cons, INCSTR_cons by (unfold byte; lia). cbv beta iota zeta.
      rewrite (bind_Ok _ _ _ _ _ (store_mapped _ _ _ _ Hm ltac:(lia))). by cif. }
    rewrite u8_id, IH, write_bytes_cons by (done || lia || solve_mapped || unfold byte; lia). done.
Qed.

(** A word read inside the string: either it holds the terminator, or it is
    made of eight bytes of the string. *)
Lemma word_view w t u :
  mem_ok w → cstr w t u → mapped w t 8 →
  ∃ ws, load64 t w = Ok (le_combine ws, w) ∧ length ws = 8%nat ∧ Forall byte ws ∧
    ((haszero (le_combine ws) ≠ 0 ∧ ∃ r, ws = u ++ 0 :: r) ∨
     (haszero (le_combine ws) = 0 ∧ ∃ v, u = ws ++ v)).
Proof.
  intros Hok Hu Hm. destruct (mapped_bytes w t 8 Hm) as (ws & Hlen & Hws).
  pose proof (mem_ok_bytes _ _ _ Hok Hws) as Hb. exists ws.
  pose proof (load_le_ok _ _ _ Hws) as Hload. rewrite Hlen in Hload.
  split; [done|]. split; [done|]. split; [done|].
  pose proof (le_combine_range _ Hb) as Hr. rewrite Hlen in Hr.
  change (256 ^ Z.of_nat 8) with (2 ^ 64) in Hr. rewrite haszero_test by done.
  destruct (zero_test_flags ws Hb) as (p & Hp & Et & Hi). rewrite Hlen in Et. rewrite Et.
  rewrite (cstr_first_zero _ _ _ _ Hu Hws) in Hi. destruct Hu as [Hu Hnz].
  assert (∀ i b, ws !! i = Some b → (i <= length u)%nat → (u ++ [0]) !! i = Some b) as Heq.
  { intros i b Hib Hle. destruct (lookup_lt_is_Some_2 (u ++ [0]) i) as [c Hc];
      [rewrite length_app; simpl; lia|]. rewrite Hc. rewrite <- (Hws _ _ Hib). symmetry. by apply Hu. }
  case_decide as Hlt.
  - left. split; [intros E%flags_zero; congruence|]. exists (drop (S (length u)) ws).
    apply list_eq. intros i. destruct (decide (i <= length u)%nat) as [Hle|Hgt].
    + destruct (lookup_lt_is_Some_2 ws i ltac:(lia)) as [b Hib]. rewrite Hib.
      specialize (Heq _ _ Hib Hle). change (0 :: ?r) with ([0] ++ r). rewrite (assoc_L app).
      symmetry. by apply lookup_app_l_Some.
    + rewrite lookup_app_r by lia. destruct (i - length u)%nat as [|k] eqn:Ek; [lia|].
      transitivity (drop (S (length u)) ws !! k); [|done]. rewrite lookup_drop. f_equal. lia.
  - right. split; [by apply flags_zero|]. exists (drop (length ws) u).
    apply list_eq. intros i. destruct (decide (i < length ws)%nat) as [Hi'|Hi'].
    + destruct (lookup_lt_is_Some_2 ws i Hi') as [b Hib].
      rewrite lookup_app_l by done. rewrite Hib. specialize (Heq _ _ Hib ltac:(lia)).
      by rewrite lookup_app_l in Heq by lia.
    + rewrite lookup_app_r by lia. rewrite lookup_drop. f_equal. lia.
Qed.

Lemma strcpy_words_loop fuel str s1 s2 w :
  mem_ok w → copy_pre w s1 s2 str → words_mapped w s2 (Z.of_nat (length str) + 1) →
  s2 mod 8 = 0 → (length str < fuel)%nat →
  loop fuel strcpy_word_body (s1, s2) w = Ok (tt, write_bytes s1 (str ++ [0]) w).
Proof.
  revert str s1 s2 w. induction fuel as [|fuel IH]; intros str s1 s2 w Hok Hp Hwm Ha Hf; [lia|].
  pose proof (cp_src _ _ _ _ Hp) as Hs. pose proof (cp_dst _ _ _ _ Hp) as Hm.
  destruct (word_view w s2 str Hok Hs) as (ws & Hload & Hlen & Hb & Hcase).
  { by apply (words_mapped_word w s2 (Z.of_nat (length str) + 1)); [| |lia]. }
  destruct Hcase as [(Hz & r & ->)|(Hz & v & ->)].
  - assert (length str < 9)%nat by (rewrite length_app in Hlen; simpl in Hlen; lia).
    apply Forall_app in Hb as [_ [_ Hr]%Forall_cons]. destruct Hs as [_ Hnz].
    pose proof (strcpy_last_ok str r s1 w Hnz Hr Hm ltac:(lia)) as Hlast.
    apply loop_Done. unfold strcpy_word_body. rewrite (bind_Ok _ _ _ _ _ Hload). cif.
    by rewrite (bind_Ok _ _ _ _ _ Hlast).
  - pose proof (copy_pre_step _ _ _ _ _ Hp) as Hp'. rewrite length_app, Hlen in *.
    pose proof (store_le_combine w s1 ws 8 Hlen ltac:(solve_mapped) Hb) as Hstore.
    erewrite loop_Next; cycle 1.
    { unfold strcpy_word_body. rewrite (bind_Ok _ _ _ _ _ Hload). cif.
      by rewrite (bind_Ok _ _ _ _ _ Hstore). }
    change (Z.of_nat 8) with 8 in Hp'. rewrite (IH v); [|by apply write_bytes_mem_ok|done| | |lia].
    + rewrite <- (assoc_L app ws v [0]), (write_bytes_app s1 ws), Hlen. done.
    + apply write_bytes_words_mapped. eapply words_mapped_sub; [done|lia|lia].
    + replace (s2 + 8) with (s2 + 1 * 8) by lia. by rewrite Z.mod_add.
Qed.

Lemma strcpy_words_ok str s1 s2 w :
  mem_ok w → copy_pre w s1 s2 str → words_mapped w s2 (Z.of_nat (length str) + 1) →
  s2 mod 8 = 0 → scan strcpy_word_body (s1, s2) w = Ok (tt, write_bytes s1 (str ++ [0]) w).
Proof.
  intros Hok Hp Hwm Ha. eapply scan_loop.
  - intros fuel Hf. by apply strcpy_words_loop.
  - apply copy_pre_sizes in Hp. lia.
Qed.

(** C31: [strcpy] writes the string with its terminator at the destination, at any
    pair of alignments, touches nothing else, and returns the destination. *)
Theorem strcpy_correct str s1 s2 w :
  mem_ok w → copy_pre w s1 s2 str → words_mapped w s2 (Z.of_nat (length str) + 1) →
  strcpy s1 s2 w = Ok (s1, write_bytes s1 (str ++ [0]) w).
Proof.
  intros Hok Hp Hwm. unfold strcpy. cbv zeta.
  destruct (UNALIGNED s1 s2 =? 0) eqn:Hu; cbn [negb]; cbv iota; cycle 1.
  { by rewrite (bind_Ok _ _ _ _ _ (copy_str_ok _ _ _ _ Hp)). }
  apply Z.eqb_eq, UNALIGNED_zero in Hu.
  rewrite STRALIGN_mod. pose proof (Z.mod_pos_bound (- s1) 8 ltac:(lia)) as Ht.
  assert ((s2 + (- s1) mod 8) mod 8 = 0) as Ha by (Z.div_mod_to_equations; lia).
  set (tmp := (- s1) mod 8) in *. clearbody tmp.
  assert (∀ h t, str = h ++ t → Z.of_nat (length h) = tmp →
    (_ ← scan strcpy_word_body (s1 + tmp, s2 + tmp); mret s1) (write_bytes s1 h w) =
    Ok (s1, write_bytes s1 (str ++ [0]) w)) as Hrest.
  { intros h t -> Hh. pose proof (copy_pre_step _ _ _ _ _ Hp) as Hp'.
    destruct Hp as [[_ Hnz] _ _]. rewrite length_app in Hwm. rewrite Hh in Hp'.
    erewrite bind_Ok; cycle 1.
    { apply (strcpy_words_ok t); [|done| |done].
      - apply write_bytes_mem_ok; [done|]. apply Forall_nzbyte_byte.
        by apply Forall_app in Hnz as [? _].
      - apply write_bytes_words_mapped. eapply words_mapped_sub; [done|lia|lia]. }
    by rewrite <- (assoc_L app), (write_bytes_app s1 h), Hh. }
  destruct (tmp =? 0) eqn:Hz; cbn [negb]; cbv iota.
  - specialize (Hrest [] str eq_refl). replace tmp with 0 in Hrest by lia.
    rewrite !Z.add_0_r in Hrest. by apply Hrest.
  - pose proof (strcpy_head_ok str (Z.to_nat tmp) s1 s2 w Hp ltac:(lia)) as Hh.
    rewrite Z2Nat.id in Hh by lia. case_decide as Hlen.
    + rewrite (bind_Ok _ _ _ _ _ Hh). apply (Hrest _ (drop (Z.to_nat tmp) str)).
      * by rewrite take_drop.
      * rewrite length_take. lia.
    + rewrite (bind_Ok _ _ _ _ _ Hh). by cif.
Qed.

(** Eleven bytes between addresses of different alignment. *)
Lemma strcpy_correct_witness :
  let w := world_of [(1000, [7] ++ STR "hello world" ++ replicate 4 0); (2000, replicate 24 7)] in
  strcpy 2003 1001 w = Ok (2003, write_bytes 2003 (STR "hello world" ++ [0]) w).
Proof.
  intros w. apply (strcpy_correct (STR "hello world"));
    [world_check|split; [world_check|world_check|right; discriminate]|world_check].
Defined.

(** ** [strcat] *)

(** [strcat] appends the source, with its terminator, over the terminator of
    the destination, touches nothing else, and returns the destination. *)
Theorem strcat_correct a b s t w :
  mem_ok w → cstr w s a → words_mapped w s (Z.of_nat (length a) + 1) → s ≠ 0 →
  copy_pre w (s + Z.of_nat (length a)) t b →
  strcat s t w = Ok (s, write_bytes (s + Z.of_nat (length a)) (b ++ [0]) w).
Proof.
  intros Hok Ha Hwm Hnz Hp. unfold strcat. cbv zeta.
  rewrite (bind_Ok _ _ _ _ _ (strlen_ok w s a Hok Ha Hwm Hnz)).
  erewrite bind_Ok; [reflexivity|]. eapply scan_loop.
  - intros fuel Hf. apply loop_unroll; [lia|]. by apply (copy_str_loop (λ _ _, tt)).
  - apply copy_pre_sizes in Hp. lia.
Qed.

Lemma strcat_correct_witness :
  let w := world_of [(1000, STR "world" ++ replicate 3 0); (2000, STR "hello " ++ replicate 18 0)] in
  strcat 2000 1000 w = Ok (2000, write_bytes 2006 (STR "world" ++ [0]) w).
Proof.
  intros w. apply (strcat_correct (STR "hello ") (STR "world"));
    [world_check|world_check|world_check|discriminate|
     split; [world_check|world_check|right; discriminate]].
Defined.

(** The concatenated string is then at the destination. *)
Lemma strcat_cstr a b s t w :
  cstr w s a → copy_pre w (s + Z.of_nat (length a)) t b →
  cstr (write_bytes (s + Z.of_nat (length a)) (b ++ [0]) w) s (a ++ b).
Proof.
  intros [Ha Hna] [[Hb Hnb] Hm Hd]. apply bytes_at_app in Ha as [Ha _].
  apply cstr_app. split; [|split; [done|by apply cstr_write]].
  apply write_bytes_bytes_at_ne; [done|]. unfold disjoint. lia.
Qed.
