(* ===== verification/StrlFacts.v ===== *)
(** * The bounded string copies

    [strlcpy], [strlcat] and [strncat]: truncation, termination, the returned
    length, and the byte [strlcat] reads past an unterminated destination. *)

From S2P Require Import Prelude Mem Words MemFuncs Strings StrlenFacts StrcpyFacts.

(** Source string [str] at [s], room for [n] bytes at [d]. *)
Record bounded_pre (w : world) (d n s : Z) (str : list Z) : Prop := {
  bp_src : cstr w s str;
  bp_dst : mapped w d n;
  bp_disjoint : disjoint d n s (Z.of_nat (length str) + 1);
}.

Lemma bounded_pre_tail w d n s c t :
  0 < n → bounded_pre w d n s (c :: t) →
  bounded_pre (write_bytes d [c] w) (d + 1) (n - 1) (s + 1) t.
Proof.
  intros Hn [Hs Hm Hd]. unfold disjoint in Hd. cbn [length] in *.
  apply cstr_cons in Hs as (_ & _ & Hs). constructor; [|solve_mapped|unfold disjoint; lia].
  apply write_bytes_cstr_ne; [done|]. unfold disjoint. simpl. lia.
Qed.

(** Skipping to the end of a string. *)
Lemma skip_string str s w :
  cstr w s str →
  scan (λ s, c ← load s; if c =? 0 then mret (Done (s + 1)) else mret (Next (s + 1))) s w =
  Ok (s + Z.of_nat (length str) + 1, w).
Proof.
  intros Hs. eapply scan_loop with (n := length str);
    [|apply cstr_length in Hs; lia]. intros fuel Hf. revert s fuel Hs Hf.
  induction str as [|c str IH]; intros s fuel Hs Hf; (destruct fuel as [|fuel]; [lia|]).
  - apply cstr_nil in Hs. cdone. by rewrite Z.add_0_r.
  - apply cstr_cons in Hs as (Hc & Hnz & Hs). unfold nzbyte in Hnz. cbn [length] in *.
    cnext. rewrite IH by (done || lia). cret.
Qed.

(** ** [strlcpy] *)

Lemma strlcpy_loop str d s n w fuel :
  bounded_pre w d (Z.of_nat (S n)) s str → (length str < fuel)%nat →
  loop fuel (λ '(d, s, n),
    c ← load s; _ ← store d c;
    let d := d + 1 in let s := s + 1 in
    if c =? 0 then mret (Done (d, s, n)) else
    let n := n - 1 in
    if negb (n =? 0) then mret (Next (d, s, n)) else mret (Done (d, s, n)))
    (d, s, Z.of_nat (S n)) w =
  (if decide (length str <= n)%nat
   then Ok ((d + Z.of_nat (length str) + 1, s + Z.of_nat (length str) + 1,
             Z.of_nat (S n - length str)), write_bytes d (str ++ [0]) w)
   else Ok ((d + Z.of_nat (S n), s + Z.of_nat (S n), 0), write_bytes d (take (S n) str) w)).
Proof.
  revert d s n w fuel. induction str as [|c str IH]; intros d s n w fuel Hp Hf;
    (destruct fuel as [|fuel]; [lia|]); pose proof (bp_dst _ _ _ _ _ Hp) as Hm;
    pose proof (bp_src _ _ _ _ _ Hp) as Hs.
  - apply cstr_nil in Hs. cdone. rewrite decide_True by (simpl; lia). cbn. cret.
  - apply cstr_cons in Hs as (Hc & Hnz & _). unfold nzbyte in Hnz.
    apply bounded_pre_tail in Hp; [|lia]. cbn [length] in *.
    replace (Z.of_nat (S n) - 1) with (Z.of_nat n) in Hp by lia.
    destruct n as [|n].
    + cdone. rewrite u8_id by (unfold byte; lia). rewrite decide_False by lia. done.
    + cnext. rewrite u8_id by (unfold byte; lia).
      replace (Z.of_nat (S (S n)) - 1) with (Z.of_nat (S n)) by lia.
      rewrite (IH _ _ _ _ fuel Hp) by lia. cbn [take app write_bytes].
      repeat case_decide; try lia; cret.
Qed.

(** What [strlcpy] and [strlcat] leave of a string when [n] bytes are left for it. *)
Definition truncated (n : nat) (str : list Z) : list Z := take (n - 1) str ++ [0].

(** [strlcpy] returns the length of the source, writes its first [siz - 1]
    bytes and a terminator, always terminating when [siz] is not 0, writes
    nothing when it is, and nothing outside the [siz] bytes of the destination. *)
Theorem strlcpy_correct str d s siz w :
  bounded_pre w d (Z.of_nat siz) s str →
  strlcpy d s (Z.of_nat siz) w =
  Ok (Z.of_nat (length str),
      match siz with O => w | _ => write_bytes d (truncated siz str) w end).
Proof.
  intros Hp. unfold strlcpy. pose proof Hp as [Hs Hm Hd]. destruct siz as [|[|n]].
  - change (Z.of_nat 0) with 0. cbv zeta. cif. erewrite bind_Ok by reflexivity.
    cbv beta iota. repeat cif. rewrite bind_assoc. erewrite bind_Ok by reflexivity.
    rewrite (bind_Ok _ _ _ _ _ (skip_string str s w Hs)). cret.
  - assert (bounded_pre w d 1 s str) as [] by done.
    assert (store d 0 w = Ok (tt, write_bytes d [0] w)) as Hst by (by apply (store_zero _ _ 1)).
    change (Z.of_nat 1) with 1. cbv zeta. cif. cif. erewrite bind_Ok by reflexivity.
    cbv beta iota. repeat cif. rewrite bind_assoc, (bind_Ok _ _ _ _ _ Hst).
    assert (cstr (write_bytes d [0] w) s str) as Hs'
      by (apply write_bytes_cstr_ne; [done|unfold disjoint in *; simpl; lia]).
    rewrite (bind_Ok _ _ _ _ _ (skip_string str s _ Hs')). unfold truncated. simpl. cret.
  - cbv zeta. cif. replace (Z.of_nat (S (S n)) - 1) with (Z.of_nat (S n)) by lia. cif.
    assert (bounded_pre w d (Z.of_nat (S n)) s str) as Hp'
      by (constructor; [done|solve_mapped|unfold disjoint in *; lia]).
    pose proof (λ f Hf, strlcpy_loop _ _ _ _ _ f Hp' Hf) as Hrun.
    apply scan_loop in Hrun; [|apply cstr_length in Hs; lia].
    case_decide as Hlen; rewrite (bind_Ok _ _ _ _ _ Hrun); cbv beta iota zeta.
    + cif. erewrite bind_Ok by reflexivity. unfold truncated. rewrite take_ge by lia. cret.
    + repeat cif. rewrite bind_assoc.
      set (w1 := write_bytes d (take (S n) str) w).
      assert (length (take (S n) str) = S n) as Htake by (rewrite length_take; lia).
      assert (store (d + Z.of_nat (S n)) 0 w1 =
              Ok (tt, write_bytes (d + Z.of_nat (S n)) [0] w1)) as Hst
        by (apply (store_zero _ _ 1); [unfold w1; solve_mapped|lia]).
      rewrite (bind_Ok _ _ _ _ _ Hst).
      assert (write_bytes (d + Z.of_nat (S n)) [0] w1 = write_bytes d (truncated (S (S n)) str) w) as ->.
      { unfold truncated, w1. replace (S (S n) - 1)%nat with (S n) by lia. by rewrite write_bytes_app, Htake. }
      set (w2 := write_bytes d (truncated _ _) w).
      assert (cstr w2 s str) as Hs2.
      { apply write_bytes_cstr_ne; [done|]. unfold truncated. rewrite length_app, length_take.
        unfold disjoint in *. cbn [length]. lia. }
      rewrite <- (take_drop (S n) str) in Hs2. apply cstr_app in Hs2 as (_ & _ & Hs2).
      rewrite Htake in Hs2. rewrite (bind_Ok _ _ _ _ _ (skip_string _ _ _ Hs2)), length_drop. cret.
Qed.

(** A buffer of four bytes takes three of the five characters. *)
Lemma strlcpy_correct_witness :
  let w := world_of [(1000, STR "world" ++ [0]); (2000, replicate 4 7)] in
  strlcpy 2000 1000 4 w = Ok (5, write_bytes 2000 (STR "wor" ++ [0]) w).
Proof.
  intros w. apply (strlcpy_correct (STR "world") 2000 1000 4);
    split; [world_check|world_check|right; discriminate].
Defined.

(** ** [strlcat] *)

(** The first loop stops at the terminator of the destination or after [n] bytes. *)
Lemma strlcat_find a d n w fuel :
  cstr w d a → Z.of_nat (length a) <= n → (length a < fuel)%nat →
  loop fuel (λ '(d, n),
    c ← load d;
    if c =? 0 then mret (Done d) else
    if n =? 0 then mret (Done d) else mret (Next (d + 1, n - 1))) (d, n) w =
  Ok (d + Z.of_nat (length a), w).
Proof.
  revert d n fuel. induction a as [|c a IH]; intros d n fuel Ha Hn Hf;
    (destruct fuel as [|fuel]; [lia|]).
  - apply cstr_nil in Ha. cdone. by rewrite Z.add_0_r.
  - apply cstr_cons in Ha as (Hc & Hnz & Ha). unfold nzbyte in Hnz. cbn [length] in *.
    cnext. rewrite IH by (done || lia). cret.
Qed.

Lemma strlcat_loop str d s n w fuel :
  bounded_pre w d (Z.of_nat (S n)) s str → Z.of_nat (S n) < 2 ^ 64 → (length str < fuel)%nat →
  loop fuel (λ '(d, s, n),
    c ← load s;
    if c =? 0 then mret (Done (d, s)) else
    if negb (n =? 1) then
      _ ← store d c; mret (Next (d + 1, s + 1, u64 (n - 1)))
    else mret (Next (d, s + 1, n))) (d, s, Z.of_nat (S n)) w =
  Ok ((d + Z.of_nat (length (take n str)), s + Z.of_nat (length str)),
      write_bytes d (take n str) w).
Proof.
  revert d s n w fuel. induction str as [|c str IH]; intros d s n w fuel Hp Hn Hf;
    (destruct fuel as [|fuel]; [lia|]); pose proof (bp_dst _ _ _ _ _ Hp) as Hm;
    pose proof (bp_src _ _ _ _ _ Hp) as Hs.
  - apply cstr_nil in Hs. cdone. rewrite take_nil. cbn. cret.
  - apply cstr_cons in Hs as (Hc & Hnz & Hs). unfold nzbyte in Hnz. cbn [length] in *.
    destruct n as [|n].
    + cnext. assert (bounded_pre w d (Z.of_nat 1) (s + 1) str) as Hp'.
      { destruct Hp as [_ ? Hd]. constructor; [done|done|]. unfold disjoint in *. simpl in *. lia. }
      rewrite (IH _ _ 0%nat _ fuel Hp') by lia. cbn. cret.
    + apply bounded_pre_tail in Hp; [|lia].
      replace (Z.of_nat (S (S n)) - 1) with (Z.of_nat (S n)) in Hp by lia. cnext.
      replace (u64 (Z.of_nat (S (S n)) - 1)) with (Z.of_nat (S n)) by int_lia.
      rewrite u8_id by (unfold byte; lia). rewrite (IH _ _ _ _ fuel Hp) by lia.
      cbn [take length write_bytes]. cret.
Qed.



(** The loop of [strlcat] tests the byte before it tests the count, so with no
    terminator in the [siz] bytes it reads the byte behind them. *)
Lemma strlcat_overread_loop l d n w fuel :
  bytes_at w d l → Forall nzbyte l → n = Z.of_nat (length l) → (length l < fuel)%nat →
  mem w !! (d + n) = None →
  loop fuel (λ '(d, n),
    c ← load d;
    if c =? 0 then mret (Done d) else
    if n =? 0 then mret (Done d) else mret (Next (d + 1, n - 1))) (d, n) w = Fault.
Proof.
  intros Hl Hnz. revert d n fuel Hl. induction Hnz as [|c l Hc Hnz IH]; intros d n fuel Hl Hn Hf Hend;
    (destruct fuel as [|fuel]; [lia|]); cbn [length] in *.
  - subst n. apply loop_Fault. apply bind_Fault, load_fault. by rewrite Z.add_0_r in Hend.
  - apply bytes_at_cons in Hl as [H0 Hl]. unfold nzbyte in Hc. cnext.
    apply IH; [done|lia|lia|]. rewrite <- Hend. f_equal. lia.
Qed.

(** On a full destination, [siz] bytes without a terminator, [strlcat] reads
    the byte behind the destination, although its comment says "don't go past
    end": when that byte is not mapped the program faults. *)
Theorem strlcat_overread l d s w :
  bytes_at w d l → Forall nzbyte l → mem w !! (d + Z.of_nat (length l)) = None →
  strlcat d s (Z.of_nat (length l)) w = Fault.
Proof.
  intros Hl Hnz Hend. unfold strlcat. cbv zeta. apply bind_Fault.
  apply (scan_loop _ _ _ (length l)); [|by eapply bytes_at_length].
  intros fuel Hf. by apply strlcat_overread_loop with (l := l).
Qed.

Lemma strlcat_overread_witness :
  strlcat 2000 1000 4 (world_of [(1000, STR "x" ++ [0]); (2000, STR "full")]) = Fault.
Proof. apply (strlcat_overread (STR "full")); [world_check|world_check|vm_compute; reflexivity]. Defined.

(** ** [strncat] *)

Lemma strncat_loop str s t n w fuel :
  bounded_pre w s (Z.of_nat (S (S n))) t str → (length str < fuel)%nat →
  loop fuel (λ '(s', t),
    c ← load t; _ ← store s' c;
    if c =? 0 then mret (Done s') else
    let s' := s' + 1 in
    if s' =? s + Z.of_nat (S n) then mret (Done s') else mret (Next (s', t + 1))) (s, t) w =
  Ok (s + Z.of_nat (length (take (S n) str)),
      write_bytes s (take (S n) (str ++ [0])) w).
Proof.
  intros Hp. replace (s + Z.of_nat (S n)) with (s + Z.of_nat (S n)) by done.
  remember (s + Z.of_nat (S n)) as max eqn:Emax. revert s t n w fuel Hp Emax.
  induction str as [|c str IH]; intros s t n w fuel Hp Emax Hf;
    (destruct fuel as [|fuel]; [lia|]); pose proof (bp_dst _ _ _ _ _ Hp) as Hm;
    pose proof (bp_src _ _ _ _ _ Hp) as Hs.
  - apply cstr_nil in Hs. cdone. cbn. rewrite ?take_nil. by rewrite Z.add_0_r.
  - apply cstr_cons in Hs as (Hc & Hnz & Hs). unfold nzbyte in Hnz. cbn [length] in *.
    apply bounded_pre_tail in Hp; [|lia].
    replace (Z.of_nat (S (S n)) - 1) with (Z.of_nat (S n)) in Hp by lia.
    destruct n as [|n].
    + cdone. rewrite u8_id by (unfold byte; lia). cbn. done.
    + cnext. rewrite u8_id by (unfold byte; lia).
      rewrite (IH _ _ n _ fuel Hp) by lia. cbn [take app length write_bytes]. cret.
Qed.

(** [strncat] appends the first [n] bytes of the source at most, always with a
    terminator after them, and writes nothing else. *)
Theorem strncat_correct a b s t n w :
  mem_ok w → cstr w s a → words_mapped w s (Z.of_nat (length a) + 1) → 0 < s →
  s + Z.of_nat (length a) + Z.of_nat n < 2 ^ 64 →
  bounded_pre w (s + Z.of_nat (length a)) (Z.of_nat (S n)) t b →
  strncat s t (Z.of_nat n) w =
  Ok (s, match n with O => w | _ => write_bytes (s + Z.of_nat (length a)) (take n b ++ [0]) w end).
Proof.
  intros Hok Ha Hwm Hpos Hn Hp. unfold strncat. cbv zeta.
  rewrite (bind_Ok _ _ _ _ _ (strlen_ok w s a Hok Ha Hwm ltac:(lia))).
  set (e := s + Z.of_nat (length a)) in *.
  rewrite (u64_id (e + Z.of_nat n)) by lia. destruct n as [|n]; [by cif|]. cif.
  pose proof Hp as [Hs Hm Hd]. pose proof (cstr_length _ _ _ Hs) as Hf.
  erewrite bind_Ok; cycle 1.
  { eapply (scan_loop _ _ _ (length b)); [|lia]. intros f Hlt. apply loop_unroll; [lia|].
    by apply strncat_loop. }
  cbv beta. erewrite bind_Ok; cycle 1.
  { apply (store_zero _ _ 1); [|lia]. apply write_bytes_mapped. eapply mapped_sub; [done|lia|].
    rewrite length_take. lia. }
  unfold mret, CM_ret. do 2 f_equal. destruct (decide (S n <= length b)%nat) as [Hle|Hgt].
  - by rewrite take_app_le, <- write_bytes_app by lia.
  - rewrite !take_ge by (rewrite ?length_app; simpl; lia). rewrite write_bytes_app.
    apply write_bytes_id, write_bytes_at.
Qed.

Lemma strncat_correct_witness :
  let w := world_of [(1000, STR "world" ++ replicate 3 0); (2000, STR "oh " ++ replicate 5 0)] in
  strncat 2000 1000 2 w = Ok (2000, write_bytes 2003 (STR "wo" ++ [0]) w).
Proof.
  intros w. apply (strncat_correct (STR "oh ") (STR "world") 2000 1000 2);
    [world_check|world_check|world_check|reflexivity|reflexivity|
     split; [world_check|world_check|right; discriminate]].
Defined.
