(* ===== verification/StrcmpFacts.v ===== *)
(** * String comparison

    [strcmp] compares [char]s (signed) in its byte loops and [unsigned char]s in
    its word loop: the results agree on 7-bit strings and on equality, and their
    sign depends on the alignment of the pointers for other strings. *)

From S2P Require Import Prelude Mem Words MemFuncs Strings StrlenFacts StrcpyFacts.

(** The comparison of two strings, terminators included, as [unsigned char]s
    and as [char]s. *)
Definition cmp_unsigned (a b : list Z) : Z := cmp_ref (a ++ [0]) (b ++ [0]).
Definition cmp_signed (a b : list Z) : Z := cmp_ref (s8 <$> a ++ [0]) (s8 <$> b ++ [0]).

Lemma cmp_unsigned_cons c d a b :
  cmp_unsigned (c :: a) (d :: b) = if c =? d then cmp_unsigned a b else c - d.
Proof. done. Qed.

Lemma cmp_signed_cons c d a b :
  nzbyte c → nzbyte d →
  cmp_signed (c :: a) (d :: b) = if c =? d then cmp_signed a b else s8 c - s8 d.
Proof.
  intros Hc%nzbyte_byte Hd%nzbyte_byte. unfold cmp_signed. cbn [app fmap list_fmap cmp_ref].
  destruct (Z.eqb_spec c d) as [->|Hne]; [by rewrite Z.eqb_refl|].
  destruct (Z.eqb_spec (s8 c) (s8 d)) as [E|]; [|done]. by apply s8_inj in E.
Qed.

Lemma cmp_signed_end c b : nzbyte c → cmp_signed [] (c :: b) = - s8 c ∧ cmp_signed (c :: b) [] = s8 c.
Proof.
  intros Hc. unfold cmp_signed. cbn [app fmap list_fmap cmp_ref].
  assert (s8 c ≠ 0) by (unfold nzbyte in Hc; int_lia). change (s8 0) with 0.
  replace (s8 c =? 0) with false by lia. replace (0 =? s8 c) with false by lia. lia.
Qed.

Lemma cmp_unsigned_end c b : nzbyte c → cmp_unsigned [] (c :: b) = - c ∧ cmp_unsigned (c :: b) [] = c.
Proof.
  intros Hc. unfold cmp_unsigned, nzbyte in *. cbn [app cmp_ref].
  replace (c =? 0) with false by lia. replace (0 =? c) with false by lia. lia.
Qed.

Lemma cmp_signed_app h a b : Forall nzbyte h → cmp_signed (h ++ a) (h ++ b) = cmp_signed a b.
Proof.
  induction 1 as [|c h Hc _ IH]; [done|]. cbn [app]. by rewrite cmp_signed_cons, Z.eqb_refl.
Qed.

Lemma cmp_unsigned_app h a b : cmp_unsigned (h ++ a) (h ++ b) = cmp_unsigned a b.
Proof. induction h as [|c h IH]; [done|]. cbn [app]. by rewrite cmp_unsigned_cons, Z.eqb_refl. Qed.

Lemma cmp_unsigned_zero a b :
  Forall nzbyte a → Forall nzbyte b → cmp_unsigned a b = 0 ↔ a = b.
Proof.
  intros Ha. revert b. induction Ha as [|c a Hc Ha IH]; intros b Hb; destruct Hb as [|d b Hd Hb].
  - done.
  - destruct (cmp_unsigned_end d b Hd) as [-> _]. unfold nzbyte in Hd. split; [lia|done].
  - destruct (cmp_unsigned_end c a Hc) as [_ ->]. unfold nzbyte in Hc. split; [lia|done].
  - rewrite cmp_unsigned_cons. destruct (Z.eqb_spec c d) as [->|Hne].
    + rewrite IH by done. naive_solver.
    + split; [lia|naive_solver].
Qed.

Lemma cmp_signed_zero a b :
  Forall nzbyte a → Forall nzbyte b → cmp_signed a b = 0 ↔ a = b.
Proof.
  intros Ha. revert b. induction Ha as [|c a Hc Ha IH]; intros b Hb; destruct Hb as [|d b Hd Hb].
  - done.
  - destruct (cmp_signed_end d b Hd) as [-> _]. unfold nzbyte in Hd.
    split; [intros E; exfalso; int_lia|done].
  - destruct (cmp_signed_end c a Hc) as [_ ->]. unfold nzbyte in Hc.
    split; [intros E; exfalso; int_lia|done].
  - rewrite cmp_signed_cons by done. destruct (Z.eqb_spec c d) as [->|Hne].
    + rewrite IH by done. naive_solver.
    + split; [intros E|naive_solver].
      exfalso. apply Hne, s8_inj; [by apply nzbyte_byte..|lia].
Qed.

(** On 7-bit strings the two comparisons agree. *)
Lemma cmp_signed_ascii a b :
  Forall (λ c, 0 < c < 128) a → Forall (λ c, 0 < c < 128) b → cmp_signed a b = cmp_unsigned a b.
Proof.
  intros Ha. revert b. induction Ha as [|c a Hc Ha IH]; intros b Hb; destruct Hb as [|d b Hd Hb].
  - done.
  - assert (nzbyte d) as Hn by (unfold nzbyte; lia).
    destruct (cmp_signed_end d b Hn) as [-> _], (cmp_unsigned_end d b Hn) as [-> _]. int_lia.
  - assert (nzbyte c) as Hn by (unfold nzbyte; lia).
    destruct (cmp_signed_end c a Hn) as [_ ->], (cmp_unsigned_end c a Hn) as [_ ->]. int_lia.
  - rewrite cmp_signed_cons, cmp_unsigned_cons by (unfold nzbyte; lia).
    destruct (c =? d); [by apply IH|int_lia].
Qed.

(** ** The byte loops *)

Lemma strcmp_bytes_ok a b s1 s2 w :
  cstr w s1 a → cstr w s2 b → strcmp_bytes s1 s2 w = Ok (cmp_signed a b, w).
Proof.
  intros Ha Hb.
  assert (∀ fuel, (length a < fuel)%nat → ∃ p1 p2 x y,
    loop fuel (λ '(s1, s2),
      x ← load s1;
      if x =? 0 then mret (Done (s1, s2)) else
      y ← load s2;
      if x =? y then mret (Next (s1 + 1, s2 + 1)) else mret (Done (s1, s2))) (s1, s2) w =
    Ok ((p1, p2), w) ∧ mem w !! p1 = Some x ∧ mem w !! p2 = Some y ∧
    s8 x - s8 y = cmp_signed a b) as H.
  { clear -Ha Hb. revert b s1 s2 Ha Hb. induction a as [|c a IH]; intros b s1 s2 Ha Hb fuel Hf;
      (destruct fuel as [|fuel]; [lia|]); cbn [length] in *.
    - apply cstr_nil in Ha. exists s1, s2, 0. destruct b as [|d b].
      + apply cstr_nil in Hb. exists 0. split; [by cdone|done].
      + apply cstr_cons in Hb as (Hd & Hn & _). exists d. split; [by cdone|].
        split; [done|]. split; [done|]. destruct (cmp_signed_end d b Hn) as [-> _]. done.
    - apply cstr_cons in Ha as (Hc & Hnc & Ha). unfold nzbyte in Hnc. destruct b as [|d b].
      + apply cstr_nil in Hb. exists s1, s2, c, 0. split; [by cdone|].
        split; [done|]. split; [done|]. destruct (cmp_signed_end c a Hnc) as [_ ->].
        change (s8 0) with 0. lia.
      + apply cstr_cons in Hb as (Hd & Hnd & Hb).
        destruct (decide (c = d)) as [->|Hne].
        * destruct (IH b _ _ Ha Hb fuel ltac:(lia)) as (p1 & p2 & x & y & Hrun & Hx & Hy & E).
          exists p1, p2, x, y. cnext. rewrite Hrun. split; [done|]. split; [done|]. split; [done|].
          by rewrite cmp_signed_cons, Z.eqb_refl by done.
        * exists s1, s2, c, d. split; [by cdone|]. split; [done|]. split; [done|].
          rewrite cmp_signed_cons by done. by replace (c =? d) with false by lia. }
  destruct (H (S (size (mem w)))) as (p1 & p2 & x & y & Hrun & Hx & Hy & E);
    [apply cstr_length in Ha; lia|].
  unfold strcmp_bytes. erewrite bind_Ok; [|exact Hrun]. cbv beta iota. cstep. cstep.
  by rewrite E.
Qed.

Lemma strcmp_head_ok a b n s1 s2 w :
  cstr w s1 a → cstr w s2 b → (n < 9)%nat →
  strcmp_head (Z.of_nat n) s1 s2 w = Ok (inl (cmp_signed a b), w) ∨
  (∃ h a' b', a = h ++ a' ∧ b = h ++ b' ∧ length h = n ∧
    strcmp_head (Z.of_nat n) s1 s2 w = Ok (inr (s1 + Z.of_nat n, s2 + Z.of_nat n), w)).
Proof.
  intros Ha Hb Hn. unfold strcmp_head. gen_fuel n. clear Hn. revert a b s1 s2 fuel Ha Hb Hf.
  induction n as [|n IH]; intros a b s1 s2 fuel Ha Hb Hf; (destruct fuel as [|fuel]; [lia|]).
  { right. exists [], a, b. repeat (split; [done|]). cdone. by rewrite !Z.add_0_r. }
  destruct a as [|c a].
  { left. apply cstr_nil in Ha. destruct b as [|d b].
    - apply cstr_nil in Hb. by cdone.
    - apply cstr_cons in Hb as (Hd & Hnd & _). cdone.
      destruct (cmp_signed_end d b Hnd) as [-> _]. done. }
  apply cstr_cons in Ha as (Hc & Hnc & Ha). unfold nzbyte in Hnc. destruct b as [|d b].
  { left. apply cstr_nil in Hb. cdone. destruct (cmp_signed_end c a Hnc) as [_ ->].
    change (s8 0) with 0. cret. }
  apply cstr_cons in Hb as (Hd & Hnd & Hb). destruct (decide (c = d)) as [->|Hne]; cycle 1.
  { left. cdone. rewrite cmp_signed_cons by done. by replace (c =? d) with false by lia. }
  rewrite cmp_signed_cons, Z.eqb_refl by done.
  destruct (IH a b _ _ fuel Ha Hb ltac:(lia)) as [Hrun|(h & a' & b' & -> & -> & Hh & Hrun)].
  - left. cnext. replace (Z.of_nat (S n) - 1) with (Z.of_nat n) by lia. done.
  - right. exists (d :: h), a', b'. repeat (split; [simpl; auto|]). cnext.
    replace (Z.of_nat (S n) - 1) with (Z.of_nat n) by lia. rewrite Hrun. cret.
Qed.

(** ** The word loop *)

(** The word [ws] starts the string [a] with its terminator, or holds all of it. *)
Definition starts (ws a : list Z) : Prop := (∃ v, a = ws ++ v) ∨ (∃ r, ws = a ++ 0 :: r).

Lemma starts_cons x ws c a : starts (x :: ws) (c :: a) → x = c ∧ starts ws a.
Proof.
  intros [[v [= <- ->]]|[r [= -> ->]]]; (split; [done|]); [left|right]; eauto.
Qed.

Lemma starts_nil x ws : starts (x :: ws) [] → x = 0.
Proof. by intros [[v [=]]|[r [= -> _]]]. Qed.

(** Either the two words are the same eight bytes inside the two strings, or
    their bytes decide the comparison. *)
Lemma strcmp_in_word_ok ws1 ws2 a b w :
  starts ws1 a → starts ws2 b → length ws1 = length ws2 → (length ws1 < 9)%nat →
  Forall byte ws1 → Forall byte ws2 → Forall nzbyte a → Forall nzbyte b →
  (∃ v1 v2, a = ws1 ++ v1 ∧ b = ws2 ++ v2 ∧ ws1 = ws2) ∨
  strcmp_in_word (le_combine ws1) (le_combine ws2) w = Ok (cmp_unsigned a b, w).
Proof.
  intros Hs1 Hs2 Hlen Hlt Hb1 Hb2 Ha Hb. unfold strcmp_in_word. gen_fuel (length ws1). clear Hlt.
  revert ws2 a b fuel Hs1 Hs2 Hlen Hb2 Ha Hb Hf.
  induction Hb1 as [|x ws1 Hx Hb1 IH]; intros ws2 a b fuel Hs1 Hs2 Hlen Hb2 Ha Hb Hf;
    (destruct ws2 as [|y ws2]; [|try discriminate Hlen]); try discriminate Hlen.
  { left. by exists a, b. }
  apply Forall_cons in Hb2 as [Hy Hb2]. destruct fuel as [|fuel]; [lia|]. cbn [length] in *.
  assert (∀ r, (x = 0 ∨ x ≠ y) → r = x - y →
    loop (S fuel) (λ '(l1, l2), let c1 := GFC l1 in let c2 := GFC l2 in
      if (c1 =? 0) || negb (c1 =? c2) then mret (Done (c1 - c2))
      else mret (Next (INCSTR l1, INCSTR l2))) (le_combine (x :: ws1), le_combine (y :: ws2)) w =
    Ok (r, w)) as Hstop.
  { intros r Hxy ->. apply loop_Done. cbv beta iota zeta. rewrite !GFC_cons by done. by cif. }
  destruct a as [|c a], b as [|d b].
  - apply starts_nil in Hs1 as ->, Hs2 as ->. right. by apply Hstop; [left|].
  - apply starts_nil in Hs1 as ->. apply starts_cons in Hs2 as [-> _].
    apply Forall_cons in Hb as [Hd _]. destruct (cmp_unsigned_end d b Hd) as [-> _].
    right. apply Hstop; [by left|lia].
  - apply starts_nil in Hs2 as ->. apply starts_cons in Hs1 as [-> _].
    apply Forall_cons in Ha as [Hc _]. destruct (cmp_unsigned_end c a Hc) as [_ ->].
    right. unfold nzbyte in Hc. apply Hstop; [right; lia|lia].
  - apply starts_cons in Hs1 as [-> Hs1], Hs2 as [-> Hs2].
    apply Forall_cons in Ha as [Hc Ha], Hb as [Hd Hb]. unfold nzbyte in Hc.
    rewrite cmp_unsigned_cons. destruct (decide (c = d)) as [->|Hne]; cycle 1.
    { right. apply Hstop; [by right|]. by replace (c =? d) with false by lia. }
    rewrite Z.eqb_refl.
    destruct (IH ws2 a b fuel Hs1 Hs2 ltac:(lia) Hb2 Ha Hb ltac:(lia))
      as [(v1 & v2 & -> & -> & ->)|Hrun]; [left; by exists v1, v2|right].
    rewrite <- Hrun. apply loop_Next. cbv beta iota zeta.
    rewrite !GFC_cons, !INCSTR_cons by done. by cif.
Qed.

Lemma word_view_starts w t u :
  mem_ok w → cstr w t u → mapped w t 8 →
  ∃ ws, load64 t w = Ok (le_combine ws, w) ∧ length ws = 8%nat ∧ Forall byte ws ∧
    starts ws u ∧ (haszero (le_combine ws) = 0 ↔ ∃ v, u = ws ++ v).
Proof.
  intros Hok Hu Hm. destruct (word_view w t u Hok Hu Hm) as (ws & Hl & Hlen & Hb & Hc).
  exists ws. repeat (split; [done|]). destruct Hc as [(Hz & r & ->)|(Hz & v & ->)].
  - split; [right; eauto|]. split; [done|]. intros [v E].
    apply (f_equal length) in E. rewrite !length_app in E. simpl in E. lia.
  - split; [left; eauto|]. split; eauto.
Qed.

Lemma le_combine_inj l k :
  Forall byte l → Forall byte k → length l = length k → le_combine l = le_combine k → l = k.
Proof.
  intros Hl Hk Hlen E. rewrite <- (le_split_combine l), <- (le_split_combine k) by done. congruence.
Qed.

Lemma strcmp_words_ok fuel a b s1 s2 w :
  mem_ok w → cstr w s1 a → cstr w s2 b →
  words_mapped w s1 (Z.of_nat (length a) + 1) → words_mapped w s2 (Z.of_nat (length b) + 1) →
  s1 mod 8 = 0 → s2 mod 8 = 0 → (length a < fuel)%nat →
  ∃ l1 l2, loop fuel (λ '(lx1, lx2),
      l1 ← load64 lx1; l2 ← load64 lx2;
      if negb (haszero l1 =? 0) || negb (haszero l2 =? 0) || negb (l1 =? l2)
      then mret (Done (l1, l2)) else mret (Next (lx1 + 8, lx2 + 8))) (s1, s2) w =
    Ok ((l1, l2), w) ∧ strcmp_in_word l1 l2 w = Ok (cmp_unsigned a b, w).
Proof.
  intros Hok. revert a b s1 s2.
  induction fuel as [|fuel IH]; intros a b s1 s2 Ha Hb Hw1 Hw2 Ha1 Ha2 Hf; [lia|].
  destruct (word_view_starts w s1 a Hok Ha) as (ws1 & Hl1 & Hlen1 & Hb1 & Hs1 & Hz1).
  { apply (words_mapped_word w s1 (Z.of_nat (length a) + 1)); [done..|lia]. }
  destruct (word_view_starts w s2 b Hok Hb) as (ws2 & Hl2 & Hlen2 & Hb2 & Hs2 & Hz2).
  { apply (words_mapped_word w s2 (Z.of_nat (length b) + 1)); [done..|lia]. }
  pose proof Ha as [_ Hna]. pose proof Hb as [_ Hnb].
  destruct (negb (haszero (le_combine ws1) =? 0) || negb (haszero (le_combine ws2) =? 0) ||
            negb (le_combine ws1 =? le_combine ws2)) eqn:Hexit.
  - exists (le_combine ws1), (le_combine ws2). split.
    { apply loop_Done. rewrite (bind_Ok _ _ _ _ _ Hl1), (bind_Ok _ _ _ _ _ Hl2), Hexit. done. }
    destruct (strcmp_in_word_ok ws1 ws2 a b w Hs1 Hs2 ltac:(lia) ltac:(lia) Hb1 Hb2 Hna Hnb)
      as [(v1 & v2 & -> & -> & ->)|]; [|done].
    exfalso. assert (haszero (le_combine ws2) = 0) as Hz by (apply Hz2; eauto).
    rewrite Hz, !Z.eqb_refl in Hexit. done.
  - apply orb_false_elim in Hexit as [[Hx Hy]%orb_false_elim Hxy].
    destruct (proj1 Hz1 ltac:(lia)) as [v1 ->]. destruct (proj1 Hz2 ltac:(lia)) as [v2 ->].
    assert (ws1 = ws2) as -> by (apply le_combine_inj; [done..|lia|lia]).
    rewrite length_app in *. apply cstr_app in Ha as (_ & _ & Ha). apply cstr_app in Hb as (_ & _ & Hb).
    rewrite Hlen2 in *. change (Z.of_nat 8) with 8 in *.
    destruct (IH v1 v2 _ _ Ha Hb) as (l1 & l2 & Hrun & Hcmp);
      [eapply words_mapped_sub; [exact Hw1|lia|lia]|eapply words_mapped_sub; [exact Hw2|lia|lia]
      | | |lia|].
    + replace (s1 + 8) with (s1 + 1 * 8) by lia. by rewrite Z.mod_add.
    + replace (s2 + 8) with (s2 + 1 * 8) by lia. by rewrite Z.mod_add.
    + exists l1, l2. split; [|by rewrite cmp_unsigned_app]. rewrite <- Hrun.
      apply loop_Next. rewrite (bind_Ok _ _ _ _ _ Hl1), (bind_Ok _ _ _ _ _ Hl2), Hx, Hxy. done.
Qed.

(** The result is the difference of the first bytes that
    differ, read as [char]s or as [unsigned char]s, at any pair of alignments. *)
Lemma strcmp_result a b s1 s2 w :
  mem_ok w → cstr w s1 a → cstr w s2 b →
  words_mapped w s1 (Z.of_nat (length a) + 1) → words_mapped w s2 (Z.of_nat (length b) + 1) →
  ∃ r, strcmp s1 s2 w = Ok (r, w) ∧ (r = cmp_unsigned a b ∨ r = cmp_signed a b).
Proof.
  intros Hok Ha Hb Hw1 Hw2. unfold strcmp. cbv zeta.
  destruct (UNALIGNED s1 s2 =? 0) eqn:Hu; cbn [negb]; cbv iota; cycle 1.
  { eexists. split; [by apply strcmp_bytes_ok|by right]. }
  apply Z.eqb_eq, UNALIGNED_zero in Hu.
  rewrite STRALIGN_mod. pose proof (Z.mod_pos_bound (- s1) 8 ltac:(lia)) as Ht.
  assert ((s1 + (- s1) mod 8) mod 8 = 0) as Ha1 by (Z.div_mod_to_equations; lia).
  assert ((s2 + (- s1) mod 8) mod 8 = 0) as Ha2 by (Z.div_mod_to_equations; lia).
  set (tmp := (- s1) mod 8) in *. clearbody tmp.
  destruct (strcmp_head_ok a b (Z.to_nat tmp) s1 s2 w Ha Hb ltac:(lia))
    as [Hrun|(h & a' & b' & -> & -> & Hh & Hrun)]; rewrite Z2Nat.id in Hrun by lia.
  - destruct (tmp =? 0) eqn:Hz; cbn [negb]; cbv iota.
    + apply Z.eqb_eq in Hz. subst tmp. by cbv in Hrun.
    + rewrite (bind_Ok _ _ _ _ _ Hrun). eauto.
  - apply cstr_app in Ha as (_ & Hnh & Ha). apply cstr_app in Hb as (_ & _ & Hb).
    rewrite length_app in *. replace (Z.of_nat (length h)) with tmp in * by lia.
    pose proof (cstr_length _ _ _ Ha) as Hsz.
    destruct (strcmp_words_ok (S (size (mem w))) a' b' _ _ w Hok Ha Hb) as (l1 & l2 & Hwords & Hcmp);
      [eapply words_mapped_sub; [exact Hw1|lia|lia]|eapply words_mapped_sub; [exact Hw2|lia|lia]
      |done|done|lia|].
    exists (cmp_unsigned a' b'). rewrite cmp_unsigned_app. split; [|by left].
    assert ((if negb (tmp =? 0) then strcmp_head tmp s1 s2 else mret (inr (s1, s2))) w =
            Ok (inr (s1 + tmp, s2 + tmp), w)) as Hhead.
    { destruct (tmp =? 0) eqn:Hz; cbn [negb]; cbv iota; [|done].
      apply Z.eqb_eq in Hz. subst tmp. by rewrite !Z.add_0_r. }
    rewrite (bind_Ok _ _ _ _ _ Hhead). erewrite bind_Ok; [|exact Hwords]. done.
Qed.

(** C32: [strcmp] terminates at any pair of alignments with a result that is 0
    exactly for equal strings, is the difference of the first bytes that differ,
    read as [char]s or as [unsigned char]s, and on 7-bit strings is the result
    of the C standard. *)
Theorem strcmp_correct a b s1 s2 w :
  mem_ok w → cstr w s1 a → cstr w s2 b →
  words_mapped w s1 (Z.of_nat (length a) + 1) → words_mapped w s2 (Z.of_nat (length b) + 1) →
  ∃ r, strcmp s1 s2 w = Ok (r, w) ∧
    (r = 0 ↔ a = b) ∧ (r = cmp_unsigned a b ∨ r = cmp_signed a b) ∧
    (Forall (λ c, 0 < c < 128) a → Forall (λ c, 0 < c < 128) b → r = cmp_unsigned a b).
Proof.
  intros Hok Ha Hb Hw1 Hw2.
  destruct (strcmp_result a b s1 s2 w Hok Ha Hb Hw1 Hw2) as (r & Hr & Hcase).
  exists r. split; [done|]. destruct Ha as [_ Ha], Hb as [_ Hb].
  destruct Hcase as [-> | ->].
  - split; [by apply cmp_unsigned_zero|]. auto.
  - split; [by apply cmp_signed_zero|]. auto using cmp_signed_ascii.
Qed.

Lemma strcmp_correct_witness :
  let w := world_of [(1000, STR "same text" ++ replicate 7 0); (2000, [7] ++ STR "same test" ++ replicate 6 0)] in
  ∃ r, strcmp 1000 2001 w = Ok (r, w) ∧
    (r = 0 ↔ STR "same text" = STR "same test") ∧
    (r = cmp_unsigned (STR "same text") (STR "same test") ∨ r = cmp_signed (STR "same text") (STR "same test")) ∧
    (Forall (λ c, 0 < c < 128) (STR "same text") → Forall (λ c, 0 < c < 128) (STR "same test") →
     r = cmp_unsigned (STR "same text") (STR "same test")).
Proof. intros w. apply (strcmp_correct (STR "same text") (STR "same test")); world_check. Defined.

(** The sign of [strcmp] on two strings depends on where they are: for "\xe9"
    and "e" it is positive between aligned strings (as the standard requires)
    and negative when one of them is one byte off. *)
Theorem strcmp_sign_depends_on_alignment :
  let w1 := world_of [(1000, [0xe9] ++ replicate 7 0); (2000, [0x65] ++ replicate 7 0)] in
  let w2 := world_of [(1000, [0xe9] ++ replicate 7 0); (2000, [1; 0x65] ++ replicate 6 0)] in
  cstr w1 1000 [0xe9] ∧ cstr w1 2000 [0x65] ∧ cstr w2 1000 [0xe9] ∧ cstr w2 2001 [0x65] ∧
  strcmp 1000 2000 w1 = Ok (132, w1) ∧ strcmp 1000 2001 w2 = Ok (-124, w2).
Proof.
  intros w1 w2. repeat (split; [world_check|]). split; vm_compute; reflexivity.
Qed.

