(* ===== verification/HashStream.v ===== *)
(** * Block hashes as streams

    What the three hashes of [libcrypt] share: a context with a buffer that
    collects bytes until a block is complete, the absorption of whole blocks, the
    padding with a length field, and the interface ([StreamHash]) against which
    the password hashes of [Crypt] are verified. *)

From S2P Require Import Prelude Mem.

(** ** Copies into a buffer *)

(** [memcpy (&buf[off], data, len)] with the bounds of the array; a copy outside
    of them is a [Fault]. *)
Definition buf_copy (buf : list Z) (off : Z) (data : list Z) : option (list Z) :=
  if (0 <=? off) && (off + Z.of_nat (length data) <=? Z.of_nat (length buf))
  then Some (take (Z.to_nat off) buf ++ data ++ drop (Z.to_nat off + length data) buf)
  else None.

(** Bytes [off], ..., [off + n - 1] of a buffer, which must have them. *)
Definition buf_read (buf : list Z) (off n : Z) : option (list Z) :=
  if (0 <=? off) && (0 <=? n) && (off + n <=? Z.of_nat (length buf))
  then Some (take (Z.to_nat n) (drop (Z.to_nat off) buf)) else None.

Definition or_fault {W A} (o : option A) : CM W A :=
  match o with Some a => mret a | None => fault end.

(** Reading and changing the context. *)
Definition get {W} : CM W W := λ w, Ok (w, w).
Definition modify {W} (f : W → W) : CM W unit := λ w, Ok (tt, f w).

Lemma buf_copy_app a b c data :
  length b = length data → buf_copy (a ++ b ++ c) (Z.of_nat (length a)) data = Some (a ++ data ++ c).
Proof.
  intros H. unfold buf_copy. rewrite !length_app, H.
  replace ((0 <=? _) && _) with true by lia. rewrite Nat2Z.id, take_app_length, <- drop_drop.
  by rewrite drop_app_length, <- H, drop_app_length.
Qed.

Lemma buf_copy_front b c data :
  length b = length data → buf_copy (b ++ c) 0 data = Some (data ++ c).
Proof. exact (buf_copy_app [] b c data). Qed.

(** The list after the first [n] elements, when it has them. *)
Lemma buf_copy_tail a junk data :
  (length data <= length junk)%nat →
  buf_copy (a ++ junk) (Z.of_nat (length a)) data = Some (a ++ data ++ drop (length data) junk).
Proof.
  intros H. rewrite <- (take_drop (length data) junk) at 1.
  apply buf_copy_app. rewrite length_take. lia.
Qed.

Lemma buf_read_app a b c :
  buf_read (a ++ b ++ c) (Z.of_nat (length a)) (Z.of_nat (length b)) = Some b.
Proof.
  unfold buf_read. rewrite !length_app. replace (_ && _) with true by lia.
  by rewrite !Nat2Z.id, drop_app_length, take_app_length.
Qed.

Lemma buf_read_front b c : buf_read (b ++ c) 0 (Z.of_nat (length b)) = Some b.
Proof. exact (buf_read_app [] b c). Qed.

Lemma buf_read_back a b :
  buf_read (a ++ b) (Z.of_nat (length a)) (Z.of_nat (length b)) = Some b.
Proof. rewrite <- (app_nil_r b) at 1. apply buf_read_app. Qed.

Lemma buf_read_all b : buf_read b 0 (Z.of_nat (length b)) = Some b.
Proof. exact (buf_read_back [] b). Qed.

(** ** Big-endian numbers *)

Definition be_split (n : nat) (x : Z) : list Z := reverse (le_split n x).

Lemma be_split_length n x : length (be_split n x) = n.
Proof. unfold be_split. by rewrite length_reverse, length_le_split. Qed.

Lemma le_split_add n m x :
  le_split (n + m) x = le_split n x ++ le_split m (Z.shiftr x (8 * Z.of_nat n)).
Proof.
  revert x. induction n as [|n IH]; intros x; cbn [Nat.add le_split app]; [by rewrite Z.shiftr_0_r|].
  f_equal. rewrite IH. f_equal. f_equal. rewrite Z.shiftr_shiftr by lia. f_equal. lia.
Qed.

Lemma le_split_mod n x : le_split n (x mod 256 ^ Z.of_nat n) = le_split n x.
Proof.
  rewrite <- (le_combine_split n x). rewrite <- (length_le_split n x) at 1.
  apply le_split_combine, le_split_byte.
Qed.

(** ** Absorbing blocks *)

Section absorb.
Context {R : Type} (B : nat) (compress : R → list Z → R).

(** [k] blocks of [B] bytes from the front of [data]. *)
Fixpoint absorb (k : nat) (r : R) (data : list Z) : R :=
  match k with
  | O => r
  | S k => absorb k (compress r (take B data)) (drop B data)
  end.

Lemma absorb_add j k r data :
  absorb (j + k) r data = absorb k (absorb j r data) (drop (j * B) data).
Proof.
  revert r data. induction j as [|j IH]; intros r data; simpl; [by rewrite drop_0|].
  by rewrite IH, drop_drop.
Qed.

Lemma absorb_app k r l1 l2 : (k * B <= length l1)%nat → absorb k r (l1 ++ l2) = absorb k r l1.
Proof.
  revert r l1. induction k as [|k IH]; intros r l1 H; [done|]. cbn [absorb Nat.mul] in *.
  rewrite take_app_le, drop_app_le by lia. rewrite IH; [done|]. rewrite length_drop. lia.
Qed.

Lemma absorb_snoc j k r l1 l2 :
  length l1 = (j * B)%nat → absorb (j + k) r (l1 ++ l2) = absorb k (absorb j r l1) l2.
Proof.
  intros H. rewrite absorb_add, absorb_app by lia. by rewrite <- H, drop_app_length.
Qed.
End absorb.

(** ** Padding

    The padding of a message of [n] bytes for blocks of [B] bytes with a length
    field of [L] bytes: the byte 0x80, the fewest zero bytes that complete the
    last block, and the number of bits, encoded by [enc]. *)
Definition padding (B L : Z) (enc : Z → list Z) (n : Z) : list Z :=
  [0x80] ++ replicate (Z.to_nat ((B - L - 1 - n) mod B)) 0 ++ enc (8 * n).

(** The padded message is a whole number of blocks. *)
Lemma padding_blocks B L enc n :
  0 < B → (∀ x, Z.of_nat (length (enc x)) = L) →
  (n + Z.of_nat (length (padding B L enc n))) mod B = 0.
Proof.
  intros HB He. unfold padding. rewrite !length_app, length_replicate. cbn [length].
  rewrite !Nat2Z.inj_add, He, Z2Nat.id by (apply Z.mod_pos_bound; lia).
  replace (n + _) with ((B - L - 1 - n) mod B + (1 + L + n)) by lia.
  rewrite Z.add_mod_idemp_l by lia. replace (B - L - 1 - n + (1 + L + n)) with B by lia.
  apply Z.mod_same. lia.
Qed.

(** ** The interface

    A streaming hash: contexts [C], the C functions on them, the hash function
    they compute, and the relation [sh_rep msg c] (the context [c] has taken in
    the message [msg]) that they keep up.  [sh_max] bounds the messages: the
    length of one update and of the whole message. *)
Class StreamHash (C : Type) := {
  sh_hash : list Z → list Z;
  sh_digest_size : nat;
  sh_init : CM C unit;
  sh_update : list Z → CM C unit;
  sh_final : CM C (list Z);
  sh_wf : C → Prop;
  sh_rep : list Z → C → Prop;
  sh_max : Z;
  sh_hash_length m : length (sh_hash m) = sh_digest_size;
  sh_hash_bytes m : Forall byte (sh_hash m);
  sh_rep_wf m c : sh_rep m c → sh_wf c;
  sh_init_ok c : sh_wf c → ∃ c', sh_init c = Ok (tt, c') ∧ sh_rep [] c';
  sh_update_ok m d c :
    sh_rep m c → Z.of_nat (length m + length d) < sh_max →
    ∃ c', sh_update d c = Ok (tt, c') ∧ sh_rep (m ++ d) c';
  sh_final_ok m c :
    sh_rep m c → Z.of_nat (length m) < sh_max →
    ∃ c', sh_final c = Ok (sh_hash m, c') ∧ sh_wf c';
}.

(** Feeding a message in pieces. *)
Section feed.
Context {C : Type} {H : StreamHash C}.

Fixpoint sh_updates (ds : list (list Z)) : CM C unit :=
  match ds with
  | [] => mret tt
  | d :: ds => _ ← sh_update d; sh_updates ds
  end.

Lemma sh_updates_ok ds m c :
  sh_rep m c → Z.of_nat (length m + length (concat ds)) < sh_max →
  ∃ c', sh_updates ds c = Ok (tt, c') ∧ sh_rep (m ++ concat ds) c'.
Proof.
  revert m c. induction ds as [|d ds IH]; intros m c Hr Hl; simpl in *.
  { rewrite app_nil_r. eauto. }
  rewrite length_app in Hl. destruct (sh_update_ok m d c Hr) as (c1 & E1 & Hr1); [lia|].
  rewrite (bind_Ok _ _ _ _ _ E1). destruct (IH (m ++ d) c1 Hr1) as (c2 & E2 & Hr2).
  { rewrite length_app. lia. }
  exists c2. by rewrite app_assoc.
Qed.

(** A whole hash computation. *)
Definition sh_digest (ds : list (list Z)) : CM C (list Z) :=
  _ ← sh_init; _ ← sh_updates ds; sh_final.

Lemma sh_digest_ok ds c :
  sh_wf c → Z.of_nat (length (concat ds)) < sh_max →
  ∃ c', sh_digest ds c = Ok (sh_hash (concat ds), c') ∧ sh_wf c'.
Proof.
  intros Hc Hl. unfold sh_digest. destruct (sh_init_ok c Hc) as (c1 & E1 & Hr1).
  rewrite (bind_Ok _ _ _ _ _ E1). destruct (sh_updates_ok ds [] c1 Hr1) as (c2 & E2 & Hr2); [done|].
  rewrite (bind_Ok _ _ _ _ _ E2). by apply sh_final_ok.
Qed.
End feed.
