(* ===== verification/Sha2.v ===== *)
(** * SHA-256 and SHA-512

    [libcrypt/sha256crypt.c] and [libcrypt/sha512crypt.c], the hash contexts: the
    two files have the same text up to the word type and the constants of FIPS
    180-2, which are the parameters ([Sha2Params]) here. *)

From S2P Require Import Prelude Mem Words HashStream.

(** ** The parameters of the two files *)

(** [ctx->H]: the registers a, ..., h. *)
Definition regs : Type := Z * Z * Z * Z * Z * Z * Z * Z.

Class Sha2Params := {
  word_size : nat;          (* [sizeof (uintN_t)] *)
  trunc : Z → Z;            (* conversion to [uintN_t] *)
  SWAP : Z → Z;             (* the byte order macro *)
  K : list Z;               (* the round constants; their number is the number of rounds *)
  H0 : regs;                (* [init_ctx] *)
  S0 : Z → Z; S1 : Z → Z;   (* the macros of FIPS 180-2:4.1 *)
  R0 : Z → Z; R1 : Z → Z;
}.

Definition K256 : list Z := [
  0x428A2F98; 0x71374491; 0xB5C0FBCF; 0xE9B5DBA5;
  0x3956C25B; 0x59F111F1; 0x923F82A4; 0xAB1C5ED5;
  0xD807AA98; 0x12835B01; 0x243185BE; 0x550C7DC3;
  0x72BE5D74; 0x80DEB1FE; 0x9BDC06A7; 0xC19BF174;
  0xE49B69C1; 0xEFBE4786; 0x0FC19DC6; 0x240CA1CC;
  0x2DE92C6F; 0x4A7484AA; 0x5CB0A9DC; 0x76F988DA;
  0x983E5152; 0xA831C66D; 0xB00327C8; 0xBF597FC7;
  0xC6E00BF3; 0xD5A79147; 0x06CA6351; 0x14292967;
  0x27B70A85; 0x2E1B2138; 0x4D2C6DFC; 0x53380D13;
  0x650A7354; 0x766A0ABB; 0x81C2C92E; 0x92722C85;
  0xA2BFE8A1; 0xA81A664B; 0xC24B8B70; 0xC76C51A3;
  0xD192E819; 0xD6990624; 0xF40E3585; 0x106AA070;
  0x19A4C116; 0x1E376C08; 0x2748774C; 0x34B0BCB5;
  0x391C0CB3; 0x4ED8AA4A; 0x5B9CCA4F; 0x682E6FF3;
  0x748F82EE; 0x78A5636F; 0x84C87814; 0x8CC70208;
  0x90BEFFFA; 0xA4506CEB; 0xBEF9A3F7; 0xC67178F2].

Definition H256 : regs :=
  (0x6A09E667, 0xBB67AE85, 0x3C6EF372, 0xA54FF53A,
   0x510E527F, 0x9B05688C, 0x1F83D9AB, 0x5BE0CD19).

Definition SWAP32 (n : Z) : Z :=
  Z.lor (Z.lor (Z.lor (u32 (Z.shiftl n 24)) (Z.shiftl (Z.land n 0xff00) 8))
    (Z.land (Z.shiftr n 8) 0xff00)) (Z.shiftr n 24).

Definition CYCLIC32 (w s : Z) : Z := Z.lor (Z.shiftr w s) (u32 (Z.shiftl w (32 - s))).
Definition sha256_S0 (x : Z) : Z := Z.lxor (Z.lxor (CYCLIC32 x 2) (CYCLIC32 x 13)) (CYCLIC32 x 22).
Definition sha256_S1 (x : Z) : Z := Z.lxor (Z.lxor (CYCLIC32 x 6) (CYCLIC32 x 11)) (CYCLIC32 x 25).
Definition sha256_R0 (x : Z) : Z := Z.lxor (Z.lxor (CYCLIC32 x 7) (CYCLIC32 x 18)) (Z.shiftr x 3).
Definition sha256_R1 (x : Z) : Z := Z.lxor (Z.lxor (CYCLIC32 x 17) (CYCLIC32 x 19)) (Z.shiftr x 10).

Definition sha256 : Sha2Params := {|
  word_size := 4; trunc := u32; SWAP := SWAP32; K := K256; H0 := H256;
  S0 := sha256_S0; S1 := sha256_S1; R0 := sha256_R0; R1 := sha256_R1 |}.

Definition K512 : list Z := [
  0x428A2F98D728AE22; 0x7137449123EF65CD;
  0xB5C0FBCFEC4D3B2F; 0xE9B5DBA58189DBBC;
  0x3956C25BF348B538; 0x59F111F1B605D019;
  0x923F82A4AF194F9B; 0xAB1C5ED5DA6D8118;
  0xD807AA98A3030242; 0x12835B0145706FBE;
  0x243185BE4EE4B28C; 0x550C7DC3D5FFB4E2;
  0x72BE5D74F27B896F; 0x80DEB1FE3B1696B1;
  0x9BDC06A725C71235; 0xC19BF174CF692694;
  0xE49B69C19EF14AD2; 0xEFBE4786384F25E3;
  0x0FC19DC68B8CD5B5; 0x240CA1CC77AC9C65;
  0x2DE92C6F592B0275; 0x4A7484AA6EA6E483;
  0x5CB0A9DCBD41FBD4; 0x76F988DA831153B5;
  0x983E5152EE66DFAB; 0xA831C66D2DB43210;
  0xB00327C898FB213F; 0xBF597FC7BEEF0EE4;
  0xC6E00BF33DA88FC2; 0xD5A79147930AA725;
  0x06CA6351E003826F; 0x142929670A0E6E70;
  0x27B70A8546D22FFC; 0x2E1B21385C26C926;
  0x4D2C6DFC5AC42AED; 0x53380D139D95B3DF;
  0x650A73548BAF63DE; 0x766A0ABB3C77B2A8;
  0x81C2C92E47EDAEE6; 0x92722C851482353B;
  0xA2BFE8A14CF10364; 0xA81A664BBC423001;
  0xC24B8B70D0F89791; 0xC76C51A30654BE30;
  0xD192E819D6EF5218; 0xD69906245565A910;
  0xF40E35855771202A; 0x106AA07032BBD1B8;
  0x19A4C116B8D2D0C8; 0x1E376C085141AB53;
  0x2748774CDF8EEB99; 0x34B0BCB5E19B48A8;
  0x391C0CB3C5C95A63; 0x4ED8AA4AE3418ACB;
  0x5B9CCA4F7763E373; 0x682E6FF3D6B2B8A3;
  0x748F82EE5DEFB2FC; 0x78A5636F43172F60;
  0x84C87814A1F0AB72; 0x8CC702081A6439EC;
  0x90BEFFFA23631E28; 0xA4506CEBDE82BDE9;
  0xBEF9A3F7B2C67915; 0xC67178F2E372532B;
  0xCA273ECEEA26619C; 0xD186B8C721C0C207;
  0xEADA7DD6CDE0EB1E; 0xF57D4F7FEE6ED178;
  0x06F067AA72176FBA; 0x0A637DC5A2C898A6;
  0x113F9804BEF90DAE; 0x1B710B35131C471B;
  0x28DB77F523047D84; 0x32CAAB7B40C72493;
  0x3C9EBE0A15C9BEBC; 0x431D67C49C100D4C;
  0x4CC5D4BECB3E42B6; 0x597F299CFC657E2A;
  0x5FCB6FAB3AD6FAEC; 0x6C44198C4A475817].

Definition H512 : regs :=
  (0x6A09E667F3BCC908, 0xBB67AE8584CAA73B, 0x3C6EF372FE94F82B, 0xA54FF53A5F1D36F1,
   0x510E527FADE682D1, 0x9B05688C2B3E6C1F, 0x1F83D9ABFB41BD6B, 0x5BE0CD19137E2179).

Definition SWAP64 (n : Z) : Z :=
  Z.lor (Z.lor (Z.lor (Z.lor (Z.lor (Z.lor (Z.lor
    (u64 (Z.shiftl n 56))
    (u64 (Z.shiftl (Z.land n 0xff00) 40)))
    (u64 (Z.shiftl (Z.land n 0xff0000) 24)))
    (u64 (Z.shiftl (Z.land n 0xff000000) 8)))
    (Z.land (Z.shiftr n 8) 0xff000000))
    (Z.land (Z.shiftr n 24) 0xff0000))
    (Z.land (Z.shiftr n 40) 0xff00))
    (Z.shiftr n 56).

Definition CYCLIC64 (w s : Z) : Z := Z.lor (Z.shiftr w s) (u64 (Z.shiftl w (64 - s))).
Definition sha512_S0 (x : Z) : Z := Z.lxor (Z.lxor (CYCLIC64 x 28) (CYCLIC64 x 34)) (CYCLIC64 x 39).
Definition sha512_S1 (x : Z) : Z := Z.lxor (Z.lxor (CYCLIC64 x 14) (CYCLIC64 x 18)) (CYCLIC64 x 41).
Definition sha512_R0 (x : Z) : Z := Z.lxor (Z.lxor (CYCLIC64 x 1) (CYCLIC64 x 8)) (Z.shiftr x 7).
Definition sha512_R1 (x : Z) : Z := Z.lxor (Z.lxor (CYCLIC64 x 19) (CYCLIC64 x 61)) (Z.shiftr x 6).

Definition sha512 : Sha2Params := {|
  word_size := 8; trunc := u64; SWAP := SWAP64; K := K512; H0 := H512;
  S0 := sha512_S0; S1 := sha512_S1; R0 := sha512_R0; R1 := sha512_R1 |}.

(** ** Contexts *)

(** [struct sha256_ctx], [struct sha512_ctx]; the buffer has room for two blocks. *)
Record sha_ctx : Type := mk_ctx {
  ctx_H : regs;
  total0 : Z;
  total1 : Z;
  buflen : Z;
  buffer : list Z;
}.

Definition set_H (h : regs) (c : sha_ctx) : sha_ctx :=
  mk_ctx h (total0 c) (total1 c) (buflen c) (buffer c).
Definition set_total (t0 t1 : Z) (c : sha_ctx) : sha_ctx :=
  mk_ctx (ctx_H c) t0 t1 (buflen c) (buffer c).
Definition set_buflen (n : Z) (c : sha_ctx) : sha_ctx :=
  mk_ctx (ctx_H c) (total0 c) (total1 c) n (buffer c).
Definition set_buffer (b : list Z) (c : sha_ctx) : sha_ctx :=
  mk_ctx (ctx_H c) (total0 c) (total1 c) (buflen c) b.

(** [memcpy (&ctx->buffer[off], data, ...)] *)
Definition put_buffer (off : Z) (data : list Z) : CM sha_ctx unit :=
  c ← get; b ← or_fault (buf_copy (buffer c) off data); modify (set_buffer b).

Section sha2.
Context {P : Sha2Params}.

Definition Bz : Z := Z.of_nat (16 * word_size).

Definition Ch (x y z : Z) : Z := Z.lxor (Z.land x y) (Z.land (trunc (Z.lnot x)) z).
Definition Maj (x y z : Z) : Z := Z.lxor (Z.lxor (Z.land x y) (Z.land x z)) (Z.land y z).

(** [W[t] = SWAP ( *words); ++words;] for the next [n] words of the input. *)
Fixpoint read_words (n : nat) (words : list Z) : list Z :=
  match n with
  | O => []
  | S n => SWAP (le_combine (take word_size words)) :: read_words n (drop word_size words)
  end.

(** The message schedule. *)
Definition extend (W : list Z) (t : nat) : list Z :=
  W ++ [trunc (R1 (nth (t - 2) W 0) + nth (t - 7) W 0 + R0 (nth (t - 15) W 0) + nth (t - 16) W 0)].
Definition schedule (W16 : list Z) : list Z := foldl extend W16 (seq 16 (length K - 16)).

(** One round of the actual computation. *)
Definition round (W : list Z) (r : regs) (t : nat) : regs :=
  let '(a, b, c, d, e, f, g, h) := r in
  let T1 := trunc (h + S1 e + Ch e f g + nth t K 0 + nth t W 0) in
  let T2 := trunc (S0 a + Maj a b c) in
  (trunc (T1 + T2), a, b, c, trunc (d + T1), e, f, g).

Definition add_regs (r s : regs) : regs :=
  let '(a, b, c, d, e, f, g, h) := r in
  let '(a', b', c', d', e', f', g', h') := s in
  (trunc (a + a'), trunc (b + b'), trunc (c + c'), trunc (d + d'),
   trunc (e + e'), trunc (f + f'), trunc (g + g'), trunc (h + h')).

(** The loop body of [process_block]: the registers after one block. *)
Definition compress (r : regs) (block : list Z) : regs :=
  let W := schedule (read_words 16 block) in
  add_regs (foldl (round W) r (seq 0 (length K))) r.

(** [ctx->total[0] += len; if (ctx->total[0] < len) ++ctx->total[1];] *)
Definition count (len : Z) (c : sha_ctx) : sha_ctx :=
  let t0 := trunc (total0 c + len) in
  set_total t0 (if t0 <? len then trunc (total1 c + 1) else total1 c) c.

Definition process_block (words : list Z) (len : Z) : CM sha_ctx unit :=
  let nwords := len / Z.of_nat word_size in
  _ ← modify (count len);
  c ← get;
  h ← loop (S (length words)) (λ '(words, nwords, r),
    if nwords =? 0 then mret (Done r) else
    if (length words <? 16 * word_size)%nat then fault else
    mret (Next (drop (16 * word_size) words, u64 (nwords - 16), compress r (take (16 * word_size) words))))
    (words, nwords, ctx_H c);
  modify (set_H h).

Definition init_ctx : CM sha_ctx unit :=
  modify (λ c, set_buflen 0 (set_total 0 0 (set_H H0 c))).

Definition fillbuf : list Z := 0x80 :: replicate (16 * word_size - 1) 0.

Definition digest_of (r : regs) : list Z :=
  let '(a, b, c, d, e, f, g, h) := r in
  mjoin ((λ x, le_split word_size (SWAP x)) <$> [a; b; c; d; e; f; g; h]).

Definition finish_ctx : CM sha_ctx (list Z) :=
  let ws := Z.of_nat word_size in
  c ← get;
  let bytes := buflen c in
  _ ← modify (count bytes);
  let pad := if bytes >=? Bz - 2 * ws then Bz + (Bz - 2 * ws) - bytes else Bz - 2 * ws - bytes in
  fill ← or_fault (buf_read fillbuf 0 pad);
  _ ← put_buffer bytes fill;
  c ← get;
  _ ← put_buffer (bytes + pad + ws) (le_split word_size (SWAP (trunc (Z.shiftl (total0 c) 3))));
  _ ← put_buffer (bytes + pad) (le_split word_size (SWAP (Z.lor (trunc (Z.shiftl (total1 c) 3))
                                  (Z.shiftr (total0 c) (8 * ws - 3)))));
  c ← get;
  _ ← process_block (buffer c) (bytes + pad + 2 * ws);
  c ← get;
  mret (digest_of (ctx_H c)).

(** The first part of [process_bytes]: the rest of the input after what went
    into the buffer because the buffer was not empty. *)
Definition fill_buffer (data : list Z) : CM sha_ctx (list Z) :=
  let len := Z.of_nat (length data) in
  c ← get;
  if negb (buflen c =? 0) then
    let left_over := buflen c in
    let add := if 2 * Bz - left_over >? len then len else 2 * Bz - left_over in
    d ← or_fault (buf_read data 0 add);
    _ ← put_buffer left_over d;
    _ ← modify (λ c, set_buflen (trunc (buflen c + add)) c);
    c ← get;
    _ ← (if buflen c >? Bz then
           _ ← process_block (buffer c) (Z.land (buflen c) (Z.lnot (Bz - 1)));
           _ ← modify (λ c, set_buflen (Z.land (buflen c) (Bz - 1)) c);
           c ← get;
           d ← or_fault (buf_read (buffer c) (Z.land (left_over + add) (Z.lnot (Bz - 1))) (buflen c));
           put_buffer 0 d
         else mret tt);
    or_fault (buf_read data add (len - add))
  else mret data.

(** The second part: the available complete blocks, through the buffer when the
    input is not aligned. *)
Definition whole_blocks (unaligned : bool) (data : list Z) : CM sha_ctx (list Z) :=
  if Z.of_nat (length data) >=? Bz then
    if unaligned then
      loop (S (length data)) (λ data,
        let len := Z.of_nat (length data) in
        if len >? Bz then
          d ← or_fault (buf_read data 0 Bz);
          _ ← put_buffer 0 d;
          c ← get;
          _ ← process_block (buffer c) Bz;
          rest ← or_fault (buf_read data Bz (len - Bz));
          mret (Next rest)
        else mret (Done data)) data
    else
      let len := Z.of_nat (length data) in
      let n := Z.land len (Z.lnot (Bz - 1)) in
      _ ← process_block data n;
      or_fault (buf_read data n (Z.land len (Bz - 1)))
  else mret data.

(** The third part: the remaining bytes go into the buffer. *)
Definition keep_rest (data : list Z) : CM sha_ctx unit :=
  let len := Z.of_nat (length data) in
  if len >? 0 then
    c ← get;
    let left_over := buflen c in
    _ ← put_buffer left_over data;
    let left_over := left_over + len in
    left_over ← (if left_over >=? Bz then
      c ← get;
      _ ← process_block (buffer c) Bz;
      let left_over := left_over - Bz in
      c ← get;
      d ← or_fault (buf_read (buffer c) Bz left_over);
      _ ← put_buffer 0 d;
      mret left_over
    else mret left_over);
    modify (set_buflen (trunc left_over))
  else mret tt.

Definition process_bytes (unaligned : bool) (data : list Z) : CM sha_ctx unit :=
  data ← fill_buffer data;
  data ← whole_blocks unaligned data;
  keep_rest data.

(** ** The hash function of FIPS 180-2 *)

Definition sha2_padding (n : Z) : list Z :=
  padding Bz (2 * Z.of_nat word_size) (be_split (2 * word_size)) n.

Definition sha2 (msg : list Z) : list Z :=
  let m := msg ++ sha2_padding (Z.of_nat (length msg)) in
  let '(a, b, c, d, e, f, g, h) := absorb (16 * word_size) compress (length m / (16 * word_size)) H0 m in
  mjoin (be_split word_size <$> [a; b; c; d; e; f; g; h]).

End sha2.

(** ** The functions of the two files *)

Definition sha256_init_ctx := init_ctx (P := sha256).
Definition sha256_process_block := process_block (P := sha256).
Definition sha256_process_bytes := process_bytes (P := sha256).
Definition sha256_finish_ctx := finish_ctx (P := sha256).

Definition sha512_init_ctx := init_ctx (P := sha512).
Definition sha512_process_block := process_block (P := sha512).
Definition sha512_process_bytes := process_bytes (P := sha512).
Definition sha512_finish_ctx := finish_ctx (P := sha512).
