(* ===== verification/Sha2Facts.v ===== *)
(** * SHA-256 and SHA-512 are the hash functions of FIPS 180-2

    The stream functions of [Sha2] compute [sha2] of the concatenation of their
    inputs, however it is cut into pieces and however the pieces are aligned. *)

From S2P Require Import Prelude Mem Words HashStream Sha2.

(** ** The laws of the parameters *)

Class Sha2Laws (P : Sha2Params) := {
  word_size_cases : word_size = 4%nat ∨ word_size = 8%nat;
  trunc_mod x : trunc x = x mod 256 ^ Z.of_nat word_size;
  SWAP_bytes x : 0 <= x < 256 ^ Z.of_nat word_size → le_split word_size (SWAP x) = be_split word_size x;
}.

Lemma testbit_high x n i : 0 <= x < 2 ^ n → n <= i → Z.testbit x i = false.
Proof.
  intros Hx Hi. destruct (decide (n < 0)); [rewrite Z.pow_neg_r in Hx by done; lia|].
  rewrite <- (Z.mod_small x (2 ^ n)) by done. apply Z.mod_pow2_bits_high. lia.
Qed.

(** Two byte extractions are equal when their 8 bits are. *)
Lemma u8_bits x y :
  (∀ i, 0 <= i < 8 → Z.testbit x i = Z.testbit y i) → u8 x = u8 y.
Proof.
  intros H. unfold u8. change 0xff with (Z.ones 8). apply Z.bits_inj'. intros i Hi.
  rewrite !Z.land_spec. destruct (decide (i < 8)); [by rewrite H by lia|].
  by rewrite Z.ones_spec_high, !andb_false_r by lia.
Qed.

(** [bit_solve n] decides the bits of a byte of a rearranged [n]-bit word. *)
Ltac bit_solve n :=
  let i := fresh "i" in let Hi := fresh "Hi" in
  apply u8_bits; intros i Hi; unfold u32, u64;
  repeat (rewrite ?Z.lor_spec, ?Z.land_spec;
          first [rewrite Z.shiftr_spec by lia | rewrite Z.shiftl_spec by lia]);
  rewrite ?Z.lor_spec, ?Z.land_spec;
  assert (i = 0 ∨ i = 1 ∨ i = 2 ∨ i = 3 ∨ i = 4 ∨ i = 5 ∨ i = 6 ∨ i = 7) as Hcase by lia;
  clear Hi; decompose [or] Hcase; clear Hcase; subst i;
  repeat match goal with
  | |- context [Z.testbit ?x ?j] => is_var x;
      let k := eval cbv in j in
      progress change (Z.testbit x j) with (Z.testbit x k)
  end;
  repeat match goal with
  | |- context [Z.testbit ?x ?j] => is_var x;
      first [rewrite (testbit_high x n j) by lia | rewrite (Z.testbit_neg_r x j) by lia
            | let b := fresh "b" in generalize (Z.testbit x j); intros b]
  end;
  repeat match goal with |- context [Z.testbit ?c ?j] =>
    let b := eval vm_compute in (Z.testbit c j) in change (Z.testbit c j) with b end; btauto.

Lemma SWAP32_bytes x : 0 <= x < 2 ^ 32 → le_split 4 (SWAP32 x) = be_split 4 x.
Proof.
  intros Hx. unfold be_split. cbn [le_split reverse rev_append]. unfold SWAP32.
  rewrite !Z.shiftr_shiftr by lia. cbv [reverse rev_append].
  repeat (refine (f_equal2 cons _ _); [bit_solve 32|]). done.
Qed.

Lemma SWAP64_bytes x : 0 <= x < 2 ^ 64 → le_split 8 (SWAP64 x) = be_split 8 x.
Proof.
  intros Hx. unfold be_split. cbn [le_split reverse rev_append]. unfold SWAP64.
  rewrite !Z.shiftr_shiftr by lia. cbv [reverse rev_append].
  repeat (refine (f_equal2 cons _ _); [bit_solve 64|]). done.
Qed.

#[export] Instance sha256_laws : Sha2Laws sha256.
Proof. split; [by left|apply u32_mod|apply SWAP32_bytes]. Qed.

#[export] Instance sha512_laws : Sha2Laws sha512.
Proof. split; [by right|apply u64_mod|apply SWAP64_bytes]. Qed.

(** ** Contexts that have taken in a message *)

Section facts.
Context {P : Sha2Params} {L : Sha2Laws P}.

Definition Bn : nat := 16 * word_size.
Definition W : Z := 256 ^ Z.of_nat word_size.

(** The blocks absorbed so far: [k] blocks, the bytes [pre]. *)
Record absorbed (k : nat) (pre : list Z) (c : sha_ctx) : Prop := {
  ab_length : length pre = (k * Bn)%nat;
  ab_H : ctx_H c = absorb Bn compress k H0 pre;
  ab_total : total0 c + W * total1 c = Z.of_nat (length pre);
  ab_total0 : 0 <= total0 c < W;
  ab_total1 : 0 <= total1 c;
}.

(** The bytes waiting in the buffer. *)
Record buffered (tail : list Z) (c : sha_ctx) : Prop := {
  bf_length : (length tail <= Bn)%nat;
  bf_buflen : buflen c = Z.of_nat (length tail);
  bf_buffer : ∃ junk, buffer c = tail ++ junk;
  bf_size : length (buffer c) = (2 * Bn)%nat;
}.

Definition sha_rep (msg : list Z) (c : sha_ctx) : Prop :=
  ∃ k pre tail, msg = pre ++ tail ∧ absorbed k pre c ∧ buffered tail c.

Lemma Bz_Bn : Bz = Z.of_nat Bn.
Proof. done. Qed.

Lemma word_size_facts :
  (0 < word_size)%nat ∧ 4 * Bz < W <= 2 ^ 64 ∧ Bn = (16 * word_size)%nat ∧ Bz = 16 * Z.of_nat word_size.
Proof.
  unfold W, Bn, Bz. destruct word_size_cases as [-> | ->]; repeat split; lia.
Qed.

Lemma land_block x : 0 <= x → Z.land x (Bz - 1) = x mod Bz.
Proof.
  intros Hx. unfold Bz. destruct word_size_cases as [-> | ->].
  - change (Z.of_nat (16 * 4) - 1) with (Z.ones 6). by rewrite Z.land_ones.
  - change (Z.of_nat (16 * 8) - 1) with (Z.ones 7). by rewrite Z.land_ones.
Qed.

Lemma land_not_block x : 0 <= x → Z.land x (Z.lnot (Bz - 1)) = Bz * (x / Bz).
Proof.
  intros Hx. rewrite <- Z.ldiff_land. unfold Bz. destruct word_size_cases as [-> | ->].
  - change (Z.of_nat (16 * 4) - 1) with (Z.ones 6).
    rewrite Z.ldiff_ones_r, Z.shiftr_div_pow2, Z.shiftl_mul_pow2 by lia. apply Z.mul_comm.
  - change (Z.of_nat (16 * 8) - 1) with (Z.ones 7).
    rewrite Z.ldiff_ones_r, Z.shiftr_div_pow2, Z.shiftl_mul_pow2 by lia. apply Z.mul_comm.
Qed.

(** ** [process_block] *)

Lemma process_block_ok j d junk c :
  length d = (j * Bn)%nat → Z.of_nat (length d) < 2 ^ 64 →
  process_block (d ++ junk) (Z.of_nat (length d)) c =
  Ok (tt, set_H (absorb Bn compress j (ctx_H c) d) (count (Z.of_nat (length d)) c)).
Proof.
  intros Hd Hlt. destruct word_size_facts as (Hw & _ & HB & HBz). unfold process_block. cbv zeta.
  rewrite (bind_Ok _ _ c tt (count (Z.of_nat (length d)) c)) by done.
  rewrite (bind_Ok _ _ _ _ _ (eq_refl : get _ = Ok (_, _))).
  replace (Z.of_nat (length d) / Z.of_nat word_size) with (16 * Z.of_nat j)
    by (rewrite Hd, HB; apply Z.div_unique_exact; lia).
  change (ctx_H (count _ c)) with (ctx_H c). generalize (count (Z.of_nat (length d)) c) as c1.
  intros c1. erewrite bind_Ok; [reflexivity|]. rewrite <- (absorb_app _ _ _ _ d junk) by lia.
  assert (j * Bn <= length (d ++ junk))%nat as Hl by (rewrite length_app; lia).
  assert (16 * Z.of_nat j < 2 ^ 64) as Hj by lia.
  gen_fuel (length (d ++ junk)). generalize dependent (d ++ junk). generalize (ctx_H c) as r.
  clear Hd Hlt. revert fuel.
  induction j as [|j IH]; intros fuel r l Hl Hf; (destruct fuel as [|fuel]; [lia|]); [by apply loop_Done|].
  rewrite (loop_Next _ _ _ _ (drop Bn l, 16 * Z.of_nat j, compress r (take Bn l)) c1).
  - rewrite IH; [done|lia|rewrite length_drop; lia|rewrite length_drop; lia].
  - cbv beta iota. replace (16 * Z.of_nat (S j) =? 0) with false by lia.
    replace (length l <? 16 * word_size)%nat with false by lia. unfold mret, CM_ret.
    do 5 f_equal. rewrite u64_id; lia.
Qed.

Lemma count_total len c :
  0 <= total0 c < W → 0 <= total1 c → 0 <= len < W →
  total0 c + W * total1 c + len < W * W →
  total0 (count len c) + W * total1 (count len c) = total0 c + W * total1 c + len ∧
  0 <= total0 (count len c) < W ∧ 0 <= total1 (count len c) < W.
Proof.
  intros H0 H1 Hlen Hfit. unfold count. cbn [total0 total1 set_total]. rewrite !trunc_mod. fold W.
  assert (total1 c < W) by nia.
  destruct (decide (total0 c + len < W)) as [Hs|Hs].
  - rewrite (Z.mod_small (total0 c + len)) by lia.
    replace (total0 c + len <? len) with false by lia. lia.
  - replace ((total0 c + len) mod W) with (total0 c + len - W)
      by (apply (Z.mod_unique_pos _ _ 1); lia).
    replace (total0 c + len - W <? len) with true by lia.
    assert (total1 c + 1 < W) by nia. rewrite Z.mod_small by lia. lia.
Qed.

(** Absorbing [j] more blocks. *)
Lemma absorb_blocks k pre j d junk n c :
  absorbed k pre c → length d = (j * Bn)%nat → n = Z.of_nat (length d) → n < W →
  8 * Z.of_nat (length pre + length d) < W * W →
  ∃ c', process_block (d ++ junk) n c = Ok (tt, c') ∧
    absorbed (k + j) (pre ++ d) c' ∧ buflen c' = buflen c ∧ buffer c' = buffer c.
Proof.
  intros [Hl HH Ht H0 H1] Hd -> Hlt Hfit. destruct word_size_facts as (Hws & HW & HBn & HBz).
  eexists. split; [apply (process_block_ok j); [done|lia]|]. split; [|done].
  destruct (count_total (Z.of_nat (length d)) c) as (Ht' & H0' & H1'); [done..|lia|lia|].
  split; cbn [ctx_H set_H total0 total1]; rewrite ?length_app.
  - lia.
  - by rewrite absorb_snoc, HH.
  - lia.
  - done.
  - lia.
Qed.

(** ** [process_bytes] *)

Lemma put_buffer_ok off d b c :
  buf_copy (buffer c) off d = Some b → put_buffer off d c = Ok (tt, set_buffer b c).
Proof. intros H. unfold put_buffer. by rewrite (bind_Ok get _ c c c eq_refl), H. Qed.

Lemma put_buffer_cases off d c :
  (∃ b, put_buffer off d c = Ok (tt, set_buffer b c)) ∨ put_buffer off d c = Fault.
Proof.
  unfold put_buffer. rewrite (bind_Ok get _ c c c eq_refl).
  destruct (buf_copy (buffer c) off d) as [b|]; [left; by exists b|by right].
Qed.

Lemma absorbed_ext k pre c c' :
  absorbed k pre c → ctx_H c' = ctx_H c → total0 c' = total0 c → total1 c' = total1 c →
  absorbed k pre c'.
Proof. intros [????? ] HH H0 H1. split; congruence. Qed.

Lemma trunc_id x : 0 <= x < W → trunc x = x.
Proof. intros H. rewrite trunc_mod. by apply Z.mod_small. Qed.

Lemma bind_get {A} (k : sha_ctx → CM sha_ctx A) c : (get ≫= k) c = k c c.
Proof. done. Qed.

Lemma bind_modify {A} f (k : unit → CM sha_ctx A) c : (modify f ≫= k) c = k tt (f c).
Proof. done. Qed.

Lemma bind_or_fault {A B} (o : option A) a (k : A → CM sha_ctx B) c :
  o = Some a → (or_fault o ≫= k) c = k a c.
Proof. by intros ->. Qed.

Lemma bind_mret {A B} (a : A) (k : A → CM sha_ctx B) c : (mret a ≫= k) c = k a c.
Proof. done. Qed.

(** Putting the rest of the input behind the bytes of the buffer. *)
Lemma put_tail tail d c :
  buffered tail c → (length tail + length d <= 2 * Bn)%nat →
  ∃ junk, put_buffer (buflen c) d c = Ok (tt, set_buffer (tail ++ d ++ junk) c) ∧
    length (tail ++ d ++ junk) = (2 * Bn)%nat.
Proof.
  intros [Hl Hn [junk Hb] Hs] Hfit. rewrite Hb in Hs. rewrite length_app in Hs.
  exists (drop (length d) junk). split.
  - apply put_buffer_ok. rewrite Hb, Hn. apply buf_copy_tail. lia.
  - rewrite !length_app, length_drop. lia.
Qed.

Lemma keep_rest_ok k pre tail d c :
  absorbed k pre c → buffered tail c → tail = [] ∨ d = [] → (length d <= Bn)%nat →
  8 * Z.of_nat (length pre + length d) < W * W →
  ∃ c', keep_rest d c = Ok (tt, c') ∧ sha_rep (pre ++ tail ++ d) c'.
Proof.
  intros Ha Hb Hc Hl Hfit. unfold keep_rest. cbv zeta.
  destruct (decide (d = [])) as [->|Hd].
  { exists c. split; [done|]. rewrite app_nil_r. by exists k, pre, tail. }
  destruct Hc as [-> | ->]; [|done]. destruct word_size_facts as (Hws & HW & HBn & HBz).
  assert (0 < length d)%nat by (destruct d; [done|simpl; lia]).
  replace (_ >? 0) with true by lia. rewrite bind_get.
  destruct (put_tail [] d c Hb ltac:(simpl; lia)) as (junk & Hput & Hs). pose proof Hb as [_ Hn _ _].
  rewrite (bind_Ok _ _ _ _ _ Hput), Hn. rewrite app_nil_l in *. cbn [length Z.of_nat] in *.
  rewrite Z.add_0_l. rewrite length_app in Hs.
  destruct (decide (length d = Bn)) as [Hfull|Hpart].
  - replace (_ >=? Bz) with true by (rewrite Bz_Bn; lia). rewrite bind_assoc, bind_get.
    destruct (absorb_blocks k pre 1 d junk Bz (set_buffer (d ++ junk) c)) as (c1 & E1 & Ha1 & Hn1 & Hb1);
      [by apply (absorbed_ext _ _ c)|lia|rewrite Bz_Bn; lia|lia|lia|].
    rewrite bind_assoc, (bind_Ok _ _ _ _ _ E1), bind_assoc, bind_get, Hb1. cbn [buffer set_buffer].
    replace (Z.of_nat (length d) - Bz) with (Z.of_nat (length (@nil Z))) by (rewrite Bz_Bn; simpl; lia).
    rewrite bind_assoc. erewrite bind_or_fault; cycle 1.
    { rewrite Bz_Bn, <- Hfull. apply (buf_read_app d [] junk). }
    rewrite bind_assoc. erewrite bind_Ok; cycle 1.
    { apply put_buffer_ok. rewrite Hb1. by apply (buf_copy_front [] (d ++ junk) []). }
    eexists. split; [reflexivity|]. exists (k + 1)%nat, (pre ++ d), [].
    split; [by rewrite app_nil_r|]. split; [by apply (absorbed_ext _ _ c1)|].
    split; cbn; [lia| |by eexists|rewrite length_app; lia].
    rewrite trunc_id; lia.
  - replace (_ >=? Bz) with false by (rewrite Bz_Bn; lia). rewrite bind_mret.
    eexists. split; [reflexivity|]. exists k, pre, d. split; [done|].
    split; [by apply (absorbed_ext _ _ c)|].
    split; cbn; [lia| |by eexists|rewrite length_app; lia].
    apply trunc_id. lia.
Qed.

(** The room in the buffer, and the blocks in it. *)
Lemma fill_buffer_ok k pre tail data c :
  absorbed k pre c → buffered tail c →
  Z.of_nat (length data) < W → 8 * Z.of_nat (length pre + length tail + length data) < W * W →
  ∃ k' pre' tail' d rest c', fill_buffer data c = Ok (rest, c') ∧
    data = d ++ rest ∧ pre' ++ tail' = pre ++ tail ++ d ∧
    absorbed k' pre' c' ∧ buffered tail' c' ∧ (tail' = [] ∨ rest = []).
Proof.
  intros Ha Hb Hlt Hfit. destruct word_size_facts as (Hws & HW & HBn & HBz).
  unfold fill_buffer. cbv zeta. rewrite bind_get. pose proof Hb as [Hl Hn _ _]. rewrite Hn.
  destruct (Z.of_nat (length tail) =? 0) eqn:Hz; cbn [negb]; cbv iota.
  { exists k, pre, tail, [], data, c. repeat split; try done; try apply Ha; try apply Hb.
    - by rewrite app_nil_r.
    - left. destruct tail; [done|simpl in Hz; lia]. }
  set (add := if _ >? _ then _ else _).
  assert ((add = Z.of_nat (length data) ∨ add = 2 * Bz - Z.of_nat (length tail)) ∧
          0 <= add <= Z.of_nat (length data) ∧ Z.of_nat (length tail) + add <= 2 * Bz)
    as (Hadd & Hpos & Hroom) by (unfold add; case_match; lia).
  clearbody add. destruct (list_split_at (Z.to_nat add) data) as (d & rest & -> & Hd); [lia|].
  assert (add = Z.of_nat (length d)) as -> by lia.
  assert (rest = [] ∨ length tail + length d = 2 * Bn)%nat as Hrest.
  { destruct Hadd as [Hadd|]; [left|right; lia]. rewrite length_app in Hadd.
    apply length_zero_iff_nil. lia. }
  clear Hadd Hpos Hd. rewrite length_app in *.
  erewrite bind_or_fault by apply buf_read_front.
  destruct (put_tail tail d c Hb ltac:(lia)) as (junk & Hput & Hs). rewrite Hn in Hput.
  rewrite (bind_Ok _ _ _ _ _ Hput), bind_modify, bind_get. cbn [buflen buffer set_buflen set_buffer].
  rewrite Hn, trunc_id, <- Nat2Z.inj_add, <- !length_app by lia. rewrite app_assoc in *.
  set (c1 := set_buflen _ _). set (l := tail ++ d) in *.
  assert (buffered l c1 ∨ Bn < length l)%nat as Hb1.
  { destruct (decide (length l <= Bn)%nat); [left|right; lia]. split; [done|done|by exists junk|exact Hs]. }
  assert (or_fault (buf_read (d ++ rest) (Z.of_nat (length d))
            (Z.of_nat (length (d ++ rest)) - Z.of_nat (length d))) = mret (M := CM sha_ctx) rest) as ->.
  { rewrite length_app. replace (_ - _) with (Z.of_nat (length rest)) by lia. by rewrite buf_read_back. }
  assert (absorbed k pre c1) as Ha1 by (by apply (absorbed_ext _ _ c)).
  destruct (decide (length l <= Bn)%nat) as [Hle|Hgt].
  - replace (_ >? Bz) with false by (rewrite Bz_Bn; lia). rewrite bind_mret.
    destruct Hb1 as [Hb1|]; [|lia].
    exists k, pre, l, d, rest, c1. repeat split; try done; try apply Ha1; try apply Hb1.
    destruct Hrest as [->|Hfull]; [by right|]. unfold l in Hle. rewrite length_app in Hle. lia.
  - replace (_ >? Bz) with true by (rewrite Bz_Bn; lia). clear Hb1.
    rewrite !land_not_block by lia.
    set (q := (length l / Bn)%nat).
    assert (Bz * (Z.of_nat (length l) / Bz) = Z.of_nat (q * Bn)) as Hq.
    { rewrite Bz_Bn. unfold q. rewrite Nat2Z.inj_mul, Nat2Z.inj_div. lia. }
    rewrite Hq. pose proof (Nat.div_mod_eq (length l) Bn) as Hdm. fold q in Hdm.
    pose proof (Nat.mod_upper_bound (length l) Bn ltac:(lia)) as Hub.
    destruct (list_split_at (q * Bn) l) as (l1 & l2 & El & Hl1); [lia|].
    rewrite bind_assoc.
    destruct (absorb_blocks k pre q l1 (l2 ++ junk) (Z.of_nat (q * Bn)) c1) as (c2 & E2 & Ha2 & Hn2 & Hb2);
      [done..|lia| |unfold l in *; rewrite length_app in *; lia|].
    { unfold l in *. rewrite length_app in *. lia. }
    rewrite app_assoc, <- El in E2. rewrite (bind_Ok _ _ _ _ _ E2), bind_assoc, bind_modify.
    rewrite bind_assoc, bind_get. cbn [buffer buflen set_buflen].
    rewrite Hn2. cbn [buflen c1 set_buflen]. rewrite land_block by lia.
    assert (Z.of_nat (length l) mod Bz = Z.of_nat (length l2)) as ->.
    { rewrite Bz_Bn, <- Nat2Z.inj_mod. apply (f_equal length) in El. rewrite length_app in El. lia. }
    rewrite bind_assoc. erewrite bind_or_fault; cycle 1.
    { rewrite Hb2. cbn [buffer c1 set_buflen set_buffer]. rewrite El, <- app_assoc, <- Hl1. apply buf_read_app. }
    assert (length l2 <= length l1)%nat as H21.
    { apply (f_equal length) in El. rewrite length_app in El. assert (1 <= q)%nat by nia. nia. }
    destruct (list_split_at (length l2) (l ++ junk)) as (h & t & Eh & Hh).
    { rewrite El, !length_app. lia. }
    erewrite bind_Ok; cycle 1.
    { apply put_buffer_ok. cbn [buffer set_buflen]. rewrite Hb2. cbn [buffer c1 set_buflen set_buffer].
      rewrite Eh. by apply buf_copy_front. }
    exists (k + q)%nat, (pre ++ l1), l2, d, rest. eexists. split; [reflexivity|]. split; [done|].
    split; [by rewrite <- app_assoc, <- El|]. split; [by apply (absorbed_ext _ _ c2)|]. split.
    + split; cbn; [|done|by eexists|].
      * apply (f_equal length) in El. rewrite length_app in El. lia.
      * apply (f_equal length) in Eh. rewrite !length_app in *. lia.
    + destruct Hrest as [->|Hfull]; [by right|left]. apply length_zero_iff_nil.
      apply (f_equal length) in El. unfold l in El, Hub, Hdm. rewrite !length_app in *.
      rewrite Hfull in *. rewrite Nat.Div0.mod_mul in Hdm. lia.
Qed.

(** Whole blocks straight from an aligned input. *)
Lemma whole_blocks_aligned k pre tail data c :
  absorbed k pre c → buffered tail c → tail = [] ∨ data = [] →
  Z.of_nat (length data) < W → 8 * Z.of_nat (length pre + length data) < W * W →
  ∃ k' pre' rest c', whole_blocks false data c = Ok (rest, c') ∧
    pre' ++ tail ++ rest = pre ++ tail ++ data ∧ absorbed k' pre' c' ∧ buffered tail c' ∧
    (tail = [] ∨ rest = []) ∧ (length rest <= Bn)%nat.
Proof.
  intros Ha Hb Hc Hlt Hfit. destruct word_size_facts as (Hws & HW & HBn & HBz).
  unfold whole_blocks. cbv zeta iota.
  destruct (Z.of_nat (length data) >=? Bz) eqn:Hge; cycle 1.
  { exists k, pre, data, c. repeat split; try done; try apply Ha; try apply Hb. lia. }
  assert (0 < length data)%nat as Hpos by lia.
  destruct Hc as [-> | ->]; [|simpl in Hpos; lia].
  rewrite land_not_block, land_block by lia. set (q := (length data / Bn)%nat).
  pose proof (Nat.div_mod_eq (length data) Bn) as Hdm. fold q in Hdm.
  pose proof (Nat.mod_upper_bound (length data) Bn ltac:(lia)) as Hub.
  assert (Bz * (Z.of_nat (length data) / Bz) = Z.of_nat (q * Bn)) as ->.
  { rewrite Bz_Bn. unfold q. rewrite Nat2Z.inj_mul, Nat2Z.inj_div. lia. }
  assert (Z.of_nat (length data) mod Bz = Z.of_nat (length data mod Bn)) as ->
    by (by rewrite Bz_Bn, <- Nat2Z.inj_mod).
  destruct (list_split_at (q * Bn) data) as (d & rest & -> & Hd); [lia|].
  rewrite length_app in *.
  destruct (absorb_blocks k pre q d rest (Z.of_nat (q * Bn)) c) as (c1 & E1 & Ha1 & Hn1 & Hb1);
    [done|lia|lia|lia|lia|].
  rewrite (bind_Ok _ _ _ _ _ E1). exists (k + q)%nat, (pre ++ d), rest, c1.
  replace ((length d + length rest) mod Bn)%nat with (length rest) by lia.
  rewrite <- Hd, buf_read_back. destruct Hb as [? ? [junk ?] ?].
  repeat split; try done; try apply Ha1.
  - by rewrite <- app_assoc.
  - congruence.
  - exists junk. congruence.
  - congruence.
  - by left.
  - lia.
Qed.

(** Whole blocks through the buffer: all but the last bytes, at most a block of them. *)
Lemma whole_blocks_unaligned k pre tail data c :
  absorbed k pre c → buffered tail c → tail = [] ∨ data = [] →
  Z.of_nat (length data) < W → 8 * Z.of_nat (length pre + length data) < W * W →
  ∃ k' pre' rest c', whole_blocks true data c = Ok (rest, c') ∧
    pre' ++ tail ++ rest = pre ++ tail ++ data ∧ absorbed k' pre' c' ∧ buffered tail c' ∧
    (tail = [] ∨ rest = []) ∧ (length rest <= Bn)%nat.
Proof.
  intros Ha Hb Hc Hlt Hfit. destruct word_size_facts as (Hws & HW & HBn & HBz).
  unfold whole_blocks. cbv zeta iota.
  destruct (Z.of_nat (length data) >=? Bz) eqn:Hge; cycle 1.
  { exists k, pre, data, c. repeat split; try done; try apply Ha; try apply Hb. lia. }
  assert (0 < length data)%nat as Hpos by lia.
  destruct Hc as [-> | ->]; [|simpl in Hpos; lia]. clear Hge Hpos.
  gen_fuel (length data). revert k pre data c Ha Hb Hlt Hfit Hf.
  induction fuel as [|fuel IH]; intros k pre data c Ha Hb Hlt Hfit Hf; [lia|].
  destruct (Z.of_nat (length data) >? Bz) eqn:Hgt; cycle 1.
  { exists k, pre, data, c. split; [by apply loop_Done; rewrite Hgt|].
    repeat split; try done; try apply Ha; try apply Hb; [by left|lia]. }
  destruct (list_split_at Bn data) as (d & rest & -> & Hd); [lia|].
  rewrite length_app in *.
  pose proof Hb as [_ Hn _ Hs]. destruct (list_split_at Bn (buffer c)) as (h & junk & Eh & Hh); [lia|].
  destruct (absorb_blocks k pre 1 d junk (Z.of_nat (length d)) (set_buffer (d ++ junk) c))
    as (c1 & E1 & Ha1 & Hn1 & Hb1); [by apply (absorbed_ext _ _ c)|lia|done|lia|lia|].
  assert (buffered [] c1) as Hb2.
  { split; cbn; [lia|by rewrite Hn1|rewrite Hb1; by eexists|].
    rewrite Hb1. cbn. rewrite Eh in Hs. rewrite !length_app in *. lia. }
  destruct (IH (k + 1)%nat (pre ++ d) rest c1 Ha1 Hb2) as (k' & pre' & rest' & c' & E' & Happ & Hrest);
    [lia|rewrite length_app; lia|lia|].
  exists k', pre', rest', c'. rewrite Happ, app_nil_l, <- app_assoc. split; [|done].
  rewrite <- E'. apply loop_Next. cbv beta zeta. rewrite length_app, Hgt.
  replace Bz with (Z.of_nat (length d)) by lia.
  erewrite bind_or_fault by apply buf_read_front.
  erewrite bind_Ok; [|apply put_buffer_ok; rewrite Eh; apply buf_copy_front; lia].
  rewrite bind_get. cbn [buffer set_buffer]. rewrite (bind_Ok _ _ _ _ _ E1).
  replace (Z.of_nat (length d + length rest) - Z.of_nat (length d)) with (Z.of_nat (length rest)) by lia.
  by erewrite bind_or_fault by apply buf_read_back.
Qed.

(** One update, whatever the alignment. *)
Lemma process_bytes_ok unaligned msg data c :
  sha_rep msg c → Z.of_nat (length data) < W →
  8 * Z.of_nat (length msg + length data) < W * W →
  ∃ c', process_bytes unaligned data c = Ok (tt, c') ∧ sha_rep (msg ++ data) c'.
Proof.
  intros (k & pre & tail & -> & Ha & Hb) Hlt Hfit. rewrite length_app in Hfit. unfold process_bytes.
  destruct (fill_buffer_ok k pre tail data c Ha Hb Hlt ltac:(lia))
    as (k1 & pre1 & tail1 & d & rest & c1 & E1 & -> & Happ & Ha1 & Hb1 & Hc1).
  rewrite (bind_Ok _ _ _ _ _ E1). rewrite length_app in *.
  assert (length pre1 + length tail1 = length pre + length tail + length d)%nat as Hlen1
    by (apply (f_equal length) in Happ; rewrite !length_app in Happ; lia).
  destruct (if unaligned as u return (∃ k' pre' rest' c', whole_blocks u rest c1 = Ok (rest', c') ∧
      pre' ++ tail1 ++ rest' = pre1 ++ tail1 ++ rest ∧ absorbed k' pre' c' ∧ buffered tail1 c' ∧
      (tail1 = [] ∨ rest' = []) ∧ (length rest' <= Bn)%nat)
    then whole_blocks_unaligned k1 pre1 tail1 rest c1 Ha1 Hb1 Hc1 ltac:(lia) ltac:(lia)
    else whole_blocks_aligned k1 pre1 tail1 rest c1 Ha1 Hb1 Hc1 ltac:(lia) ltac:(lia))
    as (k2 & pre2 & rest2 & c2 & E2 & Happ2 & Ha2 & Hb2 & Hc2 & Hl2).
  rewrite (bind_Ok _ _ _ _ _ E2).
  destruct (keep_rest_ok k2 pre2 tail1 rest2 c2 Ha2 Hb2 Hc2 Hl2) as (c3 & E3 & Hr).
  { apply (f_equal length) in Happ2. rewrite !length_app in Happ2. lia. }
  exists c3. split; [done|]. rewrite Happ2, app_assoc, Happ, <- !app_assoc in Hr.
  by rewrite <- app_assoc.
Qed.

(** ** [finish_ctx] *)

Lemma init_ctx_ok c :
  length (buffer c) = (2 * Bn)%nat → ∃ c', init_ctx c = Ok (tt, c') ∧ sha_rep [] c'.
Proof.
  intros Hs. destruct word_size_facts as (Hws & HW & HBn & HBz). eexists. split; [reflexivity|].
  exists 0%nat, [], []. split; [done|]. split.
  - split; cbn; lia || done.
  - split; cbn; [lia|done|by eexists|done].
Qed.

Lemma lor_shift3 a b : 0 <= a → 0 <= b < 8 → Z.lor (8 * a) b = 8 * a + b.
Proof.
  intros Ha Hb. pose proof (Z.add_lor_land (8 * a) b).
  enough (Z.land (8 * a) b = 0) by lia. apply Z.bits_inj'. intros i Hi.
  rewrite Z.land_spec, Z.bits_0. destruct (decide (i < 3)).
  - replace (8 * a) with (a * 2 ^ 3) by lia. by rewrite Z.mul_pow2_bits_low.
  - rewrite (testbit_high b 3 i) by lia. apply andb_false_r.
Qed.

(** The two halves of the bit count. *)
Lemma length_field c n :
  0 <= total0 c < W → total0 c + W * total1 c = n → 8 * n < W * W → 0 <= total1 c →
  be_split (2 * word_size) (8 * n) =
  le_split word_size (SWAP (Z.lor (trunc (Z.shiftl (total1 c) 3))
                                  (Z.shiftr (total0 c) (8 * Z.of_nat word_size - 3)))) ++
  le_split word_size (SWAP (trunc (Z.shiftl (total0 c) 3))).
Proof.
  intros H0 Hn Hfit H1. destruct word_size_facts as (Hws & HW & HBn & HBz).
  assert (W = 8 * 2 ^ (8 * Z.of_nat word_size - 3)) as HW8.
  { unfold W. rewrite pow_256. change 8 with (2 ^ 3) at 2. rewrite <- Z.pow_add_r by lia. f_equal. lia. }
  assert (8 * total1 c < W) by nia.
  rewrite Z.shiftr_div_pow2, !Z.shiftl_mul_pow2, !trunc_mod by lia. fold W. change (2 ^ 3) with 8.
  set (D := 2 ^ (8 * Z.of_nat word_size - 3)) in *. assert (0 <= total0 c / D < 8) as Hq.
  { split; [apply Z.div_pos; lia|]. apply Z.div_lt_upper_bound; lia. }
  assert (0 <= 8 * total1 c + total0 c / D < W) as Hhi
    by (clear Hn; clearbody D; generalize dependent (total0 c / D); intros q Hq; lia).
  rewrite (Z.mod_small (total1 c * 8)), (Z.mul_comm (total1 c)) by lia.
  rewrite (lor_shift3 _ _ H1 Hq).
  pose proof (Z.mod_pos_bound (total0 c * 8) W ltac:(lia)) as Hlo.
  rewrite (SWAP_bytes _ Hhi), (SWAP_bytes _ Hlo).
  unfold be_split. rewrite <- reverse_app. f_equal.
  replace (2 * word_size)%nat with (word_size + word_size)%nat by lia. rewrite le_split_add. f_equal.
  - rewrite <- (le_split_mod _ (8 * n)). unfold W in *. f_equal. subst n.
    rewrite Z.mul_comm. replace ((total0 c + _) * 8) with (total0 c * 8 + 8 * total1 c * 256 ^ Z.of_nat word_size) by lia.
    by rewrite Z.mod_add by lia.
  - f_equal. rewrite Z.shiftr_div_pow2 by lia. rewrite <- pow_256. fold W. subst n.
    replace (8 * (total0 c + W * total1 c)) with (total0 c * 8 + 8 * total1 c * W) by lia.
    rewrite Z.div_add by lia. rewrite HW8 at 1.
    rewrite (Z.mul_comm (total0 c)), Z.div_mul_cancel_l by lia. lia.
Qed.

(** The padded message of [finish_ctx]. *)
Lemma pad_length (n : nat) (tail : list Z) :
  (Z.of_nat n) mod Bz = 0 → (length tail <= Bn)%nat →
  let bytes := Z.of_nat (length tail) in
  let ws := Z.of_nat word_size in
  let pad := if bytes >=? Bz - 2 * ws then Bz + (Bz - 2 * ws) - bytes else Bz - 2 * ws - bytes in
  1 <= pad <= Bz ∧ bytes + pad + 2 * ws <= 2 * Bz ∧
  sha2_padding (Z.of_nat (n + length tail)) =
    take (Z.to_nat pad) fillbuf ++ be_split (2 * word_size) (8 * Z.of_nat (n + length tail)).
Proof.
  intros Hn Hl bytes ws pad. destruct word_size_facts as (Hws & HW & HBn & HBz).
  assert (1 <= pad <= Bz ∧ bytes + pad + 2 * ws <= 2 * Bz) as [Hp Hp2]
    by (unfold pad, bytes, ws; case_match; lia).
  split; [done|]. split; [done|]. unfold sha2_padding, padding, fillbuf.
  destruct (Z.to_nat pad) as [|p] eqn:Ep; [lia|]. cbn [take]. rewrite <- app_comm_cons, app_assoc.
  rewrite take_replicate, Nat.min_l by lia. cbn [app]. do 3 f_equal.
  fold ws. apply (Z.mod_divide) in Hn as [q Hq]; [|lia].
  assert (Z.of_nat p = (Bz - 2 * ws - 1 - Z.of_nat (n + length tail)) mod Bz) as <-; [|lia].
  rewrite Nat2Z.inj_add, Hq. fold bytes. assert (Z.of_nat p = pad - 1) as -> by lia.
  unfold pad, bytes, ws in *. case_match.
  - apply (Z.mod_unique_pos _ _ (- q - 1)); lia.
  - apply (Z.mod_unique_pos _ _ (- q)); lia.
Qed.

(** The registers are words. *)
Definition words (r : regs) : Prop :=
  let '(a, b, c, d, e, f, g, h) := r in Forall (λ x, 0 <= x < W) [a; b; c; d; e; f; g; h].

Lemma trunc_range x : 0 <= trunc x < W.
Proof.
  destruct word_size_facts as (Hws & HW & HBn & HBz). rewrite trunc_mod. apply Z.mod_pos_bound.
  fold W. lia.
Qed.

Lemma compress_words r block : words (compress r block).
Proof.
  unfold compress, add_regs. destruct (foldl _ r _) as [[[[[[[a b] c] d] e] f] g] h].
  destruct r as [[[[[[[a' b'] c'] d'] e'] f'] g'] h']. unfold words.
  repeat constructor; apply trunc_range.
Qed.

Lemma absorb_words k data : (0 < k)%nat → words (absorb Bn compress k H0 data).
Proof.
  intros Hk. destruct k as [|k]; [lia|]. cbn [absorb].
  generalize (compress_words H0 (take Bn data)). generalize (compress H0 (take Bn data)) as r.
  generalize (drop Bn data) as l. clear Hk.
  induction k as [|k IH]; intros l r Hr; [done|]. cbn [absorb]. apply IH, compress_words.
Qed.

Definition digest_be (r : regs) : list Z :=
  let '(a, b, c, d, e, f, g, h) := r in mjoin (be_split word_size <$> [a; b; c; d; e; f; g; h]).

Lemma digest_of_words r : words r → digest_of r = digest_be r.
Proof.
  destruct r as [[[[[[[a b] c] d] e] f] g] h]. unfold words, digest_of, digest_be. intros H.
  f_equal. apply list_fmap_ext. intros i x Hx. apply SWAP_bytes.
  by eapply (Forall_lookup_1 (λ x, 0 <= x < W)) in H.
Qed.

Lemma digest_be_length r : length (digest_be r) = (8 * word_size)%nat.
Proof.
  destruct r as [[[[[[[a b] c] d] e] f] g] h]. unfold digest_be. cbn [fmap list_fmap mjoin list_join].
  rewrite !length_app, !be_split_length. simpl. lia.
Qed.

(** The padded message is a whole number of blocks. *)
Lemma padded_blocks (n : nat) : ((n + length (sha2_padding (Z.of_nat n))) mod Bn = 0)%nat.
Proof.
  destruct word_size_facts as (Hws & HW & HBn & HBz). apply Nat2Z.inj.
  rewrite Nat2Z.inj_mod, <- Bz_Bn, Nat2Z.inj_add. apply padding_blocks; [lia|].
  intros x. rewrite be_split_length. lia.
Qed.

Lemma padded_tail k (pre tail : list Z) :
  length pre = (k * Bn)%nat →
  let data := tail ++ sha2_padding (Z.of_nat (length pre + length tail)) in
  length data = (length data / Bn * Bn)%nat ∧
  sha2 (pre ++ tail) = digest_be (absorb Bn compress (k + length data / Bn) H0 (pre ++ data)).
Proof.
  intros Hk data. destruct word_size_facts as (Hws & HW & HBn & HBz).
  assert (length data = (length data / Bn) * Bn)%nat as Hblocks.
  { pose proof (Nat.div_mod_eq (length data) Bn). enough (length data mod Bn = 0)%nat by lia.
    rewrite <- (padded_blocks (length pre + length tail)). unfold data. rewrite length_app.
    generalize (length (sha2_padding (Z.of_nat (length pre + length tail)))) as p. intros p.
    replace (length pre + length tail + p)%nat with (length tail + p + k * Bn)%nat by lia.
    symmetry. apply Nat.Div0.mod_add. }
  split; [done|]. unfold sha2. fold Bn. cbv zeta.
  rewrite (length_app pre tail), <- app_assoc. fold data.
  replace (length (pre ++ data) / Bn)%nat with (k + length data / Bn)%nat; [done|].
  rewrite length_app, Hk. symmetry. apply Nat.div_add_l. lia.
Qed.

(** The stores that complete the buffer of [finish_ctx]. *)
Definition complete (bytes pad : Z) (fill hi lo : list Z) : CM sha_ctx unit :=
  _ ← put_buffer bytes fill;
  _ ← put_buffer (bytes + pad + Z.of_nat word_size) lo;
  put_buffer (bytes + pad) hi.

Lemma complete_ok tail fill hi lo c :
  buffered tail c → length hi = word_size → length lo = word_size →
  (length tail + length fill + 2 * word_size <= 2 * Bn)%nat →
  ∃ junk, complete (Z.of_nat (length tail)) (Z.of_nat (length fill)) fill hi lo c =
      Ok (tt, set_buffer (tail ++ fill ++ hi ++ lo ++ junk) c) ∧
    length (tail ++ fill ++ hi ++ lo ++ junk) = (2 * Bn)%nat.
Proof.
  intros Hb Hhi Hlo Hroom. destruct word_size_facts as (Hws & HW & HBn & HBz).
  unfold complete. destruct (put_tail tail fill c Hb ltac:(lia)) as (j1 & E1 & Hs1).
  rewrite (bf_buflen _ _ Hb) in E1. rewrite (bind_Ok _ _ _ _ _ E1). rewrite !length_app in Hs1.
  destruct (list_split_at word_size j1) as (x & j2 & -> & Hx); [lia|]. rewrite length_app in Hs1.
  destruct (list_split_at word_size j2) as (y & j3 & -> & Hy); [lia|]. rewrite length_app in Hs1.
  pose proof (buf_copy_app (tail ++ fill ++ x) y j3 lo ltac:(lia)) as E2.
  pose proof (buf_copy_app (tail ++ fill) x (lo ++ j3) hi ltac:(lia)) as E3.
  rewrite !length_app, <- !app_assoc in E2. rewrite length_app, <- !app_assoc in E3. exists j3. split; [|rewrite !length_app; lia].
  replace (_ + _ + Z.of_nat word_size) with (Z.of_nat (length tail + (length fill + length x))) by lia.
  rewrite (bind_Ok _ _ _ _ _ (put_buffer_ok _ _ _ (set_buffer _ c) E2)), <- Nat2Z.inj_add.
  by rewrite (put_buffer_ok _ _ _ (set_buffer _ _) E3).
Qed.

Lemma digest_be_bytes r : Forall byte (digest_be r).
Proof.
  destruct r as [[[[[[[a b] c] d] e] f] g] h]. unfold digest_be. cbn [fmap list_fmap mjoin list_join].
  repeat apply Forall_app_2; auto using Forall_nil_2; unfold be_split;
    apply Forall_reverse, le_split_byte.
Qed.

(** [finish_ctx], its stores grouped. *)
Lemma finish_ctx_eq c :
  let ws := Z.of_nat word_size in
  let bytes := buflen c in
  let pad := if bytes >=? Bz - 2 * ws then Bz + (Bz - 2 * ws) - bytes else Bz - 2 * ws - bytes in
  let c1 := count bytes c in
  finish_ctx c = (fill ← or_fault (buf_read fillbuf 0 pad);
    _ ← complete bytes pad fill
      (le_split word_size (SWAP (Z.lor (trunc (Z.shiftl (total1 c1) 3)) (Z.shiftr (total0 c1) (8 * ws - 3)))))
      (le_split word_size (SWAP (trunc (Z.shiftl (total0 c1) 3))));
    c ← get;
    _ ← process_block (buffer c) (bytes + pad + 2 * ws);
    c ← get;
    mret (digest_of (ctx_H c))) c1.
Proof.
  intros ws bytes pad c1. unfold finish_ctx. cbv zeta. rewrite bind_get, bind_modify.
  fold ws bytes pad c1. unfold or_fault. destruct (buf_read fillbuf 0 pad) as [fill|]; [|done].
  rewrite !bind_mret. unfold complete. rewrite bind_assoc.
  destruct (put_buffer_cases bytes fill c1) as [[b E]|E].
  - rewrite !(bind_Ok _ _ _ _ _ E), bind_get. by rewrite bind_assoc.
  - by rewrite !(bind_Fault _ _ _ E).
Qed.

(** [finish_ctx] hashes the padded message. *)
Lemma finish_ctx_ok msg c :
  sha_rep msg c → 8 * Z.of_nat (length msg) < W * W →
  ∃ c', finish_ctx c = Ok (sha2 msg, c') ∧ length (buffer c') = (2 * Bn)%nat.
Proof.
  intros (k & pre & tail & -> & [Hk HH Ht H0 H1] & Hb) Hfit. rewrite length_app in Hfit.
  destruct word_size_facts as (Hws & HW & HBn & HBz). pose proof Hb as [Hl Hn [junk Hj] Hs].
  rewrite finish_ctx_eq. cbv zeta. rewrite Hn.
  destruct (pad_length (length pre) tail) as (Hp & Hp2 & Hpad); [|done|].
  { rewrite Hk, Nat2Z.inj_mul, <- Bz_Bn. apply Z.mod_mul. lia. }
  set (pad := if _ >=? _ then _ else _) in *. clearbody pad.
  set (c1 := count _ c). assert (buffered tail c1) as Hb1 by (by split; [..|exists junk|]).
  destruct (count_total (Z.of_nat (length tail)) c H0 H1) as (Ht1 & H01 & H11); [lia|lia|].
  fold c1 in Ht1, H01, H11.
  rewrite (length_field c1) in Hpad by lia.
  set (lo := le_split word_size (SWAP (trunc _))) in *.
  set (hi := le_split word_size (SWAP (Z.lor _ _))) in *.
  set (fill := take (Z.to_nat pad) fillbuf) in *.
  assert (length fillbuf = Bn) as Hfb by (unfold fillbuf; cbn [length]; rewrite length_replicate; lia).
  assert (length fill = Z.to_nat pad) as Hfl by (unfold fill; rewrite length_take; lia).
  erewrite bind_or_fault; cycle 1.
  { unfold buf_read. replace (_ && _) with true by lia. by rewrite drop_0. }
  fold fill. replace pad with (Z.of_nat (length fill)) by lia.
  destruct (complete_ok tail fill hi lo c1 Hb1) as (j & Ec & Hj1); [apply length_le_split..|lia|].
  rewrite (bind_Ok _ _ _ _ _ Ec), bind_get. cbn [buffer set_buffer].
  destruct (padded_tail k pre tail Hk) as [Hq Hsha]. rewrite Hpad in Hq, Hsha. rewrite Hsha.
  set (data := tail ++ fill ++ hi ++ lo) in *.
  assert (tail ++ fill ++ hi ++ lo ++ j = data ++ j) as Edata by (unfold data; by rewrite <- !app_assoc).
  assert (length data = length tail + length fill + 2 * word_size)%nat as Hdl
    by (unfold data, hi, lo; rewrite !length_app, !length_le_split; lia).
  rewrite Edata in *. set (q := (length data / Bn)%nat) in *.
  replace (_ + _ + 2 * _) with (Z.of_nat (length data)) by lia.
  erewrite bind_Ok by (apply (process_block_ok q); [done|lia]).
  rewrite bind_get. cbn [ctx_H set_H]. eexists. split.
  - unfold mret, CM_ret. apply (f_equal (λ d, Ok (d, _))).
    change (ctx_H (set_buffer _ c1)) with (ctx_H c).
    rewrite HH, <- (absorb_snoc _ _ k q) by done. apply digest_of_words, absorb_words.
    clearbody q. destruct q; lia.
  - exact Hj1.
Qed.

(** The interface, for one of the two hashes; the update is the one for an
    aligned or for an unaligned input. *)
Definition sha2_stream (unaligned : bool) : StreamHash sha_ctx.
Proof.
  refine {| sh_hash := sha2; sh_digest_size := (8 * word_size)%nat; sh_init := init_ctx;
    sh_update := process_bytes unaligned; sh_final := finish_ctx;
    sh_wf := λ c, length (buffer c) = (2 * Bn)%nat; sh_rep := sha_rep; sh_max := W |}.
  - intros m. apply digest_be_length.
  - intros m. apply digest_be_bytes.
  - by intros m c (k & pre & tail & _ & _ & [_ _ _ ?]).
  - apply init_ctx_ok.
  - intros m d c Hr Hlt. destruct word_size_facts as (Hws & HW & HBn & HBz).
    apply process_bytes_ok; [done|lia|nia].
  - intros m c Hr Hlt. destruct word_size_facts as (Hws & HW & HBn & HBz).
    apply finish_ctx_ok; [done|nia].
Defined.
(** A message in pieces, each with the alignment of its buffer. *)
Fixpoint process_all (ds : list (bool * list Z)) : CM sha_ctx unit :=
  match ds with
  | [] => mret tt
  | (unaligned, d) :: ds => _ ← process_bytes unaligned d; process_all ds
  end.

Lemma process_all_ok ds msg c :
  sha_rep msg c → Forall (λ p, Z.of_nat (length p.2) < W) ds →
  8 * Z.of_nat (length msg + length (mjoin ds.*2)) < W * W →
  ∃ c', process_all ds c = Ok (tt, c') ∧ sha_rep (msg ++ mjoin ds.*2) c'.
Proof.
  revert msg c. induction ds as [|[u d] ds IH]; intros msg c Hr Hd Hfit.
  { exists c. by rewrite app_nil_r. }
  change (mjoin ((u, d) :: ds).*2) with (d ++ mjoin ds.*2) in *. cbn [process_all].
  apply Forall_cons in Hd as [Hd Hds]. cbn [snd] in Hd. rewrite length_app in Hfit.
  destruct (process_bytes_ok u msg d c Hr Hd) as (c1 & E1 & Hr1); [lia|].
  rewrite (bind_Ok _ _ _ _ _ E1). destruct (IH (msg ++ d) c1 Hr1 Hds) as (c2 & E2 & Hr2).
  { rewrite length_app. lia. }
  exists c2. by rewrite app_assoc.
Qed.


(** The message schedule. *)
Lemma length_schedule W16 : length (schedule W16) = (length W16 + (length K - 16))%nat.
Proof.
  unfold schedule. generalize (length K - 16)%nat as n. generalize 16%nat as t. intros t n. revert W16 t.
  induction n as [|n IH]; intros l t; simpl; [lia|]. rewrite IH. unfold extend. rewrite length_app. simpl. lia.
Qed.

Lemma extend_prefix n t l i :
  (i < length l)%nat → nth i (foldl extend l (seq t n)) 0 = nth i l 0.
Proof.
  revert l t. induction n as [|n IH]; intros l t Hi; [done|]. simpl. rewrite IH.
  - unfold extend. by rewrite app_nth1.
  - unfold extend. rewrite length_app. lia.
Qed.

Lemma extend_nth n l i :
  (length l <= i < length l + n)%nat →
  let V := foldl extend l (seq (length l) n) in (16 <= length l)%nat →
  nth i V 0 = trunc (R1 (nth (i - 2) V 0) + nth (i - 7) V 0 + R0 (nth (i - 15) V 0) + nth (i - 16) V 0).
Proof.
  revert l. induction n as [|n IH]; intros l Hi V Hl; [lia|]. unfold V. simpl.
  assert (length (extend l (length l)) = S (length l)) as El
    by (unfold extend; rewrite length_app; simpl; lia).
  destruct (decide (i = length l)) as [->|Hne].
  - rewrite !extend_prefix by lia. unfold extend at 1. rewrite app_nth2, Nat.sub_diag by lia. cbn [nth].
    unfold extend. by rewrite !app_nth1 by lia.
  - rewrite <- El. apply IH; lia.
Qed.
End facts.


(** The message schedule of [process_block] starts with the 16 words of the
    block and continues with the recurrence of FIPS 180-2:6.2.2. *)
Theorem sha2_schedule_correct {P : Sha2Params} W16 t :
  length W16 = 16%nat → (t < length K)%nat →
  let V := schedule W16 in
  nth t V 0 =
    if (t <? 16)%nat then nth t W16 0
    else trunc (R1 (nth (t - 2) V 0) + nth (t - 7) V 0 + R0 (nth (t - 15) V 0) + nth (t - 16) V 0).
Proof.
  intros Hl Ht V. unfold V, schedule. destruct (Nat.ltb_spec t 16).
  - apply extend_prefix. lia.
  - pose proof (extend_nth (length K - 16) W16 t) as E. rewrite Hl in E. apply E; lia.
Qed.

Lemma sha2_schedule_correct_witness :
  let V := schedule (P := sha256) (seqZ 0 16) in
  nth 63 V 0 = u32 (sha256_R1 (nth 61 V 0) + nth 56 V 0 + sha256_R0 (nth 48 V 0) + nth 47 V 0).
Proof. apply (sha2_schedule_correct (P := sha256) (seqZ 0 16) 63); [reflexivity|cbv; lia]. Defined.

Lemma rotate_bit n x s i :
  0 <= x < 2 ^ n → 0 < s < n → 0 <= i < n →
  Z.testbit (Z.lor (Z.shiftr x s) (Z.land (Z.shiftl x (n - s)) (Z.ones n))) i =
  Z.testbit x ((i + s) mod n).
Proof.
  intros Hx Hs Hi.
  rewrite Z.lor_spec, Z.land_spec, Z.shiftr_spec, Z.shiftl_spec, Z.ones_spec_low, andb_true_r by lia.
  destruct (decide (i + s < n)).
  - rewrite Z.mod_small by lia. rewrite (Z.testbit_neg_r x (i - (n - s))) by lia. apply orb_false_r.
  - replace ((i + s) mod n) with (i + s - n) by (apply (Z.mod_unique_pos _ _ 1); lia).
    rewrite (testbit_high x n (i + s)) by lia. cbn [orb]. f_equal. lia.
Qed.

(** The macros [CYCLIC], [Ch] and [Maj] are, bit by bit, the rotations, the
    choice and the majority of FIPS 180-2:4.1. *)
Theorem sha2_functions_bits x y z s i :
  (0 <= x < 2 ^ 32 → 0 < s < 32 → 0 <= i < 32 →
    Z.testbit (CYCLIC32 x s) i = Z.testbit x ((i + s) mod 32)) ∧
  (0 <= x < 2 ^ 64 → 0 < s < 64 → 0 <= i < 64 →
    Z.testbit (CYCLIC64 x s) i = Z.testbit x ((i + s) mod 64)) ∧
  (0 <= i < 32 →
    Z.testbit (Ch (P := sha256) x y z) i = (if Z.testbit x i then Z.testbit y i else Z.testbit z i)) ∧
  (0 <= i < 64 →
    Z.testbit (Ch (P := sha512) x y z) i = (if Z.testbit x i then Z.testbit y i else Z.testbit z i)) ∧
  Z.testbit (Maj x y z) i =
    (Z.testbit x i && Z.testbit y i || Z.testbit x i && Z.testbit z i || Z.testbit y i && Z.testbit z i).
Proof.
  repeat split; intros.
  - by apply (rotate_bit 32).
  - by apply (rotate_bit 64).
  - unfold Ch. cbn [trunc sha256]. unfold u32. change 0xffffffff with (Z.ones 32).
    rewrite Z.lxor_spec, !Z.land_spec, Z.lnot_spec, Z.ones_spec_low by lia.
    destruct (Z.testbit x i), (Z.testbit y i), (Z.testbit z i); reflexivity.
  - unfold Ch. cbn [trunc sha512]. unfold u64. change 0xffffffffffffffff with (Z.ones 64).
    rewrite Z.lxor_spec, !Z.land_spec, Z.lnot_spec, Z.ones_spec_low by lia.
    destruct (Z.testbit x i), (Z.testbit y i), (Z.testbit z i); reflexivity.
  - unfold Maj. rewrite !Z.lxor_spec, !Z.land_spec.
    destruct (Z.testbit x i), (Z.testbit y i), (Z.testbit z i); reflexivity.
Qed.

Lemma sha2_functions_bits_witness :
  Z.testbit (CYCLIC32 (2 ^ 31) 5) 26 = Z.testbit (2 ^ 31) ((26 + 5) mod 32).
Proof. apply (sha2_functions_bits (2 ^ 31) 0 0 5 26); lia. Defined.

(** The first test vector of FIPS 180-2 (and of the unit tests of the file). *)
Example sha256_abc :
  sha2 (P := sha256) (STR "abc") =
  [0xba; 0x78; 0x16; 0xbf; 0x8f; 0x01; 0xcf; 0xea; 0x41; 0x41; 0x40; 0xde; 0x5d; 0xae; 0x22; 0x23;
   0xb0; 0x03; 0x61; 0xa3; 0x96; 0x17; 0x7a; 0x9c; 0xb4; 0x10; 0xff; 0x61; 0xf2; 0x00; 0x15; 0xad].
Proof. vm_compute. reflexivity. Qed.
