(* ===== verification/Md5.v ===== *)
(** * MD5

    [libcrypt/md5.c] (the portable C version, little-endian), and the proof that
    its stream functions compute the MD5 hash of the concatenation of their
    inputs, as an instance of [StreamHash]. *)

From S2P Require Import Prelude Mem HashStream.

(** ** Contexts *)

Definition md5_regs : Type := Z * Z * Z * Z.

Record MD5_CTX : Type := mk_md5 {
  state : md5_regs;
  count0 : Z;            (* number of bits, modulo 2^64, least significant word first *)
  count1 : Z;
  md5_buffer : list Z;
}.

Definition set_state (s : md5_regs) (c : MD5_CTX) : MD5_CTX :=
  mk_md5 s (count0 c) (count1 c) (md5_buffer c).
Definition set_count (n0 n1 : Z) (c : MD5_CTX) : MD5_CTX := mk_md5 (state c) n0 n1 (md5_buffer c).
Definition set_md5_buffer (b : list Z) (c : MD5_CTX) : MD5_CTX :=
  mk_md5 (state c) (count0 c) (count1 c) b.

Definition md5_H0 : md5_regs := (0x67452301, 0xefcdab89, 0x98badcfe, 0x10325476).

Definition MD5Init : CM MD5_CTX unit := modify (λ c, set_state md5_H0 (set_count 0 0 c)).

(** ** The transformation *)

Definition ROTATE_LEFT (x n : Z) : Z := Z.lor (u32 (Z.shiftl x n)) (Z.shiftr x (32 - n)).

Definition F (x y z : Z) : Z := Z.lxor z (Z.land x (Z.lxor y z)).
Definition G (x y z : Z) : Z := Z.lxor y (Z.land z (Z.lxor x y)).
Definition H (x y z : Z) : Z := Z.lxor (Z.lxor x y) z.
Definition I (x y z : Z) : Z := Z.lxor y (Z.lor x (not32 z)).

(** The 64 steps: the function, the index of the word, the rotation and the
    constant.  The registers rotate by one place from step to step. *)
Definition md5_steps : list ((Z → Z → Z → Z) * nat * Z * Z) := [
  (F, 0%nat, 7, 0xd76aa478); (F, 1%nat, 12, 0xe8c7b756); (F, 2%nat, 17, 0x242070db); (F, 3%nat, 22, 0xc1bdceee);
  (F, 4%nat, 7, 0xf57c0faf); (F, 5%nat, 12, 0x4787c62a); (F, 6%nat, 17, 0xa8304613); (F, 7%nat, 22, 0xfd469501);
  (F, 8%nat, 7, 0x698098d8); (F, 9%nat, 12, 0x8b44f7af); (F, 10%nat, 17, 0xffff5bb1); (F, 11%nat, 22, 0x895cd7be);
  (F, 12%nat, 7, 0x6b901122); (F, 13%nat, 12, 0xfd987193); (F, 14%nat, 17, 0xa679438e); (F, 15%nat, 22, 0x49b40821);
  (G, 1%nat, 5, 0xf61e2562); (G, 6%nat, 9, 0xc040b340); (G, 11%nat, 14, 0x265e5a51); (G, 0%nat, 20, 0xe9b6c7aa);
  (G, 5%nat, 5, 0xd62f105d); (G, 10%nat, 9, 0x02441453); (G, 15%nat, 14, 0xd8a1e681); (G, 4%nat, 20, 0xe7d3fbc8);
  (G, 9%nat, 5, 0x21e1cde6); (G, 14%nat, 9, 0xc33707d6); (G, 3%nat, 14, 0xf4d50d87); (G, 8%nat, 20, 0x455a14ed);
  (G, 13%nat, 5, 0xa9e3e905); (G, 2%nat, 9, 0xfcefa3f8); (G, 7%nat, 14, 0x676f02d9); (G, 12%nat, 20, 0x8d2a4c8a);
  (H, 5%nat, 4, 0xfffa3942); (H, 8%nat, 11, 0x8771f681); (H, 11%nat, 16, 0x6d9d6122); (H, 14%nat, 23, 0xfde5380c);
  (H, 1%nat, 4, 0xa4beea44); (H, 4%nat, 11, 0x4bdecfa9); (H, 7%nat, 16, 0xf6bb4b60); (H, 10%nat, 23, 0xbebfbc70);
  (H, 13%nat, 4, 0x289b7ec6); (H, 0%nat, 11, 0xeaa127fa); (H, 3%nat, 16, 0xd4ef3085); (H, 6%nat, 23, 0x04881d05);
  (H, 9%nat, 4, 0xd9d4d039); (H, 12%nat, 11, 0xe6db99e5); (H, 15%nat, 16, 0x1fa27cf8); (H, 2%nat, 23, 0xc4ac5665);
  (I, 0%nat, 6, 0xf4292244); (I, 7%nat, 10, 0x432aff97); (I, 14%nat, 15, 0xab9423a7); (I, 5%nat, 21, 0xfc93a039);
  (I, 12%nat, 6, 0x655b59c3); (I, 3%nat, 10, 0x8f0ccc92); (I, 10%nat, 15, 0xffeff47d); (I, 1%nat, 21, 0x85845dd1);
  (I, 8%nat, 6, 0x6fa87e4f); (I, 15%nat, 10, 0xfe2ce6e0); (I, 6%nat, 15, 0xa3014314); (I, 13%nat, 21, 0x4e0811a1);
  (I, 4%nat, 6, 0xf7537e82); (I, 11%nat, 10, 0xbd3af235); (I, 2%nat, 15, 0x2ad7d2bb); (I, 9%nat, 21, 0xeb86d391)].

(** [FF], [GG], [HH] and [II], then the registers in the order of the next step. *)
Definition md5_step (x : list Z) (r : md5_regs) (st : (Z → Z → Z → Z) * nat * Z * Z) : md5_regs :=
  let '(a, b, c, d) := r in
  let '(f, k, s, ac) := st in
  let a := u32 (a + u32 (f b c d + nth k x 0 + ac)) in
  let a := ROTATE_LEFT a s in
  let a := u32 (a + b) in
  (d, a, b, c).

(** The words of a block. *)
Fixpoint md5_words (n : nat) (block : list Z) : list Z :=
  match n with
  | O => []
  | S n => le_combine (take 4 block) :: md5_words n (drop 4 block)
  end.

(** The registers after one block. *)
Definition md5_compress (r : md5_regs) (block : list Z) : md5_regs :=
  let '(a, b, c, d) := foldl (md5_step (md5_words 16 block)) r md5_steps in
  let '(a0, b0, c0, d0) := r in
  (u32 (a + a0), u32 (b + b0), u32 (c + c0), u32 (d + d0)).

(** [__MD5Transform] over the bytes of [data], [repeat] blocks. *)
Definition MD5Transform (data : list Z) (repeat : Z) : CM MD5_CTX unit :=
  c ← get;
  s ← loop (S (length data)) (λ '(data, repeat, s),
    if repeat =? 0 then mret (Done s) else
    if (length data <? 64)%nat then fault else
    mret (Next (drop 64 data, repeat - 1, md5_compress s (take 64 data)))) (data, repeat, state c);
  modify (set_state s).

(** ** [MD5Update] and [MD5Final] *)

(** The bit count after [n] more bytes. *)
Definition md5_count (n : Z) (c : MD5_CTX) : MD5_CTX :=
  let bits := u64 (Z.shiftl n 3) in
  let n0 := u32 (count0 c + bits) in
  let n1 := if n0 <? bits then u32 (count1 c + 1) else count1 c in
  set_count n0 (u32 (n1 + Z.shiftr n (32 - 3))) c.

(** [memcpy (&context->buffer[off], data, ...)] *)
Definition put_md5 (off : Z) (data : list Z) : CM MD5_CTX unit :=
  c ← get; b ← or_fault (buf_copy (md5_buffer c) off data); modify (set_md5_buffer b).

(** "Transform as many times as possible": the final [byteIndex] and [i]. *)
Definition MD5Update_blocks (input : list Z) (byteIndex : Z) : CM MD5_CTX (Z * Z) :=
  let inputBytes := Z.of_nat (length input) in
  let partLen := 64 - byteIndex in
  if inputBytes >=? partLen then
    d ← or_fault (buf_read input 0 partLen);
    _ ← put_md5 byteIndex d;
    c ← get;
    _ ← MD5Transform (md5_buffer c) 1;
    let len := s32 ((inputBytes - partLen) / 64) in
    rest ← or_fault (buf_read input partLen (inputBytes - partLen));
    _ ← MD5Transform rest len;
    let i := s32 (partLen + 64 * len) in
    mret (0, i)
  else mret (byteIndex, 0).

Definition MD5Update (input : list Z) : CM MD5_CTX unit :=
  let inputBytes := Z.of_nat (length input) in
  c ← get;
  let byteIndex := Z.land (Z.shiftr (count0 c) 3) 0x3f in
  _ ← modify (md5_count inputBytes);
  '(byteIndex, i) ← MD5Update_blocks input byteIndex;
  d ← or_fault (buf_read input i (u64 (inputBytes - i)));
  put_md5 byteIndex d.

Definition finalBlock : list Z := 0x80 :: replicate 63 0.

Definition md5_digest (r : md5_regs) : list Z :=
  let '(a, b, c, d) := r in mjoin (le_split 4 <$> [a; b; c; d]).

Definition MD5Final : CM MD5_CTX (list Z) :=
  c ← get;
  let byteIndex := Z.land (Z.shiftr (count0 c) 3) 0x3f in
  let finalBlockLength := (if byteIndex <? 56 then 56 else 120) - byteIndex in
  let bits := le_split 4 (count0 c) ++ le_split 4 (count1 c) in
  fill ← or_fault (buf_read finalBlock 0 finalBlockLength);
  _ ← MD5Update fill;
  _ ← MD5Update bits;
  c ← get;
  _ ← modify (λ c, mk_md5 (0, 0, 0, 0) 0 0 (replicate (length (md5_buffer c)) 0));
  mret (md5_digest (state c)).

(** ** The hash function of RFC 1321 *)

Definition md5_padding (n : Z) : list Z := padding 64 8 (le_split 8) n.

Definition md5 (msg : list Z) : list Z :=
  let m := msg ++ md5_padding (Z.of_nat (length msg)) in
  md5_digest (absorb 64 md5_compress (length m / 64) md5_H0 m).

(** ** Contexts that have taken in a message *)

Record md5_at (k : nat) (pre tail : list Z) (c : MD5_CTX) : Prop := {
  m5_pre : length pre = (k * 64)%nat;
  m5_tail : (length tail < 64)%nat;
  m5_state : state c = absorb 64 md5_compress k md5_H0 pre;
  m5_count : count0 c + 2 ^ 32 * count1 c = 8 * Z.of_nat (length pre + length tail);
  m5_count0 : 0 <= count0 c < 2 ^ 32;
  m5_count1 : 0 <= count1 c;
  m5_buffer : ∃ junk, md5_buffer c = tail ++ junk;
  m5_size : length (md5_buffer c) = 64%nat;
}.

Definition md5_rep (msg : list Z) (c : MD5_CTX) : Prop :=
  ∃ k pre tail, msg = pre ++ tail ∧ md5_at k pre tail c.

Lemma byte_index k pre tail c :
  md5_at k pre tail c → Z.land (Z.shiftr (count0 c) 3) 0x3f = Z.of_nat (length tail).
Proof.
  intros [Hk Ht _ Hc Hr _ _ _]. change 0x3f with (Z.ones 6).
  rewrite Z.land_ones, Z.shiftr_div_pow2 by lia. change (2 ^ 3) with 8. change (2 ^ 6) with 64.
  change (2 ^ 32) with 4294967296 in *. Z.div_mod_to_equations. lia.
Qed.

Lemma md5_count_ok n c :
  0 <= count0 c < 2 ^ 32 → 0 <= count1 c → 0 <= n < 2 ^ 29 →
  count0 c + 2 ^ 32 * count1 c + 8 * n < 2 ^ 64 →
  let c' := md5_count n c in
  count0 c' + 2 ^ 32 * count1 c' = count0 c + 2 ^ 32 * count1 c + 8 * n ∧
  0 <= count0 c' < 2 ^ 32 ∧ 0 <= count1 c'.
Proof.
  intros H0 H1 Hn Hfit c'. unfold c', md5_count. cbv zeta. cbn [count0 count1 set_count].
  change (2 ^ 32) with 4294967296 in *. change (2 ^ 29) with 536870912 in *.
  change (2 ^ 64) with 18446744073709551616 in *.
  rewrite Z.shiftr_div_pow2, Z.shiftl_mul_pow2, (Z.div_small n) by lia. change (2 ^ 3) with 8.
  rewrite (u64_id (n * 8)), Z.add_0_r by lia.
  destruct (u32 (count0 c + n * 8) <? n * 8) eqn:E; int_lia.
Qed.

Lemma MD5Transform_ok j d junk c :
  length d = (j * 64)%nat →
  MD5Transform (d ++ junk) (Z.of_nat j) c =
  Ok (tt, set_state (absorb 64 md5_compress j (state c) d) c).
Proof.
  intros Hd. unfold MD5Transform. rewrite (bind_Ok get _ c c c eq_refl).
  erewrite bind_Ok; [reflexivity|]. rewrite <- (absorb_app _ _ _ _ d junk) by lia.
  assert (j * 64 <= length (d ++ junk))%nat as Hl by (rewrite length_app; lia).
  gen_fuel (length (d ++ junk)). generalize dependent (d ++ junk). generalize (state c) as r.
  clear Hd. revert fuel.
  induction j as [|j IH]; intros fuel r l Hl Hf; (destruct fuel as [|fuel]; [lia|]); [by apply loop_Done|].
  rewrite (loop_Next _ _ _ _ (drop 64 l, Z.of_nat j, md5_compress r (take 64 l)) c).
  - rewrite IH; [done|rewrite length_drop; lia|rewrite length_drop; lia].
  - cbv beta iota. replace (Z.of_nat (S j) =? 0) with false by lia.
    replace (length l <? 64)%nat with false by lia. unfold mret, CM_ret. do 5 f_equal. lia.
Qed.

Lemma put_md5_ok off d b c :
  buf_copy (md5_buffer c) off d = Some b → put_md5 off d c = Ok (tt, set_md5_buffer b c).
Proof. intros E. unfold put_md5. by rewrite (bind_Ok get _ c c c eq_refl), E. Qed.

(** The block in the buffer and the whole blocks [e1] of the input. *)
Lemma update_blocks k pre tail d1 e1 e2 junk c :
  length pre = (k * 64)%nat → (length tail + length d1 = 64)%nat →
  state c = absorb 64 md5_compress k md5_H0 pre →
  md5_buffer c = tail ++ junk → length junk = length d1 →
  ∀ q, length e1 = (q * 64)%nat → (length e2 < 64)%nat →
  Z.of_nat (length (d1 ++ e1 ++ e2)) < 2 ^ 29 →
  MD5Update_blocks (d1 ++ e1 ++ e2) (Z.of_nat (length tail)) c =
  Ok ((0, Z.of_nat (length (d1 ++ e1))),
      set_state (absorb 64 md5_compress (k + 1 + q) md5_H0 (pre ++ tail ++ d1 ++ e1))
        (set_md5_buffer (tail ++ d1) c)).
Proof.
  intros Hk Hd1 Hs Hb Hj q He1 He2 Hlt. unfold MD5Update_blocks. cbv zeta.
  change (2 ^ 29) with 536870912 in Hlt. rewrite !length_app in *.
  replace (_ >=? _) with true by lia.
  replace (64 - Z.of_nat (length tail)) with (Z.of_nat (length d1)) by lia.
  replace (Z.of_nat _ - Z.of_nat _) with (Z.of_nat (length (e1 ++ e2))) by (rewrite length_app; lia).
  assert (s32 (Z.of_nat (length (e1 ++ e2)) / 64) = Z.of_nat q) as ->.
  { rewrite length_app, Nat2Z.inj_add, He1, Nat2Z.inj_mul. change (Z.of_nat 64) with 64.
    rewrite Z.div_add_l, Z.div_small by lia. int_lia. }
  erewrite bind_Ok by (rewrite buf_read_front; reflexivity).
  erewrite bind_Ok; cycle 1.
  { apply put_md5_ok. rewrite Hb, <- (app_nil_r junk). by apply buf_copy_app. }
  rewrite app_nil_r, (bind_Ok get _ _ _ _ eq_refl). cbn [md5_buffer set_md5_buffer].
  rewrite <- (app_nil_r (tail ++ d1)) at 1.
  erewrite bind_Ok; [|apply (MD5Transform_ok 1); rewrite length_app; lia].
  erewrite bind_Ok by (rewrite buf_read_back; reflexivity).
  erewrite bind_Ok by by apply MD5Transform_ok.
  unfold mret, CM_ret. do 2 f_equal; [f_equal; int_lia|].
  unfold set_state. cbn [state set_md5_buffer count0 count1 md5_buffer]. f_equal.
  rewrite Hs, <- (absorb_snoc 64 md5_compress k 1 _ pre (tail ++ d1)) by done.
  rewrite <- (absorb_snoc 64 md5_compress (k + 1) q _ (pre ++ tail ++ d1)) by (rewrite !length_app; lia).
  by rewrite <- !app_assoc.
Qed.

(** The counters after an update. *)
Lemma md5_at_count k pre tail c n :
  md5_at k pre tail c → Z.of_nat n < 2 ^ 29 → 8 * Z.of_nat (length pre + length tail + n) < 2 ^ 64 →
  let c' := md5_count (Z.of_nat n) c in
  count0 c' + 2 ^ 32 * count1 c' = 8 * Z.of_nat (length pre + length tail + n) ∧
  0 <= count0 c' < 2 ^ 32 ∧ 0 <= count1 c'.
Proof.
  intros [_ _ _ Hc Hr0 Hr1 _ _] Hn Hfit.
  destruct (md5_count_ok (Z.of_nat n) c Hr0 Hr1) as (H1 & H2 & H3); [lia|lia|].
  split; [|done]. rewrite H1. lia.
Qed.

Lemma MD5Update_ok msg d c :
  md5_rep msg c → Z.of_nat (length d) < 2 ^ 29 → 8 * Z.of_nat (length msg + length d) < 2 ^ 64 →
  ∃ c', MD5Update d c = Ok (tt, c') ∧ md5_rep (msg ++ d) c'.
Proof.
  intros (k & pre & tail & -> & Hat) Hd Hfit. rewrite length_app in Hfit.
  destruct (md5_at_count k pre tail c (length d) Hat Hd Hfit) as (Hc1 & Hc2 & Hc3).
  unfold MD5Update. cbv zeta. rewrite (bind_Ok get _ c c c eq_refl), (byte_index _ _ _ _ Hat).
  rewrite (bind_Ok (modify _) _ c tt (md5_count (Z.of_nat (length d)) c) eq_refl).
  set (c1 := md5_count _ c) in *. change (2 ^ 29) with 536870912 in Hd.
  pose proof Hat as [Hk Ht Hs Hc Hr0 Hr1 [junk Hb] Hz].
  destruct (Z.of_nat (length d) >=? 64 - Z.of_nat (length tail)) eqn:Hge.
  - (* the buffer fills up *)
    destruct (list_split_at (64 - length tail) d) as (d1 & d2 & -> & Hd1); [lia|].
    rewrite length_app in *.
    set (q := (length d2 / 64)%nat).
    pose proof (Nat.div_mod_eq (length d2) 64) as Hdm. fold q in Hdm.
    pose proof (Nat.mod_upper_bound (length d2) 64 ltac:(lia)) as Hub.
    destruct (list_split_at (q * 64) d2) as (e1 & e2 & -> & He1); [lia|]. rewrite length_app in *.
    erewrite bind_Ok; cycle 1.
    { apply (update_blocks k pre tail d1 e1 e2 junk c1) with (q := q); [done|lia|done|done| |done|lia|].
      - rewrite Hb, length_app in Hz. lia.
      - rewrite !length_app. lia. }
    cbv beta iota. rewrite u64_id by (rewrite !length_app; lia).
    replace (_ - _) with (Z.of_nat (length e2)) by (rewrite !length_app; lia).
    rewrite (app_assoc d1). erewrite bind_Ok by (rewrite buf_read_back; reflexivity).
    destruct (list_split_at (length e2) (tail ++ d1)) as (h & t & Eh & Hh);
      [rewrite length_app; lia|].
    eexists. split.
    + apply put_md5_ok. cbn [md5_buffer set_state set_md5_buffer]. rewrite Eh. by apply buf_copy_front.
    + exists (k + 1 + q)%nat, (pre ++ tail ++ d1 ++ e1), e2. split; [by rewrite <- !app_assoc|].
      split; try done; cbn [md5_buffer set_md5_buffer set_state count0 count1];
        rewrite ?length_app.
      * lia.
      * lia.
      * rewrite Hc1. lia.
      * by eexists.
      * apply (f_equal length) in Eh. rewrite !length_app in Eh. lia.
  - rewrite (bind_Ok _ _ c1 (Z.of_nat (length tail), 0) c1) by (unfold MD5Update_blocks; by rewrite Hge).
    rewrite Z.sub_0_r, u64_id, buf_read_all by lia. rewrite (bind_Ok _ _ c1 d c1) by done.
    eexists. split.
    + apply put_md5_ok. change (md5_buffer c1) with (md5_buffer c). rewrite Hb. apply buf_copy_tail.
      rewrite Hb, length_app in Hz. lia.
    + exists k, pre, (tail ++ d). split; [by rewrite app_assoc|].
      rewrite Hb, length_app in Hz.
      split; try done; cbn [md5_buffer set_md5_buffer count0 count1]; rewrite ?length_app, ?length_drop.
      * lia.
      * rewrite Hc1. lia.
      * eexists. by rewrite app_assoc.
      * lia.
Qed.

Lemma finalBlock_take p :
  1 <= p <= 64 → buf_read finalBlock 0 p = Some (0x80 :: replicate (Z.to_nat (p - 1)) 0).
Proof.
  intros Hp. unfold buf_read, finalBlock. cbn [length]. rewrite length_replicate.
  replace (_ && _) with true by lia. change (Z.to_nat 0) with 0%nat. rewrite drop_0.
  replace (Z.to_nat p) with (S (Z.to_nat (p - 1))) by lia. cbn [take].
  rewrite take_replicate. do 3 f_equal. lia.
Qed.

(** The padding as [MD5Final] computes it. *)
Lemma md5_padding_eq k pre tail c :
  md5_at k pre tail c → 8 * Z.of_nat (length pre + length tail) < 2 ^ 64 →
  let byteIndex := Z.of_nat (length tail) in
  let p := (if byteIndex <? 56 then 56 else 120) - byteIndex in
  1 <= p <= 64 ∧
  md5_padding (Z.of_nat (length pre + length tail)) =
  (0x80 :: replicate (Z.to_nat (p - 1)) 0) ++ le_split 4 (count0 c) ++ le_split 4 (count1 c).
Proof.
  intros [Hk Ht Hs Hc Hr0 Hr1 _ _] Hfit byteIndex p.
  assert (1 <= p <= 64) as Hp by (unfold p, byteIndex; case_match; lia).
  split; [done|]. unfold md5_padding, padding. cbn [app]. f_equal. f_equal.
  - f_equal. f_equal. symmetry. rewrite Nat2Z.inj_add, Hk, Nat2Z.inj_mul. change (Z.of_nat 64) with 64.
    unfold p, byteIndex in *. case_match.
    + apply (Z.mod_unique_pos _ _ (- Z.of_nat k)); lia.
    + apply (Z.mod_unique_pos _ _ (- Z.of_nat k - 1)); lia.
  - rewrite <- Hc, (le_split_add 4 4). change (8 * Z.of_nat 4) with 32.
    change (2 ^ 32) with 4294967296 in *. f_equal.
    + rewrite <- le_split_mod, <- (le_split_mod 4 (count0 c)). change (256 ^ Z.of_nat 4) with 4294967296.
      f_equal. rewrite (Z.mul_comm 4294967296). apply Z.mod_add. lia.
    + f_equal. rewrite Z.shiftr_div_pow2 by lia. change (2 ^ 32) with 4294967296.
      Z.div_mod_to_equations. lia.
Qed.

Lemma md5_digest_length r : length (md5_digest r) = 16%nat.
Proof.
  destruct r as [[[a b] c] d]. unfold md5_digest. cbn [fmap list_fmap mjoin list_join].
  by rewrite !length_app, !length_le_split.
Qed.

Lemma md5_digest_bytes r : Forall byte (md5_digest r).
Proof.
  destruct r as [[[a b] c] d]. unfold md5_digest. cbn [fmap list_fmap mjoin list_join].
  repeat apply Forall_app_2; auto using Forall_nil_2, le_split_byte.
Qed.

Lemma MD5Final_ok msg c :
  md5_rep msg c → 8 * Z.of_nat (length msg + 72) < 2 ^ 64 →
  ∃ c', MD5Final c = Ok (md5 msg, c') ∧ length (md5_buffer c') = 64%nat.
Proof.
  intros Hrep Hfit. pose proof Hrep as (k & pre & tail & -> & Hat). rewrite length_app in Hfit.
  unfold MD5Final. cbv zeta. rewrite (bind_Ok get _ c c c eq_refl), (byte_index _ _ _ _ Hat).
  destruct (md5_padding_eq k pre tail c Hat ltac:(lia)) as [Hp Hpad].
  set (p := (if _ <? _ then 56 else 120) - _) in *. clearbody p.
  erewrite bind_Ok by (rewrite finalBlock_take by done; reflexivity).
  set (fill := 0x80 :: replicate _ 0) in *. set (bits := le_split 4 _ ++ le_split 4 _) in *.
  assert (length fill = Z.to_nat p) as Hf by (unfold fill; cbn [length]; rewrite length_replicate; lia).
  change (2 ^ 64) with 18446744073709551616 in *.
  destruct (MD5Update_ok _ fill c Hrep) as (c1 & E1 & Hr1).
  { rewrite Hf. change (2 ^ 29) with 536870912. lia. }
  { rewrite length_app, Hf. lia. }
  rewrite (bind_Ok _ _ _ _ _ E1).
  assert (length bits = 8%nat) as Hb by (unfold bits; by rewrite length_app, !length_le_split).
  destruct (MD5Update_ok _ bits c1 Hr1) as (c2 & E2 & Hr2).
  { by rewrite Hb. }
  { rewrite !length_app, Hf, Hb. lia. }
  rewrite (bind_Ok _ _ _ _ _ E2), (bind_Ok get _ c2 c2 c2 eq_refl).
  destruct Hr2 as (k2 & pre2 & tail2 & Happ & [Hk2 Ht2 Hs2 _ _ _ _ Hz2]).
  rewrite <- app_assoc, <- Hpad, <- length_app in Happ.
  pose proof (padding_blocks 64 8 (le_split 8) (Z.of_nat (length (pre ++ tail))) ltac:(lia)
    ltac:(intros; by rewrite length_le_split)) as Hmod. fold (md5_padding (Z.of_nat (length (pre ++ tail)))) in Hmod.
  rewrite <- Nat2Z.inj_add, <- (length_app _ (md5_padding _)), Happ, length_app, Hk2 in Hmod.
  assert (tail2 = []) as ->.
  { apply length_zero_iff_nil. rewrite Nat2Z.inj_add, Nat2Z.inj_mul in Hmod. change (Z.of_nat 64) with 64 in Hmod.
    rewrite Z.add_comm, Z.mod_add, Z.mod_small in Hmod by lia. lia. }
  rewrite app_nil_r in Happ.
  eexists. split.
  - rewrite (bind_Ok (modify _) _ _ _ _ eq_refl). unfold mret, CM_ret. apply (f_equal (λ d, Ok (d, _))).
    unfold md5. cbv zeta. rewrite Happ, Hk2, Nat.div_mul by lia. by rewrite Hs2.
  - cbn [md5_buffer]. by rewrite length_replicate.
Qed.

(** MD5 as a streaming hash. *)
#[export] Instance md5_stream : StreamHash MD5_CTX.
Proof.
  refine {| sh_hash := md5; sh_digest_size := 16; sh_init := MD5Init; sh_update := MD5Update;
    sh_final := MD5Final; sh_wf := λ c, length (md5_buffer c) = 64%nat; sh_rep := md5_rep;
    sh_max := 2 ^ 29 |}.
  - intros m. apply md5_digest_length.
  - intros m. apply md5_digest_bytes.
  - by intros m c (k & pre & tail & _ & [_ _ _ _ _ _ _ ?]).
  - intros c Hc. eexists. split; [reflexivity|]. exists 0%nat, [], []. split; [done|].
    split; cbn; try lia; try done. by eexists.
  - intros m d c Hr Hlt. change (2 ^ 29) with 536870912 in Hlt. apply MD5Update_ok; [done| |].
    + change (2 ^ 29) with 536870912. lia.
    + change (2 ^ 64) with 18446744073709551616. lia.
  - intros m c Hr Hlt. change (2 ^ 29) with 536870912 in Hlt. apply MD5Final_ok; [done|].
    change (2 ^ 64) with 18446744073709551616. lia.
Defined.

(** C4: hashing a message with [MD5Init], any sequence of [MD5Update]s and
    [MD5Final] stays within the context's buffer and yields the MD5 hash (padding
    and bit count of RFC 1321) of the concatenation; each update is shorter than
    512 MiB. *)
Theorem md5_digest_correct ds c :
  length (md5_buffer c) = 64%nat →
  Forall (λ d, Z.of_nat (length d) < 2 ^ 29) ds →
  8 * Z.of_nat (length (concat ds) + 72) < 2 ^ 64 →
  ∃ c', sh_digest (H := md5_stream) ds c = Ok (md5 (concat ds), c').
Proof.
  intros Hc Hds Hfit. unfold sh_digest. cbn [sh_init sh_final md5_stream].
  destruct (sh_init_ok (StreamHash := md5_stream) c Hc) as (c1 & E1 & Hr1).
  rewrite (bind_Ok _ _ _ _ _ E1).
  assert (∀ msg c, md5_rep msg c → 8 * Z.of_nat (length msg + length (concat ds) + 72) < 2 ^ 64 →
    ∃ c', sh_updates (H := md5_stream) ds c = Ok (tt, c') ∧ md5_rep (msg ++ concat ds) c') as Hall.
  { clear - Hds. induction Hds as [|d ds Hd Hds IH]; intros msg c Hr Hfit.
    { exists c. by rewrite app_nil_r. }
    cbn [concat sh_updates] in *. rewrite length_app in Hfit.
    destruct (MD5Update_ok msg d c Hr Hd) as (c1 & E1 & Hr1); [lia|].
    cbn [sh_update md5_stream]. rewrite (bind_Ok _ _ _ _ _ E1).
    destruct (IH (msg ++ d) c1 Hr1) as (c2 & E2 & Hr2); [rewrite length_app; lia|].
    exists c2. by rewrite app_assoc. }
  destruct (Hall [] c1 Hr1 Hfit) as (c2 & E2 & Hr2). rewrite (bind_Ok _ _ _ _ _ E2).
  destruct (MD5Final_ok _ c2 Hr2 Hfit) as (c3 & E3 & _). by exists c3.
Qed.

Lemma md5_digest_correct_witness :
  ∃ c', sh_digest (H := md5_stream) [STR "ab"; STR "c"] (mk_md5 md5_H0 1 2 (replicate 64 7)) =
    Ok (md5 (STR "abc"), c').
Proof. apply (md5_digest_correct [STR "ab"; STR "c"]); [reflexivity|repeat constructor|reflexivity]. Defined.

(** The bit count of one update of 512 MiB or more is wrong: the carry is
    taken by comparing the 32-bit count with the 64-bit number of bits, and
    counted again by the shifted length.  2^29 bytes are 2^32 bits, which the
    counters show as 2 * 2^32. *)
Theorem md5_count_large_update :
  let c := md5_count (2 ^ 29) (mk_md5 md5_H0 0 0 []) in
  count0 c + 2 ^ 32 * count1 c = 2 * (8 * 2 ^ 29).
Proof. vm_compute. reflexivity. Qed.

(** The test vector "abc" of RFC 1321. *)
Example md5_abc :
  md5 (STR "abc") = [0x90; 0x01; 0x50; 0x98; 0x3c; 0xd2; 0x4f; 0xb0;
                     0xd6; 0x96; 0x3f; 0x7d; 0x28; 0xe1; 0x7f; 0x72].
Proof. vm_compute. reflexivity. Qed.
