(* ===== verification/Convert.v ===== *)
(** * Conversions between strings and integers

    [lib/strtoul.c], [lib/strtoull.c], [lib/strtol.c], [lib/strtoll.c],
    [lib/atoi.c], [lib/atol.c] and [lib/__ltostr.c], [lib/__lltostr.c].

    These functions only read a NUL-terminated string from front to back, so a
    [const char *] is the list of the bytes that are left before the terminator:
    the pointed-to [char] is [peek s 0] (0 at the end), [nptr++] is [tail], and
    pointers into one string are equal when as many bytes are left. *)

From S2P Require Import Prelude Ctype.

Definition EINVAL : Z := 22.
Definition ERANGE : Z := 34.
Definition ULONG_MAX : Z := 0xffffffffffffffff.
Definition LONG_MAX : Z := 0x7fffffffffffffff.
Definition LONG_MIN : Z := - 0x8000000000000000.

Definition peek (s : list Z) (n : nat) : Z := nth n s 0.
Definition same_ptr (p q : list Z) : bool := (length p =? length q)%nat.

(** [while (isspace ( *nptr)) ++nptr;] *)
Fixpoint skip_space (nptr : list Z) : list Z :=
  match nptr with
  | c :: rest => if isspace (s8 c) then skip_space rest else nptr
  | [] => []
  end.

(** [c=(c>='a'?c-'a'+10:c>='A'?c-'A'+10:c<='9'?c-'0':0xff)], an [unsigned char] *)
Definition digit_value (c : Z) : Z :=
  u8 (if c >=? CH "a" then c - CH "a" + 10
      else if c >=? CH "A" then c - CH "A" + 10
      else if c <=? CH "9" then c - CH "0" else 0xff).

(** The [while] loop of [strtoul]: the value, the overflow flag and the pointer. *)
Fixpoint strtoul_digits (base : Z) (nptr : list Z) (v : Z) (overflow : bool) : Z * bool * list Z :=
  match nptr with
  | [] => (v, overflow, [])
  | ch :: rest =>
      let c := digit_value ch in
      if c >=? base then (v, overflow, nptr) else
      let x := u64 (Z.land v 0xff * base + c) in
      let w := u64 (Z.shiftr v 8 * base + Z.shiftr x 8) in
      let overflow := if w >? Z.shiftr ULONG_MAX 8 then true else overflow in
      let v := u64 (u64 (Z.shiftl w 8) + Z.land x 0xff) in
      strtoul_digits base rest v overflow
  end.

(** The same loop in [strtoull], where [v] is signed. *)
Fixpoint strtoull_digits (base : Z) (nptr : list Z) (v : Z) (overflow : bool) : Z * bool * list Z :=
  match nptr with
  | [] => (v, overflow, [])
  | ch :: rest =>
      let c := digit_value ch in
      if c >=? base then (v, overflow, nptr) else
      let x := u64 (Z.land v 0xff * base + c) in
      let w := u64 (Z.shiftr v 8 * base + Z.shiftr x 8) in
      let overflow := if w >? Z.shiftr ULONG_MAX 8 then true else overflow in
      let v := s64 (u64 (Z.shiftl w 8) + Z.land x 0xff) in
      strtoull_digits base rest v overflow
  end.

(** The prefix "0x", where it is one. *)
Definition skip0x (nptr : list Z) (base : Z) : list Z * Z :=
  if ((peek nptr 1 =? CH "x") || (peek nptr 1 =? CH "X")) && isxdigit (s8 (peek nptr 2))
  then (drop 2 nptr, 16) else (nptr, base).

(** The base and the first digit; [None] when the base is out of range. *)
Definition find_base (nptr : list Z) (base : Z) : option (list Z * Z) :=
  if (base =? 16) && (peek nptr 0 =? CH "0") then Some (skip0x nptr base)
  else if negb (base =? 0) then
    let b := u32 (base - 2) in
    if b >? 34 then None else Some (nptr, base)
  else if peek nptr 0 =? CH "0" then Some (skip0x nptr 8)
  else Some (nptr, 10).

(** What a conversion returns, stores in [*endptr] (if it does) and leaves in [errno]. *)
Record conv : Type := mk_conv { value : Z; endptr : option (list Z); conv_errno : Z }.

Definition parse_sign (nptr : list Z) : bool * list Z :=
  if peek nptr 0 =? CH "-" then (true, tail nptr)
  else if peek nptr 0 =? CH "+" then (false, tail nptr) else (false, nptr).

Definition strtoul (ptr : list Z) (base errno : Z) : conv :=
  let '(neg, nptr) := parse_sign (skip_space ptr) in
  let orig := nptr in
  match find_base nptr base with
  | None => mk_conv 0 None EINVAL
  | Some (nptr, base) =>
      let '(v, overflow, nptr) := strtoul_digits base nptr 0 false in
      let '(v, nptr, errno) := if same_ptr nptr orig then (0, ptr, EINVAL) else (v, nptr, errno) in
      if overflow then mk_conv ULONG_MAX (Some nptr) ERANGE
      else mk_conv (if neg then u64 (- v) else v) (Some nptr) errno
  end.

Definition strtoull (ptr : list Z) (base errno : Z) : conv :=
  let '(neg, nptr) := parse_sign (skip_space ptr) in
  let orig := nptr in
  match find_base nptr base with
  | None => mk_conv 0 None EINVAL
  | Some (nptr, base) =>
      let '(v, overflow, nptr) := strtoull_digits base nptr 0 false in
      let '(v, nptr, errno) := if same_ptr nptr orig then (0, ptr, EINVAL) else (v, nptr, errno) in
      if overflow then mk_conv ULONG_MAX (Some nptr) ERANGE
      else mk_conv (if neg then u64 (- v) else u64 v) (Some nptr) errno
  end.

Definition ABS_LONG_MIN : Z := 9223372036854775808.

(** [if (endptr && *endptr==nptr) *endptr=(char * )orig;] *)
Definition rewind (endptr : option (list Z)) (nptr orig : list Z) : option (list Z) :=
  match endptr with
  | Some e => if same_ptr e nptr then Some orig else Some e
  | None => None
  end.

Definition strtol (ptr : list Z) (base errno : Z) : conv :=
  let orig := ptr in
  let nptr := skip_space ptr in
  let '(neg, nptr) := if (peek nptr 0 =? CH "-") && isalnum (s8 (peek nptr 1))
                      then (true, tail nptr) else (false, nptr) in
  let r := strtoul nptr base errno in
  let v := value r in
  let e := rewind (endptr r) nptr orig in
  if v >=? ABS_LONG_MIN then
    if (v =? ABS_LONG_MIN) && neg then mk_conv (s64 v) e 0
    else mk_conv (if neg then LONG_MIN else LONG_MAX) e ERANGE
  else mk_conv (if neg then s64 (- v) else s64 v) e (conv_errno r).

Definition strtoll (ptr : list Z) (base errno : Z) : conv :=
  let orig := ptr in
  let nptr := skip_space ptr in
  let '(neg, nptr) := if (peek nptr 0 =? CH "-") && isalnum (s8 (peek nptr 1))
                      then (true, tail nptr) else (false, nptr) in
  let r := strtoull nptr base errno in
  let v := value r in
  let e := rewind (endptr r) nptr orig in
  if v >? LONG_MAX then
    if (v =? 0x8000000000000000) && neg then mk_conv (s64 v) e 0
    else mk_conv (if neg then LONG_MIN else LONG_MAX) e ERANGE
  else mk_conv (if neg then s64 (- v) else s64 v) e (conv_errno r).

(** ** [atoi], [atol] *)

Fixpoint atoi_space (s : list Z) : list Z :=
  match s with
  | c :: rest => if (s8 c =? CH " ") || (u32 (s8 c - 9) <? 5) then atoi_space rest else s
  | [] => []
  end.

(** [while ((unsigned int)( *s - '0') < 10u) { v=v*10+*s-'0'; ++s; }] *)
Fixpoint atoi_digits (s : list Z) (v : Z) : Z :=
  match s with
  | c :: rest =>
      if u32 (s8 c - CH "0") <? 10 then atoi_digits rest (s64 (v * 10 + s8 c - CH "0")) else v
  | [] => v
  end.

Definition atoi_sign (s : list Z) : Z * list Z :=
  if peek s 0 =? CH "-" then (-1, tail s)
  else if peek s 0 =? CH "+" then (1, tail s) else (1, s).

Definition atoi (s : list Z) : Z :=
  let '(sign, s) := atoi_sign (atoi_space s) in
  let v := atoi_digits s 0 in
  s32 (if sign =? -1 then s64 (- v) else v).

Definition atol (s : list Z) : Z :=
  let '(sign, s) := atoi_sign (atoi_space s) in
  let v := atoi_digits s 0 in
  if sign =? -1 then s64 (- v) else v.

(** ** [__ltostr], [__lltostr] *)

(** The digit of [i % base]. *)
Definition digit_char (UpCase : bool) (d : Z) : Z :=
  let c := d + CH "0" in
  if c >? CH "9" then c + ((if UpCase then CH "A" else CH "a") - CH "9" - 1) else c.

(** [while ((tmp>s)&&(i)) ...]: [room] is [tmp-s], [out] the bytes from [tmp] on. *)
Fixpoint ltostr_digits (room : nat) (i base : Z) (UpCase : bool) (out : list Z) : list Z :=
  match room with
  | O => out
  | S room =>
      if i =? 0 then out
      else ltostr_digits room (i / base) base UpCase (digit_char UpCase (i mod base) :: out)
  end.

(** The digits that are left in the buffer of [size] bytes in front of the NUL
    (the return value is their number); [None] where the code writes in front of
    the buffer. *)
Definition __ltostr (size i base : Z) (UpCase : bool) : option (list Z) :=
  let room := size - 1 in
  if room <? 0 then None else
  let base := if (base =? 0) || (base >? 36) then 10 else base in
  if i =? 0 then if room <? 1 then None else Some [CH "0"]
  else Some (ltostr_digits (Z.to_nat room) i base UpCase []).

Definition __lltostr (size i base : Z) (UpCase : bool) : option (list Z) :=
  let room := size - 1 in
  if room <? 0 then None else
  let base := if (base =? 0) || (base >? 36) then 10 else base in
  if i =? 0 then if room <? 1 then None else Some [CH "0"]
  else Some (ltostr_digits (Z.to_nat room) i base UpCase []).
