(* ===== verification/ConvertFacts.v ===== *)
(** * Conversions: what they return

    The value of a numeral, the functional correctness of [strtoul] and [strtol]
    (their 64-bit overflow checks included) against it, and the round trip with
    [__ltostr]. *)

From S2P Require Import Prelude Ctype Convert.

(** ** Numerals *)

Definition is_digit (base c : Z) : Prop := 0 <= digit_value c < base.
#[export] Instance is_digit_dec base c : Decision (is_digit base c).
Proof. unfold is_digit. apply _. Defined.

(** The number that the digits [ds] continue from [v]. *)
Definition num_from (base v : Z) (ds : list Z) : Z := foldl (λ v c, v * base + digit_value c) v ds.
Definition num (base : Z) (ds : list Z) : Z := num_from base 0 ds.

(** [rest] does not go on with a digit. *)
Definition stops (base : Z) (rest : list Z) : Prop :=
  match rest with [] => True | c :: _ => ¬ is_digit base c end.

Lemma digit_value_range c : 0 <= digit_value c < 256.
Proof. apply u8_byte. Qed.

Lemma num_from_mono base v ds : 1 <= base → 0 <= v → v <= num_from base v ds.
Proof.
  intros Hb. revert v. induction ds as [|c ds IH]; intros v Hv; simpl; [lia|].
  unfold num_from in *. simpl. pose proof (digit_value_range c).
  etransitivity; [|apply IH]; nia.
Qed.

(** ** The digit loops *)

(** One round computes [v * base + c] modulo 2^64 in two parts and detects the overflow. *)
Lemma digit_step v base c :
  0 <= v < 2 ^ 64 → 2 <= base <= 36 → 0 <= c < base →
  let x := u64 (Z.land v 0xff * base + c) in
  let w := u64 (Z.shiftr v 8 * base + Z.shiftr x 8) in
  u64 (u64 (Z.shiftl w 8) + Z.land x 0xff) = (v * base + c) mod 2 ^ 64 ∧
  (w >? Z.shiftr ULONG_MAX 8) = (2 ^ 64 <=? v * base + c).
Proof.
  intros Hv Hb Hc. cbv zeta. change (Z.land v 255) with (u8 v).
  change (2 ^ 64) with 18446744073709551616 in *.
  rewrite !u8_mod. change (2 ^ 8) with 256. rewrite !Z.shiftr_div_pow2, Z.shiftl_mul_pow2 by lia.
  change (2 ^ 8) with 256. change (ULONG_MAX / 256) with 72057594037927935.
  pose proof (Z.mod_pos_bound v 256 ltac:(lia)). pose proof (Z.div_mod v 256 ltac:(lia)) as Hdm.
  set (lo := v mod 256) in *. set (hi := v / 256) in *. assert (0 <= hi < 2 ^ 56) by lia.
  change (2 ^ 56) with 72057594037927936 in *.
  assert (0 <= lo * base + c < 16384) as Hx by nia. rewrite (u64_id (lo * base + c)) by lia.
  change (Z.land (lo * base + c) 255) with (u8 (lo * base + c)). rewrite u8_mod. change (2 ^ 8) with 256.
  assert (v * base + c = 256 * (hi * base) + (lo * base + c)) as -> by (rewrite Hdm; ring).
  set (x := lo * base + c) in *. clearbody x.
  assert (0 <= hi * base <= 36 * hi) as Hh by nia. set (h := hi * base) in *. clearbody h.
  pose proof (Z.div_mod x 256 ltac:(lia)). pose proof (Z.mod_pos_bound x 256 ltac:(lia)).
  set (xl := x mod 256) in *. set (xh := x / 256) in *. clearbody xl xh.
  rewrite (u64_id (h + xh)) by lia. split; [|lia].
  rewrite !u64_mod. change (2 ^ 64) with 18446744073709551616.
  rewrite Z.add_mod_idemp_l by lia. f_equal. lia.
Qed.

Lemma strtoul_digits_ok base ds rest N :
  2 <= base <= 36 → Forall (is_digit base) ds → stops base rest → 0 <= N →
  strtoul_digits base (ds ++ rest) (N mod 2 ^ 64) (2 ^ 64 <=? N) =
  (num_from base N ds mod 2 ^ 64, 2 ^ 64 <=? num_from base N ds, rest).
Proof.
  intros Hb Hds Hrest. revert N. induction Hds as [|c ds Hc Hds IH]; intros N HN.
  - cbn [app num_from foldl]. destruct rest as [|c rest]; [done|]. cbn [strtoul_digits].
    unfold stops, is_digit in Hrest. pose proof (digit_value_range c).
    by replace (digit_value c >=? base) with true by lia.
  - cbn [app strtoul_digits]. unfold is_digit in Hc. replace (digit_value c >=? base) with false by lia.
    change (num_from base N (c :: ds)) with (num_from base (N * base + digit_value c) ds).
    rewrite <- IH by nia.
    destruct (digit_step (N mod 2 ^ 64) base (digit_value c)) as [E1 E2];
      [apply Z.mod_pos_bound; lia|done|done|].
    cbv zeta. rewrite E1, E2. f_equal.
    + rewrite <- Z.add_mod_idemp_l, Z.mul_mod_idemp_l, Z.add_mod_idemp_l by lia. done.
    + destruct (Z.leb_spec (2 ^ 64) N).
      * assert (2 ^ 64 <= N * base + digit_value c) by nia. by case_match; lia.
      * rewrite Z.mod_small by lia. by destruct (2 ^ 64 <=? N * base + digit_value c).
Qed.

(** The signed accumulator of [strtoull] makes no difference. *)
Lemma signed_step v base c :
  0 <= v < 2 ^ 64 → 2 <= base <= 36 → 0 <= c < base →
  let x := u64 (Z.land v 0xff * base + c) in
  let w := u64 (Z.shiftr v 8 * base + Z.shiftr x 8) in
  let x' := u64 (Z.land (s64 v) 0xff * base + c) in
  let w' := u64 (Z.shiftr (s64 v) 8 * base + Z.shiftr x' 8) in
  u64 (u64 (Z.shiftl w' 8) + Z.land x' 0xff) = u64 (u64 (Z.shiftl w 8) + Z.land x 0xff) ∧
  (w' >? Z.shiftr ULONG_MAX 8) = (w >? Z.shiftr ULONG_MAX 8).
Proof.
  intros Hv Hb Hc. cbv zeta. change (2 ^ 64) with 18446744073709551616 in *.
  unfold s64. rewrite (u64_id v) by lia. destruct (Z.ltb_spec v 0x8000000000000000); [done|].
  assert (Z.land (v - 0x10000000000000000) 0xff = Z.land v 0xff) as ->.
  { change (u8 (v - 0x10000000000000000) = u8 v). rewrite !u8_mod. change (2 ^ 8) with 256.
    Z.div_mod_to_equations. lia. }
  set (x := u64 (Z.land v 255 * base + c)).
  rewrite !Z.shiftr_div_pow2, !Z.shiftl_mul_pow2 by lia. change (2 ^ 8) with 256.
  change (ULONG_MAX / 256) with 72057594037927935.
  assert ((v - 0x10000000000000000) / 256 = v / 256 - 72057594037927936) as ->
    by (Z.div_mod_to_equations; lia).
  assert (36028797018963968 <= v / 256 < 72057594037927936) as Hhi by (Z.div_mod_to_equations; lia).
  set (hi := v / 256) in *. clearbody hi.
  assert (0 <= x / 256 < base) as Hxh'.
  { unfold x. change (Z.land v 255) with (u8 v). pose proof (u8_byte v) as Hu. unfold byte in Hu.
    assert (0 <= u8 v * base + c < base * 256) by nia.
    rewrite u64_id by lia. split; [apply Z.div_pos; lia|apply Z.div_lt_upper_bound; lia]. }
  set (xh := x / 256) in *. clearbody xh.
  assert (72057594037927936 <= hi * base + xh < 18446744073709551616) as Hw by nia.
  rewrite (u64_id (hi * base + xh)) by lia.
  assert (u64 ((hi - 72057594037927936) * base + xh) =
          18446744073709551616 + ((hi - 72057594037927936) * base + xh)) as ->.
  { rewrite u64_mod. change (2 ^ 64) with 18446744073709551616.
    symmetry. apply (Z.mod_unique_pos _ _ (-1)); nia. }
  split; [|nia].
  rewrite !u64_mod. change (2 ^ 64) with 18446744073709551616. rewrite !Z.add_mod_idemp_l by lia.
  replace ((18446744073709551616 + ((hi - 72057594037927936) * base + xh)) * 256 + Z.land x 255)
    with ((hi * base + xh) * 256 + Z.land x 255 + (256 - base) * 18446744073709551616) by ring.
  apply Z.mod_add. lia.
Qed.

Lemma strtoull_digits_eq base s v o :
  2 <= base <= 36 → 0 <= v < 2 ^ 64 →
  strtoull_digits base s (s64 v) o =
  let '(v', o', r) := strtoul_digits base s v o in (s64 v', o', r).
Proof.
  intros Hb. revert v o. induction s as [|ch s IH]; intros v o Hv; [done|].
  cbn [strtoull_digits strtoul_digits]. pose proof (digit_value_range ch).
  destruct (Z.geb_spec (digit_value ch) base); [done|].
  destruct (signed_step v base (digit_value ch)) as [E1 E2]; [done..|lia|].
  cbv zeta in *. rewrite E2. unfold s64 at 1. rewrite E1. fold (s64 (u64 (u64 (Z.shiftl (u64 (Z.shiftr v 8 * base +
    Z.shiftr (u64 (Z.land v 255 * base + digit_value ch)) 8)) 8) + Z.land (u64 (Z.land v 255 * base + digit_value ch)) 255))).
  rewrite <- IH by apply u64_range. do 2 f_equal. unfold s64. by rewrite (u64_id (u64 _)) by apply u64_range.
Qed.

Lemma strtoul_digits_range base s v o v' o' r :
  0 <= v < 2 ^ 64 → strtoul_digits base s v o = (v', o', r) → 0 <= v' < 2 ^ 64.
Proof.
  revert v o. induction s as [|ch s IH]; intros v o Hv E; cbn [strtoul_digits] in E; [by simplify_eq|].
  destruct (digit_value ch >=? base); [by simplify_eq|].
  eapply IH; [|exact E]. change (2 ^ 64) with 18446744073709551616. apply u64_range.
Qed.

Definition is_int (x : Z) : Prop := - 2 ^ 31 <= x < 2 ^ 31.

Lemma find_base_range s base s' b : is_int base → find_base s base = Some (s', b) → 2 <= b <= 36.
Proof.
  unfold is_int. change (2 ^ 31) with 2147483648. intros Hi. unfold find_base, skip0x.
  repeat case_match; intros; simplify_eq; int_lia.
Qed.

(** [unsigned long] is as wide as [unsigned long long]: the two files agree. *)
Lemma strtoull_eq s base errno : is_int base → strtoull s base errno = strtoul s base errno.
Proof.
  intros Hi. unfold strtoull, strtoul. destruct (parse_sign _) as [neg p].
  destruct (find_base p base) as [[q b]|] eqn:Ef; [|done]. apply find_base_range in Ef as Hb; [|done].
  pose proof (strtoull_digits_eq b q 0 false Hb ltac:(lia)) as E. change (s64 0) with 0 in E. rewrite E.
  destruct (strtoul_digits b q 0 false) as [[v o] r] eqn:Ed.
  apply strtoul_digits_range in Ed; [|lia]. change (2 ^ 64) with 18446744073709551616 in Ed.
  destruct (same_ptr r p); [done|]. destruct o; [done|]. f_equal. destruct neg; int_lia.
Qed.

Lemma strtoll_eq s base errno : is_int base → strtoll s base errno = strtol s base errno.
Proof.
  intros Hi. unfold strtoll, strtol. destruct (if _ && _ then _ else _) as [neg p].
  rewrite strtoull_eq by done. cbv zeta. unfold LONG_MAX, ABS_LONG_MIN.
  by replace (value (strtoul p base errno) >=? 9223372036854775808)
    with (value (strtoul p base errno) >? 0x7fffffffffffffff) by lia.
Qed.

(** ** The parts of a numeral *)

Lemma digit_ranges base c :
  base <= 36 → nzbyte c → is_digit base c → 48 <= c <= 57 ∨ 65 <= c <= 90 ∨ 97 <= c <= 122.
Proof.
  unfold nzbyte, is_digit, digit_value. intros Hb Hc Hd.
  repeat case_match; int_lia.
Qed.

Lemma alnum_not_space c :
  48 <= c <= 57 ∨ 65 <= c <= 90 ∨ 97 <= c <= 122 → isspace (s8 c) = false ∧ isalnum (s8 c) = true.
Proof.
  intros Hc. assert (s8 c = c) as -> by int_lia. unfold isspace, isalnum. split.
  - rewrite u32_mod. change (2 ^ 32) with 4294967296. Z.div_mod_to_equations. lia.
  - apply orb_true_iff. destruct Hc as [Hc|Hc]; [right|left].
    + rewrite u32_id by lia. lia.
    + assert (isalpha c = true) as Ha; [|exact Ha].
      assert (forallb isalpha (seqZ 65 26 ++ seqZ 97 26) = true) as Hall by (vm_compute; reflexivity).
      rewrite forallb_forall in Hall. apply Hall, list_elem_of_In, elem_of_app.
      rewrite !elem_of_seqZ. lia.
Qed.

(** An optional sign, and whether it negates. *)
Inductive sign_str : list Z → bool → Prop :=
| sign_none : sign_str [] false
| sign_plus : sign_str [CH "+"] false
| sign_minus : sign_str [CH "-"] true.

Definition has_0x (nptr : list Z) : bool :=
  ((peek nptr 1 =? CH "x") || (peek nptr 1 =? CH "X")) && isxdigit (s8 (peek nptr 2)).

(** [radix dr base b px]: with the argument [base], the digits [dr] are read in
    base [b] behind the prefix [px]. *)
Inductive radix (dr : list Z) : Z → Z → list Z → Prop :=
| radix_plain base :
    2 <= base <= 36 → (base = 16 → peek dr 0 = CH "0" → has_0x dr = false) → radix dr base base []
| radix_dec : peek dr 0 ≠ CH "0" → radix dr 0 10 []
| radix_oct : peek dr 0 = CH "0" → has_0x dr = false → radix dr 0 8 []
| radix_hex base x :
    base = 0 ∨ base = 16 → x = CH "x" ∨ x = CH "X" → isxdigit (s8 (peek dr 0)) = true →
    radix dr base 16 [CH "0"; x].

Lemma radix_range dr base b px : radix dr base b px → 2 <= b <= 36.
Proof. destruct 1; lia. Qed.

Lemma radix_int dr base b px : radix dr base b px → is_int base.
Proof. unfold is_int. destruct 1; lia. Qed.

Lemma find_base_ok dr base b px : radix dr base b px → find_base (px ++ dr) base = Some (dr, b).
Proof.
  unfold find_base, skip0x. destruct 1 as [base Hb Hx|H0|H0 Hx|base x Hb Hx Hd]; cbn [app].
  - destruct ((base =? 16) && (peek dr 0 =? 48)) eqn:E.
    + unfold has_0x in Hx. rewrite Hx by lia. f_equal.
    + replace (negb (base =? 0)) with true by lia.
      by replace (u32 (base - 2) >? 34) with false by (rewrite u32_id; lia).
  - cbn [Z.eqb andb negb]. by replace (peek dr 0 =? 48) with false by lia.
  - cbn [Z.eqb andb negb]. unfold has_0x in Hx. rewrite H0, Hx. done.
  - change (peek (48 :: x :: dr) 0) with 48. change (peek (48 :: x :: dr) 1) with x.
    change (peek (48 :: x :: dr) 2) with (peek dr 0). rewrite Hd.
    replace ((x =? 120) || (x =? 88)) with true by lia. by destruct Hb as [-> | ->].
Qed.

Lemma skip_space_app sp s :
  Forall (λ c, isspace (s8 c) = true) sp → isspace (s8 (peek s 0)) = false →
  skip_space (sp ++ s) = s.
Proof.
  intros Hsp Hs. induction Hsp as [|c sp Hc Hsp IH]; cbn [app skip_space]; [|by rewrite Hc].
  destruct s as [|c s]; [done|]. cbn [skip_space]. change (peek (c :: s) 0) with c in Hs. by rewrite Hs.
Qed.

(** Where the digits (behind [px]) start, neither a blank nor a sign is found. *)
Lemma radix_head dr base b px rest ds :
  dr = ds ++ rest → ds ≠ [] → Forall nzbyte ds → Forall (is_digit b) ds → radix dr base b px →
  let c := peek (px ++ dr) 0 in 48 <= c <= 57 ∨ 65 <= c <= 90 ∨ 97 <= c <= 122.
Proof.
  intros -> Hne Hnz Hd Hr. pose proof (radix_range _ _ _ _ Hr).
  destruct ds as [|c ds]; [done|]. apply Forall_cons in Hnz as [Hc _], Hd as [Hd _].
  destruct Hr; cbn; try lia; eapply digit_ranges; eauto; lia.
Qed.

Lemma skip_sign sp sg neg s :
  Forall (λ c, isspace (s8 c) = true) sp → sign_str sg neg →
  let c := peek s 0 in (48 <= c <= 57 ∨ 65 <= c <= 90 ∨ 97 <= c <= 122) →
  parse_sign (skip_space (sp ++ sg ++ s)) = (neg, s).
Proof.
  intros Hsp Hsg c Hc. destruct (alnum_not_space _ Hc) as [Hns _].
  rewrite skip_space_app; [|done|by destruct Hsg].
  unfold parse_sign. destruct Hsg; cbn [app]; try done.
  fold c. replace (c =? 45) with false by lia. by replace (c =? 43) with false by lia.
Qed.

Lemma same_ptr_app ds rest px : ds ≠ [] → same_ptr rest (px ++ ds ++ rest) = false.
Proof.
  intros Hne. unfold same_ptr. apply Nat.eqb_neq. rewrite !length_app.
  destruct ds; [done|simpl; lia].
Qed.

(** [*endptr] is never in front of the string. *)
Lemma strtoul_endptr s base errno e :
  endptr (strtoul s base errno) = Some e → (length e <= length s)%nat.
Proof.
  assert (∀ l, (length (skip_space l) <= length l)%nat) as Hs.
  { induction l as [|c l IH]; [done|]. cbn [skip_space]. case_match; simpl; lia. }
  assert (∀ l, (length (parse_sign l).2 <= length l)%nat) as Hp.
  { intros l. unfold parse_sign. repeat case_match; simpl; destruct l; simpl; lia. }
  assert (∀ b l v o, (length (strtoul_digits b l v o).2 <= length l)%nat) as Hd.
  { induction l as [|c l IH]; intros v o; [done|]. cbn [strtoul_digits].
    case_match; [done|]. etransitivity; [apply IH|simpl; lia]. }
  unfold strtoul. specialize (Hs s). specialize (Hp (skip_space s)).
  destruct (parse_sign _) as [neg p]. cbn [snd] in Hp.
  destruct (find_base p base) as [[q b]|] eqn:Ef; [|done].
  assert (length q <= length p)%nat as Hq.
  { unfold find_base, skip0x in Ef. repeat case_match; simplify_eq; rewrite ?length_drop; lia. }
  specialize (Hd b q 0 false). destruct (strtoul_digits b q 0 false) as [[v o] r]. cbn [snd] in Hd.
  destruct (same_ptr r p), o; intros [= <-]; lia.
Qed.

Record numeral (base : Z) (sp sg px ds rest : list Z) (neg : bool) (b : Z) : Prop := {
  nu_space : Forall (λ c, isspace (s8 c) = true) sp;
  nu_sign : sign_str sg neg;
  nu_radix : radix (ds ++ rest) base b px;
  nu_some : ds ≠ [];
  nu_byte : Forall nzbyte ds;
  nu_digits : Forall (is_digit b) ds;
  nu_stops : stops b rest;
}.

(** What [strtoul] and [strtoull] make of a numeral. *)
Definition unsigned_result (neg : bool) (n : Z) (rest : list Z) (errno : Z) : conv :=
  if 2 ^ 64 <=? n then mk_conv ULONG_MAX (Some rest) ERANGE
  else mk_conv (if neg then (- n) mod 2 ^ 64 else n) (Some rest) errno.

Lemma strtoul_ok base sp sg px ds rest neg b errno :
  numeral base sp sg px ds rest neg b →
  strtoul (sp ++ sg ++ px ++ ds ++ rest) base errno = unsigned_result neg (num b ds) rest errno.
Proof.
  intros [Hsp Hsg Hr Hne Hnz Hd Hst]. pose proof (radix_range _ _ _ _ Hr) as Hb.
  unfold strtoul.
  rewrite (skip_sign sp sg neg (px ++ ds ++ rest)) by (try done; eapply radix_head; eauto).
  rewrite (find_base_ok _ _ _ _ Hr).
  pose proof (strtoul_digits_ok b ds rest 0 Hb Hd Hst ltac:(lia)) as E.
  change (0 mod 2 ^ 64) with 0 in E. change (2 ^ 64 <=? 0) with false in E. fold (num b ds) in E.
  rewrite E, same_ptr_app by done.
  unfold unsigned_result. assert (0 <= num b ds) by (apply num_from_mono; lia).
  destruct (Z.leb_spec (2 ^ 64) (num b ds)) as [Hbig|Hsmall]; [done|].
  rewrite Z.mod_small by lia. change (2 ^ 64) with 18446744073709551616 in *.
  f_equal. destruct neg; [apply u64_mod|done].
Qed.

(** C33: [strtoul] and [strtoull] convert a numeral (blanks, a sign, the prefix
    "0x" where the base allows one, digits) to its value, negated modulo 2^64
    after '-'; a value of 2^64 or more gives [ULONG_MAX] and [ERANGE], exactly;
    [*endptr] points behind the digits and [errno] is otherwise untouched. *)
Theorem strtoul_correct base sp sg px ds rest neg b errno :
  numeral base sp sg px ds rest neg b →
  strtoul (sp ++ sg ++ px ++ ds ++ rest) base errno = unsigned_result neg (num b ds) rest errno ∧
  strtoull (sp ++ sg ++ px ++ ds ++ rest) base errno = unsigned_result neg (num b ds) rest errno.
Proof.
  intros Hnu. pose proof (radix_int _ _ _ _ (nu_radix _ _ _ _ _ _ _ _ Hnu)).
  rewrite strtoull_eq by done. split; by apply strtoul_ok.
Qed.

Lemma strtoul_correct_witness :
  strtoul (STR " -0x1Fz") 0 0 = mk_conv (2 ^ 64 - 31) (Some (STR "z")) 0.
Proof.
  apply (strtoul_correct 0 (STR " ") (STR "-") (STR "0x") (STR "1F") (STR "z") true 16 0).
  split.
  - repeat constructor.
  - constructor.
  - apply radix_hex; [by left|by left|reflexivity].
  - discriminate.
  - repeat constructor.
  - repeat constructor; vm_compute; intuition congruence.
  - vm_compute. intuition congruence.
Defined.

(** The value [strtol] is to give for the number [z]. *)
Definition signed_result (z : Z) (rest : list Z) (errno : Z) : conv :=
  if z <? LONG_MIN then mk_conv LONG_MIN (Some rest) ERANGE
  else if LONG_MAX <? z then mk_conv LONG_MAX (Some rest) ERANGE
  else mk_conv z (Some rest) (if z =? LONG_MIN then 0 else errno).

Lemma strtol_signed neg n rest nptr orig errno :
  0 <= n → same_ptr rest nptr = false →
  let r := unsigned_result false n rest errno in
  let v := value r in
  let e := rewind (endptr r) nptr orig in
  (if v >=? ABS_LONG_MIN then
    if (v =? ABS_LONG_MIN) && neg then mk_conv (s64 v) e 0
    else mk_conv (if neg then LONG_MIN else LONG_MAX) e ERANGE
  else mk_conv (if neg then s64 (- v) else s64 v) e (conv_errno r)) =
  signed_result (if neg then - n else n) rest errno.
Proof.
  intros Hn He. cbv zeta. unfold signed_result, unsigned_result, LONG_MIN, LONG_MAX, ABS_LONG_MIN.
  change (2 ^ 64) with 18446744073709551616.
  destruct (Z.leb_spec 18446744073709551616 n); cbn [value endptr conv_errno rewind]; rewrite He.
  - change (ULONG_MAX >=? _) with true. change (ULONG_MAX =? _) with false. cbn [andb].
    destruct neg; repeat case_match; lia || reflexivity.
  - destruct (Z.geb_spec n 9223372036854775808), (Z.eqb_spec n 9223372036854775808), neg; cbn [andb];
      repeat case_match; try lia; f_equal; unfold s64; int_lia.
Qed.

Lemma strtol_ok base sp sg px ds rest neg b errno :
  numeral base sp sg px ds rest neg b →
  let z := if neg then - num b ds else num b ds in
  strtol (sp ++ sg ++ px ++ ds ++ rest) base errno = signed_result z rest errno.
Proof.
  intros Hnu z. pose proof Hnu as [Hsp Hsg Hr Hne Hnz Hd Hst].
  assert (0 <= num b ds) as Hn by (pose proof (radix_range _ _ _ _ Hr); apply num_from_mono; lia).
  pose proof (radix_head _ _ _ _ _ _ eq_refl Hne Hnz Hd Hr) as Hhead. cbv zeta in Hhead.
  destruct (alnum_not_space _ Hhead) as [Hns Hal].
  assert (∀ sg', sign_str sg' false →
    strtoul (sg' ++ px ++ ds ++ rest) base errno = unsigned_result false (num b ds) rest errno ∧
    same_ptr rest (sg' ++ px ++ ds ++ rest) = false) as Hun.
  { intros sg' Hsg'. split; [|rewrite app_assoc; by apply same_ptr_app].
    apply (strtoul_ok base [] sg' px ds rest false b errno). by split; [constructor|..]. }
  destruct (Hun [] sign_none) as [Hu0 Hp0]. destruct (Hun _ sign_plus) as [HuP HpP].
  cbn [app] in Hu0, HuP, Hp0, HpP.
  unfold strtol. rewrite skip_space_app; [|done|by destruct Hsg].
  destruct Hsg; cbn [app].
  - replace (_ =? 45) with false by lia. cbn [andb]. rewrite Hu0. by apply strtol_signed.
  - cbn [andb peek nth Z.eqb Pos.eqb]. rewrite HuP. by apply strtol_signed.
  - change (peek (45 :: px ++ ds ++ rest) 1) with (peek (px ++ ds ++ rest) 0). rewrite Hal.
    cbn [andb peek nth tail Z.eqb Pos.eqb]. rewrite Hu0. by apply strtol_signed.
Qed.

(** C34: [strtol] and [strtoll] convert a numeral to its value when it fits into
    64 bits, and otherwise to the nearest bound, with [ERANGE]; the one value that
    resets [errno] to 0 is [LONG_MIN]. *)
Theorem strtol_correct base sp sg px ds rest neg b errno :
  numeral base sp sg px ds rest neg b →
  let z := if neg then - num b ds else num b ds in
  strtol (sp ++ sg ++ px ++ ds ++ rest) base errno = signed_result z rest errno ∧
  strtoll (sp ++ sg ++ px ++ ds ++ rest) base errno = signed_result z rest errno.
Proof.
  intros Hnu z. pose proof (radix_int _ _ _ _ (nu_radix _ _ _ _ _ _ _ _ Hnu)).
  rewrite strtoll_eq by done. split; by apply strtol_ok.
Qed.

Lemma strtol_correct_witness :
  strtol (STR " -99999999999999999999;") 10 0 = mk_conv LONG_MIN (Some (STR ";")) ERANGE.
Proof.
  apply (strtol_correct 10 (STR " ") (STR "-") [] (STR "99999999999999999999") (STR ";") true 10 0).
  split.
  - repeat constructor.
  - constructor.
  - apply radix_plain; [lia|discriminate].
  - discriminate.
  - repeat constructor.
  - repeat constructor; vm_compute; intuition congruence.
  - vm_compute. intuition congruence.
Defined.

(** ** [__ltostr] *)

Lemma digit_char_ok up d :
  0 <= d < 36 → digit_value (digit_char up d) = d ∧ nzbyte (digit_char up d) ∧
    (digit_char up d = CH "0" → d = 0).
Proof.
  intros Hd.
  assert (forallb (λ d, (digit_value (digit_char up d) =? d) && (0 <? digit_char up d) &&
    (digit_char up d <? 256) && ((negb (digit_char up d =? 48)) || (d =? 0))) (seqZ 0 36) = true) as Hall
    by (destruct up; vm_compute; reflexivity).
  rewrite forallb_forall in Hall. assert (In d (seqZ 0 36)) as Hin by (apply list_elem_of_In, elem_of_seqZ; lia).
  specialize (Hall d Hin). unfold nzbyte. lia.
Qed.

Lemma num_snoc base v ds c : num_from base v (ds ++ [c]) = num_from base v ds * base + digit_value c.
Proof. unfold num_from. by rewrite foldl_app. Qed.

Lemma ltostr_digits_ok base up room i out :
  2 <= base <= 36 → 0 <= i < base ^ Z.of_nat room →
  ∃ ds, ltostr_digits room i base up out = ds ++ out ∧ num base ds = i ∧
    Forall (is_digit base) ds ∧ Forall nzbyte ds ∧ (length ds <= room)%nat ∧
    (i ≠ 0 → ds ≠ [] ∧ peek ds 0 ≠ CH "0").
Proof.
  intros Hb. revert i out. induction room as [|room IH]; intros i out Hi.
  { change (base ^ Z.of_nat 0) with 1 in Hi. assert (i = 0) as -> by lia.
    exists []. split_and!; auto using Forall_nil_2. }
  cbn [ltostr_digits]. destruct (Z.eqb_spec i 0) as [->|Hne].
  { exists []. split_and!; auto using Forall_nil_2; simpl; lia. }
  rewrite Nat2Z.inj_succ, Z.pow_succ_r in Hi by lia.
  pose proof (Z.mod_pos_bound i base ltac:(lia)) as Hm. pose proof (Z.div_mod i base ltac:(lia)) as Hdm.
  destruct (digit_char_ok up (i mod base) ltac:(lia)) as (Hv & Hnz & H0).
  destruct (IH (i / base) (digit_char up (i mod base) :: out)) as (ds & E & Hn & Hd & Hz & Hl & Hhd).
  { split; [apply Z.div_pos; lia|apply Z.div_lt_upper_bound; lia]. }
  exists (ds ++ [digit_char up (i mod base)]). rewrite E, <- app_assoc. split; [done|].
  unfold num in *. rewrite num_snoc, Hn, Hv. split; [lia|].
  rewrite length_app, !Forall_app, !Forall_singleton. unfold is_digit at 2. rewrite Hv.
  split; [done|]. split; [done|]. split; [simpl; lia|]. intros _. split; [by destruct ds|].
  destruct (decide (i / base = 0)) as [Hz0|Hz0].
  - assert (ds = []) as ->.
    { apply (f_equal length) in E. rewrite Hz0, length_app in E. apply length_zero_iff_nil.
      destruct room; simpl in *; lia. }
    unfold peek. cbn. intros Hq. apply H0 in Hq. lia.
  - destruct (Hhd Hz0) as [Hds Hp]. by destruct ds.
Qed.

(** C35: [__ltostr] (and [__lltostr]) never writes outside a buffer of 65 bytes
    for a 64-bit number, and what it writes reads back: [strtoul] in the same
    base returns the number and stops at the NUL. *)
Theorem ltostr_roundtrip size i base up errno :
  2 <= base <= 36 → 0 <= i < 2 ^ 64 → 65 <= size →
  ∃ ds, __ltostr size i base up = Some ds ∧ __lltostr size i base up = Some ds ∧
    Z.of_nat (length ds) < size ∧ strtoul ds base errno = mk_conv i (Some []) errno.
Proof.
  intros Hb Hi Hs.
  assert (∃ ds, __ltostr size i base up = Some ds ∧ num base ds = i ∧ Forall (is_digit base) ds ∧
    Forall nzbyte ds ∧ Z.of_nat (length ds) < size ∧ ds ≠ [] ∧ (peek ds 0 = CH "0" → has_0x ds = false))
    as (ds & E & Hn & Hd & Hz & Hl & Hne & Hx).
  { unfold __ltostr. replace (size - 1 <? 0) with false by lia.
    replace ((base =? 0) || (base >? 36)) with false by lia.
    destruct (Z.eqb_spec i 0) as [->|Hi0].
    - replace (size - 1 <? 1) with false by lia. exists [CH "0"].
      assert (digit_value (CH "0") = 0) as E0 by done.
      split; [done|]. split; [by cbn; rewrite E0|].
      rewrite !Forall_singleton. unfold is_digit. rewrite E0.
      split; [lia|]. split; [unfold nzbyte; lia|]. split; [simpl; lia|]. split; [done|]. done.
    - destruct (ltostr_digits_ok base up (Z.to_nat (size - 1)) i [] Hb) as (ds & E & Hn & Hd & Hz & Hl & Hhd).
      { split; [lia|]. eapply Z.lt_le_trans; [apply Hi|]. transitivity (base ^ 64).
        - apply Z.pow_le_mono_l. lia.
        - apply Z.pow_le_mono_r; lia. }
      rewrite app_nil_r in E. destruct (Hhd Hi0). exists ds. cbv zeta. rewrite E.
      repeat split; try done. lia. }
  exists ds. split; [done|]. split; [done|]. split; [done|].
  pose proof (strtoul_ok base [] [] [] ds [] false base errno) as Hu.
  cbn [app] in Hu. rewrite app_nil_r in Hu. rewrite Hu.
  - unfold unsigned_result. rewrite Hn. by replace (2 ^ 64 <=? i) with false by lia.
  - split; try done; [constructor|]. rewrite app_nil_r. by apply radix_plain.
Qed.

Lemma ltostr_roundtrip_witness :
  ∃ ds, __ltostr 100 255 16 true = Some ds ∧ strtoul ds 16 0 = mk_conv 255 (Some []) 0.
Proof.
  destruct (ltostr_roundtrip 100 255 16 true 0 ltac:(lia) ltac:(lia) ltac:(lia)) as (ds & H1 & _ & _ & H2).
  by exists ds.
Defined.

(** ** [atoi] *)

Lemma atoi_digits_ok ds rest v :
  Forall (λ c, CH "0" <= c <= CH "9") ds →
  match rest with [] => True | c :: _ => byte c ∧ ¬ CH "0" <= c <= CH "9" end →
  0 <= v → foldl (λ v c, v * 10 + (c - CH "0")) v ds <= LONG_MAX →
  atoi_digits (ds ++ rest) v = foldl (λ v c, v * 10 + (c - CH "0")) v ds.
Proof.
  intros Hds Hr. revert v. induction Hds as [|c ds Hc Hds IH]; intros v Hv Hmax.
  - cbn [app foldl]. destruct rest as [|c rest]; [done|]. cbn [atoi_digits].
    destruct Hr as [Hb Hr]. unfold byte in Hb.
    replace (u32 (s8 c - 48) <? 10) with false; [done|]. symmetry. int_lia.
  - cbn [app atoi_digits foldl] in *. assert (s8 c = c) as -> by int_lia.
    replace (u32 (c - 48) <? 10) with true by (rewrite u32_id; lia).
    assert (0 <= v * 10 + c - 48 <= LONG_MAX) as Hstep.
    { split; [lia|]. etransitivity; [|exact Hmax].
      assert (∀ l w, Forall (λ c, CH "0" <= c <= CH "9") l → 0 <= w → w <= foldl (λ v c, v * 10 + (c - CH "0")) w l) as Hm.
      { induction l as [|x l IHl]; intros w Hl Hw; simpl; [lia|]. apply Forall_cons in Hl as [Hx Hl].
        etransitivity; [|apply IHl; [done|lia]]. lia. }
      etransitivity; [|apply Hm; [done|lia]]. lia. }
    unfold LONG_MAX in *. replace (s64 (v * 10 + c - 48)) with (v * 10 + (c - 48)) by int_lia.
    apply IH; [lia|done].
Qed.

(** [atoi] and [atol] skip blanks, take an optional sign and return the value
    of the decimal digits that follow (the empty number being 0), for every value
    in the range of the result. *)
Theorem atoi_correct sp sg ds rest neg :
  Forall (λ c, isspace (s8 c) = true) sp → sign_str sg neg →
  Forall (λ c, CH "0" <= c <= CH "9") ds →
  match rest with [] => True
  | c :: _ => byte c ∧ ¬ CH "0" <= c <= CH "9" ∧
      (ds = [] → isspace (s8 c) = false ∧ c ≠ CH "+" ∧ c ≠ CH "-") end →
  let n := foldl (λ v c, v * 10 + (c - CH "0")) 0 ds in
  let z := if neg then - n else n in
  (n <= LONG_MAX → atol (sp ++ sg ++ ds ++ rest) = z) ∧
  (- 2 ^ 31 <= z < 2 ^ 31 → atoi (sp ++ sg ++ ds ++ rest) = z).
Proof.
  intros Hsp Hsg Hds Hr n z.
  assert (0 <= n) as Hn0.
  { unfold n. assert (∀ l w, Forall (λ c, CH "0" <= c <= CH "9") l → 0 <= w → 0 <= foldl (λ v c, v * 10 + (c - CH "0")) w l) as Hm.
    { induction l as [|x l IHl]; intros w Hl Hw; simpl; [lia|]. apply Forall_cons in Hl as [Hx Hl].
      apply IHl; [done|lia]. }
    by apply Hm. }
  assert (∀ s, atoi_space s = skip_space s) as Hspace.
  { induction s as [|c s IH]; [done|]. cbn [atoi_space skip_space]. unfold isspace. rewrite IH.
    by rewrite orb_comm. }
  set (c0 := peek (ds ++ rest) 0).
  assert (isspace (s8 c0) = false ∧ c0 ≠ CH "+" ∧ c0 ≠ CH "-") as (Hs0 & Hplus & Hminus).
  { unfold c0, peek. destruct ds as [|c ds]; cbn [app nth].
    - destruct rest as [|c rest]; [done|]. destruct Hr as (_ & _ & Hr). by apply Hr.
    - apply Forall_cons in Hds as [Hc _]. destruct (alnum_not_space c) as [H1 _]; [lia|].
      split; [done|lia]. }
  assert (atoi_sign (atoi_space (sp ++ sg ++ ds ++ rest)) = (if neg then -1 else 1, ds ++ rest)) as E.
  { rewrite Hspace, skip_space_app; [|done|by destruct Hsg]. unfold atoi_sign.
    destruct Hsg; cbn [app]; try done. fold c0.
    replace (c0 =? 45) with false by lia. by replace (c0 =? 43) with false by lia. }
  assert (n <= LONG_MAX → atoi_digits (ds ++ rest) 0 = n) as Hval.
  { intros Hmax. apply atoi_digits_ok; [done| |lia|done]. destruct rest; [done|]. tauto. }
  unfold atol, atoi. rewrite E. split; intros Hfit.
  - rewrite Hval by done. unfold LONG_MAX, z in *. destruct neg; cbn; [|done]. int_lia.
  - change (2 ^ 31) with 2147483648 in Hfit.
    rewrite Hval by (unfold LONG_MAX, z in *; destruct neg; lia). unfold z in *.
    destruct neg; cbn; int_lia.
Qed.

Lemma atoi_correct_witness : atoi (STR "  -42abc") = -42.
Proof.
  apply (atoi_correct (STR "  ") (STR "-") (STR "42") (STR "abc") true).
  - repeat constructor.
  - constructor.
  - repeat constructor; lia.
  - vm_compute. intuition congruence.
  - vm_compute. intuition congruence.
Defined.
