(* ===== verification/Crypt.v ===== *)
(** * Password hashes

    [libcrypt/md5crypt.c], and the crypt functions of [libcrypt/sha256crypt.c] and
    [libcrypt/sha512crypt.c], over the interface [StreamHash] of their hash.
    A C string is the list of its bytes in front of the NUL.  Copies of the key
    and the salt to aligned memory, which change neither, and the final clearing
    of the intermediate results are left out.  *)

From S2P Require Import Prelude Mem HashStream Sha2 Sha2Facts Md5 Ctype Convert.

(** ** Counting loops and pairs of contexts *)

(** [for (cnt = from; cnt < from + n; ++cnt) body (cnt)] *)
Fixpoint for_m {W} (n : nat) (from : Z) (body : Z → CM W unit) : CM W unit :=
  match n with
  | O => mret tt
  | S n => _ ← body from; for_m n (from + 1) body
  end.

Definition on_ctx {C A} (m : CM C A) : CM (C * C) A := λ '(c, a),
  match m c with Ok (x, c') => Ok (x, (c', a)) | Fault => Fault | Hang => Hang end.
Definition on_alt {C A} (m : CM C A) : CM (C * C) A := λ '(c, a),
  match m a with Ok (x, a') => Ok (x, (c, a')) | Fault => Fault | Hang => Hang end.

(** ** The digits of [b64t] and [itoa64] *)

Definition b64t : list Z := STR "./0123456789ABCDEFGHIJKLMNOPQRSTUVWXYZabcdefghijklmnopqrstuvwxyz".

(** [to64] of [md5crypt.c]: [n] digits of [v]. *)
Fixpoint to64 (n : nat) (v : Z) : list Z :=
  match n with
  | O => []
  | S n => nth (Z.to_nat (Z.land v 0x3f)) b64t 0 :: to64 n (Z.shiftr v 6)
  end.

(** The macro [b64_from_24bit]: the output so far and the room left in the buffer. *)
Fixpoint b64_digits (n : nat) (w : Z) (st : list Z * Z) : list Z * Z :=
  match n with
  | O => st
  | S n =>
      let '(out, buflen) := st in
      if buflen >? 0
      then b64_digits n (Z.shiftr w 6) (out ++ [nth (Z.to_nat (Z.land w 0x3f)) b64t 0], buflen - 1)
      else st
  end.
Definition b64_from_24bit (B2 B1 B0 : Z) (N : nat) (st : list Z * Z) : list Z * Z :=
  b64_digits N (Z.lor (Z.lor (Z.shiftl B2 16) (Z.shiftl B1 8)) B0) st.

(** ** [sha256_crypt_r], [sha512_crypt_r] *)

Definition SALT_LEN_MAX : Z := 16.
Definition ROUNDS_DEFAULT : Z := 5000.
Definition ROUNDS_MIN : Z := 1000.
Definition ROUNDS_MAX : Z := 999999999.

(** [strncmp (prefix, s, strlen (prefix)) == 0] *)
Definition has_prefix (prefix s : list Z) : bool := bool_decide (take (length prefix) s = prefix).

(** [strcspn (s, dollar)] for the string "$" *)
Fixpoint dollar_span (s : list Z) : list Z :=
  match s with
  | c :: s => if c =? CH "$" then [] else c :: dollar_span s
  | [] => []
  end.

(** The salt string, the number of rounds, and whether it was given. *)
Definition parse_salt (prefix salt : list Z) : list Z * Z * bool :=
  let salt := if has_prefix prefix salt then drop (length prefix) salt else salt in
  let '(salt, rounds, custom) :=
    if has_prefix (STR "rounds=") salt then
      let num := drop 7 salt in
      let r := strtoul num 10 0 in
      match endptr r with
      | Some e =>
          if peek e 0 =? CH "$"
          then (tail e, Z.max ROUNDS_MIN (Z.min (value r) ROUNDS_MAX), true)
          else (salt, ROUNDS_DEFAULT, false)
      | None => (salt, ROUNDS_DEFAULT, false)
      end
    else (salt, ROUNDS_DEFAULT, false) in
  (take (Z.to_nat SALT_LEN_MAX) (dollar_span salt), rounds, custom).

Section sha_crypt.
Context {C : Type} {H : StreamHash C}.

Definition dsize : nat := sh_digest_size.

(** [for (cnt = n; cnt > dsize; cnt -= dsize) update (d, dsize); update (d, cnt);] *)
Fixpoint update_cycled (fuel cnt : nat) (d : list Z) : CM C unit :=
  match fuel with
  | O => λ _, Hang
  | S fuel =>
      if (dsize <? cnt)%nat
      then _ ← sh_update (take dsize d); update_cycled fuel (cnt - dsize) d
      else sh_update (take cnt d)
  end.

(** [for (cnt = key_len; cnt > 0; cnt >>= 1) ...] *)
Fixpoint update_bits (fuel : nat) (cnt : Z) (d key : list Z) : CM C unit :=
  match fuel with
  | O => λ _, Hang
  | S fuel =>
      if cnt >? 0 then
        _ ← (if negb (Z.land cnt 1 =? 0) then sh_update d else sh_update key);
        update_bits fuel (Z.shiftr cnt 1) d key
      else mret tt
  end.

(** The byte sequences P and S:
    [for (cnt = n; cnt >= dsize; cnt -= dsize) cp = memcpy (cp, d, dsize) + dsize; memcpy (cp, d, cnt);] *)
Fixpoint cycle_bytes (fuel cnt : nat) (d : list Z) : list Z :=
  match fuel with
  | O => []
  | S fuel =>
      if (dsize <=? cnt)%nat then take dsize d ++ cycle_bytes fuel (cnt - dsize) d else take cnt d
  end.

(** One of the rounds. *)
Definition crypt_round (p_bytes s_bytes : list Z) (cnt : Z) (alt_result : list Z) : CM C (list Z) :=
  _ ← sh_init;
  _ ← sh_update (if negb (Z.land cnt 1 =? 0) then p_bytes else alt_result);
  _ ← (if negb (cnt mod 3 =? 0) then sh_update s_bytes else mret tt);
  _ ← (if negb (cnt mod 7 =? 0) then sh_update p_bytes else mret tt);
  _ ← sh_update (if negb (Z.land cnt 1 =? 0) then alt_result else p_bytes);
  sh_final.

Fixpoint crypt_rounds (n : nat) (cnt : Z) (p_bytes s_bytes alt_result : list Z) : CM C (list Z) :=
  match n with
  | O => mret alt_result
  | S n =>
      alt_result ← crypt_round p_bytes s_bytes cnt alt_result;
      crypt_rounds n (cnt + 1) p_bytes s_bytes alt_result
  end.

(** From the key, the salt and the number of rounds to the final [alt_result];
    the state is the pair of [ctx] and [alt_ctx]. *)
Definition sha_crypt_digest (key salt : list Z) (rounds : Z) : CM (C * C) (list Z) :=
  let key_len := length key in
  _ ← on_ctx sh_init;
  _ ← on_ctx (sh_update key);
  _ ← on_ctx (sh_update salt);
  _ ← on_alt sh_init;
  _ ← on_alt (sh_update key);
  _ ← on_alt (sh_update salt);
  _ ← on_alt (sh_update key);
  alt_result ← on_alt sh_final;
  _ ← on_ctx (update_cycled (S key_len) key_len alt_result);
  _ ← on_ctx (update_bits (S key_len) (Z.of_nat key_len) alt_result key);
  alt_result ← on_ctx sh_final;
  _ ← on_alt sh_init;
  _ ← on_alt (for_m key_len 0 (λ _, sh_update key));
  temp_result ← on_alt sh_final;
  let p_bytes := cycle_bytes (S key_len) key_len temp_result in
  _ ← on_alt sh_init;
  _ ← on_alt (for_m (Z.to_nat (16 + nth 0 alt_result 0)) 0 (λ _, sh_update salt));
  temp_result ← on_alt sh_final;
  let s_bytes := cycle_bytes (S (length salt)) (length salt) temp_result in
  on_ctx (crypt_rounds (Z.to_nat rounds) 0 p_bytes s_bytes alt_result).

(** The result string: [groups] are the arguments of the [b64_from_24bit] lines
    (indexes into [alt_result], an index past its end for a literal 0).  [None] is
    the error [ERANGE]. *)
Definition crypt_string (prefix salt : list Z) (rounds : Z) (custom : bool)
    (groups : list (nat * nat * nat * nat)) (alt_result : list Z) (buflen : Z) : option (list Z) :=
  let out := take (Z.to_nat (Z.max 0 buflen)) prefix in
  let buflen := buflen - Z.of_nat (length prefix) in
  let '(out, buflen) :=
    if custom then
      let s := STR "rounds=" ++ ltostr_digits 20 rounds 10 false [] ++ [CH "$"] in
      (out ++ s, buflen - Z.of_nat (length s))
    else (out, buflen) in
  let n := Z.min (Z.max 0 buflen) (Z.of_nat (length salt)) in
  let '(out, buflen) := (out ++ take (Z.to_nat n) salt, buflen - n) in
  let '(out, buflen) := if buflen >? 0 then (out ++ [CH "$"], buflen - 1) else (out, buflen) in
  let '(out, buflen) := foldl (λ st '(i2, i1, i0, n),
      b64_from_24bit (nth i2 alt_result 0) (nth i1 alt_result 0) (nth i0 alt_result 0) n st)
    (out, buflen) groups in
  if buflen <=? 0 then None else Some out.

Definition sha_crypt_r (prefix : list Z) (groups : list (nat * nat * nat * nat))
    (key salt : list Z) (buflen : Z) : CM (C * C) (option (list Z)) :=
  let '(salt, rounds, custom) := parse_salt prefix salt in
  alt_result ← sha_crypt_digest key salt rounds;
  mret (crypt_string prefix salt rounds custom groups alt_result buflen).
End sha_crypt.

Definition sha256_groups : list (nat * nat * nat * nat) := ([
  (0, 10, 20, 4); (21, 1, 11, 4); (12, 22, 2, 4); (3, 13, 23, 4);
  (24, 4, 14, 4); (15, 25, 5, 4); (6, 16, 26, 4); (27, 7, 17, 4);
  (18, 28, 8, 4); (9, 19, 29, 4); (32, 31, 30, 3)])%nat.

Definition sha512_groups : list (nat * nat * nat * nat) := ([
  (0, 21, 42, 4); (22, 43, 1, 4); (44, 2, 23, 4); (3, 24, 45, 4);
  (25, 46, 4, 4); (47, 5, 26, 4); (6, 27, 48, 4); (28, 49, 7, 4);
  (50, 8, 29, 4); (9, 30, 51, 4); (31, 52, 10, 4); (53, 11, 32, 4);
  (12, 33, 54, 4); (34, 55, 13, 4); (56, 14, 35, 4); (15, 36, 57, 4);
  (37, 58, 16, 4); (59, 17, 38, 4); (18, 39, 60, 4); (40, 61, 19, 4);
  (62, 20, 41, 4); (64, 64, 63, 2)])%nat.

(** [sha256_crypt], [sha512_crypt]: with a buffer of the size they compute. *)
Definition sha256_needed (salt : list Z) : Z := 3 + 8 + 9 + 1 + Z.of_nat (length salt) + 1 + 43 + 1.
Definition sha512_needed (salt : list Z) : Z := 3 + 8 + 9 + 1 + Z.of_nat (length salt) + 1 + 86 + 1.

Definition sha256_crypt_r := sha_crypt_r (H := sha2_stream (P := sha256) false) (STR "$5$") sha256_groups.
Definition sha512_crypt_r := sha_crypt_r (H := sha2_stream (P := sha512) false) (STR "$6$") sha512_groups.
Definition sha256_crypt (key salt : list Z) := sha256_crypt_r key salt (sha256_needed salt).
Definition sha512_crypt (key salt : list Z) := sha512_crypt_r key salt (sha512_needed salt).

(** ** [md5crypt] *)

(** [for(pl = strlen(pw); pl > 0; pl -= 16) MD5Update(&ctx,final,pl>16 ? 16 : pl);] *)
Fixpoint md5_cycled (fuel : nat) (pl : Z) (final : list Z) : CM MD5_CTX unit :=
  match fuel with
  | O => λ _, Hang
  | S fuel =>
      if pl >? 0 then
        _ ← MD5Update (take (Z.to_nat (if pl >? 16 then 16 else pl)) final);
        md5_cycled fuel (pl - 16) final
      else mret tt
  end.

(** [for (i = strlen(pw); i ; i >>= 1) ...], with [final] cleared *)
Fixpoint md5_bits (fuel : nat) (i : Z) (pw : list Z) : CM MD5_CTX unit :=
  match fuel with
  | O => λ _, Hang
  | S fuel =>
      if negb (i =? 0) then
        _ ← (if negb (Z.land i 1 =? 0) then MD5Update [0] else MD5Update (take 1 pw));
        md5_bits fuel (Z.shiftr i 1) pw
      else mret tt
  end.

Definition md5_round (pw sp : list Z) (i : Z) (final : list Z) : CM MD5_CTX (list Z) :=
  _ ← MD5Init;
  _ ← MD5Update (if negb (Z.land i 1 =? 0) then pw else take 16 final);
  _ ← (if negb (i mod 3 =? 0) then MD5Update sp else mret tt);
  _ ← (if negb (i mod 7 =? 0) then MD5Update pw else mret tt);
  _ ← MD5Update (if negb (Z.land i 1 =? 0) then take 16 final else pw);
  MD5Final.

Fixpoint md5_rounds (n : nat) (i : Z) (pw sp final : list Z) : CM MD5_CTX (list Z) :=
  match n with
  | O => mret final
  | S n => final ← md5_round pw sp i final; md5_rounds n (i + 1) pw sp final
  end.

(** "Refine the Salt first". *)
Definition md5_salt (salt : list Z) : list Z :=
  let sp := if has_prefix (STR "$1$") salt then drop 3 salt else salt in
  take 8 (dollar_span sp).

Definition md5crypt_digest (pw sp : list Z) : CM (MD5_CTX * MD5_CTX) (list Z) :=
  _ ← on_ctx MD5Init;
  _ ← on_ctx (MD5Update pw);
  _ ← on_ctx (MD5Update (STR "$1$"));
  _ ← on_ctx (MD5Update sp);
  _ ← on_alt MD5Init;
  _ ← on_alt (MD5Update pw);
  _ ← on_alt (MD5Update sp);
  _ ← on_alt (MD5Update pw);
  final ← on_alt MD5Final;
  _ ← on_ctx (md5_cycled (S (length pw)) (Z.of_nat (length pw)) final);
  _ ← on_ctx (md5_bits (S (length pw)) (Z.of_nat (length pw)) pw);
  final ← on_ctx MD5Final;
  on_alt (md5_rounds 1000 0 pw sp final).

Definition md5crypt_string (sp final : list Z) : list Z :=
  let f i := nth i final 0 in
  let l a b c := Z.lor (Z.lor (Z.shiftl (f a) 16) (Z.shiftl (f b) 8)) (f c) in
  STR "$1$" ++ sp ++ [CH "$"] ++
  to64 4 (l 0 6 12)%nat ++ to64 4 (l 1 7 13)%nat ++ to64 4 (l 2 8 14)%nat ++
  to64 4 (l 3 9 15)%nat ++ to64 4 (l 4 10 5)%nat ++ to64 2 (f 11%nat).

Definition md5crypt (pw salt : list Z) : CM (MD5_CTX * MD5_CTX) (list Z) :=
  let sp := md5_salt salt in
  final ← md5crypt_digest pw sp;
  mret (md5crypt_string sp final).
