(* ===== verification/CryptFacts.v ===== *)
(** * Password hashes: what they compute

    The digests of the crypt functions as hashes of concatenations, proved against
    the interface [StreamHash]; the base-64 encoding and its inverse; the size of
    the result. *)

From S2P Require Import Prelude Mem HashStream Sha2 Sha2Facts Md5 Ctype Convert ConvertFacts Crypt.

(** ** Computations that feed data to a context *)

(** [len] bounds the lengths. *)
Ltac len := cbn [app]; rewrite ?length_app in *; cbn [length] in *; lia.

Section takes.
Context {C : Type} {H : StreamHash C}.

Definition takes (p : CM C unit) (data : list Z) : Prop :=
  ∀ m c, sh_rep m c → Z.of_nat (length m + length data) < sh_max →
  ∃ c', p c = Ok (tt, c') ∧ sh_rep (m ++ data) c'.

Lemma takes_update d : takes (sh_update d) d.
Proof. intros m c. apply sh_update_ok. Qed.

Lemma takes_ret : takes (mret tt) [].
Proof. intros m c Hr _. exists c. by rewrite app_nil_r. Qed.

Lemma takes_bind p q d e : takes p d → takes q e → takes (_ ← p; q) (d ++ e).
Proof.
  intros Hp Hq m c Hr Hl. rewrite length_app in Hl.
  destruct (Hp m c Hr) as (c1 & E1 & Hr1); [lia|]. rewrite (bind_Ok _ _ _ _ _ E1).
  destruct (Hq (m ++ d) c1 Hr1) as (c2 & E2 & Hr2); [rewrite length_app; lia|].
  exists c2. by rewrite app_assoc.
Qed.

Lemma takes_if (b : bool) p q d e : takes p d → takes q e → takes (if b then p else q) (if b then d else e).
Proof. by destruct b. Qed.

Lemma takes_for n from body d : (∀ i, takes (body i) d) → takes (for_m n from body) (mjoin (replicate n d)).
Proof.
  intros Hb. revert from. induction n as [|n IH]; intros from; [apply takes_ret|].
  cbn [for_m replicate]. by apply takes_bind.
Qed.

(** A hash of everything that [p] feeds. *)
Lemma takes_hash p d c :
  takes p d → sh_wf c → Z.of_nat (length d) < sh_max →
  ∃ c', (_ ← sh_init; _ ← p; sh_final) c = Ok (sh_hash d, c') ∧ sh_wf c'.
Proof.
  intros Hp Hc Hl. destruct (sh_init_ok c Hc) as (c1 & E1 & Hr1). rewrite (bind_Ok _ _ _ _ _ E1).
  destruct (Hp [] c1 Hr1 Hl) as (c2 & E2 & Hr2). rewrite (bind_Ok _ _ _ _ _ E2).
  by apply sh_final_ok.
Qed.

(** ** Cycled digests *)

(** The first [n] bytes of [d] repeated. *)
Definition cycled (n : nat) (d : list Z) : list Z := take n (mjoin (replicate n d)).

Lemma mjoin_replicate_length k (d : list Z) : length (mjoin (replicate k d)) = (k * length d)%nat.
Proof.
  induction k as [|k IH]; [done|]. cbn [replicate]. change (mjoin (d :: ?x)) with (d ++ mjoin x).
  rewrite length_app, IH. simpl. lia.
Qed.

Lemma take_cycle k j n (d : list Z) :
  (n <= k * length d)%nat → (n <= j * length d)%nat →
  take n (mjoin (replicate k d)) = take n (mjoin (replicate j d)).
Proof.
  revert j n. induction k as [|k IH]; intros [|j] n Hk Hj; simpl in Hk, Hj.
  - done.
  - assert (n = 0)%nat as -> by lia. done.
  - assert (n = 0)%nat as -> by lia. done.
  - cbn [replicate]. change (mjoin (d :: ?x)) with (d ++ mjoin x). rewrite !take_app. f_equal.
    apply IH; lia.
Qed.

Lemma cycled_length n (d : list Z) : d ≠ [] → length (cycled n d) = n.
Proof.
  intros Hd. unfold cycled. rewrite length_take, mjoin_replicate_length.
  destruct d; [done|]. cbn [length]. nia.
Qed.

Lemma cycled_more n d :
  (0 < length d <= n)%nat → cycled n d = d ++ cycled (n - length d) d.
Proof.
  intros Hd. unfold cycled. destruct n as [|n]; [lia|]. cbn [replicate].
  change (mjoin (d :: ?x)) with (d ++ mjoin x). rewrite take_app_ge by lia. f_equal.
  apply take_cycle; nia.
Qed.

Lemma cycled_less n d : (n <= length d)%nat → cycled n d = take n d.
Proof.
  intros Hd. unfold cycled. destruct n as [|n]; [done|]. cbn [replicate].
  change (mjoin (d :: ?x)) with (d ++ mjoin x). by rewrite take_app_le.
Qed.

Lemma cycle_bytes_ok fuel cnt d :
  length d = dsize → (0 < dsize)%nat → (cnt < fuel)%nat → cycle_bytes fuel cnt d = cycled cnt d.
Proof.
  intros Hd Hpos. revert cnt. induction fuel as [|fuel IH]; intros cnt Hf; [lia|]. cbn [cycle_bytes].
  destruct (Nat.leb_spec dsize cnt).
  - rewrite IH, (cycled_more cnt), Hd, <- Hd, take_ge by lia. done.
  - rewrite cycled_less by lia. done.
Qed.

Lemma takes_cycled fuel cnt d :
  length d = dsize → (0 < dsize)%nat → (cnt < fuel)%nat →
  takes (update_cycled fuel cnt d) (cycled cnt d).
Proof.
  intros Hd Hpos. revert cnt. induction fuel as [|fuel IH]; intros cnt Hf; [lia|]. cbn [update_cycled].
  destruct (Nat.ltb_spec dsize cnt).
  - rewrite (cycled_more cnt) by lia. rewrite (take_ge d) by lia.
    apply takes_bind; [apply takes_update|]. rewrite Hd. apply IH. lia.
  - rewrite cycled_less by lia. apply takes_update.
Qed.

(** ** The bits of the key length *)

Definition bits_lsb (n : Z) : list bool :=
  if n <=? 0 then [] else (λ i, Z.testbit n (Z.of_nat i)) <$> seq 0 (Z.to_nat (Z.log2 n + 1)).

Lemma bits_lsb_step n : 0 < n → bits_lsb n = negb (Z.land n 1 =? 0) :: bits_lsb (Z.shiftr n 1).
Proof.
  intros Hn. unfold bits_lsb at 1. replace (n <=? 0) with false by lia.
  pose proof (Z.log2_nonneg n). replace (Z.to_nat (Z.log2 n + 1)) with (S (Z.to_nat (Z.log2 n))) by lia.
  cbn [seq fmap list_fmap]. f_equal.
  - change (Z.land n 1) with (Z.land n (Z.ones 1)). rewrite Z.land_ones by lia. change (2 ^ 1) with 2.
    rewrite Z.bit0_odd, Zodd_mod. pose proof (Z.mod_pos_bound n 2 ltac:(lia)).
    destruct (Z.eqb_spec (n mod 2) 1), (Z.eqb_spec (n mod 2) 0); cbn; try done; lia.
  - rewrite <- fmap_S_seq, <- list_fmap_compose. rewrite Z.shiftr_div_pow2 by lia. change (2 ^ 1) with 2.
    unfold bits_lsb. destruct (Z.leb_spec (n / 2) 0) as [Hz|Hz].
    + assert (n = 1) as -> by (Z.div_mod_to_equations; lia). done.
    + assert (Z.log2 n = Z.log2 (n / 2) + 1) as ->.
      { rewrite <- Z.div2_div, Z.div2_spec, Z.log2_shiftr by lia.
        assert (1 <= Z.log2 n) by (apply Z.log2_le_pow2; [lia|]; simpl; Z.div_mod_to_equations; lia). lia. }
      apply list_fmap_ext. intros i x _. unfold compose.
      change (n / 2) with (n / 2 ^ 1). rewrite Z.div_pow2_bits by lia. f_equal. lia.
Qed.

Definition bits_data (n : Z) (d key : list Z) : list Z := mjoin ((λ b : bool, if b then d else key) <$> bits_lsb n).

Lemma takes_bits fuel cnt d key :
  0 <= cnt < Z.of_nat fuel → takes (update_bits fuel cnt d key) (bits_data cnt d key).
Proof.
  revert cnt. induction fuel as [|fuel IH]; intros cnt Hf; [lia|]. cbn [update_bits].
  destruct (Z.gtb_spec cnt 0) as [Hp|Hz].
  - unfold bits_data. rewrite bits_lsb_step by done. cbn [fmap list_fmap].
    change (mjoin (?x :: ?y)) with (x ++ mjoin y). apply takes_bind.
    + apply takes_if; apply takes_update.
    + apply IH. rewrite Z.shiftr_div_pow2 by lia. change (2 ^ 1) with 2. Z.div_mod_to_equations. lia.
  - assert (cnt = 0) as -> by lia. apply takes_ret.
Qed.

(** ** The SHA-crypt digest *)

(** One round, as a hash of a concatenation. *)
Definition round_data (p s : list Z) (i : Z) (a : list Z) : list Z :=
  (if Z.odd i then p else a) ++ (if i mod 3 =? 0 then [] else s) ++
  (if i mod 7 =? 0 then [] else p) ++ (if Z.odd i then a else p).

Fixpoint rounds_spec (n : nat) (i : Z) (p s a : list Z) : list Z :=
  match n with O => a | S n => rounds_spec n (i + 1) p s (sh_hash (round_data p s i a)) end.

(** The algorithm on whole strings. *)
Definition sha_crypt_spec (key salt : list Z) (rounds : Z) : list Z :=
  let b := sh_hash (key ++ salt ++ key) in
  let a := sh_hash (key ++ salt ++ cycled (length key) b ++ bits_data (Z.of_nat (length key)) b key) in
  let p := cycled (length key) (sh_hash (mjoin (replicate (length key) key))) in
  let s := cycled (length salt) (sh_hash (mjoin (replicate (Z.to_nat (16 + nth 0 a 0)) salt))) in
  rounds_spec (Z.to_nat rounds) 0 p s a.

Lemma odd_land i : negb (Z.land i 1 =? 0) = Z.odd i.
Proof.
  change 1 with (Z.ones 1). rewrite Z.land_ones by lia. change (2 ^ 1) with 2.
  rewrite Zodd_mod. pose proof (Z.mod_pos_bound i 2 ltac:(lia)).
  destruct (Z.eqb_spec (i mod 2) 1), (Z.eqb_spec (i mod 2) 0); cbn; try done; lia.
Qed.

Lemma crypt_round_ok p s i a c :
  sh_wf c → Z.of_nat (2 * length p + length s + length a) < sh_max →
  ∃ c', crypt_round p s i a c = Ok (sh_hash (round_data p s i a), c') ∧ sh_wf c'.
Proof.
  intros Hc Hl. unfold crypt_round, round_data. rewrite odd_land.
  destruct (takes_hash (_ ← sh_update (if Z.odd i then p else a);
      _ ← (if negb (i mod 3 =? 0) then sh_update s else mret tt);
      _ ← (if negb (i mod 7 =? 0) then sh_update p else mret tt);
      sh_update (if Z.odd i then a else p)) (round_data p s i a) c) as (c' & E & Hwf); [|done| |].
  - apply takes_bind; [apply takes_update|]. apply takes_bind.
    { destruct (i mod 3 =? 0); [apply takes_ret|apply takes_update]. }
    apply takes_bind; [|apply takes_update].
    destruct (i mod 7 =? 0); [apply takes_ret|apply takes_update].
  - unfold round_data. rewrite !length_app. destruct (Z.odd i), (i mod 3 =? 0), (i mod 7 =? 0); simpl; lia.
  - exists c'. split; [|done]. unfold round_data in E. rewrite <- E.
    unfold mbind, CM_bind. repeat case_match; simplify_eq; done.
Qed.

Lemma crypt_rounds_ok n i p s a c :
  sh_wf c → length a = dsize → Z.of_nat (2 * length p + length s + dsize) < sh_max →
  ∃ c', crypt_rounds n i p s a c = Ok (rounds_spec n i p s a, c') ∧ sh_wf c'.
Proof.
  intros Hc Ha Hl. revert i a c Hc Ha. induction n as [|n IH]; intros i a c Hc Ha; [by exists c|].
  cbn [crypt_rounds rounds_spec]. destruct (crypt_round_ok p s i a c Hc) as (c1 & E1 & Hc1); [lia|].
  rewrite (bind_Ok _ _ _ _ _ E1). apply IH; [done|apply sh_hash_length].
Qed.

Lemma on_ctx_ok {A} (m : CM C A) x c c' a : m c = Ok (x, c') → on_ctx m (c, a) = Ok (x, (c', a)).
Proof. unfold on_ctx. by intros ->. Qed.

Lemma on_alt_ok {A} (m : CM C A) x c a a' : m a = Ok (x, a') → on_alt m (c, a) = Ok (x, (c, a')).
Proof. unfold on_alt. by intros ->. Qed.

Lemma bits_lsb_length n : (length (bits_lsb n) <= Z.to_nat n)%nat.
Proof.
  unfold bits_lsb. destruct (Z.leb_spec n 0); [simpl; lia|].
  rewrite length_fmap, length_seq. pose proof (Z.log2_lt_lin n ltac:(lia)). lia.
Qed.

Lemma bits_data_length n (d key : list Z) :
  (length (bits_data n d key) <= Z.to_nat n * (length d + length key))%nat.
Proof.
  unfold bits_data. pose proof (bits_lsb_length n) as Hl. revert Hl.
  generalize (Z.to_nat n) as k. generalize (bits_lsb n) as l. induction l as [|b l IH]; intros k Hk; [simpl; lia|].
  cbn [fmap list_fmap]. change (mjoin (?x :: ?y)) with (x ++ mjoin y). rewrite length_app.
  destruct k as [|k]; [simpl in Hk; lia|]. cbn [length] in Hk. specialize (IH k ltac:(lia)). destruct b; lia.
Qed.

(** Steps on one of the two contexts, with what follows. *)
Definition yields (p : CM (C * C) (list Z)) (c a : C) (v : list Z) : Prop :=
  ∃ st, p (c, a) = Ok (v, st).

Lemma step_ctx p d k m c a v :
  takes p d → sh_rep m c → Z.of_nat (length m + length d) < sh_max →
  (∀ c', sh_rep (m ++ d) c' → yields (k tt) c' a v) → yields (on_ctx p ≫= k) c a v.
Proof.
  intros Hp Hr Hl Hk. destruct (Hp m c Hr Hl) as (c' & E & Hr').
  unfold yields. rewrite (bind_Ok _ _ _ _ _ (on_ctx_ok _ _ _ _ a E)). by apply Hk.
Qed.

Lemma step_alt p d k m c a v :
  takes p d → sh_rep m a → Z.of_nat (length m + length d) < sh_max →
  (∀ a', sh_rep (m ++ d) a' → yields (k tt) c a' v) → yields (on_alt p ≫= k) c a v.
Proof.
  intros Hp Hr Hl Hk. destruct (Hp m a Hr Hl) as (a' & E & Hr').
  unfold yields. rewrite (bind_Ok _ _ _ _ _ (on_alt_ok _ _ c _ _ E)). by apply Hk.
Qed.

Lemma init_ctx_step k c a v :
  sh_wf c → (∀ c', sh_rep [] c' → yields (k tt) c' a v) → yields (on_ctx sh_init ≫= k) c a v.
Proof.
  intros Hw Hk. destruct (sh_init_ok c Hw) as (c' & E & Hr).
  unfold yields. rewrite (bind_Ok _ _ _ _ _ (on_ctx_ok _ _ _ _ a E)). by apply Hk.
Qed.

Lemma init_alt_step k c a v :
  sh_wf a → (∀ a', sh_rep [] a' → yields (k tt) c a' v) → yields (on_alt sh_init ≫= k) c a v.
Proof.
  intros Hw Hk. destruct (sh_init_ok a Hw) as (a' & E & Hr).
  unfold yields. rewrite (bind_Ok _ _ _ _ _ (on_alt_ok _ _ c _ _ E)). by apply Hk.
Qed.

Lemma final_ctx_step k m c a v :
  sh_rep m c → Z.of_nat (length m) < sh_max →
  (∀ c', sh_wf c' → yields (k (sh_hash m)) c' a v) → yields (on_ctx sh_final ≫= k) c a v.
Proof.
  intros Hr Hl Hk. destruct (sh_final_ok m c Hr Hl) as (c' & E & Hw).
  unfold yields. rewrite (bind_Ok _ _ _ _ _ (on_ctx_ok _ _ _ _ a E)). by apply Hk.
Qed.

Lemma final_alt_step k m c a v :
  sh_rep m a → Z.of_nat (length m) < sh_max →
  (∀ a', sh_wf a' → yields (k (sh_hash m)) c a' v) → yields (on_alt sh_final ≫= k) c a v.
Proof.
  intros Hr Hl Hk. destruct (sh_final_ok m a Hr Hl) as (a' & E & Hw).
  unfold yields. rewrite (bind_Ok _ _ _ _ _ (on_alt_ok _ _ c _ _ E)). by apply Hk.
Qed.

Lemma nth_hash_byte m i : 0 <= nth i (sh_hash m) 0 < 256.
Proof.
  destruct (nth_in_or_default i (sh_hash m) 0) as [Hin| ->]; [|lia].
  pose proof (sh_hash_bytes m) as Hb. rewrite Forall_forall in Hb. by apply Hb, list_elem_of_In.
Qed.

(** The lengths of everything that is hashed. *)
Lemma crypt_lengths (key salt d : list Z) (x : Z) (Q : nat) :
  length d = dsize → (0 < dsize)%nat → 0 <= x < 256 →
  Q = (length key + length salt + dsize + 272)%nat →
  (length key + length salt + length (cycled (length key) d) +
     length (bits_data (Z.of_nat (length key)) d key) <= Q * Q)%nat ∧
  (length (mjoin (replicate (length key) key)) <= Q * Q)%nat ∧
  (length (mjoin (replicate (Z.to_nat (16 + x)) salt)) <= Q * Q)%nat ∧
  (2 * length key + length salt + dsize <= Q * Q)%nat.
Proof.
  intros Hd Hpos Hx HQ. rewrite !mjoin_replicate_length.
  rewrite cycled_length by (intros ->; simpl in Hd; lia).
  pose proof (bits_data_length (Z.of_nat (length key)) d key) as Hb. rewrite Nat2Z.id in Hb.
  assert (Z.to_nat (16 + x) <= 272)%nat by lia. repeat split; nia.
Qed.

Lemma sha_crypt_digest_ok key salt rounds c a (Q : nat) :
  sh_wf c → sh_wf a → (0 < dsize)%nat →
  Q = (length key + length salt + dsize + 272)%nat → Z.of_nat (Q * Q) < sh_max →
  yields (sha_crypt_digest key salt rounds) c a (sha_crypt_spec key salt rounds).
Proof.
  intros Hc Ha Hpos HQ Hmax. unfold sha_crypt_digest, sha_crypt_spec. cbv zeta.
  set (b := sh_hash (key ++ salt ++ key)).
  assert (length b = dsize) as Hb by apply sh_hash_length.
  set (A := sh_hash (key ++ salt ++ _)).
  destruct (crypt_lengths key salt b (nth 0 A 0) Q Hb Hpos (nth_hash_byte _ 0) HQ) as (L1 & L2 & L3 & L4).
  apply init_ctx_step; [done|intros c1 H1].
  eapply step_ctx; [apply takes_update|exact H1|len|clear c1 H1; intros c1 H1].
  eapply step_ctx; [apply takes_update|exact H1|len|clear c1 H1; intros c1 H1].
  apply init_alt_step; [done|intros a1 R1].
  eapply step_alt; [apply takes_update|exact R1|len|clear a1 R1; intros a1 R1].
  eapply step_alt; [apply takes_update|exact R1|len|clear a1 R1; intros a1 R1].
  eapply step_alt; [apply takes_update|exact R1|len|clear a1 R1; intros a1 R1].
  eapply final_alt_step; [exact R1|len|clear a1 R1; intros a1 W1].
  cbn [app] in *. rewrite <- app_assoc. fold b.
  eapply step_ctx; [by apply takes_cycled; [|done|lia]|exact H1|len|clear c1 H1; intros c1 H1].
  eapply step_ctx; [apply takes_bits; lia|exact H1|len|clear c1 H1; intros c1 H1].
  eapply final_ctx_step; [exact H1|len|clear c1 H1; intros c1 V1].
  rewrite <- !app_assoc. fold A.
  apply init_alt_step; [done|clear a1 W1; intros a1 R1].
  eapply step_alt; [apply takes_for; intros; apply takes_update|exact R1|len|clear a1 R1; intros a1 R1].
  eapply final_alt_step; [exact R1|len|clear a1 R1; intros a1 W1].
  apply init_alt_step; [done|clear a1 W1; intros a1 R1].
  eapply step_alt; [apply takes_for; intros; apply takes_update|exact R1|len|clear a1 R1; intros a1 R1].
  eapply final_alt_step; [exact R1|len|clear a1 R1; intros a1 W1]. cbn [app].
  rewrite !cycle_bytes_ok by (apply sh_hash_length || lia).
  assert (∀ n m, length (cycled n (sh_hash m)) = n) as Hcl.
  { intros n m. apply cycled_length. intros E. pose proof (sh_hash_length m) as HH. unfold dsize in *.
    rewrite E in HH. simpl in HH. lia. }
  match goal with |- yields (on_ctx (crypt_rounds ?n ?i ?p ?s ?al)) ?c _ _ =>
    destruct (crypt_rounds_ok n i p s al c V1) as (c7 & E7 & _) end;
    [apply sh_hash_length|rewrite !Hcl; lia|].
  eexists. apply on_ctx_ok, E7.
Qed.
End takes.

(** ** The encoding *)

Lemma b64_digits_room n w out buflen :
  Z.of_nat n <= buflen → b64_digits n w (out, buflen) = (out ++ to64 n w, buflen - Z.of_nat n).
Proof.
  revert w out buflen. induction n as [|n IH]; intros w out buflen Hn; cbn [b64_digits to64].
  { rewrite app_nil_r. f_equal. lia. }
  replace (buflen >? 0) with true by lia. rewrite IH by lia. rewrite <- app_assoc. f_equal. lia.
Qed.

Definition group_word (d : list Z) (g : nat * nat * nat * nat) : Z :=
  let '(i2, i1, i0, _) := g in
  Z.lor (Z.lor (Z.shiftl (nth i2 d 0) 16) (Z.shiftl (nth i1 d 0) 8)) (nth i0 d 0).
Definition b64_encode (groups : list (nat * nat * nat * nat)) (d : list Z) : list Z :=
  mjoin ((λ g, to64 g.2 (group_word d g)) <$> groups).
Definition groups_length (groups : list (nat * nat * nat * nat)) : nat := sum_list (snd <$> groups).

Lemma emit_groups groups d out buflen :
  Z.of_nat (groups_length groups) <= buflen →
  foldl (λ st '(i2, i1, i0, n), b64_from_24bit (nth i2 d 0) (nth i1 d 0) (nth i0 d 0) n st)
    (out, buflen) groups = (out ++ b64_encode groups d, buflen - Z.of_nat (groups_length groups)).
Proof.
  revert out buflen. induction groups as [|[[[i2 i1] i0] n] groups IH]; intros out buflen Hl.
  { change (b64_encode [] d) with (@nil Z). change (groups_length []) with 0%nat.
    rewrite app_nil_r, Z.sub_0_r. done. }
  cbn [foldl]. change (groups_length ((i2, i1, i0, n) :: groups)) with (n + groups_length groups)%nat in *.
  unfold b64_from_24bit. rewrite b64_digits_room by lia. rewrite IH by lia.
  change (b64_encode (_ :: groups) d) with (to64 n (group_word d (i2, i1, i0, n)) ++ b64_encode groups d).
  rewrite <- app_assoc. f_equal. lia.
Qed.

Lemma ltostr_digits_length room i base up out n :
  2 <= base → 0 <= i < base ^ Z.of_nat n →
  (length (ltostr_digits room i base up out) <= n + length out)%nat.
Proof.
  intros Hb. revert i out n. induction room as [|room IH]; intros i out n Hi; cbn [ltostr_digits]; [lia|].
  destruct (Z.eqb_spec i 0); [lia|]. destruct n as [|n].
  { change (base ^ Z.of_nat 0) with 1 in Hi. lia. }
  rewrite Nat2Z.inj_succ, Z.pow_succ_r in Hi by lia.
  etransitivity; [apply (IH _ _ n)|simpl; lia].
  split; [apply Z.div_pos; lia|apply Z.div_lt_upper_bound; lia].
Qed.

Lemma parse_salt_bounds prefix salt s rounds custom :
  parse_salt prefix salt = (s, rounds, custom) →
  (length s <= 16)%nat ∧ (length s <= length salt)%nat ∧ 1000 <= rounds <= 999999999.
Proof.
  assert (∀ l, (length (dollar_span l) <= length l)%nat) as Hd.
  { induction l as [|c l IH]; [done|]. simpl. case_match; simpl; lia. }
  unfold parse_salt. set (salt1 := if has_prefix prefix salt then _ else salt).
  assert (length salt1 <= length salt)%nat as H1.
  { unfold salt1. case_match; [rewrite length_drop; lia|done]. }
  clearbody salt1.
  assert (∀ l r b, (length l <= length salt1)%nat → 1000 <= r <= 999999999 →
    (take (Z.to_nat SALT_LEN_MAX) (dollar_span l), r, b) = (s, rounds, custom) →
    (length s <= 16)%nat ∧ (length s <= length salt)%nat ∧ 1000 <= rounds <= 999999999) as Hfin.
  { intros l r b Hl Hr [= <- <- <-]. specialize (Hd l). rewrite length_take. unfold SALT_LEN_MAX.
    change (Z.to_nat 16) with 16%nat. lia. }
  destruct (has_prefix _ salt1); [|apply Hfin; unfold ROUNDS_DEFAULT; lia].
  pose proof (strtoul_endptr (drop 7 salt1) 10 0) as He.
  destruct (endptr _) as [e|]; [|apply Hfin; unfold ROUNDS_DEFAULT; lia].
  specialize (He e eq_refl). rewrite length_drop in He.
  destruct (peek e 0 =? _); apply Hfin; unfold ROUNDS_DEFAULT, ROUNDS_MIN, ROUNDS_MAX; try lia.
  destruct e; simpl in *; lia.
Qed.

(** The result string with enough room: prefix, rounds, salt, digest. *)
Definition crypt_result (prefix salt : list Z) (rounds : Z) (custom : bool)
    (groups : list (nat * nat * nat * nat)) (d : list Z) : list Z :=
  prefix ++ (if custom then STR "rounds=" ++ ltostr_digits 20 rounds 10 false [] ++ [CH "$"] else []) ++
  salt ++ [CH "$"] ++ b64_encode groups d.

Lemma crypt_string_room prefix salt rounds custom groups d buflen :
  0 <= rounds <= 999999999 →
  Z.of_nat (length prefix + 17 + length salt + 1 + groups_length groups) < buflen →
  crypt_string prefix salt rounds custom groups d buflen =
  Some (crypt_result prefix salt rounds custom groups d).
Proof.
  intros Hr Hb. unfold crypt_string, crypt_result.
  pose proof (ltostr_digits_length 20 rounds 10 false [] 9 ltac:(lia) ltac:(lia)) as Hd.
  set (s := STR "rounds=" ++ ltostr_digits 20 rounds 10 false [] ++ [CH "$"]).
  assert (length s <= 17)%nat as Hs.
  { unfold s. rewrite !length_app. simpl in *. lia. }
  rewrite take_ge by lia. clearbody s. clear Hd.
  assert (∀ out b, Z.of_nat (length salt + 1 + groups_length groups) < b →
    (let n := Z.min (Z.max 0 b) (Z.of_nat (length salt)) in
     let '(out, b) := (out ++ take (Z.to_nat n) salt, b - n) in
     let '(out, b) := if b >? 0 then (out ++ [CH "$"], b - 1) else (out, b) in
     let '(out, b) := foldl (λ st '(i2, i1, i0, n),
         b64_from_24bit (nth i2 d 0) (nth i1 d 0) (nth i0 d 0) n st) (out, b) groups in
     if b <=? 0 then None else Some out) = Some (out ++ salt ++ [CH "$"] ++ b64_encode groups d)) as Htail.
  { intros out b Hlt. cbv zeta. rewrite Z.max_r, Z.min_r, take_ge by lia.
    replace (_ >? 0) with true by lia. rewrite emit_groups by lia.
    replace (_ <=? 0) with false by lia. by rewrite <- !app_assoc. }
  destruct custom.
  - rewrite Htail by lia. by rewrite <- app_assoc.
  - by rewrite Htail by lia.
Qed.

(** A byte is recovered from the number its group makes. *)
Lemma group_word_bytes d i2 i1 i0 n :
  Forall byte d → let w := group_word d (i2, i1, i0, n) in
  0 <= w < 2 ^ 24 ∧ u8 (Z.shiftr w 16) = nth i2 d 0 ∧ u8 (Z.shiftr w 8) = nth i1 d 0 ∧ u8 w = nth i0 d 0.
Proof.
  intros Hd. assert (∀ i, byte (nth i d 0)) as Hb.
  { intros i. destruct (nth_in_or_default i d 0) as [Hin| ->]; [|unfold byte; lia].
    rewrite Forall_forall in Hd. by apply Hd, list_elem_of_In. }
  unfold group_word. cbv zeta.
  pose proof (Hb i2) as H2. pose proof (Hb i1) as H1. pose proof (Hb i0) as H0.
  set (x := nth i2 d 0) in *. set (y := nth i1 d 0) in *. set (z := nth i0 d 0) in *.
  clearbody x y z. unfold byte in *.
  assert (Z.lor (Z.lor (Z.shiftl x 16) (Z.shiftl y 8)) z = x * 65536 + y * 256 + z) as ->.
  { assert (∀ a k b, 0 <= k → 0 <= b < 2 ^ k → Z.lor (Z.shiftl a k) b = a * 2 ^ k + b) as Hor.
    { intros a k b Hk Hb'. rewrite Z.shiftl_mul_pow2 by lia. pose proof (Z.add_lor_land (a * 2 ^ k) b).
      enough (Z.land (a * 2 ^ k) b = 0) by lia. apply Z.bits_inj'. intros i Hi.
      rewrite Z.land_spec, Z.bits_0. destruct (decide (i < k)).
      - by rewrite Z.mul_pow2_bits_low.
      - rewrite (testbit_high b k i) by lia. apply andb_false_r. }
    replace (Z.lor (Z.shiftl x 16) (Z.shiftl y 8)) with (Z.shiftl (Z.lor (Z.shiftl x 8) y) 8)
      by (rewrite Z.shiftl_lor, Z.shiftl_shiftl by lia; done).
    rewrite !Hor by lia. lia. }
  rewrite !Z.shiftr_div_pow2, !u8_mod by lia. change (2 ^ 16) with 65536. change (2 ^ 8) with 256.
  change (2 ^ 24) with 16777216. repeat split; try lia; Z.div_mod_to_equations; lia.
Qed.

(** The position of a digit, and digits back to a number. *)
Definition b64_index (c : Z) : Z :=
  match list_find (λ x, x = c) b64t with Some (i, _) => Z.of_nat i | None => 0 end.
Fixpoint from64 (l : list Z) : Z :=
  match l with [] => 0 | c :: l => b64_index c + 64 * from64 l end.

Lemma b64_index_nth k : 0 <= k < 64 → b64_index (nth (Z.to_nat k) b64t 0) = k.
Proof.
  intros Hk. assert (forallb (λ k, b64_index (nth (Z.to_nat k) b64t 0) =? k) (seqZ 0 64) = true) as Hall
    by (vm_compute; reflexivity).
  rewrite forallb_forall in Hall. apply Z.eqb_eq, Hall, list_elem_of_In, elem_of_seqZ. lia.
Qed.

Lemma from64_to64 n v : 0 <= v < 64 ^ Z.of_nat n → from64 (to64 n v) = v.
Proof.
  revert v. induction n as [|n IH]; intros v Hv.
  { change (64 ^ Z.of_nat 0) with 1 in Hv. simpl. lia. }
  rewrite Nat2Z.inj_succ, Z.pow_succ_r in Hv by lia. cbn [to64 from64].
  change 63 with (Z.ones 6). rewrite Z.land_ones, Z.shiftr_div_pow2 by lia. change (2 ^ 6) with 64.
  pose proof (Z.mod_pos_bound v 64 ltac:(lia)). pose proof (Z.div_mod v 64 ltac:(lia)).
  rewrite b64_index_nth, IH; [lia| |lia]. split; [apply Z.div_pos; lia|apply Z.div_lt_upper_bound; lia].
Qed.

Lemma to64_length n v : length (to64 n v) = n.
Proof. revert v. induction n as [|n IH]; intros v; simpl; auto. Qed.

(** A group has enough digits for the bytes of a digest of [len] bytes, and
    every byte is in a group. *)
Definition group_fits (len : nat) (g : nat * nat * nat * nat) : bool :=
  let '(i2, i1, _, n) := g in
  (n =? 4)%nat || ((n =? 3)%nat && (len <=? i2)%nat) || ((n =? 2)%nat && (len <=? i2)%nat && (len <=? i1)%nat).
Definition covers (len : nat) (groups : list (nat * nat * nat * nat)) : bool :=
  forallb (λ i, existsb (λ '(i2, i1, i0, _), (i =? i2)%nat || (i =? i1)%nat || (i =? i0)%nat) groups)
    (seq 0 len).

Lemma group_word_fits len d g :
  Forall byte d → length d = len → group_fits len g = true → 0 <= group_word d g < 64 ^ Z.of_nat g.2.
Proof.
  intros Hd Hl Hg. destruct g as [[[i2 i1] i0] n]. cbn [snd].
  destruct (group_word_bytes d i2 i1 i0 n Hd) as (Hw & H2 & H1 & H0).
  set (w := group_word d (i2, i1, i0, n)) in *. clearbody w. change (2 ^ 24) with 16777216 in Hw.
  rewrite Z.shiftr_div_pow2, u8_mod in H2, H1 by lia.
  change (2 ^ 16) with 65536 in *. change (2 ^ 8) with 256 in *.
  unfold group_fits in Hg. apply orb_true_iff in Hg as [Hg|Hg]; [apply orb_true_iff in Hg as [Hg|Hg]|].
  - apply Nat.eqb_eq in Hg as ->. done.
  - apply andb_true_iff in Hg as [Hn%Nat.eqb_eq Hi%Nat.leb_le]. subst n.
    rewrite nth_overflow in H2 by lia. change (64 ^ Z.of_nat 3) with 262144.
    Z.div_mod_to_equations. lia.
  - apply andb_true_iff in Hg as [[Hn%Nat.eqb_eq Hi%Nat.leb_le]%andb_true_iff Hj%Nat.leb_le]. subst n.
    rewrite nth_overflow in H2 by lia. rewrite nth_overflow in H1 by lia.
    change (64 ^ Z.of_nat 2) with 4096. Z.div_mod_to_equations. lia.
Qed.

Lemma encode_words len groups d d' :
  Forall byte d → Forall byte d' → length d = len → length d' = len →
  forallb (group_fits len) groups = true → b64_encode groups d = b64_encode groups d' →
  Forall (λ g, group_word d g = group_word d' g) groups.
Proof.
  intros Hd Hd' Hl Hl'. induction groups as [|g groups IH]; intros Hf E; [done|].
  cbn [forallb] in Hf. apply andb_true_iff in Hf as [Hg Hf].
  change (b64_encode (g :: groups) d) with (to64 g.2 (group_word d g) ++ b64_encode groups d) in E.
  change (b64_encode (g :: groups) d') with (to64 g.2 (group_word d' g) ++ b64_encode groups d') in E.
  apply app_inj_1 in E as [E1 E2]; [|by rewrite !to64_length].
  constructor; [|by apply IH]. apply (f_equal from64) in E1.
  by rewrite !from64_to64 in E1 by (by apply (group_word_fits len)).
Qed.

Lemma encode_inj len groups d d' :
  forallb (group_fits len) groups = true → covers len groups = true →
  Forall byte d → Forall byte d' → length d = len → length d' = len →
  b64_encode groups d = b64_encode groups d' → d = d'.
Proof.
  intros Hf Hc Hd Hd' Hl Hl' E. pose proof (encode_words len groups d d' Hd Hd' Hl Hl' Hf E) as Hw.
  apply (nth_ext _ _ 0 0); [congruence|]. intros i Hi.
  unfold covers in Hc. rewrite forallb_forall in Hc. specialize (Hc i). rewrite in_seq in Hc.
  specialize (Hc ltac:(lia)). apply existsb_exists in Hc as ([[[i2 i1] i0] n] & Hin & Hix).
  rewrite Forall_forall in Hw. specialize (Hw _ (proj2 (list_elem_of_In _ _) Hin)).
  destruct (group_word_bytes d i2 i1 i0 n Hd) as (_ & H2 & H1 & H0).
  destruct (group_word_bytes d' i2 i1 i0 n Hd') as (_ & H2' & H1' & H0').
  rewrite Hw in H2, H1, H0.
  apply orb_true_iff in Hix as [[Hix|Hix]%orb_true_iff|Hix]; apply Nat.eqb_eq in Hix as ->; congruence.
Qed.

(** The base-64 text of a result string determines the digest: the groups of
    [sha256_crypt_r] and [sha512_crypt_r] encode every byte of it. *)
Theorem sha_crypt_encoding_injective d d' :
  Forall byte d → Forall byte d' →
  (length d = 32%nat → length d' = 32%nat →
    b64_encode sha256_groups d = b64_encode sha256_groups d' → d = d') ∧
  (length d = 64%nat → length d' = 64%nat →
    b64_encode sha512_groups d = b64_encode sha512_groups d' → d = d').
Proof.
  intros Hd Hd'. split; intros Hl Hl'.
  - apply (encode_inj 32); [vm_compute; reflexivity|vm_compute; reflexivity|done..].
  - apply (encode_inj 64); [vm_compute; reflexivity|vm_compute; reflexivity|done..].
Qed.

Lemma sha_crypt_encoding_injective_witness : replicate 32 7 = replicate 32 7.
Proof.
  assert (Forall byte (replicate 32 7)) as Hb by (apply Forall_replicate; unfold byte; lia).
  apply (proj1 (sha_crypt_encoding_injective (replicate 32 7) (replicate 32 7) Hb Hb)); reflexivity.
Defined.

(** ** The functions *)

Lemma square_bound (Q : nat) (n : Z) : Z.of_nat Q <= n → ∀ m, n * n < m → Z.of_nat (Q * Q) < m.
Proof. intros H m Hm. rewrite Nat2Z.inj_mul. nia. Qed.



(** ** [md5crypt] *)

Lemma takes_md5_cycled fuel pl final :
  length final = 16%nat → pl < Z.of_nat fuel → (0 < fuel)%nat →
  takes (md5_cycled fuel pl final) (cycled (Z.to_nat pl) final).
Proof.
  intros Hl. revert pl. induction fuel as [|fuel IH]; intros pl Hf H0; [lia|].
  cbn [md5_cycled]. destruct (Z.gtb_spec pl 0) as [Hp|Hz].
  - destruct (Z.gtb_spec pl 16) as [Hb|Hb].
    + rewrite (cycled_more (Z.to_nat pl)) by lia. rewrite take_ge by (rewrite Hl; lia).
      apply (takes_bind (H := md5_stream)); [apply (takes_update (H := md5_stream))|].
      replace (Z.to_nat pl - length final)%nat with (Z.to_nat (pl - 16)) by lia. apply IH; lia.
    + assert (cycled (Z.to_nat pl) final =
              take (Z.to_nat pl) final ++ cycled (Z.to_nat (pl - 16)) final) as ->.
      { replace (Z.to_nat (pl - 16)) with 0%nat by lia. rewrite cycled_less by lia.
        symmetry. apply app_nil_r. }
      apply (takes_bind (H := md5_stream)); [apply (takes_update (H := md5_stream))|apply IH; lia].
  - replace (Z.to_nat pl) with 0%nat by lia. apply (takes_ret (H := md5_stream)).
Qed.

Lemma takes_md5_bits fuel i pw :
  0 <= i < Z.of_nat fuel → takes (md5_bits fuel i pw) (bits_data i [0] (take 1 pw)).
Proof.
  revert i. induction fuel as [|fuel IH]; intros i Hf; [lia|]. cbn [md5_bits].
  destruct (Z.eqb_spec i 0) as [->|Hne]; cbn [negb]; [apply (takes_ret (H := md5_stream))|].
  unfold bits_data. rewrite bits_lsb_step by lia. cbn [fmap list_fmap].
  change (mjoin (?x :: ?y)) with (x ++ mjoin y). apply (takes_bind (H := md5_stream)).
  - apply (takes_if (H := md5_stream)); apply (takes_update (H := md5_stream)).
  - apply IH. rewrite Z.shiftr_div_pow2 by lia. change (2 ^ 1) with 2. Z.div_mod_to_equations. lia.
Qed.

Lemma md5_rounds_ok n i pw sp final c :
  sh_wf c → length final = 16%nat → Z.of_nat (2 * length pw + length sp + 16) < 2 ^ 29 →
  ∃ c', md5_rounds n i pw sp final c = Ok (rounds_spec (H := md5_stream) n i pw sp final, c') ∧ sh_wf c'.
Proof.
  intros Hc Ha Hl. revert i final c Hc Ha. induction n as [|n IH]; intros i final c Hc Ha; [by exists c|].
  cbn [md5_rounds rounds_spec].
  destruct (crypt_round_ok (H := md5_stream) pw sp i final c Hc) as (c1 & E1 & Hc1).
  { change (sh_max (StreamHash := md5_stream)) with (2 ^ 29). lia. }
  assert (md5_round pw sp i final c = Ok (sh_hash (round_data pw sp i final), c1)) as E.
  { rewrite <- E1. unfold md5_round. by rewrite take_ge by lia. }
  rewrite (bind_Ok _ _ _ _ _ E). apply IH; [done|apply (sh_hash_length (StreamHash := md5_stream))].
Qed.

(** The MD5-crypt algorithm on whole strings. *)
Definition md5crypt_spec (pw sp : list Z) : list Z :=
  let b := md5 (pw ++ sp ++ pw) in
  let a := md5 (pw ++ STR "$1$" ++ sp ++ cycled (length pw) b ++
                bits_data (Z.of_nat (length pw)) [0] (take 1 pw)) in
  rounds_spec (H := md5_stream) 1000 0 pw sp a.

Lemma md5crypt_digest_ok pw sp c a :
  length (md5_buffer c) = 64%nat → length (md5_buffer a) = 64%nat →
  Z.of_nat (length pw) <= 1000000 → (length sp <= 8)%nat →
  yields (C := MD5_CTX) (md5crypt_digest pw sp) c a (md5crypt_spec pw sp).
Proof.
  intros Hc Ha Hpw Hsp. unfold md5crypt_digest, md5crypt_spec. cbv zeta.
  set (b := md5 (pw ++ sp ++ pw)). set (A := md5 (pw ++ _)).
  assert (length b = 16%nat) as Hb by apply md5_digest_length.
  pose proof (cycled_length (length pw) b ltac:(by intros E; rewrite E in Hb)) as Hcy.
  assert (length (bits_data (Z.of_nat (length pw)) [0%Z] (take 1 pw)) <= 2 * length pw)%nat as Hbits.
  { etransitivity; [apply bits_data_length|]. rewrite Nat2Z.id, length_take. cbn [length]. nia. }
  assert (sh_max (StreamHash := md5_stream) = 536870912) as Hmax by done.
  apply (init_ctx_step (H := md5_stream)); [done|intros c1 H1].
  eapply (step_ctx (H := md5_stream)); [apply (takes_update (H := md5_stream))|exact H1|rewrite Hmax; len|clear c1 H1; intros c1 H1].
  eapply (step_ctx (H := md5_stream)); [apply (takes_update (H := md5_stream))|exact H1|rewrite Hmax; len|clear c1 H1; intros c1 H1].
  eapply (step_ctx (H := md5_stream)); [apply (takes_update (H := md5_stream))|exact H1|rewrite Hmax; len|clear c1 H1; intros c1 H1].
  apply (init_alt_step (H := md5_stream)); [done|intros a1 R1].
  eapply (step_alt (H := md5_stream)); [apply (takes_update (H := md5_stream))|exact R1|rewrite Hmax; len|clear a1 R1; intros a1 R1].
  eapply (step_alt (H := md5_stream)); [apply (takes_update (H := md5_stream))|exact R1|rewrite Hmax; len|clear a1 R1; intros a1 R1].
  eapply (step_alt (H := md5_stream)); [apply (takes_update (H := md5_stream))|exact R1|rewrite Hmax; len|clear a1 R1; intros a1 R1].
  eapply (final_alt_step (H := md5_stream)); [exact R1|rewrite Hmax; len|clear a1 R1; intros a1 W1].
  cbn [app] in *. rewrite <- app_assoc. change (sh_hash (pw ++ sp ++ pw)) with b.
  eapply (step_ctx (H := md5_stream)); [by apply takes_md5_cycled; [|lia|lia]|exact H1|rewrite Hmax, Nat2Z.id; len|clear c1 H1; intros c1 H1].
  eapply (step_ctx (H := md5_stream)); [apply takes_md5_bits; lia|exact H1|rewrite Hmax, Nat2Z.id; len|clear c1 H1; intros c1 H1].
  eapply (final_ctx_step (H := md5_stream)); [exact H1|rewrite Hmax, Nat2Z.id; len|clear c1 H1; intros c1 V1].
  rewrite Nat2Z.id, <- !app_assoc. cbn [app]. change (sh_hash (pw ++ _)) with A.
  destruct (md5_rounds_ok 1000 0 pw sp A a1 W1) as (a2 & E2 & _); [apply md5_digest_length|lia|].
  eexists. apply on_alt_ok, E2.
Qed.


