(* ===== verification/Wide.v ===== *)
(** * Wide characters and multibyte strings

    [lib/mb*.c], [lib/wc*.c], [lib/isw*.c], [lib/tow*.c], [lib/btowc.c] and
    [libugly/wmem*.c].  A pointer into an array is the list of the elements from it
    to the end of the array (the terminator and whatever follows it included); an
    access past the end of the list is a [Fault].  [wchar_t] is a 32-bit [int],
    the multibyte state is passed explicitly. *)

From S2P Require Import Prelude Ctype HashStream.

(** ** Multibyte characters *)

(** [lc_ctype] *)
Inductive encoding : Type := CT_8BIT | CT_UTF8.

(** [mbstate_t] *)
Record mbstate : Type := mk_mbstate { mb_count : Z; sofar : Z }.
Definition initial_state : mbstate := mk_mbstate 0 0.

Definition EILSEQ : Z := 84.
Definition SIZE_MAX : Z := 0xffffffffffffffff.
Definition MB_CUR_MAX : Z := 5.

(** What [mbrtowc] returns, stores through [pwc] (if it stores) and in [errno]
    (if it sets it), and the new state. *)
Record mb_result : Type := mk_mb { mb_ret : Z; mb_wc : option Z; mb_state : mbstate; mb_errno : option Z }.

(** [while (x&0x80) { x<<=1; ++cnt; }] on an [unsigned char] *)
Fixpoint lead_count (fuel : nat) (x cnt : Z) : Z * Z :=
  match fuel with
  | O => (x, cnt)
  | S fuel => if negb (Z.land x 0x80 =? 0) then lead_count fuel (u8 (Z.shiftl x 1)) (cnt + 1) else (x, cnt)
  end.

(** [kaputt:] *)
Definition mb_bad (ps : mbstate) : mb_result := mk_mb SIZE_MAX None (mk_mbstate 0 (sofar ps)) (Some EILSEQ).
(** [complete:], with the count and the character *)
Definition mb_complete (i count wc : Z) : mb_result :=
  if negb (wc =? 0) then mk_mb (i + 1) (Some wc) (mk_mbstate count 0) None
  else mk_mb 0 (Some wc) initial_state None.

(** The loop of [mbrtowc] from index [i] on. *)
Fixpoint mbrtowc_loop (lc : encoding) (s : list Z) (i n : Z) (ps : mbstate) : outcome mb_result :=
  if i >=? n then Ok (mk_mb n None ps None) else
  match s with
  | [] => Fault
  | c :: rest =>
      match lc with
      | CT_8BIT => Ok (mk_mb (b2z (negb (c =? 0))) (Some c) ps None)
      | CT_UTF8 =>
          if negb (mb_count ps =? 0) then
            if negb (Z.land c 0xc0 =? 0x80) then Ok (mb_bad ps) else
            let wc := s32 (Z.shiftl (sofar ps) 6 + Z.land c 0x3f) in
            let count := mb_count ps - 1 in
            if count =? 0 then Ok (mb_complete i count wc)
            else mbrtowc_loop lc rest (i + 1) n (mk_mbstate count wc)
          else if negb (Z.land c 0x80 =? 0) then
            let '(x, cnt) := lead_count 8 (u8 (Z.shiftl c 1)) 0 in
            if (cnt =? 0) || (cnt >? 5) then Ok (mb_bad ps) else
            mbrtowc_loop lc rest (i + 1) n (mk_mbstate cnt (Z.shiftr x (cnt + 1)))
          else Ok (mb_complete i 0 c)
      end
  end.

(** [s] is [None] for a null pointer. *)
Definition mbrtowc (lc : encoding) (s : option (list Z)) (n : Z) (ps : mbstate) : outcome mb_result :=
  match s with
  | None =>
      if negb (mb_count ps =? 0) then Ok (mk_mb SIZE_MAX None ps (Some EILSEQ))
      else Ok (mk_mb 0 None initial_state None)
  | Some s => mbrtowc_loop lc s 0 n ps
  end.

Definition mbrlen (lc : encoding) (s : option (list Z)) (n : Z) (ps : mbstate) : outcome mb_result :=
  mbrtowc lc s n ps.
(** [mbtowc] and [mblen] return an [int]. *)
Definition mb_int (r : outcome mb_result) : outcome mb_result :=
  match r with
  | Ok r => Ok (mk_mb (s32 (mb_ret r)) (mb_wc r) (mb_state r) (mb_errno r))
  | Fault => Fault
  | Hang => Hang
  end.
Definition mbtowc (lc : encoding) (s : option (list Z)) (n : Z) (internal : mbstate) : outcome mb_result :=
  mb_int (mbrtowc lc s n internal).
Definition mblen (lc : encoding) (s : option (list Z)) (n : Z) (internal : mbstate) : outcome mb_result :=
  mb_int (mbrlen lc s n internal).

Definition mbsinit (s : option mbstate) : bool :=
  match s with None => true | Some s => negb (sofar s =? 0) end.

(** [for (k=1; k<j; ++k) { bits-=6; s[k]=0x80+((wc>>bits)&0x3f); }] *)
Fixpoint wcrtomb_tail (k : nat) (wc bits : Z) : list Z :=
  match k with
  | O => []
  | S k => let bits := bits - 6 in u8 (0x80 + Z.land (Z.shiftr wc bits) 0x3f) :: wcrtomb_tail k wc bits
  end.

(** The bytes that [wcrtomb] writes through a non-null [s]; their number is returned. *)
Definition wcrtomb_bytes (lc : encoding) (wc : Z) : list Z :=
  match lc with
  | CT_8BIT => [u8 wc]
  | CT_UTF8 =>
      let multi bits c j := u8 (Z.lor c (u8 (Z.shiftr wc bits))) :: wcrtomb_tail (j - 1) wc bits in
      if wc >=? 0x04000000 then multi 30 0xFC 6%nat
      else if wc >=? 0x00200000 then multi 24 0xF8 5%nat
      else if wc >=? 0x00010000 then multi 18 0xF0 4%nat
      else if wc >=? 0x00000800 then multi 12 0xE0 3%nat
      else if wc >=? 0x00000080 then multi 6 0xC0 2%nat
      else [u8 wc]
  end.

(** The value for a null [s]. *)
Definition wcrtomb_null (lc : encoding) (wc : Z) : Z :=
  match lc with CT_8BIT => 0 | CT_UTF8 => b2z (wc >=? 0x80) end.

(** [wcrtomb (&dest[at], wc, ps)]: the return value and the array. *)
Definition wcrtomb (lc : encoding) (dest : option (list Z)) (at_ : Z) (wc : Z) : outcome (Z * option (list Z)) :=
  match dest with
  | None => Ok (wcrtomb_null lc wc, None)
  | Some d =>
      let bytes := wcrtomb_bytes lc wc in
      match buf_copy d at_ bytes with
      | Some d' => Ok (Z.of_nat (length bytes), Some d')
      | None => Fault
      end
  end.
Definition wctomb := wcrtomb.

Definition EOF : Z := -1.
Definition WEOF : Z := 0xffffffff.
Definition btowc (lc : encoding) (c : Z) : Z :=
  if c =? 0 then 0 else if c =? EOF then WEOF else
  match lc with
  | CT_8BIT => if c >? 0xff then WEOF else 1
  | CT_UTF8 => if c >? 0x7f then WEOF else 1
  end.

(** [mbsrtowcs]: the characters stored so far (for a null [dest] nothing is
    stored, but they are counted the same way), the rest of [*src], the state. *)
Fixpoint mbsrtowcs_loop (fuel : nat) (lc : encoding) (src : list Z) (i len : Z) (ps : mbstate)
    (out : list Z) : outcome (Z * list Z * list Z * mbstate) :=
  match fuel with
  | O => Hang
  | S fuel =>
      if i >=? len then Ok (i, out, src, ps) else
      match mbrtowc lc (Some src) len ps with
      | Ok r =>
          if mb_ret r =? SIZE_MAX then Ok (SIZE_MAX, out, src, mb_state r) else
          let out := match mb_wc r with Some wc => out ++ [wc] | None => out end in
          if mb_ret r =? 0 then Ok (i, out, src, mb_state r) else
          if Z.of_nat (length src) <? mb_ret r then Fault else
          mbsrtowcs_loop fuel lc (drop (Z.to_nat (mb_ret r)) src) (i + 1) len (mb_state r) out
      | Fault => Fault
      | Hang => Hang
      end
  end.
Definition mbsrtowcs (lc : encoding) (has_dest : bool) (src : list Z) (len : Z) (ps : mbstate) :=
  let len := if has_dest then len else SIZE_MAX in
  mbsrtowcs_loop (S (length src)) lc src 0 len ps [].
Definition mbstowcs := mbsrtowcs.

(** [wcsrtombs]: the return value, the array [dest] and what [*src] points to
    afterwards; the local [buf] has [MB_CUR_MAX] bytes. *)
Fixpoint wcsrtombs_loop (lc : encoding) (src : list Z) (dest : option (list Z)) (len cur : Z) :
    outcome (Z * option (list Z) * list Z) :=
  match src with
  | [] => Fault
  | c :: rest =>
      if c =? 0 then
        match dest with
        | Some d =>
            if len >? cur then
              match buf_copy d cur [0] with Some d' => Ok (cur, Some d', src) | None => Fault end
            else Ok (cur, dest, src)
        | None => Ok (cur, None, src)
        end
      else if u64 (len - cur) >=? MB_CUR_MAX then
        match wcrtomb lc dest cur c with
        | Ok (n, dest) => wcsrtombs_loop lc rest dest len (cur + n)
        | Fault => Fault
        | Hang => Hang
        end
      else
        let bytes := wcrtomb_bytes lc c in
        let n := Z.of_nat (length bytes) in
        if n >? MB_CUR_MAX then Fault else
        match dest with
        | Some d =>
            if len <? n then Ok (cur, dest, src) else
            match buf_copy d cur bytes with
            | Some d' => wcsrtombs_loop lc rest (Some d') len (cur + n)
            | None => Fault
            end
        | None => wcsrtombs_loop lc rest dest len (cur + n)
        end
  end.
Definition wcsrtombs (lc : encoding) (dest : option (list Z)) (src : list Z) (len : Z) :=
  wcsrtombs_loop lc src dest (match dest with None => SIZE_MAX | Some _ => len end) 0.
(** [src] is a copy here, the caller does not see how far it has been read. *)
Definition wcstombs (lc : encoding) (dest : option (list Z)) (src : list Z) (len : Z) :
    outcome (Z * option (list Z)) :=
  match wcsrtombs lc dest src len with
  | Ok (n, dest, _) => Ok (n, dest)
  | Fault => Fault
  | Hang => Hang
  end.

(** ** Wide strings *)

Fixpoint wcslen (s : list Z) : outcome Z :=
  match s with
  | [] => Fault
  | c :: s => if c =? 0 then Ok 0 else match wcslen s with Ok n => Ok (n + 1) | Fault => Fault | Hang => Hang end
  end.

(** [for (; ( *dest= *src); ++src,++dest);]: the array [dest] afterwards. *)
Fixpoint wcscpy (dest src : list Z) : outcome (list Z) :=
  match dest, src with
  | _ :: dest, c :: src =>
      if c =? 0 then Ok (0 :: dest)
      else match wcscpy dest src with Ok l => Ok (c :: l) | Fault => Fault | Hang => Hang end
  | _, _ => Fault
  end.

Fixpoint wcscat (dest src : list Z) : outcome (list Z) :=
  match dest with
  | [] => Fault
  | c :: rest =>
      if c =? 0 then wcscpy dest src
      else match wcscat rest src with Ok l => Ok (c :: l) | Fault => Fault | Hang => Hang end
  end.

(** The index of the found element, [None] for a null pointer. *)
Fixpoint wcschr_from (i : Z) (wcs : list Z) (wc : Z) : outcome (option Z) :=
  match wcs with
  | [] => Fault
  | c :: wcs => if c =? 0 then Ok None else if c =? wc then Ok (Some i) else wcschr_from (i + 1) wcs wc
  end.
Definition wcschr := wcschr_from 0.

Fixpoint wcsrchr_from (i : Z) (last : option Z) (wcs : list Z) (wc : Z) : outcome (option Z) :=
  match wcs with
  | [] => Fault
  | c :: wcs =>
      if c =? 0 then Ok last
      else wcsrchr_from (i + 1) (if c =? wc then Some i else last) wcs wc
  end.
Definition wcsrchr := wcsrchr_from 0 None.

Fixpoint wcscmp (a b : list Z) : outcome Z :=
  match a, b with
  | x :: a, y :: b => if negb (x =? 0) && (x =? y) then wcscmp a b else Ok (s32 (x - y))
  | _, _ => Fault
  end.

(** [for (i=0; i<n && s1[i]==s2[i]; ++i); return s1[i]-s2[i];] *)
Fixpoint wcsncmp_loop (s1 s2 : list Z) (i n : Z) : outcome Z :=
  match s1, s2 with
  | x :: r1, y :: r2 => if (i <? n) && (x =? y) then wcsncmp_loop r1 r2 (i + 1) n else Ok (s32 (x - y))
  | _, _ => Fault
  end.
Definition wcsncmp (s1 s2 : list Z) (n : Z) : outcome Z := wcsncmp_loop s1 s2 0 n.

(** [for (j=0; haystack[i+j]==needle[j]; ++j);] and the element of [needle] it stops at *)
Fixpoint wcsstr_match (haystack needle : list Z) : outcome Z :=
  match haystack, needle with
  | x :: haystack, y :: needle => if x =? y then wcsstr_match haystack needle else Ok y
  | _, _ => Fault
  end.
Fixpoint wcsstr_from (i : Z) (haystack needle : list Z) : outcome (option Z) :=
  match haystack with
  | [] => Fault
  | c :: rest =>
      if c =? 0 then Ok None else
      match wcsstr_match haystack needle with
      | Ok y => if y =? 0 then Ok (Some i) else wcsstr_from (i + 1) rest needle
      | Fault => Fault
      | Hang => Hang
      end
  end.
Definition wcsstr := wcsstr_from 0.

Fixpoint wcsspn (s c : list Z) : outcome Z :=
  match s with
  | [] => Fault
  | x :: rest =>
      if x =? 0 then Ok 0 else
      match wcschr c x with
      | Ok (Some _) => match wcsspn rest c with Ok n => Ok (n + 1) | Fault => Fault | Hang => Hang end
      | Ok None => Ok 0
      | Fault => Fault
      | Hang => Hang
      end
  end.

Fixpoint wcscspn_loop (s c : list Z) : outcome Z :=
  match s with
  | [] => Fault
  | x :: rest =>
      if x =? 0 then Ok 0 else
      match wcschr c x with
      | Ok None => match wcscspn_loop rest c with Ok n => Ok (n + 1) | Fault => Fault | Hang => Hang end
      | Ok (Some _) => Ok 0
      | Fault => Fault
      | Hang => Hang
      end
  end.
Definition wcscspn (s c : list Z) : outcome Z :=
  match c with
  | [] => Fault
  | c0 :: r =>
      if c0 =? 0 then wcslen s else
      match r with
      | [] => Fault
      | c1 :: _ =>
          if c1 =? 0 then
            match wcschr s c0 with
            | Ok (Some i) => Ok i
            | Ok None => wcslen s
            | Fault => Fault
            | Hang => Hang
            end
          else wcscspn_loop s c
      end
  end.

(** The array [dest] after [wcsncpy]. *)
Fixpoint wcsncpy (dest src : list Z) (n : nat) : outcome (list Z) :=
  match n with
  | O => Ok dest
  | S n =>
      match dest, src with
      | _ :: dest, c :: src =>
          if c =? 0 then
            if (n <=? length dest)%nat then Ok (0 :: replicate n 0 ++ drop n dest) else Fault
          else match wcsncpy dest src n with Ok l => Ok (c :: l) | Fault => Fault | Hang => Hang end
      | _, _ => Fault
      end
  end.

(** [for (i=0; i<n && src[i]; ++i) dest[i]=src[i]; dest[i]=0;] *)
Fixpoint wcsncat_tail (dest src : list Z) (n : nat) : outcome (list Z) :=
  match dest with
  | [] => Fault
  | _ :: dest =>
      match n with
      | O => Ok (0 :: dest)
      | S n =>
          match src with
          | [] => Fault
          | c :: src =>
              if c =? 0 then Ok (0 :: dest)
              else match wcsncat_tail dest src n with Ok l => Ok (c :: l) | Fault => Fault | Hang => Hang end
          end
      end
  end.
Fixpoint wcsncat (dest src : list Z) (n : nat) : outcome (list Z) :=
  match dest with
  | [] => Fault
  | c :: rest =>
      if c =? 0 then wcsncat_tail dest src n
      else match wcsncat rest src n with Ok l => Ok (c :: l) | Fault => Fault | Hang => Hang end
  end.

Fixpoint wmemcmp (s1 s2 : list Z) (n : nat) : outcome Z :=
  match n with
  | O => Ok 0
  | S n =>
      match s1, s2 with
      | x :: s1, y :: s2 => if negb (u32 (x - y) =? 0) then Ok (s32 (x - y)) else wmemcmp s1 s2 n
      | _, _ => Fault
      end
  end.
Fixpoint wmemcpy (dest src : list Z) (n : nat) : outcome (list Z) :=
  match n with
  | O => Ok dest
  | S n =>
      match dest, src with
      | _ :: dest, c :: src =>
          match wmemcpy dest src n with Ok l => Ok (c :: l) | Fault => Fault | Hang => Hang end
      | _, _ => Fault
      end
  end.
Definition wmemset (wcs : list Z) (wc : Z) (n : nat) : outcome (list Z) :=
  if (n <=? length wcs)%nat then Ok (replicate n wc ++ drop n wcs) else Fault.

(** ** Classes of wide characters: a [wint_t] is an unsigned 32-bit number *)

Definition iswalnum (c : Z) : bool := if u8 c =? c then isalnum c else false.
Definition iswalpha (c : Z) : bool := if u8 c =? c then isalpha c else false.
Definition iswblank (c : Z) : bool := (c =? CH " ") || (c =? 9).
Definition iswcntrl (c : Z) : bool := (u32 c <? 32) || (c =? 127).
Definition iswdigit (c : Z) : bool := u32 (c - CH "0") <? 10.
Definition iswgraph (c : Z) : bool := u32 (c - CH "!") <? 127 - CH "!".
Definition iswlower (c : Z) : bool := u32 (c - CH "a") <? 26.
Definition iswprint (c : Z) : bool := u32 (c - CH " ") <? 127 - CH " ".
Definition iswspace (c : Z) : bool := (u32 (c - 9) <? 5) || (c =? CH " ").
Definition iswpunct (c : Z) : bool := iswprint c && negb (iswalnum c) && negb (iswspace c).
Definition iswupper (c : Z) : bool := u32 (c - CH "A") <? 26.
Definition iswxdigit (c : Z) : bool :=
  (u32 (c - CH "0") <? 10) || (u32 (Z.lor c 0x20 - CH "a") <? 6).
Definition towlower (c : Z) : Z := if u32 (c - CH "A") <? 26 then c + (CH "a" - CH "A") else c.
Definition towupper (c : Z) : Z := if u32 (c - CH "a") <? 26 then u32 (c + (CH "A" - CH "a")) else c.

(** ** Column widths *)

(** [bisearch]: the table has [S max] intervals; [Hang] is out of fuel. *)
Fixpoint bisearch_loop (fuel : nat) (ucs : Z) (table : list (Z * Z)) (min max : Z) : outcome Z :=
  match fuel with
  | O => Hang
  | S fuel =>
      if max >=? min then
        let mid := (min + max) / 2 in
        match table !! Z.to_nat mid with
        | Some (first, last) =>
            if ucs >? last then bisearch_loop fuel ucs table (mid + 1) max
            else if ucs <? first then bisearch_loop fuel ucs table min (mid - 1)
            else Ok 1
        | None => Fault
        end
      else Ok 0
  end.
Definition bisearch (ucs : Z) (table : list (Z * Z)) (max : Z) : outcome Z :=
  match table !! 0%nat, table !! Z.to_nat max with
  | Some (first, _), Some (_, last) =>
      if (ucs <? first) || (ucs >? last) then Ok 0
      else bisearch_loop (S (length table)) ucs table 0 max
  | _, _ => Fault
  end.

Definition combining : list (Z * Z) := [
  (0x0300, 0x036F); (0x0483, 0x0486); (0x0488, 0x0489); (0x0591, 0x05BD);
  (0x05BF, 0x05BF); (0x05C1, 0x05C2); (0x05C4, 0x05C5); (0x05C7, 0x05C7);
  (0x0600, 0x0603); (0x0610, 0x0615); (0x064B, 0x065E); (0x0670, 0x0670);
  (0x06D6, 0x06E4); (0x06E7, 0x06E8); (0x06EA, 0x06ED); (0x070F, 0x070F);
  (0x0711, 0x0711); (0x0730, 0x074A); (0x07A6, 0x07B0); (0x07EB, 0x07F3);
  (0x0901, 0x0902); (0x093C, 0x093C); (0x0941, 0x0948); (0x094D, 0x094D);
  (0x0951, 0x0954); (0x0962, 0x0963); (0x0981, 0x0981); (0x09BC, 0x09BC);
  (0x09C1, 0x09C4); (0x09CD, 0x09CD); (0x09E2, 0x09E3); (0x0A01, 0x0A02);
  (0x0A3C, 0x0A3C); (0x0A41, 0x0A42); (0x0A47, 0x0A48); (0x0A4B, 0x0A4D);
  (0x0A70, 0x0A71); (0x0A81, 0x0A82); (0x0ABC, 0x0ABC); (0x0AC1, 0x0AC5);
  (0x0AC7, 0x0AC8); (0x0ACD, 0x0ACD); (0x0AE2, 0x0AE3); (0x0B01, 0x0B01);
  (0x0B3C, 0x0B3C); (0x0B3F, 0x0B3F); (0x0B41, 0x0B43); (0x0B4D, 0x0B4D);
  (0x0B56, 0x0B56); (0x0B82, 0x0B82); (0x0BC0, 0x0BC0); (0x0BCD, 0x0BCD);
  (0x0C3E, 0x0C40); (0x0C46, 0x0C48); (0x0C4A, 0x0C4D); (0x0C55, 0x0C56);
  (0x0CBC, 0x0CBC); (0x0CBF, 0x0CBF); (0x0CC6, 0x0CC6); (0x0CCC, 0x0CCD);
  (0x0CE2, 0x0CE3); (0x0D41, 0x0D43); (0x0D4D, 0x0D4D); (0x0DCA, 0x0DCA);
  (0x0DD2, 0x0DD4); (0x0DD6, 0x0DD6); (0x0E31, 0x0E31); (0x0E34, 0x0E3A);
  (0x0E47, 0x0E4E); (0x0EB1, 0x0EB1); (0x0EB4, 0x0EB9); (0x0EBB, 0x0EBC);
  (0x0EC8, 0x0ECD); (0x0F18, 0x0F19); (0x0F35, 0x0F35); (0x0F37, 0x0F37);
  (0x0F39, 0x0F39); (0x0F71, 0x0F7E); (0x0F80, 0x0F84); (0x0F86, 0x0F87);
  (0x0F90, 0x0F97); (0x0F99, 0x0FBC); (0x0FC6, 0x0FC6); (0x102D, 0x1030);
  (0x1032, 0x1032); (0x1036, 0x1037); (0x1039, 0x1039); (0x1058, 0x1059);
  (0x1160, 0x11FF); (0x135F, 0x135F); (0x1712, 0x1714); (0x1732, 0x1734);
  (0x1752, 0x1753); (0x1772, 0x1773); (0x17B4, 0x17B5); (0x17B7, 0x17BD);
  (0x17C6, 0x17C6); (0x17C9, 0x17D3); (0x17DD, 0x17DD); (0x180B, 0x180D);
  (0x18A9, 0x18A9); (0x1920, 0x1922); (0x1927, 0x1928); (0x1932, 0x1932);
  (0x1939, 0x193B); (0x1A17, 0x1A18); (0x1B00, 0x1B03); (0x1B34, 0x1B34);
  (0x1B36, 0x1B3A); (0x1B3C, 0x1B3C); (0x1B42, 0x1B42); (0x1B6B, 0x1B73);
  (0x1DC0, 0x1DCA); (0x1DFE, 0x1DFF); (0x200B, 0x200F); (0x202A, 0x202E);
  (0x2060, 0x2063); (0x206A, 0x206F); (0x20D0, 0x20EF); (0x302A, 0x302F);
  (0x3099, 0x309A); (0xA806, 0xA806); (0xA80B, 0xA80B); (0xA825, 0xA826);
  (0xFB1E, 0xFB1E); (0xFE00, 0xFE0F); (0xFE20, 0xFE23); (0xFEFF, 0xFEFF);
  (0xFFF9, 0xFFFB); (0x10A01, 0x10A03); (0x10A05, 0x10A06); (0x10A0C, 0x10A0F);
  (0x10A38, 0x10A3A); (0x10A3F, 0x10A3F); (0x1D167, 0x1D169); (0x1D173, 0x1D182);
  (0x1D185, 0x1D18B); (0x1D1AA, 0x1D1AD); (0x1D242, 0x1D244); (0xE0001, 0xE0001);
  (0xE0020, 0xE007F); (0xE0100, 0xE01EF)].

Definition wide (ucs : Z) : bool :=
  (ucs >=? 0x1100) &&
  ((ucs <=? 0x115f) ||
   (ucs =? 0x2329) || (ucs =? 0x232a) ||
   ((ucs >=? 0x2e80) && (ucs <=? 0xa4cf) && negb (ucs =? 0x303f)) ||
   ((ucs >=? 0xac00) && (ucs <=? 0xd7a3)) ||
   ((ucs >=? 0xf900) && (ucs <=? 0xfaff)) ||
   ((ucs >=? 0xfe10) && (ucs <=? 0xfe19)) ||
   ((ucs >=? 0xfe30) && (ucs <=? 0xfe6f)) ||
   ((ucs >=? 0xff00) && (ucs <=? 0xff60)) ||
   ((ucs >=? 0xffe0) && (ucs <=? 0xffe6)) ||
   ((ucs >=? 0x20000) && (ucs <=? 0x2fffd)) ||
   ((ucs >=? 0x30000) && (ucs <=? 0x3fffd))).

Definition wcwidth (ucs : Z) : outcome Z :=
  if ucs =? 0 then Ok 0
  else if (ucs <? 32) || ((ucs >=? 0x7f) && (ucs <? 0xa0)) then Ok (-1)
  else match bisearch ucs combining (Z.of_nat (length combining) - 1) with
       | Ok b => if negb (b =? 0) then Ok 0 else Ok (1 + b2z (wide ucs))
       | Fault => Fault
       | Hang => Hang
       end.

(** [for (;*pwcs && n-- > 0; pwcs++) ...] *)
Fixpoint wcswidth_loop (pwcs : list Z) (n width : Z) : outcome Z :=
  match pwcs with
  | [] => Fault
  | c :: pwcs =>
      if (c =? 0) || negb (n >? 0) then Ok width else
      match wcwidth c with
      | Ok w => if w <? 0 then Ok (-1) else wcswidth_loop pwcs (n - 1) (width + w)
      | Fault => Fault
      | Hang => Hang
      end
  end.
Definition wcswidth (pwcs : list Z) (n : Z) : outcome Z := wcswidth_loop pwcs n 0.
