(* ===== verification/WideFacts.v ===== *)
(** * Wide characters: correctness

    UTF-8 encoding and decoding are inverse to each other, decoding can be
    interrupted anywhere, the string conversions are inverse to each other, and
    the binary search of [wcwidth] finds what a linear search finds.  Some
    functions are shown to do what they should not. *)

From S2P Require Import Prelude Ctype HashStream Wide Sha2Facts.

(** ** Bytes, by exhaustion *)

Lemma forall_range (P : Z → bool) a n i :
  forallb P (seqZ a n) = true → a <= i < a + n → P i = true.
Proof. intros H Hi. rewrite forallb_forall in H. apply H, list_elem_of_In, elem_of_seqZ. lia. Qed.

(** A continuation byte and its six bits. *)
Lemma cont_byte y :
  0 <= y < 64 → let b := u8 (0x80 + y) in Z.land b 0xc0 = 0x80 ∧ Z.land b 0x3f = y.
Proof.
  intros Hy b. pose proof (forall_range (λ y, (Z.land (u8 (0x80 + y)) 0xc0 =? 0x80) &&
    (Z.land (u8 (0x80 + y)) 0x3f =? y)) 0 64 y ltac:(vm_compute; reflexivity) ltac:(lia)) as E.
  cbv beta in E. fold b in E. lia.
Qed.

(** A first byte: [k] more bytes follow, [y] is what it contributes. *)
Definition lead_of (c y : Z) (k : Z) : bool :=
  let '(x, cnt) := lead_count 8 (u8 (Z.shiftl c 1)) 0 in
  negb (Z.land c 0x80 =? 0) && (cnt =? k) && (Z.shiftr x (cnt + 1) =? y).

Lemma lead_byte mark limit k y :
  (mark, limit, k) ∈ [(0xC0, 32, 1); (0xE0, 16, 2); (0xF0, 8, 3); (0xF8, 4, 4); (0xFC, 2, 5)] →
  0 <= y < limit → lead_of (u8 (Z.lor mark (u8 y))) y k = true.
Proof.
  intros Hm Hy. set_unfold in Hm.
  destruct Hm as [E|[E|[E|[E|[E|[]]]]]]; simplify_eq;
    match goal with |- lead_of (u8 (Z.lor ?m _)) _ ?j = true =>
    match type of Hy with _ <= _ < ?l =>
      apply (forall_range (λ y, lead_of (u8 (Z.lor m (u8 y))) y j) 0 l); [vm_compute; reflexivity|lia]
    end end.
Qed.

(** ** Encoding and decoding *)

Lemma shift_step wc b :
  0 <= wc → 0 <= b →
  Z.shiftl (Z.shiftr wc (b + 6)) 6 + Z.land (Z.shiftr wc b) 0x3f = Z.shiftr wc b.
Proof.
  intros Hw Hb. change 0x3f with (Z.ones 6). rewrite Z.land_ones by lia.
  rewrite <- Z.shiftr_shiftr, Z.shiftl_mul_pow2, (Z.shiftr_div_pow2 _ 6) by lia. change (2 ^ 6) with 64.
  pose proof (Z.div_mod (Z.shiftr wc b) 64 ltac:(lia)). lia.
Qed.

(** Decoding the continuation bytes. *)
Lemma decode_tail k wc i n rest :
  0 < wc < 2 ^ 31 → i + Z.of_nat (S k) <= n →
  mbrtowc_loop CT_UTF8 (wcrtomb_tail (S k) wc (6 * Z.of_nat (S k)) ++ rest) i n
    (mk_mbstate (Z.of_nat (S k)) (Z.shiftr wc (6 * Z.of_nat (S k)))) =
  Ok (mk_mb (i + Z.of_nat (S k)) (Some wc) initial_state None).
Proof.
  intros Hw. revert i. induction k as [|k IH]; intros i Hn.
  - change (6 * Z.of_nat 1) with 6 in *. change (Z.of_nat 1) with 1 in *.
    cbn [wcrtomb_tail app mbrtowc_loop]. replace (i >=? n) with false by lia.
    cbn [mb_count sofar]. change (1 =? 0) with false. cbn [negb]. change (6 - 6) with 0.
    destruct (cont_byte (Z.land (Z.shiftr wc 0) 0x3f)) as [E1 E2].
    { change 0x3f with (Z.ones 6). rewrite Z.land_ones by lia. apply Z.mod_pos_bound. lia. }
    cbv zeta in E1, E2. rewrite E1, E2. change (128 =? 128) with true. cbn [negb].
    change (1 - 1 =? 0) with true. cbv iota. pose proof (shift_step wc 0 ltac:(lia) ltac:(lia)) as E.
    change (0 + 6) with 6 in E. rewrite E, Z.shiftr_0_r.
    unfold mb_complete. change (2 ^ 31) with 2147483648 in Hw.
    replace (s32 wc) with wc by int_lia. by replace (wc =? 0) with false by lia.
  - set (b := 6 * Z.of_nat (S k)).
    replace (6 * Z.of_nat (S (S k))) with (b + 6) in * by (unfold b; lia).
    change (wcrtomb_tail (S (S k)) wc (b + 6)) with
      (u8 (0x80 + Z.land (Z.shiftr wc (b + 6 - 6)) 0x3f) :: wcrtomb_tail (S k) wc (b + 6 - 6)).
    replace (b + 6 - 6) with b by lia. cbn [app mbrtowc_loop]. replace (i >=? n) with false by lia.
    cbn [mb_count sofar]. replace (Z.of_nat (S (S k)) =? 0) with false by lia. cbn [negb].
    destruct (cont_byte (Z.land (Z.shiftr wc b) 0x3f)) as [E1 E2].
    { change 0x3f with (Z.ones 6). rewrite Z.land_ones by lia. apply Z.mod_pos_bound. lia. }
    cbv zeta in E1, E2. rewrite E1, E2. change (128 =? 128) with true. cbn [negb].
    replace (Z.of_nat (S (S k)) - 1) with (Z.of_nat (S k)) by lia.
    replace (Z.of_nat (S k) =? 0) with false by lia. cbv iota.
    rewrite shift_step by (unfold b; lia).
    assert (0 <= Z.shiftr wc b <= wc) as Hr.
    { rewrite Z.shiftr_div_pow2 by (unfold b; lia). split; [apply Z.div_pos; lia|].
      apply Z.div_le_upper_bound; [lia|]. assert (1 <= 2 ^ b) by (apply (Z.pow_le_mono_r 2 0 b); unfold b; lia). nia. }
    change (2 ^ 31) with 2147483648 in Hw.
    replace (s32 (Z.shiftr wc b)) with (Z.shiftr wc b) by int_lia.
    fold b in IH. rewrite IH by lia. do 2 f_equal. lia.
Qed.

(** A first byte and its continuation. *)
Lemma decode_multi mark limit k wc n rest :
  (mark, limit, Z.of_nat (S k)) ∈ [(0xC0, 32, 1); (0xE0, 16, 2); (0xF0, 8, 3); (0xF8, 4, 4); (0xFC, 2, 5)] →
  0 < wc < 2 ^ 31 → 0 <= Z.shiftr wc (6 * Z.of_nat (S k)) < limit → Z.of_nat (S (S k)) <= n →
  mbrtowc CT_UTF8 (Some ((u8 (Z.lor mark (u8 (Z.shiftr wc (6 * Z.of_nat (S k))))) ::
    wcrtomb_tail (S k) wc (6 * Z.of_nat (S k))) ++ rest)) n initial_state =
  Ok (mk_mb (Z.of_nat (S (S k))) (Some wc) initial_state None).
Proof.
  intros Hm Hw Hy Hn. pose proof (lead_byte _ _ _ _ Hm Hy) as Hl. unfold lead_of in Hl.
  cbn [mbrtowc app mbrtowc_loop]. replace (0 >=? n) with false by lia.
  cbn [mb_count initial_state]. change (0 =? 0) with true. cbn [negb].
  set (c := u8 (Z.lor mark _)) in *.
  destruct (lead_count 8 (u8 (Z.shiftl c 1)) 0) as [x cnt].
  apply andb_true_iff in Hl as [[Hc Hcnt%Z.eqb_eq]%andb_true_iff Hx%Z.eqb_eq]. rewrite Hc, Hx, Hcnt.
  assert (Z.of_nat (S k) <= 5) as H5.
  { set_unfold in Hm. destruct Hm as [E|[E|[E|[E|[E|[]]]]]]; injection E as E1 E2 E3; lia. }
  replace ((Z.of_nat (S k) =? 0) || (Z.of_nat (S k) >? 5)) with false by lia.
  rewrite decode_tail by lia. do 2 f_equal. lia.
Qed.

Lemma utf8_decode wc n rest :
  0 < wc < 2 ^ 31 → Z.of_nat (length (wcrtomb_bytes CT_UTF8 wc)) <= n →
  mbrtowc CT_UTF8 (Some (wcrtomb_bytes CT_UTF8 wc ++ rest)) n initial_state =
  Ok (mk_mb (Z.of_nat (length (wcrtomb_bytes CT_UTF8 wc))) (Some wc) initial_state None).
Proof.
  intros Hw. change (2 ^ 31) with 2147483648 in Hw.
  assert (∀ k lo hi, lo <= wc < hi * 2 ^ k → 0 <= k → 0 <= lo → 0 <= Z.shiftr wc k < hi) as Hs.
  { intros k lo hi Hr Hk Hlo. rewrite Z.shiftr_div_pow2 by lia.
    split; [apply Z.div_pos; lia|apply Z.div_lt_upper_bound; lia]. }
  unfold wcrtomb_bytes. cbv zeta.
  destruct (Z.geb_spec wc 0x04000000); [|destruct (Z.geb_spec wc 0x00200000);
    [|destruct (Z.geb_spec wc 0x00010000); [|destruct (Z.geb_spec wc 0x00000800);
    [|destruct (Z.geb_spec wc 0x00000080)]]]].
  - intros Hn. apply (decode_multi 0xFC 2 4); [set_solver|done| |exact Hn]. apply (Hs _ 0x04000000); simpl; lia.
  - intros Hn. apply (decode_multi 0xF8 4 3); [set_solver|done| |exact Hn]. apply (Hs _ 0x00200000); simpl; lia.
  - intros Hn. apply (decode_multi 0xF0 8 2); [set_solver|done| |exact Hn]. apply (Hs _ 0x00010000); simpl; lia.
  - intros Hn. apply (decode_multi 0xE0 16 1); [set_solver|done| |exact Hn]. apply (Hs _ 0x00000800); simpl; lia.
  - intros Hn. apply (decode_multi 0xC0 32 0); [set_solver|done| |exact Hn]. apply (Hs _ 0x00000080); simpl; lia.
  - intros Hn. cbn [length] in Hn. rewrite u8_id by (unfold byte; lia).
    cbn [app mbrtowc mbrtowc_loop]. replace (0 >=? n) with false by lia.
    cbn [mb_count initial_state]. change (0 =? 0) with true. cbn [negb].
    pose proof (forall_range (λ c, Z.land c 0x80 =? 0) 0 128 wc ltac:(vm_compute; reflexivity) ltac:(lia)) as E.
    cbv beta in E. rewrite E. cbn [negb]. unfold mb_complete. by replace (wc =? 0) with false by lia.
Qed.

(** C1: every character from 1 to 2^31-1 that [wcrtomb] encodes, [mbrtowc]
    decodes to the same character, from the same number of bytes (at most 6),
    whatever follows, and with the initial state again. *)
Theorem utf8_roundtrip wc n rest :
  0 < wc < 2 ^ 31 → Z.of_nat (length (wcrtomb_bytes CT_UTF8 wc)) <= n →
  (length (wcrtomb_bytes CT_UTF8 wc) <= 6)%nat ∧
  mbrtowc CT_UTF8 (Some (wcrtomb_bytes CT_UTF8 wc ++ rest)) n initial_state =
  Ok (mk_mb (Z.of_nat (length (wcrtomb_bytes CT_UTF8 wc))) (Some wc) initial_state None).
Proof.
  intros Hw Hn. split; [|by apply utf8_decode]. unfold wcrtomb_bytes. cbv zeta.
  repeat case_match; simpl; lia.
Qed.

Lemma utf8_roundtrip_witness :
  mbrtowc CT_UTF8 (Some [0xE2; 0x82; 0xAC; 0x41]) 4 initial_state =
  Ok (mk_mb 3 (Some 0x20AC) initial_state None).
Proof. apply (utf8_roundtrip 0x20AC 4 [0x41]); [lia|vm_compute; congruence]. Defined.

(** ** Interrupted input *)

(** Moving the index. *)
Lemma mbrtowc_shift lc s i j n ps r :
  mbrtowc_loop lc s i n ps = Ok r →
  ∃ r', mbrtowc_loop lc s (i + j) (n + j) ps = Ok r' ∧ mb_state r' = mb_state r ∧
    mb_wc r' = mb_wc r ∧ mb_errno r' = mb_errno r.
Proof.
  revert i ps. induction s as [|c s IH]; intros i ps E; cbn [mbrtowc_loop] in *;
    replace (i + j >=? n + j) with (i >=? n) by lia; destruct (i >=? n).
  1,3: injection E as <-; eexists; done.
  { done. }
  destruct lc; [injection E as <-; eexists; done|].
  assert (∀ a b, ∃ r', Ok (mb_complete (i + j) a b) = Ok r' ∧
    mb_state r' = mb_state (mb_complete i a b) ∧ mb_wc r' = mb_wc (mb_complete i a b) ∧
    mb_errno r' = mb_errno (mb_complete i a b)) as Hc.
  { intros a b. eexists. split; [done|]. unfold mb_complete. by destruct (negb (b =? 0)). }
  replace (i + j + 1) with (i + 1 + j) by lia.
  repeat (case_match; simplify_eq); try (by apply Hc); try (by eexists); by apply IH.
Qed.

(** [mbrtowc] can be interrupted: when the [n1] bytes of [s1] end inside a
    character, continuing with [s2] from the returned state gives the character
    and the state that the whole input gives. *)
Theorem mbrtowc_restart s1 s2 n2 ps ps1 r :
  mbrtowc CT_UTF8 (Some s1) (Z.of_nat (length s1)) ps = Ok (mk_mb (Z.of_nat (length s1)) None ps1 None) →
  mbrtowc CT_UTF8 (Some s2) n2 ps1 = Ok r → 0 <= n2 →
  ∃ r', mbrtowc CT_UTF8 (Some (s1 ++ s2)) (Z.of_nat (length s1) + n2) ps = Ok r' ∧
    mb_state r' = mb_state r ∧ mb_wc r' = mb_wc r ∧ mb_errno r' = mb_errno r.
Proof.
  cbn [mbrtowc]. intros H1 H2 Hn.
  assert (∀ s1 i ps m, mbrtowc_loop CT_UTF8 s1 i (i + Z.of_nat (length s1)) ps = Ok (mk_mb m None ps1 None) →
    mbrtowc_loop CT_UTF8 (s1 ++ s2) i (i + Z.of_nat (length s1) + n2) ps =
    mbrtowc_loop CT_UTF8 s2 (i + Z.of_nat (length s1)) (i + Z.of_nat (length s1) + n2) ps1) as Hgen.
  { clear - Hn. induction s1 as [|c s1 IH]; intros i ps m E.
    - cbn [length app] in *. change (Z.of_nat 0) with 0 in *. rewrite Z.add_0_r in *. cbn [mbrtowc_loop] in E.
      replace (i >=? i) with true in E by lia. by injection E as _ ->.
    - replace (i + Z.of_nat (length (c :: s1))) with (i + 1 + Z.of_nat (length s1)) in * by (simpl; lia).
      cbn [app mbrtowc_loop] in *. replace (i >=? i + 1 + Z.of_nat (length s1)) with false in E by lia.
      replace (i >=? _) with false by lia. unfold mb_bad, mb_complete in *.
      repeat (case_match; simplify_eq); by apply IH in E. }
  pose proof (Hgen s1 0 ps _ H1) as E. rewrite Z.add_0_l in E. rewrite E.
  destruct (mbrtowc_shift CT_UTF8 s2 0 (Z.of_nat (length s1)) n2 ps1 r H2) as (r' & E' & Hr).
  exists r'. rewrite <- E'. split; [f_equal; lia|done].
Qed.

Lemma mbrtowc_restart_witness :
  ∃ r', mbrtowc CT_UTF8 (Some ([0xE2; 0x82] ++ [0xAC])) (2 + 1) initial_state = Ok r' ∧
    mb_state r' = initial_state ∧ mb_wc r' = Some 0x20AC ∧ mb_errno r' = None.
Proof.
  apply (mbrtowc_restart [0xE2; 0x82] [0xAC] 1 initial_state (mk_mbstate 1 0x82)
    (mk_mb 1 (Some 0x20AC) initial_state None)); [reflexivity|reflexivity|lia].
Defined.

(** ** Strings *)

Definition utf8 (ws : list Z) : list Z := mjoin (wcrtomb_bytes CT_UTF8 <$> ws).

Lemma wcrtomb_bytes_pos wc : (0 < length (wcrtomb_bytes CT_UTF8 wc) <= 6)%nat.
Proof. unfold wcrtomb_bytes. cbv zeta. repeat case_match; simpl; lia. Qed.

Lemma wcsrtombs_loop_ok ws len pre junk :
  Forall (λ c, 0 < c < 2 ^ 31) ws → 0 <= len < 2 ^ 64 →
  Z.of_nat (length pre + length (utf8 ws)) + MB_CUR_MAX <= len →
  len <= Z.of_nat (length pre + length junk) → ∀ more,
  wcsrtombs_loop CT_UTF8 (ws ++ 0 :: more) (Some (pre ++ junk)) len (Z.of_nat (length pre)) =
  Ok (Z.of_nat (length pre + length (utf8 ws)), Some (pre ++ utf8 ws ++ 0 :: drop (S (length (utf8 ws))) junk), 0 :: more).
Proof.
  intros Hws Hlen. unfold MB_CUR_MAX. change (2 ^ 64) with 18446744073709551616 in Hlen.
  revert pre junk. induction Hws as [|c ws Hc Hws IH]; intros pre junk Hfit Hsize more.
  - change (utf8 []) with (@nil Z) in *. cbn [app wcsrtombs_loop length] in *. change (0 =? 0) with true. cbv iota.
    replace (len >? Z.of_nat (length pre)) with true by lia.
    destruct junk as [|x junk]; [simpl in Hsize; lia|].
    change (x :: junk) with ([x] ++ junk). rewrite (buf_copy_app pre [x] junk [0]) by done.
    do 3 f_equal. lia.
  - change (utf8 (c :: ws)) with (wcrtomb_bytes CT_UTF8 c ++ utf8 ws) in *. rewrite length_app in *.
    pose proof (wcrtomb_bytes_pos c) as Hb. set (b := wcrtomb_bytes CT_UTF8 c) in *.
    cbn [app wcsrtombs_loop]. replace (c =? 0) with false by lia.
    rewrite u64_id by lia. unfold MB_CUR_MAX. replace (_ >=? 5) with true by lia.
    unfold wcrtomb. fold b.
    destruct (list_split_at (length b) junk) as (x & junk1 & -> & Hx); [lia|].
    rewrite (buf_copy_app pre x junk1 b) by lia. rewrite length_app in *.
    rewrite <- Nat2Z.inj_add, <- length_app, app_assoc.
    rewrite IH by (rewrite ?length_app; lia). rewrite length_app, <- !app_assoc.
    replace (S (length b + length (utf8 ws))) with (length x + S (length (utf8 ws)))%nat by lia.
    rewrite <- drop_drop, drop_app_length. do 3 f_equal. lia.
Qed.

(** [wcsrtombs] and [wcstombs] write the UTF-8 encoding of a wide string and a
    terminator, nothing else, when [dest] has room for it and for [MB_CUR_MAX] bytes. *)
Theorem wcsrtombs_correct ws more dest len :
  Forall (λ c, 0 < c < 2 ^ 31) ws →
  Z.of_nat (length (utf8 ws)) + MB_CUR_MAX <= len → len <= Z.of_nat (length dest) → len < 2 ^ 64 →
  wcsrtombs CT_UTF8 (Some dest) (ws ++ 0 :: more) len =
  Ok (Z.of_nat (length (utf8 ws)), Some (utf8 ws ++ 0 :: drop (S (length (utf8 ws))) dest), 0 :: more).
Proof.
  intros Hws Hfit Hsize Hlen. unfold wcsrtombs. apply (wcsrtombs_loop_ok ws len [] dest Hws); simpl; try done.
  unfold MB_CUR_MAX in *. lia.
Qed.

Lemma wcsrtombs_correct_witness :
  wcsrtombs CT_UTF8 (Some (replicate 10 0xEE)) [0x41; 0x20AC; 0] 10 =
  Ok (4, Some [0x41; 0xE2; 0x82; 0xAC; 0; 0xEE; 0xEE; 0xEE; 0xEE; 0xEE], [0]).
Proof.
  apply (wcsrtombs_correct [0x41; 0x20AC] [] (replicate 10 0xEE) 10);
    [repeat constructor; lia|vm_compute; congruence|reflexivity|reflexivity].
Defined.

Lemma mbsrtowcs_loop_ok ws len i out more fuel :
  Forall (λ c, 0 < c < 2 ^ 31) ws → 6 <= len → 0 <= i → i + Z.of_nat (length ws) < len →
  (length (utf8 ws) < fuel)%nat → len < SIZE_MAX →
  mbsrtowcs_loop fuel CT_UTF8 (utf8 ws ++ 0 :: more) i len initial_state out =
  Ok (i + Z.of_nat (length ws), out ++ ws ++ [0], 0 :: more, initial_state).
Proof.
  intros Hws Hlen. revert i out fuel. induction Hws as [|c ws Hc Hws IH]; intros i out fuel Hi Hfit Hf Hmax.
  - change (utf8 []) with (@nil Z) in *. destruct fuel as [|fuel]; [simpl in Hf; lia|].
    cbn [app mbsrtowcs_loop length]. simpl in Hfit. replace (i >=? len) with false by lia.
    cbn [mbrtowc mbrtowc_loop]. replace (0 >=? len) with false by lia. cbn. by rewrite Z.add_0_r.
  - change (utf8 (c :: ws)) with (wcrtomb_bytes CT_UTF8 c ++ utf8 ws) in *. rewrite length_app in Hf.
    pose proof (wcrtomb_bytes_pos c) as Hb. cbn [length] in Hfit.
    destruct fuel as [|fuel]; [lia|]. cbn [mbsrtowcs_loop]. replace (i >=? len) with false by lia.
    rewrite <- app_assoc, utf8_decode by lia. cbn [mb_ret mb_wc mb_state].
    set (b := wcrtomb_bytes CT_UTF8 c) in *. unfold SIZE_MAX.
    replace (Z.of_nat (length b) =? 0xffffffffffffffff) with false by lia.
    replace (Z.of_nat (length b) =? 0) with false by lia.
    rewrite length_app. replace (_ <? Z.of_nat (length b)) with false by lia.
    rewrite Nat2Z.id, drop_app_length, IH by lia. rewrite <- app_assoc. cbn [length app].
    do 4 f_equal. lia.
Qed.

(** [mbsrtowcs] (and [mbstowcs]) reads back what [wcsrtombs] writes: from the
    UTF-8 encoding of a wide string and a terminator it stores the string and the
    terminator and returns its length, when [dest] has room for them and for at
    least 6 elements. *)
Theorem mbsrtowcs_correct ws len more :
  Forall (λ c, 0 < c < 2 ^ 31) ws → 6 <= len → Z.of_nat (length ws) < len → len < SIZE_MAX →
  mbsrtowcs CT_UTF8 true (utf8 ws ++ 0 :: more) len initial_state =
  Ok (Z.of_nat (length ws), ws ++ [0], 0 :: more, initial_state).
Proof.
  intros Hws Hlen Hfit Hmax. unfold mbsrtowcs. rewrite mbsrtowcs_loop_ok; try done; try lia.
  rewrite length_app. lia.
Qed.

Lemma mbsrtowcs_correct_witness :
  mbsrtowcs CT_UTF8 true [0x41; 0xE2; 0x82; 0xAC; 0] 10 initial_state =
  Ok (2, [0x41; 0x20AC; 0], [0], initial_state).
Proof.
  apply (mbsrtowcs_correct [0x41; 0x20AC] 10 []); [repeat constructor; lia|lia|simpl; lia|reflexivity].
Defined.

(** ** What the conversions and the wide strings do wrong *)

(** [wcsrtombs] writes past the end of [dest]: the space that is left is never
    compared with the length of a character ([len<n] should be [len-cur<n]).  Six
    bytes of room take five letters and then two bytes of the Euro sign too many. *)
Theorem wcsrtombs_overflow :
  wcsrtombs CT_UTF8 (Some (replicate 6 0)) [0x61; 0x61; 0x61; 0x61; 0x61; 0x20AC; 0] 6 = Fault.
Proof. reflexivity. Qed.

(** With a null [dest], [wcsrtombs] and [wcstombs] do not return the number of
    bytes but the number of characters above 0x7F. *)
Theorem wcsrtombs_null_count ws more :
  Forall (λ c, 0 < c < 2 ^ 31) ws → Z.of_nat (length ws) < 2 ^ 63 →
  wcsrtombs CT_UTF8 None (ws ++ 0 :: more) 0 =
  Ok (Z.of_nat (length (filter (λ c, 0x80 <= c) ws)), None, 0 :: more).
Proof.
  intros Hws Hlen. unfold wcsrtombs. change (2 ^ 63) with 9223372036854775808 in Hlen.
  assert (∀ cur, 0 <= cur → cur + Z.of_nat (length ws) < 9223372036854775808 →
    wcsrtombs_loop CT_UTF8 (ws ++ 0 :: more) None SIZE_MAX cur =
    Ok (cur + Z.of_nat (length (filter (λ c, 0x80 <= c) ws)), None, 0 :: more)) as Hloop; [|by apply (Hloop 0); lia].
  clear Hlen. induction Hws as [|c ws Hc Hws IH]; intros cur H0 Hl.
  - cbn. do 3 f_equal. lia.
  - cbn [app wcsrtombs_loop length] in *. replace (c =? 0) with false by lia.
    unfold SIZE_MAX, MB_CUR_MAX in *. rewrite u64_id by lia.
    replace (_ >=? 5) with true by lia. cbn [wcrtomb wcrtomb_null].
    rewrite IH by (unfold b2z; case_match; lia). rewrite filter_cons. unfold b2z.
    destruct (Z.geb_spec c 128), (decide (128 <= c)); try lia; cbn [length]; do 3 f_equal; lia.
Qed.

Lemma wcsrtombs_null_count_witness :
  wcsrtombs CT_UTF8 None [0x61; 0x62; 0x63; 0] 0 = Ok (0, None, [0]).
Proof. apply (wcsrtombs_null_count [0x61; 0x62; 0x63] []); [repeat constructor; lia|reflexivity]. Defined.

(** [wcsncmp] looks at one element too many and does not stop at the
    terminator, [wcsstr] reads past the ends of both strings when the needle is a
    suffix of the haystack, and [wcswidth] reads one element more than [n]. *)
Theorem wide_string_overreads :
  wcsncmp [0x61; 0x62] [0x61; 0x63] 1 = Ok (-1) ∧
  wcsncmp [0x61; 0] [0x61; 0] 5 = Fault ∧
  wcsstr [0x61; 0x62; 0] [0x62; 0] = Fault ∧
  wcswidth [0x61] 1 = Fault.
Proof. repeat split; vm_compute; reflexivity. Qed.

(** [btowc] returns 1 for every character of the alphabet, [mbsinit] denies
    that the initial state is initial, and an incomplete character gives [mbrtowc]
    the result of a complete one. *)
Theorem multibyte_results_wrong lc c :
  (0 < c < 0x80 → btowc lc c = 1) ∧
  mbsinit (Some initial_state) = false ∧
  ∃ ps, mbrtowc CT_UTF8 (Some [0xE2]) 1 initial_state = Ok (mk_mb 1 None ps None).
Proof.
  split; [|split; [done|]].
  - intros Hc. unfold btowc, EOF. replace (c =? 0) with false by lia. replace (c =? -1) with false by lia.
    destruct lc; by case_match; lia.
  - eexists. vm_compute. reflexivity.
Qed.

Lemma multibyte_results_wrong_witness : btowc CT_UTF8 0x41 = 1.
Proof. apply (multibyte_results_wrong CT_UTF8 0x41). lia. Defined.

(** ** Column widths *)

(** The set that a table of intervals stands for, and the order that [bisearch] needs. *)
Definition in_table (table : list (Z * Z)) (ucs : Z) : Prop :=
  ∃ i first last, table !! i = Some (first, last) ∧ first <= ucs <= last.
Fixpoint table_sorted (from : Z) (table : list (Z * Z)) : bool :=
  match table with
  | [] => true
  | (first, last) :: table => (from <? first) && (first <=? last) && table_sorted last table
  end.

Lemma table_sorted_lookup from table i first last :
  table_sorted from table = true → table !! i = Some (first, last) → from < first <= last.
Proof.
  revert from table. induction i as [|i IH]; intros from [|[f l] table] Hs Hi; try done;
    simpl in Hs; rewrite !andb_true_iff, Z.ltb_lt, Z.leb_le in Hs; destruct Hs as [[Hf Hl] Hs].
  - simplify_eq/=. lia.
  - simpl in Hi. apply (IH _ _ Hs) in Hi. lia.
Qed.

Lemma table_sorted_lt from table i j f1 l1 f2 l2 :
  table_sorted from table = true → table !! i = Some (f1, l1) → table !! j = Some (f2, l2) →
  (i < j)%nat → l1 < f2.
Proof.
  revert from table j. induction i as [|i IH]; intros from [|[f l] table] [|j] Hs Hi Hj Hij; try done; try lia;
    simpl in Hs; rewrite !andb_true_iff in Hs; destruct Hs as [_ Hs]; simpl in Hi, Hj.
  - simplify_eq/=. apply (table_sorted_lookup _ _ _ _ _ Hs) in Hj. lia.
  - eapply (IH _ _ j); [exact Hs|exact Hi|exact Hj|lia].
Qed.

Section bisearch.
Context (from : Z) (table : list (Z * Z)) (ucs : Z).
Hypothesis Hsorted : table_sorted from table = true.

Lemma bisearch_loop_ok fuel lo hi :
  0 <= lo <= hi + 1 → hi < Z.of_nat (length table) → hi - lo + 1 < Z.of_nat fuel →
  (∀ i f l, table !! i = Some (f, l) → Z.of_nat i < lo → l < ucs) →
  (∀ i f l, table !! i = Some (f, l) → hi < Z.of_nat i → ucs < f) →
  (bisearch_loop fuel ucs table lo hi = Ok 1 ∧ in_table table ucs) ∨
  (bisearch_loop fuel ucs table lo hi = Ok 0 ∧ ¬ in_table table ucs).
Proof.
  revert lo hi. induction fuel as [|fuel IH]; intros lo hi Hlo Hhi Hf Hbelow Habove.
  - lia.
  - cbn [bisearch_loop]. destruct (Z.geb_spec hi lo).
    + set (mid := (lo + hi) / 2).
      assert (lo <= mid <= hi) as Hm.
      { subst mid. split; [apply Z.div_le_lower_bound; lia|].
        apply Z.lt_succ_r, Z.div_lt_upper_bound; lia. }
      destruct (lookup_lt_is_Some_2 table (Z.to_nat mid)) as [[f l] Hl]; [lia|]. rewrite Hl.
      destruct (Z.gtb_spec ucs l); [|destruct (Z.ltb_spec ucs f)].
      * apply IH; try lia; [|done]. intros i f' l' Hi Hlt.
        destruct (decide (i = Z.to_nat mid)) as [->|]; [simplify_eq; lia|].
        pose proof (table_sorted_lt _ _ _ _ _ _ _ _ Hsorted Hi Hl ltac:(lia)).
        pose proof (table_sorted_lookup _ _ _ _ _ Hsorted Hl). lia.
      * apply IH; try lia; [done|]. intros i f' l' Hi Hlt.
        destruct (decide (i = Z.to_nat mid)) as [->|]; [simplify_eq; lia|].
        pose proof (table_sorted_lt _ _ _ _ _ _ _ _ Hsorted Hl Hi ltac:(lia)).
        pose proof (table_sorted_lookup _ _ _ _ _ Hsorted Hl). lia.
      * left. split; [done|]. exists (Z.to_nat mid), f, l. split; [done|lia].
    + right. split; [done|]. intros (i & f & l & Hi & Hr).
      destruct (Z_lt_dec (Z.of_nat i) lo) as [Hlt|Hge].
      * pose proof (Hbelow _ _ _ Hi Hlt). lia.
      * pose proof (Habove _ _ _ Hi ltac:(lia)). lia.
Qed.
End bisearch.

Lemma bisearch_ok from table ucs :
  table_sorted from table = true → table ≠ [] →
  (bisearch ucs table (Z.of_nat (length table) - 1) = Ok 1 ∧ in_table table ucs) ∨
  (bisearch ucs table (Z.of_nat (length table) - 1) = Ok 0 ∧ ¬ in_table table ucs).
Proof.
  intros Hs Hne. assert (0 < length table)%nat by (destruct table; [done|simpl; lia]).
  destruct (lookup_lt_is_Some_2 table 0) as [[f l] H0]; [lia|].
  destruct (lookup_lt_is_Some_2 table (length table - 1)) as [[f' l'] H1]; [lia|].
  unfold bisearch. rewrite H0. replace (Z.to_nat _) with (length table - 1)%nat by lia. rewrite H1.
  assert (∀ i a b, table !! i = Some (a, b) → f <= a ∧ b <= l') as Hall.
  { intros i a b Hi. pose proof (lookup_lt_Some _ _ _ Hi). split.
    - destruct (decide (i = 0%nat)) as [->|]; [simplify_eq; lia|].
      pose proof (table_sorted_lt _ _ _ _ _ _ _ _ Hs H0 Hi ltac:(lia)).
      pose proof (table_sorted_lookup _ _ _ _ _ Hs H0). lia.
    - destruct (decide (i = length table - 1)%nat) as [->|]; [simplify_eq; lia|].
      pose proof (table_sorted_lt _ _ _ _ _ _ _ _ Hs Hi H1 ltac:(lia)).
      pose proof (table_sorted_lookup _ _ _ _ _ Hs H1). lia. }
  destruct (Z.ltb_spec ucs f); [|destruct (Z.gtb_spec ucs l')]; cbn [orb].
  1, 2: right; split; [done|]; intros (i & a & b & Hi & Hr); apply Hall in Hi; lia.
  apply (bisearch_loop_ok from); try done; try lia; intros i a b Hi; pose proof (lookup_lt_Some _ _ _ Hi); lia.
Qed.

(** [wcwidth] returns for every character: 0 for the terminator, -1 for a
    control character, 0 for a combining character (the binary search finds
    exactly the characters that lie in an interval of the table), 2 for a wide
    East Asian character and 1 for any other. *)
Theorem wcwidth_correct ucs :
  (ucs = 0 → wcwidth ucs = Ok 0) ∧
  (ucs ≠ 0 → ucs < 32 ∨ 0x7f <= ucs < 0xa0 → wcwidth ucs = Ok (-1)) ∧
  (32 <= ucs → ¬ 0x7f <= ucs < 0xa0 → in_table combining ucs → wcwidth ucs = Ok 0) ∧
  (32 <= ucs → ¬ 0x7f <= ucs < 0xa0 → ¬ in_table combining ucs →
     wcwidth ucs = Ok (if wide ucs then 2 else 1)).
Proof.
  assert (table_sorted 0 combining = true) as Hs by (vm_compute; reflexivity).
  assert (combining ≠ []) as Hne by (intros H; discriminate H).
  pose proof (bisearch_ok 0 combining ucs Hs Hne) as Hb.
  unfold wcwidth. destruct (Z.eqb_spec ucs 0) as [->|]; [split_and!; by try lia|].
  destruct (Z.ltb_spec ucs 32), (Z.geb_spec ucs 0x7f), (Z.ltb_spec ucs 0xa0); cbn [orb andb];
    (split_and!; try by intros; exfalso; lia); try done; intros _ _ Hin;
    destruct Hb as [[-> H']|[-> H']]; try done; cbn; by destruct (wide ucs).
Qed.

Lemma wcwidth_correct_witness : wcwidth 0 = Ok 0 ∧ wcwidth 7 = Ok (-1) ∧ wcwidth 0x301 = Ok 0.
Proof.
  split_and!.
  - apply (proj1 (wcwidth_correct 0)). reflexivity.
  - apply (proj1 (proj2 (wcwidth_correct 7))); [discriminate|left; reflexivity].
  - apply (proj1 (proj2 (proj2 (wcwidth_correct 0x301)))); [vm_compute; discriminate|intros []; discriminate|].
    exists 0%nat, 0x300, 0x36F. split; [reflexivity|split; vm_compute; discriminate].
Defined.
