(* ===== verification/Alloc.v ===== *)
(** * The memory allocator

    [lib/alloc.c] (with [lib/reallocarray.c] and [lib/strdup.c]) on a 64-bit
    machine with pages of 4096 bytes, in the configuration of [dietfeatures.h]
    (neither [WANT_MALLOC_ZERO] nor [WANT_FREE_OVERWRITE]).  A block starts with
    the header [__alloc_t] (the pointer [next] and the [size] of the block, 16
    bytes); small blocks of 16, 32, ... 2048 bytes are kept in the eight free
    lists [__small_mem], larger ones are mapped one by one.  The kernel is an
    interface: the class [Kernel] states what [mmap], [munmap] and [mremap] do. *)

From S2P Require Import Prelude Mem MemFuncs Strings.

Definition PAGE_SIZE : Z := 4096.
Definition MAP_FAILED : Z := 0xffffffffffffffff.
Definition ENOMEM : Z := 12.

(** The addresses of the region [p, p+n), without the mapping of each. *)
Definition unmap (p n : Z) (m : gmap Z Z) : gmap Z Z :=
  filter (λ ab : Z * Z, ¬ p <= ab.1 < p + n) m.
(** [n] bytes from [p] on are not mapped. *)
Definition unmapped (w : world) (p n : Z) : Prop := ∀ a, p <= a < p + n → mem w !! a = None.

(** What the allocator relies on: anonymous memory is fresh, page-aligned, in the
    lower half of the address space and zero; [munmap] removes exactly the given
    pages; [mremap] keeps the contents and fills up with zeros.  A call may fail. *)
Class Kernel : Type := {
  mmap : Z → M Z;
  munmap : Z → Z → M Z;
  mremap : Z → Z → Z → M Z;
  mmap_spec size w :
    0 < size < 2 ^ 64 → size mod PAGE_SIZE = 0 →
    (∃ e, mmap size w = Ok (MAP_FAILED, World (mem w) e)) ∨
    (∃ p, mmap size w = Ok (p, write_bytes p (replicate (Z.to_nat size) 0) w) ∧
       unmapped w p size ∧ 0 < p ∧ p mod PAGE_SIZE = 0 ∧ p + size <= 2 ^ 63);
  munmap_spec p size w :
    p mod PAGE_SIZE = 0 → 0 < size → size mod PAGE_SIZE = 0 → mapped w p size →
    munmap p size w = Ok (0, World (unmap p size (mem w)) (errno w));
  mremap_spec p l size w :
    p mod PAGE_SIZE = 0 → (0 < length l)%nat → Z.of_nat (length l) mod PAGE_SIZE = 0 →
    bytes_at w p l → 0 <= size < 2 ^ 64 → size mod PAGE_SIZE = 0 →
    (∃ e, mremap p (Z.of_nat (length l)) size w = Ok (MAP_FAILED, World (mem w) e)) ∨
    (0 < size ∧ ∃ q,
       let w' := World (unmap p (Z.of_nat (length l)) (mem w)) (errno w) in
       let n := Z.to_nat size in
       mremap p (Z.of_nat (length l)) size w =
         Ok (q, write_bytes q (take n l ++ replicate (n - length l) 0) w') ∧
       unmapped w' q size ∧ 0 < q ∧ q mod PAGE_SIZE = 0 ∧ q + size <= 2 ^ 63);
}.

(** The state: memory, [errno] and the static array [__small_mem]. *)
Record heap : Type := mk_heap { hw : world; small_mem : list Z }.

Definition lift {A} (m : M A) : CM heap A := λ h,
  match m (hw h) with
  | Ok (a, w) => Ok (a, mk_heap w (small_mem h))
  | Fault => Fault
  | Hang => Hang
  end.
Definition get_small (idx : Z) : CM heap Z := λ h,
  match small_mem h !! Z.to_nat idx with Some p => Ok (p, h) | None => Fault end.
Definition put_small (idx p : Z) : CM heap unit := λ h,
  if (Z.to_nat idx <? length (small_mem h))%nat
  then Ok (tt, mk_heap (hw h) (<[Z.to_nat idx := p]> (small_mem h))) else Fault.

(** [sizeof(__alloc_t)]; [b->next] and [b->size] are at offsets 0 and 8. *)
Definition sizeof_alloc_t : Z := 16.
Definition BLOCK_START (b : Z) : Z := b - sizeof_alloc_t.
Definition BLOCK_RET (b : Z) : Z := b + sizeof_alloc_t.
Definition load_next (b : Z) : CM heap Z := lift (load64 b).
Definition store_next (b v : Z) : CM heap unit := lift (store64 b v).
Definition load_size (b : Z) : CM heap Z := lift (load64 (b + 8)).
Definition store_size (b v : Z) : CM heap unit := lift (store64 (b + 8) v).

Definition MEM_BLOCK_SIZE : Z := PAGE_SIZE.
Definition PAGE_ALIGN (s : Z) : Z := Z.land (u64 (s + MEM_BLOCK_SIZE - 1)) (not64 (MEM_BLOCK_SIZE - 1)).
Definition __SMALL_NR (i : Z) : Z := MEM_BLOCK_SIZE / i.
Definition __MIN_SMALL_SIZE : Z := __SMALL_NR 256.
Definition __MAX_SMALL_SIZE : Z := __SMALL_NR 2.
Definition __ind_shift : Z := if MEM_BLOCK_SIZE =? 4096 then 4 else 5.

(** [while(size) { size>>=1; ++idx; }]: [size] has at most 12 bits here. *)
Fixpoint get_index_loop (fuel : nat) (size idx : Z) : Z :=
  match fuel with
  | O => idx
  | S fuel => if size =? 0 then idx else get_index_loop fuel (Z.shiftr size 1) (idx + 1)
  end.
Definition get_index (_size : Z) : Z :=
  let size := Z.shiftr (Z.land (u64 (_size - 1)) (MEM_BLOCK_SIZE - 1)) __ind_shift in
  get_index_loop 64 size 0.
Definition GET_SIZE (s : Z) : Z := Z.shiftl __MIN_SMALL_SIZE (get_index s).

(** [for (i=0;i<nr;i++) { ptr->next=(((void* )ptr)+size); ptr=ptr->next; }] *)
Fixpoint link_blocks (nr : nat) (ptr size : Z) : M Z :=
  match nr with
  | O => mret ptr
  | S nr =>
      _ ← store64 ptr (ptr + size);
      ptr ← load64 ptr;
      link_blocks nr ptr size
  end.

Section alloc.
Context {K : Kernel}.

Definition do_mmap (size : Z) : CM heap Z := lift (mmap size).

Definition __small_free (_ptr _size : Z) : CM heap unit :=
  let ptr := BLOCK_START _ptr in
  let size := _size in
  let idx := get_index size in
  _ ← lift (memset ptr 0 size);
  head ← get_small idx;
  _ ← store_next ptr head;
  put_small idx ptr.

(** The new blocks of a page, when there is no free block of the class. *)
Definition refill (idx size : Z) : CM heap (option Z) :=
  ptr ← do_mmap MEM_BLOCK_SIZE;
  if ptr =? MAP_FAILED then mret None else
  _ ← put_small idx ptr;
  let nr := __SMALL_NR size - 1 in
  ptr ← lift (link_blocks (Z.to_nat nr) ptr size);
  _ ← store_next ptr 0;
  ptr ← get_small idx;
  mret (Some ptr).

Definition __small_malloc (_size : Z) : CM heap Z :=
  let size := _size in
  let idx := get_index size in
  ptr ← get_small idx;
  ptr ← (if ptr =? 0 then refill idx size else mret (Some ptr));
  match ptr with
  | None => mret MAP_FAILED
  | Some ptr =>
      next ← load_next ptr;
      _ ← put_small idx next;
      _ ← store_next ptr 0;
      mret ptr
  end.

Definition _alloc_libc_free (ptr : Z) : CM heap unit :=
  if negb (ptr =? 0) then
    size ← load_size (BLOCK_START ptr);
    if negb (size =? 0) then
      if size <=? __MAX_SMALL_SIZE then __small_free ptr size
      else _ ← lift (munmap (BLOCK_START ptr) size); mret tt
    else mret tt
  else mret tt.
Definition free := _alloc_libc_free.

Definition err_out : CM heap Z := _ ← lift (set_errno ENOMEM); mret 0.

Definition _alloc_libc_malloc (size : Z) : CM heap Z :=
  if size =? 0 then err_out else
  let size := u64 (size + sizeof_alloc_t) in
  if size <? sizeof_alloc_t then err_out else
  '(ptr, need) ← (if size <=? __MAX_SMALL_SIZE then
                    let need := GET_SIZE size in
                    ptr ← __small_malloc need; mret (ptr, need)
                  else
                    let need := PAGE_ALIGN size in
                    ptr ← (if need =? 0 then mret MAP_FAILED else do_mmap need);
                    mret (ptr, need));
  if ptr =? MAP_FAILED then err_out else
  _ ← store_size ptr need;
  mret (BLOCK_RET ptr).
Definition malloc := _alloc_libc_malloc.

Definition calloc (nmemb _size : Z) : CM heap Z :=
  if _size * nmemb >=? 2 ^ 64 then err_out else malloc (_size * nmemb).

Definition realloc (ptr _size : Z) : CM heap Z :=
  let size := _size in
  if negb (ptr =? 0) then
    if negb (size =? 0) then
      let tmp := BLOCK_START ptr in
      let size := u64 (size + sizeof_alloc_t) in
      if size <? sizeof_alloc_t then err_out else
      let size := if size <=? __MAX_SMALL_SIZE then GET_SIZE size else PAGE_ALIGN size in
      tmp_size ← load_size tmp;
      if negb (tmp_size =? size) then
        if tmp_size <=? __MAX_SMALL_SIZE then
          new ← _alloc_libc_malloc _size;
          _ ← (if negb (new =? 0) then
                 size ← load_size (BLOCK_START new);
                 let size := if size >? tmp_size then tmp_size else size in
                 _ ← (if negb (size =? 0) then
                        _ ← lift (memcpy new ptr (size - sizeof_alloc_t)); mret tt
                      else mret tt);
                 _alloc_libc_free ptr
               else mret tt);
          mret new
        else
          let size := PAGE_ALIGN size in
          foo ← lift (mremap tmp tmp_size size);
          if foo =? MAP_FAILED then err_out else
          _ ← store_size foo size;
          mret (BLOCK_RET foo)
      else mret ptr
    else _ ← _alloc_libc_free ptr; mret 0
  else if negb (size =? 0) then _alloc_libc_malloc size else mret ptr.

Definition reallocarray (ptr nmemb size : Z) : CM heap Z :=
  let l := nmemb * size in
  if negb (u64 l =? l) then mret 0 else realloc ptr (u64 l).

Definition strdup (s : Z) : CM heap Z :=
  n ← lift (strlen s);
  let l := u64 (n + 1) in
  tmp ← malloc l;
  if tmp =? 0 then mret 0 else lift (memcpy tmp s l).
End alloc.
