(* ===== verification/AllocFacts.v ===== *)
(** * The memory allocator is safe

    The invariant of the heap of [Alloc]: the eight free lists are chains of
    zeroed blocks of their class, every block that was handed out still has its
    size in its header, and no two blocks overlap.  Every operation preserves it
    and keeps the contents of the blocks of the program. *)

From S2P Require Import Prelude Mem MemFuncs Strings StrlenFacts Alloc.

#[local] Arguments le_split : simpl never.

(** ** Size classes *)

Definition class_size (i : nat) : Z := 16 * 2 ^ Z.of_nat i.

Definition class_row_ok (s : Z) : bool :=
  let i := Z.to_nat (get_index s) in
  (i <? 8)%nat && (get_index s =? Z.of_nat i) && (GET_SIZE s =? class_size i) &&
  (s <=? GET_SIZE s) && (GET_SIZE s <=? __MAX_SMALL_SIZE) &&
  (get_index (GET_SIZE s) =? Z.of_nat i).

Lemma class_rows s : 1 <= s <= 2048 → class_row_ok s = true.
Proof. intros H. apply (interval_forallb class_row_ok 1 2048); [vm_compute; reflexivity|lia]. Qed.

Lemma class_of s :
  1 <= s <= 2048 → ∃ i : nat, (i < 8)%nat ∧ get_index s = Z.of_nat i ∧ GET_SIZE s = class_size i ∧
    s <= class_size i <= 2048 ∧ get_index (class_size i) = Z.of_nat i.
Proof.
  intros H. pose proof (class_rows s H) as Hr. unfold class_row_ok in Hr.
  rewrite !andb_true_iff in Hr. change __MAX_SMALL_SIZE with 2048 in Hr.
  exists (Z.to_nat (get_index s)). destruct Hr as [[[[[H1 H2] H3] H4] H5] H6].
  apply Nat.ltb_lt in H1. rewrite Z.eqb_eq in H2, H3, H6. rewrite Z.leb_le in H4, H5.
  rewrite <- H3. split_and!; try done; lia.
Qed.

Definition class_idx_ok (i : nat) : bool :=
  (get_index (class_size i) =? Z.of_nat i) && (16 <=? class_size i) && (class_size i <=? 2048) &&
  (class_size i mod 16 =? 0) && (class_size i * __SMALL_NR (class_size i) =? 4096) &&
  (2 <=? __SMALL_NR (class_size i)).

Lemma class_idx i : (i < 8)%nat →
  get_index (class_size i) = Z.of_nat i ∧ 16 <= class_size i <= 2048 ∧ class_size i mod 16 = 0 ∧
  class_size i * __SMALL_NR (class_size i) = 4096 ∧ 2 <= __SMALL_NR (class_size i).
Proof.
  intros H. assert (class_idx_ok i = true) as Hr.
  { do 8 (destruct i as [|i]; [vm_compute; reflexivity|]). lia. }
  unfold class_idx_ok in Hr. rewrite !andb_true_iff in Hr. lia.
Qed.

(** [PAGE_ALIGN] rounds up to a multiple of the page size, or wraps to 0. *)
Lemma PAGE_ALIGN_spec s :
  0 < s < 2 ^ 64 → PAGE_ALIGN s mod 4096 = 0 ∧ 0 <= PAGE_ALIGN s < 2 ^ 64 ∧
  (PAGE_ALIGN s = 0 ∨ s <= PAGE_ALIGN s).
Proof.
  intros Hs. change (2 ^ 64) with 18446744073709551616 in *.
  assert (PAGE_ALIGN s = 4096 * (u64 (s + 4095) / 4096)) as ->.
  { unfold PAGE_ALIGN, MEM_BLOCK_SIZE, PAGE_SIZE. replace (s + 4096 - 1) with (s + 4095) by lia.
    pose proof (u64_range (s + 4095)) as Hr. set (x := u64 (s + 4095)) in *. clearbody x.
    change (not64 (4096 - 1)) with (Z.ldiff (Z.ones 64) (Z.ones 12)).
    rewrite Z.land_comm, Z.ldiff_land, <- Z.land_assoc.
    rewrite <- (Z.land_comm x), (Z.land_assoc (Z.ones 64)), (Z.land_comm (Z.ones 64)).
    rewrite Z.land_ones by lia. rewrite Z.mod_small by (change (2 ^ 64) with 18446744073709551616; lia).
    rewrite <- Z.ldiff_land, Z.ldiff_ones_r by lia.
    rewrite Z.shiftr_div_pow2, Z.shiftl_mul_pow2 by lia. change (2 ^ 12) with 4096. lia. }
  uwrap. Z.div_mod_to_equations. lia.
Qed.

(** ** Blocks *)

(** A block: its address, its size and, if it is free, the next free block. *)
Record block : Type := mk_block { b_at : Z; b_size : Z; b_next : option Z }.

Definition overlap_free (B C : block) : Prop := disjoint (b_at B) (b_size B) (b_at C) (b_size C).

(** No two blocks of the list overlap. *)
Fixpoint separate (Bs : list block) : Prop :=
  match Bs with [] => True | B :: Bs => Forall (overlap_free B) Bs ∧ separate Bs end.

#[export] Instance overlap_free_sym : Symmetric overlap_free.
Proof. unfold overlap_free, disjoint. intros B C. lia. Qed.

#[export] Instance separate_perm : Proper (Permutation ==> iff) separate.
Proof.
  assert (∀ Bs Cs, Bs ≡ₚ Cs → separate Bs → separate Cs) as H.
  { induction 1 as [|B Bs Cs HP IH|B C Bs|Bs Cs Ds _ IH1 _ IH2]; simpl; auto.
    - intros [H1 H2]. split; [by rewrite <- HP|auto].
    - rewrite !Forall_cons. intros ((H1 & H2) & H3 & H4). split_and!; try done; by symmetry. }
  intros Bs Cs HP. split; apply H; [done|by symmetry].
Qed.

(** The sizes there are: a class, or a number of pages (of a page-aligned block). *)
Definition size_ok (B : block) : Prop :=
  (∃ i, (i < 8)%nat ∧ b_size B = class_size i ∧ b_at B mod 16 = 0) ∨
  (2048 < b_size B ∧ b_size B mod 4096 = 0 ∧ b_at B mod 4096 = 0).

Definition zeros (n : Z) : list Z := replicate (Z.to_nat n) 0.

(** What the memory of a block holds: a free block is zero behind the pointer, a
    block of the program has its size in the header. *)
Definition block_data (w : world) (B : block) : Prop :=
  match b_next B with
  | Some next => 0 <= next < 2 ^ 64 ∧ bytes_at w (b_at B) (le_split 8 next ++ zeros (b_size B - 8))
  | None => bytes_at w (b_at B + 8) (le_split 8 (b_size B)) ∧ mapped w (b_at B) (b_size B)
  end.
Definition block_ok (w : world) (B : block) : Prop :=
  0 < b_at B ∧ b_at B + b_size B <= 2 ^ 63 ∧ size_ok B ∧ block_data w B.

(** The free blocks of one class, from the list of their addresses, and of all. *)
Fixpoint free_blocks (size : Z) (l : list Z) : list block :=
  match l with [] => [] | b :: l => mk_block b size (Some (hd 0 l)) :: free_blocks size l end.
Fixpoint all_free (i : nat) (fl : list (list Z)) : list block :=
  match fl with [] => [] | l :: fl => free_blocks (class_size i) l ++ all_free (S i) fl end.
Definition live_block (bn : Z * Z) : block := mk_block bn.1 bn.2 None.
Definition all_blocks (fl : list (list Z)) (live : list block) : list block := all_free 0 fl ++ live.

(** The invariant: [fl] are the addresses in the free lists, [live] the blocks
    outside of them (those of the program, as [live_block]s). *)
Record heap_ok (h : heap) (fl : list (list Z)) (live : list block) : Prop := {
  ho_mem : mem_ok (hw h);
  ho_len : length fl = 8%nat;
  ho_heads : small_mem h = hd 0 <$> fl;
  ho_blocks : Forall (block_ok (hw h)) (all_blocks fl live);
  ho_separate : separate (all_blocks fl live);
}.

Definition in_block (B : block) (a : Z) : Prop := b_at B <= a < b_at B + b_size B.
(** The memory outside the region is the same in both worlds. *)
Definition same_outside (R : Z → Prop) (w w' : world) : Prop :=
  ∀ a, ¬ R a → mem w' !! a = mem w !! a.

Lemma class_range i : (i < 8)%nat → 16 <= class_size i <= 2048.
Proof. intros Hi. apply (class_idx i Hi). Qed.

Lemma size_ok_pos B : size_ok B → 16 <= b_size B.
Proof. intros [(i & Hi & -> & _)|]; [|lia]. pose proof (class_range i Hi). lia. Qed.

Lemma size_ok_small B :
  size_ok B → b_size B <= 2048 → ∃ i, (i < 8)%nat ∧ b_size B = class_size i ∧ b_at B mod 16 = 0.
Proof. intros [H|H]; [done|lia]. Qed.

Lemma size_ok_align B : size_ok B → b_at B mod 16 = 0.
Proof. intros [(i & _ & _ & H)|(_ & _ & H)]; [done|]. Z.div_mod_to_equations. lia. Qed.

Lemma block_mapped w B : block_ok w B → mapped w (b_at B) (b_size B).
Proof.
  intros (_ & _ & Hs & Hd). unfold block_data in Hd. destruct (b_next B); [|by destruct Hd].
  destruct Hd as [_ Hd]. apply bytes_at_mapped in Hd. apply size_ok_pos in Hs.
  unfold zeros in Hd. rewrite length_app, length_replicate, length_le_split in Hd.
  by replace (Z.of_nat (8 + Z.to_nat (b_size B - 8))) with (b_size B) in Hd by lia.
Qed.

Lemma bytes_at_same w w' p l :
  (∀ a, p <= a < p + Z.of_nat (length l) → mem w' !! a = mem w !! a) → bytes_at w p l → bytes_at w' p l.
Proof.
  intros Hs H i b Hi. pose proof (lookup_lt_Some _ _ _ Hi). rewrite Hs by lia. by apply H.
Qed.

Lemma mapped_same w w' p n :
  (∀ a, p <= a < p + n → mem w' !! a = mem w !! a) → mapped w p n → mapped w' p n.
Proof. intros Hs H a Ha. rewrite Hs by done. by apply H. Qed.

(** A block does not notice changes outside of it. *)
Lemma block_ok_same w w' B :
  (∀ a, in_block B a → mem w' !! a = mem w !! a) → block_ok w B → block_ok w' B.
Proof.
  intros Hs (H1 & H2 & H3 & Hd). split_and!; try done.
  pose proof (size_ok_pos _ H3). unfold block_data, in_block in *. destruct (b_next B).
  - destruct Hd as [Hn Hd]. split; [done|]. eapply bytes_at_same; [|exact Hd].
    unfold zeros. rewrite length_app, length_replicate, length_le_split. intros a Ha. apply Hs. lia.
  - destruct Hd as [Hd Hm]. split.
    + eapply bytes_at_same; [|exact Hd]. rewrite length_le_split. intros a Ha. apply Hs. lia.
    + eapply mapped_same; [|exact Hm]. done.
Qed.

(** Changing one block, whatever its new state, leaves the others alone. *)
Lemma change_block w w' B B' Bs :
  separate (B :: Bs) → Forall (block_ok w) (B :: Bs) → same_outside (in_block B) w w' →
  b_at B' = b_at B → b_size B' = b_size B → block_ok w' B' →
  separate (B' :: Bs) ∧ Forall (block_ok w') (B' :: Bs).
Proof.
  intros [Hs1 Hs2] [HB HBs]%Forall_cons Hsame Ha Hn HB'. split.
  - split; [|done]. eapply Forall_impl; [exact Hs1|]. intros C. unfold overlap_free. by rewrite Ha, Hn.
  - constructor; [done|]. apply Forall_forall. intros C HC.
    rewrite Forall_forall in HBs, Hs1. eapply block_ok_same; [|by apply HBs].
    intros a Hin. apply Hsame. intros Hin'. specialize (Hs1 C HC).
    unfold overlap_free, disjoint, in_block in *. lia.
Qed.

(** Forgetting a block and the memory it had. *)
Lemma drop_block w w' B Bs :
  separate (B :: Bs) → Forall (block_ok w) (B :: Bs) → same_outside (in_block B) w w' →
  separate Bs ∧ Forall (block_ok w') Bs.
Proof.
  intros [Hs1 Hs2] [HB HBs]%Forall_cons Hsame. split; [done|].
  apply Forall_forall. intros C HC. rewrite Forall_forall in HBs, Hs1.
  eapply block_ok_same; [|by apply HBs]. intros a Hin. apply Hsame. intros Hin'.
  specialize (Hs1 C HC). unfold overlap_free, disjoint, in_block in *. lia.
Qed.

(** New blocks in memory that was not mapped before. *)
Lemma add_blocks w w' p n Ns Bs :
  0 < n → separate Bs → Forall (block_ok w) Bs → unmapped w p n →
  same_outside (λ a, p <= a < p + n) w w' →
  separate Ns → Forall (block_ok w') Ns → Forall (λ N, p <= b_at N ∧ b_at N + b_size N <= p + n) Ns →
  separate (Ns ++ Bs) ∧ Forall (block_ok w') (Ns ++ Bs).
Proof.
  intros Hn Hs HBs Hun Hsame HsN HN Hin.
  assert (Forall (λ C, disjoint p n (b_at C) (b_size C)) Bs) as Hdis.
  { eapply Forall_impl; [exact HBs|]. intros C HC. pose proof (block_mapped _ _ HC) as Hm.
    pose proof (size_ok_pos C ltac:(apply HC)). unfold disjoint.
    destruct (decide (p + n <= b_at C)); [lia|]. destruct (decide (b_at C + b_size C <= p)); [lia|].
    exfalso. destruct (Hm (Z.max p (b_at C))) as [x Hx]; [lia|]. rewrite Hun in Hx by lia. done. }
  split.
  - clear HN. induction Ns as [|N Ns IH]; [done|]. simpl in *. destruct HsN as [H1 H2].
    apply Forall_cons in Hin as [HN Hin]. split; [|by apply IH].
    apply Forall_app. split; [done|]. eapply Forall_impl; [exact Hdis|].
    unfold overlap_free, disjoint. intros C HC. lia.
  - apply Forall_app. split; [done|]. apply Forall_forall. intros C HC.
    rewrite Forall_forall in HBs, Hdis. eapply block_ok_same; [|by apply HBs].
    intros a Ha. apply Hsame. specialize (Hdis C HC). unfold disjoint, in_block in *. lia.
Qed.

(** ** Pointers in memory *)

Lemma load_ptr w p v : bytes_at w p (le_split 8 v) → 0 <= v < 2 ^ 64 → load64 p w = Ok (v, w).
Proof.
  intros H Hv. pose proof (load_le_ok _ _ _ H) as Hl. rewrite length_le_split in Hl. rewrite Hl.
  rewrite le_combine_split. by rewrite Z.mod_small.
Qed.

Lemma store_ptr w p v : mapped w p 8 → store64 p v w = Ok (tt, write_bytes p (le_split 8 v) w).
Proof.
  intros H. apply store_bytes_ok; [by rewrite length_le_split|apply le_split_byte].
Qed.

Lemma lift_ok {A} (m : M A) h a w :
  m (hw h) = Ok (a, w) → lift m h = Ok (a, mk_heap w (small_mem h)).
Proof. unfold lift. by intros ->. Qed.

Lemma same_outside_write p l w : same_outside (λ a, p <= a < p + Z.of_nat (length l)) w (write_bytes p l w).
Proof. intros a Ha. apply write_bytes_lookup_ne. lia. Qed.

Lemma same_outside_mono (R S : Z → Prop) w w' : (∀ a, R a → S a) → same_outside R w w' → same_outside S w w'.
Proof. intros H Hs a Ha. apply Hs. auto. Qed.

Lemma same_outside_trans R w1 w2 w3 : same_outside R w1 w2 → same_outside R w2 w3 → same_outside R w1 w3.
Proof. intros H1 H2 a Ha. rewrite H2, H1; done. Qed.

Lemma zeros_app m n : 0 <= m → 0 <= n → zeros (m + n) = zeros m ++ zeros n.
Proof. intros. unfold zeros. by rewrite Z2Nat.inj_add, replicate_add by done. Qed.

Lemma length_zeros n : 0 <= n → Z.of_nat (length (zeros n)) = n.
Proof. intros. unfold zeros. rewrite length_replicate. lia. Qed.

Lemma zeros_byte n : Forall byte (zeros n).
Proof. apply Forall_replicate. unfold byte. lia. Qed.

Lemma bytes_at_zeros_app w p m n :
  0 <= m → 0 <= n → bytes_at w p (zeros (m + n)) ↔ bytes_at w p (zeros m) ∧ bytes_at w (p + m) (zeros n).
Proof. intros. rewrite zeros_app, bytes_at_app by done. by rewrite length_zeros. Qed.

(** ** A fresh page *)

Fixpoint addrs (p size : Z) (n : nat) : list Z :=
  match n with O => [] | S n => p :: addrs (p + size) size n end.

Lemma hd_addrs p size n : hd 0 (addrs p size n) = match n with O => 0 | _ => p end.
Proof. by destruct n. Qed.

Section fresh_page.
Context (size : Z) (Hsize : 16 <= size).

(** Linking zeroed memory makes it a chain of free blocks. *)
Lemma link_blocks_ok nr p w :
  0 < p → p + (Z.of_nat nr + 1) * size <= 2 ^ 63 → mem_ok w →
  bytes_at w p (zeros ((Z.of_nat nr + 1) * size)) →
  ∃ w', link_blocks nr p size w = Ok (p + Z.of_nat nr * size, w') ∧ mem_ok w' ∧ errno w' = errno w ∧
    same_outside (λ a, p <= a < p + Z.of_nat nr * size) w w' ∧
    bytes_at w' (p + Z.of_nat nr * size) (zeros size) ∧
    Forall (block_data w') (free_blocks size (addrs p size (S nr))).
Proof.
  revert p w. induction nr as [|nr IH]; intros p w Hp Hhi Hok Hz.
  - replace ((Z.of_nat 0 + 1) * size) with size in * by lia. exists w.
    simpl. rewrite Z.add_0_r. split_and!; try done. constructor; [|constructor].
    split; [simpl; lia|]. simpl b_at. simpl b_size.
    replace size with (8 + (size - 8)) in Hz at 1 by lia.
    rewrite zeros_app in Hz by lia. exact Hz.
  - replace ((Z.of_nat (S nr) + 1) * size) with (size + (Z.of_nat nr + 1) * size) in * by lia.
    apply bytes_at_zeros_app in Hz as [Hz1 Hz2]; [|lia|nia].
    pose proof (bytes_at_mapped _ _ _ Hz1) as Hm. rewrite length_zeros in Hm by lia.
    cbn [link_blocks]. set (w1 := write_bytes p (le_split 8 (p + size)) w).
    rewrite (bind_Ok _ _ _ _ _ (store_ptr w p (p + size) ltac:(eapply mapped_sub; [exact Hm|lia|lia]))).
    fold w1. change (2 ^ 63) with 9223372036854775808 in *.
    assert (bytes_at w1 p (le_split 8 (p + size))) as Hw1 by apply write_bytes_at.
    erewrite bind_Ok by (apply load_ptr; [exact Hw1|nia]).
    destruct (IH (p + size) w1) as (w' & Hrun & Hok' & He & Hsame & Hlast & Hdata); [lia|lia| | |].
    { apply write_bytes_mem_ok; [done|apply le_split_byte]. }
    { apply write_bytes_bytes_at_ne; [done|]. rewrite length_le_split, length_zeros by nia.
      unfold disjoint. lia. }
    exists w'. rewrite Hrun.
    replace (p + Z.of_nat (S nr) * size) with (p + size + Z.of_nat nr * size) by lia.
    split_and!; try done.
    + intros a Ha. rewrite Hsame by nia. apply write_bytes_lookup_ne. rewrite length_le_split. nia.
    + cbn [addrs free_blocks]. constructor; [|done]. split; [simpl; nia|]. simpl b_at. simpl b_size.
      rewrite bytes_at_app, length_le_split. split; eapply bytes_at_same.
      * intros a Ha. rewrite length_le_split in Ha. apply Hsame. lia.
      * exact Hw1.
      * intros a Ha. rewrite length_zeros in Ha by lia. rewrite Hsame by lia.
        apply write_bytes_lookup_ne. rewrite length_le_split. lia.
      * replace size with (8 + (size - 8)) in Hz1 by lia.
        apply bytes_at_zeros_app in Hz1; [|lia|lia]. apply Hz1.
Qed.

Lemma addrs_blocks n p :
  separate (free_blocks size (addrs p size n)) ∧
  Forall (λ N, p <= b_at N ∧ b_at N + b_size N <= p + Z.of_nat n * size ∧ b_size N = size ∧
               (b_at N - p) mod size = 0) (free_blocks size (addrs p size n)).
Proof.
  revert p. induction n as [|n IH]; intros p; [done|]. cbn [addrs free_blocks separate].
  destruct (IH (p + size)) as [Hs Hr]. split; [split; [|done]|constructor].
  - eapply Forall_impl; [exact Hr|]. intros N HN. simpl in HN. left. simpl. lia.
  - simpl. rewrite Z.sub_diag. split_and!; try lia. apply Z.mod_0_l. lia.
  - eapply Forall_impl; [exact Hr|]. intros N HN. simpl in HN. split_and!; try lia.
    replace (b_at N - p) with (b_at N - (p + size) + 1 * size) by lia. rewrite Z.mod_add by lia. lia.
Qed.
End fresh_page.

(** ** The free list of a class *)

Lemma all_free_split k fl i l :
  fl !! i = Some l →
  ∃ rest, all_free k fl ≡ₚ free_blocks (class_size (k + i)) l ++ rest ∧
    ∀ l', all_free k (<[i := l']> fl) ≡ₚ free_blocks (class_size (k + i)) l' ++ rest.
Proof.
  revert k i. induction fl as [|l0 fl IH]; intros k [|i] Hi; simpl in Hi; [done|done| |].
  - simplify_eq. exists (all_free (S k) fl). rewrite Nat.add_0_r. done.
  - destruct (IH (S k) i Hi) as (rest & Hr & Hl).
    exists (free_blocks (class_size k) l0 ++ rest).
    replace (k + S i)%nat with (S k + i)%nat by lia. cbn [all_free]. split.
    + rewrite Hr. by rewrite !app_assoc, (Permutation_app_comm (free_blocks (class_size k) l0)).
    + intros l'. cbn [insert list_insert all_free]. rewrite Hl.
      by rewrite !app_assoc, (Permutation_app_comm (free_blocks (class_size k) l0)).
Qed.

(** The blocks, with those of class [i] first, and how they change with that class. *)
Lemma all_blocks_split fl i l :
  fl !! i = Some l →
  ∃ rest, (∀ live, all_blocks fl live ≡ₚ free_blocks (class_size i) l ++ rest ++ live) ∧
    ∀ l' live, all_blocks (<[i := l']> fl) live ≡ₚ free_blocks (class_size i) l' ++ rest ++ live.
Proof.
  intros Hi. destruct (all_free_split 0 fl i l Hi) as (rest & Hr & Hl). exists rest.
  unfold all_blocks. split; intros; [rewrite Hr|rewrite Hl]; by rewrite <- app_assoc.
Qed.

Ltac bsimpl := cbn [b_at b_size b_next live_block fst snd] in *.

(** ** Operations on the free lists *)

Lemma heap_ok_lookup h fl live i l :
  heap_ok h fl live → fl !! i = Some l → (i < 8)%nat ∧ small_mem h !! i = Some (hd 0 l) ∧ length (small_mem h) = 8%nat.
Proof.
  intros H Hi. pose proof (lookup_lt_Some _ _ _ Hi) as Hlt. rewrite (ho_len _ _ _ H) in Hlt.
  rewrite (ho_heads _ _ _ H), list_lookup_fmap, Hi, length_fmap, (ho_len _ _ _ H). done.
Qed.

Lemma get_small_ok h fl live i l :
  heap_ok h fl live → fl !! i = Some l → get_small (Z.of_nat i) h = Ok (hd 0 l, h).
Proof.
  intros H Hi. destruct (heap_ok_lookup _ _ _ _ _ H Hi) as (_ & Hl & _).
  unfold get_small. by rewrite Nat2Z.id, Hl.
Qed.

Lemma put_small_ok h i p :
  length (small_mem h) = 8%nat → (i < 8)%nat →
  put_small (Z.of_nat i) p h = Ok (tt, mk_heap (hw h) (<[i := p]> (small_mem h))).
Proof. intros Hl Hi. unfold put_small. rewrite Nat2Z.id, Hl. by rewrite (proj2 (Nat.ltb_lt _ _) Hi). Qed.

Lemma heap_ok_free h fl live i l :
  heap_ok h fl live → fl !! i = Some l → Forall (block_ok (hw h)) (free_blocks (class_size i) l).
Proof.
  intros H Hi. destruct (all_blocks_split fl i l Hi) as (rest & Hr & _).
  pose proof (ho_blocks _ _ _ H) as Hb. rewrite Hr in Hb. by apply Forall_app in Hb as [Hb _].
Qed.

Lemma heap_ok_head h fl live i l :
  heap_ok h fl live → fl !! i = Some l → 0 <= hd 0 l < 2 ^ 63.
Proof.
  intros H Hi. pose proof (heap_ok_free _ _ _ _ _ H Hi) as Hf. destruct l as [|b l]; [done|].
  inversion Hf as [|?? (H1 & H2 & H3 & _) _]; subst. simpl in *.
  apply size_ok_pos in H3. simpl in H3. lia.
Qed.

(** The memory and the lists decide. *)
Lemma heap_ok_mem h h' fl live :
  mem (hw h') = mem (hw h) → small_mem h' = small_mem h → heap_ok h fl live → heap_ok h' fl live.
Proof.
  intros Hm Hs []. split; try done.
  - unfold mem_ok. by rewrite Hm.
  - by rewrite Hs.
  - eapply Forall_impl; [done|]. intros B. apply block_ok_same. intros. by rewrite Hm.
Qed.

(** Taking the first block of a list. *)
Lemma take_block_ok h fl live i b l :
  heap_ok h fl live → fl !! i = Some (b :: l) →
  let B := mk_block b (class_size i) (Some 0) in
  ∃ h', (next ← load_next b; _ ← put_small (Z.of_nat i) next; _ ← store_next b 0; mret b) h = Ok (b, h') ∧
    heap_ok h' (<[i := l]> fl) (B :: live) ∧ same_outside (in_block B) (hw h) (hw h') ∧
    errno (hw h') = errno (hw h).
Proof.
  intros H Hi B. destruct (heap_ok_lookup _ _ _ _ _ H Hi) as (Hlt & _ & Hsl).
  destruct (all_blocks_split fl i _ Hi) as (rest & Hall & Hall').
  destruct H as [Hmem Hlen Hheads Hblocks Hsep].
  rewrite Hall in Hblocks, Hsep. cbn [free_blocks app] in *.
  pose proof (class_range i Hlt) as Hc.
  apply Forall_cons in Hblocks as HB. destruct HB as [HB _].
  pose proof (block_mapped _ _ HB) as Hm. simpl in Hm.
  assert (mapped (hw h) b 8) as Hm8 by (eapply mapped_sub; [exact Hm|lia|lia]).
  pose proof HB as (Hb1 & Hb2 & Hb3 & Hb4 & Hb5). bsimpl.
  apply bytes_at_app in Hb5 as [Hnext Hzero].
  erewrite bind_Ok by (apply lift_ok, load_ptr; [exact Hnext|lia]).
  erewrite bind_Ok by (by apply put_small_ok).
  erewrite bind_Ok by (apply lift_ok, store_ptr; exact Hm8).
  eexists. split; [reflexivity|]. cbn [hw small_mem].
  set (w' := write_bytes b (le_split 8 0) (hw h)).
  assert (same_outside (in_block B) (hw h) w') as Hsame.
  { eapply same_outside_mono; [|apply same_outside_write].
    rewrite ?length_le_split. unfold in_block. simpl. lia. }
  assert (block_ok w' B) as HB'.
  { split_and!; try done. split; [done|]. apply bytes_at_app. split; [apply write_bytes_at|].
    apply write_bytes_bytes_at_ne; [exact Hzero|]. rewrite ?length_le_split. unfold disjoint, B. bsimpl. lia. }
  destruct (change_block _ w' _ B _ Hsep Hblocks Hsame eq_refl eq_refl HB') as [Hsep' Hblocks'].
  assert (all_blocks (<[i:=l]> fl) (B :: live) ≡ₚ B :: free_blocks (class_size i) l ++ rest ++ live) as HP.
  { rewrite Hall'. rewrite !app_assoc. by rewrite Permutation_middle. }
  split_and!; [split| |]; cbn [hw small_mem].
  - apply write_bytes_mem_ok; [done|apply le_split_byte].
  - by rewrite length_insert.
  - by rewrite Hheads, list_fmap_insert.
  - by rewrite HP.
  - by rewrite HP.
  - done.
  - apply errno_write_bytes.
Qed.

(** [__small_free] clears the block and puts it in front of its list. *)
Lemma small_free_ok h fl live b n :
  heap_ok h fl (mk_block b n None :: live) → n <= 2048 →
  let B := mk_block b n None in
  ∃ h' i l, __small_free (BLOCK_RET b) n h = Ok (tt, h') ∧ fl !! i = Some l ∧ n = class_size i ∧
    heap_ok h' (<[i := b :: l]> fl) live ∧ same_outside (in_block B) (hw h) (hw h') ∧
    errno (hw h') = errno (hw h).
Proof.
  intros H Hn B. pose proof (ho_blocks _ _ _ H) as HB. unfold all_blocks in HB.
  apply Forall_app in HB as [_ [HB _]%Forall_cons]. pose proof HB as (Hb1 & Hb2 & Hb3 & _ & Hm).
  destruct (size_ok_small _ Hb3 Hn) as (i & Hi & Hsz & Hal). simpl in *.
  destruct (class_idx i Hi) as (Hidx & Hc & _).
  destruct (lookup_lt_is_Some_2 fl i) as [l Hl]; [rewrite (ho_len _ _ _ H); done|].
  destruct (heap_ok_lookup _ _ _ _ _ H Hl) as (_ & Hhead & Hsl).
  pose proof (heap_ok_head _ _ _ _ _ H Hl) as Hrange.
  destruct (all_blocks_split fl i _ Hl) as (rest & Hall & Hall').
  pose proof (get_small_ok _ _ _ _ _ H Hl) as Hget.
  destruct H as [Hmem Hlen Hheads Hblocks Hsep].
  unfold __small_free, BLOCK_START, BLOCK_RET. replace (b + sizeof_alloc_t - sizeof_alloc_t) with b by lia.
  cbv zeta. rewrite Hsz, Hidx. rewrite <- Hsz. change (2 ^ 63) with 9223372036854775808 in *.
  assert (n = Z.of_nat (Z.to_nat n)) as Hnn by lia.
  set (w1 := write_bytes b (zeros n) (hw h)).
  assert (memset b 0 n (hw h) = Ok (b, w1)) as Hset.
  { rewrite Hnn. rewrite memset_ok; [unfold w1, zeros; by rewrite Hnn, Nat2Z.id at 1| |].
    - change (2 ^ 64) with 18446744073709551616. lia.
    - by rewrite <- Hnn. }
  rewrite (bind_Ok _ _ _ _ _ (lift_ok _ _ _ _ Hset)).
  erewrite bind_Ok by (unfold get_small in Hget |- *; cbn [small_mem] in *;
    rewrite Nat2Z.id, Hhead; reflexivity).
  assert (mapped w1 b n) as Hm1 by (by apply write_bytes_mapped).
  erewrite bind_Ok by (apply lift_ok, store_ptr; eapply mapped_sub; [exact Hm1|lia|lia]).
  rewrite put_small_ok by done. eexists _, i, l. split; [reflexivity|].
  cbn [hw small_mem]. set (w' := write_bytes b (le_split 8 (hd 0 l)) w1).
  assert (same_outside (in_block B) (hw h) w') as Hsame.
  { eapply same_outside_trans; (eapply same_outside_mono; [|apply same_outside_write]);
      rewrite ?length_zeros, ?length_le_split by lia; unfold in_block; simpl; lia. }
  set (B' := mk_block b n (Some (hd 0 l))).
  assert (block_ok w' B') as HB'.
  { split_and!; try done. split; [change (2 ^ 64) with 18446744073709551616; lia|].
    unfold B'. bsimpl. apply bytes_at_app. split; [apply write_bytes_at|].
    rewrite ?length_le_split. apply write_bytes_bytes_at_ne.
    - pose proof (write_bytes_at b (zeros n) (hw h)) as Hz. fold w1 in Hz.
      replace n with (8 + (n - 8)) in Hz by lia. apply bytes_at_zeros_app in Hz; [|lia|lia]. apply Hz.
    - rewrite ?length_le_split. unfold disjoint. lia. }
  rewrite Hall in Hblocks, Hsep.
  assert (∀ C, free_blocks (class_size i) l ++ rest ++ C :: live ≡ₚ
    C :: free_blocks (class_size i) l ++ rest ++ live) as HP
    by (intros C; rewrite !app_assoc; by rewrite Permutation_middle).
  rewrite HP in Hblocks, Hsep.
  destruct (change_block _ w' _ B' _ Hsep Hblocks Hsame eq_refl eq_refl HB') as [Hsep' Hblocks'].
  assert (all_blocks (<[i:=b :: l]> fl) live ≡ₚ B' :: free_blocks (class_size i) l ++ rest ++ live) as HP'.
  { rewrite Hall'. cbn [free_blocks app]. unfold B'. by rewrite Hsz. }
  split_and!; try done; [split|]; cbn [hw small_mem].
  - repeat (apply write_bytes_mem_ok; auto using le_split_byte, zeros_byte).
  - by rewrite length_insert.
  - by rewrite Hheads, list_fmap_insert.
  - by rewrite HP'.
  - by rewrite HP'.
  - unfold w', w1. by rewrite !errno_write_bytes.
Qed.

(** What an operation does to the memory it does not own: addresses that were
    mapped, outside of the given region, keep their contents. *)
Definition keeps (R : Z → Prop) (w w' : world) : Prop :=
  ∀ a v, mem w !! a = Some v → ¬ R a → mem w' !! a = Some v.
Definition in_free (fl : list (list Z)) (a : Z) : Prop := Exists (λ B, in_block B a) (all_free 0 fl).

Lemma same_outside_keeps R w w' : same_outside R w w' → keeps R w w'.
Proof. intros H a v Ha Hn. by rewrite H. Qed.

Lemma keeps_mono (R S : Z → Prop) w w' : (∀ a, R a → S a) → keeps R w w' → keeps S w w'.
Proof. intros H Hk a v Ha Hn. apply Hk; auto. Qed.

Lemma keeps_trans R w1 w2 w3 : keeps R w1 w2 → keeps R w2 w3 → keeps R w1 w3.
Proof. intros H1 H2 a v Ha Hn. auto. Qed.

Lemma keeps_unmapped p n w w' :
  unmapped w p n → same_outside (λ a, p <= a < p + n) w w' → keeps (λ _, False) w w'.
Proof.
  intros Hun Hs a v Ha _. rewrite Hs; [done|]. intros Hr. rewrite Hun in Ha by done. done.
Qed.

Lemma in_free_head fl i b l a :
  fl !! i = Some (b :: l) → in_block (mk_block b (class_size i) None) a → in_free fl a.
Proof.
  intros Hi Ha. destruct (all_free_split 0 fl i _ Hi) as (rest & Hr & _).
  unfold in_free. rewrite Hr. apply Exists_app. left. by left.
Qed.

(** A block in memory that was free or not mapped. *)
Definition fresh_block (fl : list (list Z)) (w : world) (B : block) : Prop :=
  ∀ a, in_block B a → in_free fl a ∨ mem w !! a = None.

Section with_kernel.
Context {K : Kernel}.

(** [refill]: the blocks of a fresh page become the free list of the class. *)
Lemma refill_ok h fl live i :
  heap_ok h fl live → fl !! i = Some [] →
  (∃ h', refill (Z.of_nat i) (class_size i) h = Ok (None, h') ∧ heap_ok h' fl live ∧
     mem (hw h') = mem (hw h)) ∨
  (∃ b l h', refill (Z.of_nat i) (class_size i) h = Ok (Some b, h') ∧
     heap_ok h' (<[i := b :: l]> fl) live ∧ keeps (λ _, False) (hw h) (hw h') ∧
     errno (hw h') = errno (hw h) ∧
     (∀ a, in_free (<[i := b :: l]> fl) a → in_free fl a ∨ mem (hw h) !! a = None)).
Proof.
  intros H Hi. destruct (heap_ok_lookup _ _ _ _ _ H Hi) as (Hlt & _ & Hsl).
  destruct (class_idx i Hlt) as (_ & Hc & Hc16 & Hnr & Hnr2).
  set (sz := class_size i) in *. remember (__SMALL_NR sz) as nr eqn:Enr.
  destruct (mmap_spec MEM_BLOCK_SIZE (hw h)) as [[e He]|(p & Hmm & Hun & Hp & Hal & Hhi)]; [done..| |].
  { left. eexists. unfold refill, do_mmap. rewrite (bind_Ok _ _ _ _ _ (lift_ok _ _ _ _ He)).
    split; [reflexivity|]. split; [|done]. eapply heap_ok_mem; [..|exact H]; done. }
  right. change MEM_BLOCK_SIZE with 4096 in *. change PAGE_SIZE with 4096 in *.
  change (2 ^ 63) with 9223372036854775808 in *. fold (zeros 4096) in Hmm.
  set (w1 := write_bytes p (zeros 4096) (hw h)) in *.
  assert (Z.of_nat (Z.to_nat (nr - 1)) = nr - 1) as Hn1 by lia.
  assert (bytes_at w1 p (zeros 4096)) as Hz by apply write_bytes_at.
  destruct (link_blocks_ok sz ltac:(lia) (Z.to_nat (nr - 1)) p w1)
    as (w2 & Hlink & Hok2 & He2 & Hsame2 & Hlast & Hdata).
  { done. }
  { change (2 ^ 63) with 9223372036854775808. nia. }
  { apply write_bytes_mem_ok; [apply H|apply zeros_byte]. }
  { rewrite Hn1. replace ((nr - 1 + 1) * sz) with 4096 by lia. done. }
  rewrite Hn1 in *.
  assert (write_bytes (p + (nr - 1) * sz) (le_split 8 0) w2 = w2) as Hid.
  { apply write_bytes_id. replace sz with (8 + (sz - 8)) in Hlast at 2 by lia.
    apply bytes_at_zeros_app in Hlast; [|lia|lia]. apply Hlast. }
  set (n := S (Z.to_nat (nr - 1))) in *.
  set (h' := mk_heap w2 (<[i := p]> (small_mem h))).
  exists p, (addrs (p + sz) sz (Z.to_nat (nr - 1))), h'.
  assert (refill (Z.of_nat i) sz h = Ok (Some p, h')) as Hrun.
  { unfold refill, do_mmap. erewrite bind_Ok by (apply lift_ok, Hmm).
    replace (p =? MAP_FAILED) with false by (unfold MAP_FAILED; lia).
    erewrite bind_Ok by (by apply put_small_ok). cbv zeta. rewrite <- Enr.
    erewrite bind_Ok by (apply lift_ok; exact Hlink). cbn [hw small_mem].
    erewrite bind_Ok.
    2: { apply lift_ok, store_ptr. apply bytes_at_mapped in Hlast.
         rewrite length_zeros in Hlast by lia. eapply mapped_sub; [exact Hlast|lia|lia]. }
    cbn [hw small_mem]. rewrite Hid. erewrite bind_Ok; [reflexivity|].
    unfold get_small. cbn [small_mem]. rewrite Nat2Z.id, list_lookup_insert_eq by lia. done. }
  destruct (all_blocks_split fl i _ Hi) as (rest & Hall & Hall').
  destruct (addrs_blocks sz ltac:(lia) n p) as [HsepN HinN].
  assert (same_outside (λ a, p <= a < p + 4096) (hw h) w2) as Hsame.
  { apply same_outside_trans with w1.
    - eapply same_outside_mono; [|apply same_outside_write].
      intros a. rewrite length_zeros by lia. done.
    - eapply same_outside_mono; [|exact Hsame2]. simpl. nia. }
  assert (Z.of_nat n * sz = 4096) as Hn4 by (unfold n; lia).
  assert (Forall (block_ok w2) (free_blocks sz (addrs p sz n))) as HokN.
  { apply Forall_forall. intros B HB. rewrite Forall_forall in HinN, Hdata.
    destruct (HinN B HB) as (H1 & H2 & H3 & H4). split_and!; [lia|lia| |by apply Hdata].
    left. exists i. split_and!; [done|by rewrite H3|].
    apply Z.mod_divide in Hal as [u Hu]; [|done]. apply Z.mod_divide in H4 as [v Hv]; [|lia].
    apply Z.mod_divide in Hc16 as [x Hx]; [|done]. fold sz in Hx.
    apply Z.mod_divide; [done|]. exists (256 * u + v * x). lia. }
  destruct H as [Hmem Hlen Hheads Hblocks Hsep]. rewrite Hall in Hblocks, Hsep. simpl in Hblocks, Hsep.
  destruct (add_blocks (hw h) w2 p 4096 (free_blocks sz (addrs p sz n)) (rest ++ live))
    as [Hsep' Hblocks'];
    [lia|exact Hsep|exact Hblocks|exact Hun|exact Hsame|exact HsepN|exact HokN| |].
  { eapply Forall_impl; [exact HinN|]. simpl. intros B HB. lia. }
  split_and!; [exact Hrun|split|..].
  - exact Hok2.
  - by rewrite length_insert.
  - unfold h'. cbn [small_mem]. by rewrite Hheads, list_fmap_insert.
  - rewrite Hall'. exact Hblocks'.
  - rewrite Hall'. exact Hsep'.
  - eapply keeps_unmapped; [exact Hun|exact Hsame].
  - unfold h'. cbn [hw]. rewrite He2. apply errno_write_bytes.
  - intros a. destruct (all_free_split 0 fl i _ Hi) as (rest' & Hr & Hr').
    unfold in_free. rewrite Hr, Hr', !Exists_app. intros [Ha|Ha]; [right|by left; right].
    apply Exists_exists in Ha as (B & HB & Ha). rewrite Forall_forall in HinN.
    apply Hun. specialize (HinN B HB). unfold in_block in Ha. lia.
Qed.

Lemma small_malloc_ok h fl live i :
  heap_ok h fl live → (i < 8)%nat →
  (∃ h', __small_malloc (class_size i) h = Ok (MAP_FAILED, h') ∧ heap_ok h' fl live ∧
     mem (hw h') = mem (hw h) ∧ fl !! i = Some []) ∨
  (∃ b h' fl', let B := mk_block b (class_size i) (Some 0) in
     __small_malloc (class_size i) h = Ok (b, h') ∧ heap_ok h' fl' (B :: live) ∧
     fresh_block fl (hw h) B ∧ keeps (in_free fl) (hw h) (hw h') ∧ errno (hw h') = errno (hw h)).
Proof.
  intros H Hi. destruct (class_idx i Hi) as (Hidx & Hc & _).
  destruct (lookup_lt_is_Some_2 fl i) as [l Hl]; [rewrite (ho_len _ _ _ H); done|].
  unfold __small_malloc. cbv zeta. rewrite Hidx.
  rewrite (bind_Ok _ _ _ _ _ (get_small_ok _ _ _ _ _ H Hl)).
  destruct l as [|b l]; cbn [hd].
  - rewrite Z.eqb_refl. destruct (refill_ok h fl live i H Hl)
      as [(h' & Hrun & H' & Hm)|(b & l & h' & Hrun & H' & Hk & He & Hf)];
      rewrite (bind_Ok _ _ _ _ _ Hrun).
    { left. by exists h'. }
    right. destruct (take_block_ok h' _ live i b l H') as (h2 & Ht & H2 & Hs & He2).
    { apply list_lookup_insert_eq. rewrite (ho_len _ _ _ H). done. }
    assert (fresh_block fl (hw h) (mk_block b (class_size i) (Some 0))) as Hfresh.
    { intros a Ha. apply Hf. eapply in_free_head; [|exact Ha].
      apply list_lookup_insert_eq. rewrite (ho_len _ _ _ H). done. }
    exists b, h2. eexists. cbv zeta. split_and!; [exact Ht|exact H2|exact Hfresh| |congruence].
    intros a v Ha Hn. rewrite Hs; [apply Hk; [done|intros []]|]. intros Hin.
    destruct (Hfresh a Hin) as [Hf'|Hf']; [done|congruence].
  - pose proof (heap_ok_free _ _ _ _ _ H Hl) as Hf. cbn [free_blocks] in Hf.
    apply Forall_cons in Hf as [(Hb & _) _]. bsimpl.
    replace (b =? 0) with false by lia. cbv iota.
    erewrite (bind_Ok (mret (Some b))) by reflexivity. cbv iota.
    right. destruct (take_block_ok h _ live i b l H Hl) as (h2 & Ht & H2 & Hs & He2).
    exists b, h2. eexists. split_and!; [exact Ht|exact H2| | |done].
    + intros a Ha. left. eapply in_free_head; [exact Hl|exact Ha].
    + intros a v Ha Hn. rewrite Hs; [done|]. intros Hin. apply Hn. eapply in_free_head; [exact Hl|exact Hin].
Qed.
(** ** Blocks outside of the free lists *)

Lemma all_blocks_cons fl B live : all_blocks fl (B :: live) ≡ₚ B :: all_blocks fl live.
Proof. unfold all_blocks. by rewrite Permutation_middle. Qed.

#[local] Instance all_blocks_perm fl : Proper (Permutation ==> Permutation) (all_blocks fl).
Proof. intros l1 l2 H. unfold all_blocks. by rewrite H. Qed.

Lemma heap_ok_perm h fl live live' : live ≡ₚ live' → heap_ok h fl live → heap_ok h fl live'.
Proof.
  intros HP []. split; try done; [by rewrite <- HP|by rewrite <- HP].
Qed.

Lemma heap_change h w' fl B B' live :
  heap_ok h fl (B :: live) → same_outside (in_block B) (hw h) w' → mem_ok w' →
  b_at B' = b_at B → b_size B' = b_size B → block_ok w' B' →
  heap_ok (mk_heap w' (small_mem h)) fl (B' :: live).
Proof.
  intros [] Hs Hok Ha Hn HB. rewrite all_blocks_cons in *.
  destruct (change_block _ w' B B' _ ho_separate0 ho_blocks0 Hs Ha Hn HB).
  split; try done; by rewrite all_blocks_cons.
Qed.

Lemma heap_drop h w' fl B live :
  heap_ok h fl (B :: live) → same_outside (in_block B) (hw h) w' → mem_ok w' →
  heap_ok (mk_heap w' (small_mem h)) fl live.
Proof.
  intros [] Hs Hok. rewrite all_blocks_cons in *.
  destruct (drop_block _ w' B _ ho_separate0 ho_blocks0 Hs). by split.
Qed.

Lemma heap_add h w' fl B live :
  heap_ok h fl live → unmapped (hw h) (b_at B) (b_size B) → same_outside (in_block B) (hw h) w' →
  mem_ok w' → block_ok w' B → heap_ok (mk_heap w' (small_mem h)) fl (B :: live).
Proof.
  intros [] Hun Hs Hok HB. pose proof (size_ok_pos _ ltac:(apply HB)).
  destruct (add_blocks (hw h) w' (b_at B) (b_size B) [B] (all_blocks fl live));
    [lia|done|done|done|done|by simpl|by constructor|constructor; [lia|constructor]|].
  split; try done; by rewrite all_blocks_cons.
Qed.

Lemma heap_ok_block h fl B live : heap_ok h fl (B :: live) → block_ok (hw h) B.
Proof. intros []. rewrite all_blocks_cons in *. by inversion ho_blocks0. Qed.

Lemma block_bounds w B : block_ok w B → 0 < b_at B ∧ 16 <= b_size B ∧ b_at B + b_size B <= 9223372036854775808.
Proof. intros (H1 & H2 & H3 & _). apply size_ok_pos in H3. done. Qed.

Lemma heap_ok_disjoint h fl B C live : heap_ok h fl (B :: C :: live) → overlap_free B C.
Proof.
  intros H. pose proof (ho_separate _ _ _ H) as Hsep. rewrite !all_blocks_cons in Hsep.
  by destruct Hsep as [[Hdis _]%Forall_cons _].
Qed.

(** The blocks of the program are not in the free lists. *)
Lemma heap_ok_not_free h fl B live a : heap_ok h fl (B :: live) → in_free fl a → ¬ in_block B a.
Proof.
  intros H Hin Ha. pose proof (ho_separate _ _ _ H) as Hs. rewrite all_blocks_cons in Hs.
  destruct Hs as [Hs _]. apply Forall_app in Hs as [Hs _].
  apply Exists_exists in Hin as (C & HC & Hin). rewrite Forall_forall in Hs. specialize (Hs C HC).
  unfold overlap_free, disjoint, in_block in *. lia.
Qed.

(** A block of zeros becomes a block of the program when its size is stored. *)
Lemma store_size_ok h fl b n live :
  heap_ok h fl (mk_block b n (Some 0) :: live) → n < 2 ^ 64 →
  ∃ h', store_size b n h = Ok (tt, h') ∧ heap_ok h' fl (mk_block b n None :: live) ∧
    same_outside (in_block (mk_block b n None)) (hw h) (hw h') ∧ errno (hw h') = errno (hw h) ∧
    bytes_at (hw h') (BLOCK_RET b) (zeros (n - 16)).
Proof.
  intros H Hn. pose proof (heap_ok_block _ _ _ _ H) as HB. pose proof (block_mapped _ _ HB) as Hm. bsimpl.
  pose proof HB as (Hb1 & Hb2 & Hb3 & Hb4 & Hb5). pose proof (size_ok_pos _ Hb3) as Hsz. bsimpl.
  unfold store_size. erewrite lift_ok by (apply store_ptr; eapply mapped_sub; [exact Hm|lia|lia]).
  set (w' := write_bytes (b + 8) (le_split 8 n) (hw h)).
  assert (same_outside (in_block (mk_block b n (Some 0))) (hw h) w') as Hs.
  { eapply same_outside_mono; [|apply same_outside_write]. rewrite length_le_split.
    unfold in_block. bsimpl. lia. }
  eexists. split; [reflexivity|]. cbn [hw]. split_and!.
  - eapply heap_change; [exact H|exact Hs| |done|done|].
    + apply write_bytes_mem_ok; [apply H|apply le_split_byte].
    + split_and!; try done. split; [apply write_bytes_at|by apply write_bytes_mapped].
  - exact Hs.
  - apply errno_write_bytes.
  - unfold BLOCK_RET, sizeof_alloc_t. apply write_bytes_bytes_at_ne.
    + apply bytes_at_app in Hb5 as [_ Hz]. rewrite length_le_split in Hz.
      replace (n - 8) with (8 + (n - 16)) in Hz by lia. apply bytes_at_zeros_app in Hz as [_ Hz]; [|lia|lia].
      by replace (b + 16) with (b + Z.of_nat 8 + 8) by lia.
    + rewrite length_le_split, length_zeros by lia. unfold disjoint. lia.
Qed.

(** A fresh mapping is a block of zeros. *)
Lemma do_mmap_ok h fl live need :
  heap_ok h fl live → 2048 < need < 2 ^ 64 → need mod 4096 = 0 →
  (∃ h', do_mmap need h = Ok (MAP_FAILED, h') ∧ heap_ok h' fl live ∧ mem (hw h') = mem (hw h)) ∨
  (∃ b h', do_mmap need h = Ok (b, h') ∧ heap_ok h' fl (mk_block b need (Some 0) :: live) ∧
     fresh_block fl (hw h) (mk_block b need (Some 0)) ∧ keeps (λ _, False) (hw h) (hw h') ∧
     errno (hw h') = errno (hw h)).
Proof.
  intros H Hneed Hal. unfold do_mmap.
  destruct (mmap_spec need (hw h)) as [[e He]|(p & Hmm & Hun & Hp & Hpal & Hhi)]; [lia|done| |].
  { left. eexists. split; [apply lift_ok, He|]. split; [|done]. eapply heap_ok_mem; [..|exact H]; done. }
  right. fold (zeros need) in Hmm. set (w1 := write_bytes p (zeros need) (hw h)) in *.
  assert (same_outside (λ a, p <= a < p + need) (hw h) w1) as Hs.
  { eapply same_outside_mono; [|apply same_outside_write]. intros a. rewrite length_zeros by lia. done. }
  exists p. eexists. split_and!; [apply lift_ok, Hmm| | |by eapply keeps_unmapped|apply errno_write_bytes];
    [|intros a Ha; right; by apply Hun].
  apply heap_add; bsimpl; try done.
  - apply write_bytes_mem_ok; [apply H|apply zeros_byte].
  - split_and!; bsimpl; try done; [right; split_and!; bsimpl; try done; lia|]. split; [done|].
    replace (le_split 8 0) with (zeros 8) by done. bsimpl. rewrite <- zeros_app by lia.
    replace (8 + (need - 8)) with need by lia. apply write_bytes_at.
Qed.

(** [malloc] *)

(** The result of [malloc]: no memory, or a zeroed block that is at least as
    large as asked for. *)
Definition malloc_fails (h : heap) fl live (r : outcome (Z * heap)) : Prop :=
  ∃ h', r = Ok (0, h') ∧ heap_ok h' fl live ∧ mem (hw h') = mem (hw h) ∧ errno (hw h') = ENOMEM.
Definition malloc_returns (size : Z) (h : heap) fl live (r : outcome (Z * heap)) : Prop :=
  ∃ b n h' fl', r = Ok (BLOCK_RET b, h') ∧ size + 16 <= n ∧ heap_ok h' fl' (mk_block b n None :: live) ∧
    fresh_block fl (hw h) (mk_block b n None) ∧ keeps (in_free fl) (hw h) (hw h') ∧ errno (hw h') = errno (hw h) ∧
    bytes_at (hw h') (BLOCK_RET b) (zeros (n - 16)).

Lemma err_out_fails h h0 fl live :
  heap_ok h fl live → mem (hw h) = mem (hw h0) → malloc_fails h0 fl live (err_out h).
Proof.
  intros H Hm. eexists. split; [reflexivity|]. cbn [hw mem errno lift set_errno].
  split_and!; [|done|done]. eapply heap_ok_mem; [..|exact H]; done.
Qed.

Lemma malloc_ok size h fl live :
  heap_ok h fl live → 0 <= size < 2 ^ 64 →
  malloc_fails h fl live (malloc size h) ∨ (0 < size ∧ malloc_returns size h fl live (malloc size h)).
Proof.
  intros H Hsize. unfold malloc, _alloc_libc_malloc. cbv zeta.
  destruct (Z.eqb_spec size 0) as [->|Hne]; [left; by apply (err_out_fails h)|].
  destruct (u64 (size + sizeof_alloc_t) <? sizeof_alloc_t) eqn:Hwrap; [left; by apply (err_out_fails h)|].
  assert (u64 (size + sizeof_alloc_t) = size + 16 ∧ size + 16 < 2 ^ 64) as [-> Hs16].
  { unfold sizeof_alloc_t in *. change (2 ^ 64) with 18446744073709551616 in *. int_lia. }
  clear Hwrap. change __MAX_SMALL_SIZE with 2048.
  assert (∀ b need h1 fl1, heap_ok h1 fl1 (mk_block b need (Some 0) :: live) → size + 16 <= need < 2 ^ 64 →
    fresh_block fl (hw h) (mk_block b need (Some 0)) →
    keeps (in_free fl) (hw h) (hw h1) → errno (hw h1) = errno (hw h) →
    malloc_returns size h fl live ((if b =? MAP_FAILED then err_out
      else _ ← store_size b need; mret (BLOCK_RET b)) h1)) as Hfin.
  { intros b need h1 fl1 H1 Hneed Hf Hk He. pose proof (heap_ok_block _ _ _ _ H1) as (Hb1 & Hb2 & Hb3 & _).
    pose proof (size_ok_pos _ Hb3). bsimpl. change (2 ^ 63) with 9223372036854775808 in *.
    replace (b =? MAP_FAILED) with false by (unfold MAP_FAILED; lia).
    destruct (store_size_ok h1 fl1 b need live H1 ltac:(lia)) as (h2 & Hst & H2 & Hs2 & He2 & Hz).
    rewrite (bind_Ok _ _ _ _ _ Hst). exists b, need, h2, fl1. split_and!; try done; [lia| |congruence].
    intros a v Ha Hn. rewrite Hs2; [by apply Hk|]. intros Hin.
    destruct (Hf a Hin) as [Hf'|Hf']; [done|congruence]. }
  destruct (Z.leb_spec (size + 16) 2048).
  - destruct (class_of (size + 16)) as (i & Hi & _ & Hget & Hr & _); [lia|]. rewrite Hget.
    destruct (small_malloc_ok h fl live i H Hi)
      as [(h1 & Hrun & H1 & Hm & _)|(b & h1 & fl1 & Hrun & H1 & Hf & Hk & He)].
    + left. rewrite bind_assoc, (bind_Ok _ _ _ _ _ Hrun). by apply (err_out_fails h1).
    + right. split; [lia|]. rewrite bind_assoc, (bind_Ok _ _ _ _ _ Hrun).
      erewrite bind_Ok by reflexivity. cbv iota beta. eapply Hfin; try done.
      change (2 ^ 64) with 18446744073709551616. lia.
  - destruct (PAGE_ALIGN_spec (size + 16)) as (Hal & Hrg & Hge); [lia|].
    destruct (Z.eqb_spec (PAGE_ALIGN (size + 16)) 0) as [Hz|Hz].
    + left. rewrite !bind_assoc. erewrite bind_Ok by reflexivity. by apply (err_out_fails h).
    + destruct (do_mmap_ok h fl live (PAGE_ALIGN (size + 16)) H ltac:(lia) Hal)
        as [(h1 & Hrun & H1 & Hm)|(b & h1 & Hrun & H1 & Hf & Hk & He)];
        rewrite !bind_assoc, (bind_Ok _ _ _ _ _ Hrun); erewrite bind_Ok by reflexivity; cbv iota beta.
      * left. by apply (err_out_fails h1).
      * right. split; [lia|]. eapply Hfin; try done; [lia|].
        eapply keeps_mono; [|exact Hk]. intros a [].
Qed.

(** [free] *)

Lemma load_size_ok h fl b n live :
  heap_ok h fl (mk_block b n None :: live) → load_size b h = Ok (n, h).
Proof.
  intros H. pose proof (heap_ok_block _ _ _ _ H) as (_ & Hb2 & Hb3 & Hb4 & _).
  pose proof (size_ok_pos _ Hb3). bsimpl. unfold load_size.
  erewrite lift_ok by (apply load_ptr; [exact Hb4|]; change (2 ^ 64) with 18446744073709551616;
    change (2 ^ 63) with 9223372036854775808 in *; pose proof (heap_ok_block _ _ _ _ H) as (? & _); bsimpl; lia).
  by destruct h.
Qed.

Lemma unmap_same_outside p n w : same_outside (λ a, p <= a < p + n) w (World (unmap p n (mem w)) (errno w)).
Proof.
  intros a Ha. cbn [mem]. unfold unmap. destruct (mem w !! a) as [v|] eqn:Hv.
  - by apply map_lookup_filter_Some_2.
  - apply map_lookup_filter_None_2. by left.
Qed.

Lemma unmap_mem_ok p n w : mem_ok w → mem_ok (World (unmap p n (mem w)) (errno w)).
Proof. intros H a b [Ha _]%map_lookup_filter_Some. by apply (H a). Qed.

Lemma free_ok h fl b n live :
  heap_ok h fl (mk_block b n None :: live) →
  ∃ h' fl', free (BLOCK_RET b) h = Ok (tt, h') ∧ heap_ok h' fl' live ∧
    keeps (in_block (mk_block b n None)) (hw h) (hw h') ∧ errno (hw h') = errno (hw h).
Proof.
  intros H. pose proof (heap_ok_block _ _ _ _ H) as HB. pose proof (block_mapped _ _ HB) as Hm.
  pose proof HB as (Hb1 & Hb2 & Hb3 & _). pose proof (size_ok_pos _ Hb3). bsimpl.
  unfold free, _alloc_libc_free.
  replace (BLOCK_RET b =? 0) with false by (unfold BLOCK_RET, sizeof_alloc_t; lia).
  replace (BLOCK_START (BLOCK_RET b)) with b by (unfold BLOCK_START, BLOCK_RET; lia).
  cbn [negb]. rewrite (bind_Ok _ _ _ _ _ (load_size_ok _ _ _ _ _ H)).
  replace (n =? 0) with false by lia. cbn [negb]. change __MAX_SMALL_SIZE with 2048.
  destruct (Z.leb_spec n 2048) as [Hn|Hn].
  - destruct (small_free_ok _ _ _ _ _ H Hn) as (h' & i & l & Hrun & _ & _ & H' & Hs & He).
    exists h'. eexists. split_and!; [exact Hrun|exact H'|by apply same_outside_keeps|done].
  - destruct Hb3 as [(i & Hi & Hsz & _)|(_ & Hal & Hpal)]; bsimpl; [pose proof (class_range i Hi); lia|].
    erewrite bind_Ok by (apply lift_ok, munmap_spec; [done|lia|done|done]).
    eexists _, fl. split_and!; [reflexivity| | |done]; cbn [hw].
    + eapply heap_drop; [exact H|apply unmap_same_outside|apply unmap_mem_ok, H].
    + apply same_outside_keeps, unmap_same_outside.
Qed.

(** [calloc] *)

Lemma calloc_ok nmemb size h fl live :
  heap_ok h fl live → 0 <= nmemb < 2 ^ 64 → 0 <= size < 2 ^ 64 →
  malloc_fails h fl live (calloc nmemb size h) ∨
  (0 < size * nmemb < 2 ^ 64 ∧ malloc_returns (size * nmemb) h fl live (calloc nmemb size h)).
Proof.
  intros H Hn Hs. unfold calloc. destruct (Z.geb_spec (size * nmemb) (2 ^ 64)).
  - left. by apply (err_out_fails h).
  - destruct (malloc_ok (size * nmemb) h fl live H ltac:(nia)) as [Hf|[Hpos Hr]]; [by left|].
    right. split; [lia|done].
Qed.

(** [realloc] *)

Definition realloc_returns (size : Z) (h : heap) fl B live (l : list Z) (r : outcome (Z * heap)) : Prop :=
  ∃ b n h' fl', r = Ok (BLOCK_RET b, h') ∧ size + 16 <= n ∧ heap_ok h' fl' (mk_block b n None :: live) ∧
    keeps (λ a, in_free fl a ∨ in_block B a) (hw h) (hw h') ∧
    bytes_at (hw h') (BLOCK_RET b) (take (Z.to_nat (n - 16)) l).

Lemma bytes_at_take w p k l : bytes_at w p l → bytes_at w p (take k l).
Proof. intros H i b Hi. apply H. apply lookup_take_Some in Hi. apply Hi. Qed.

(** The block is copied to a new one. *)
Lemma realloc_copy h fl b n live l _size :
  heap_ok h fl (mk_block b n None :: live) → n <= 2048 → 0 < _size < 2 ^ 64 →
  bytes_at (hw h) (BLOCK_RET b) l → Z.of_nat (length l) = n - 16 →
  let r := (new ← _alloc_libc_malloc _size;
    _ ← (if negb (new =? 0) then
           size ← load_size (BLOCK_START new);
           let size := if size >? n then n else size in
           _ ← (if negb (size =? 0) then
                  _ ← lift (memcpy new (BLOCK_RET b) (size - sizeof_alloc_t)); mret tt
                else mret tt);
           _alloc_libc_free (BLOCK_RET b)
         else mret tt);
    mret new) h in
  malloc_fails h fl (mk_block b n None :: live) r ∨
  realloc_returns _size h fl (mk_block b n None) live l r.
Proof.
  intros H Hn Hsize Hl Hlen r. set (B := mk_block b n None) in *.
  destruct (malloc_ok _size h fl (B :: live) H ltac:(lia))
    as [(h1 & Hrun & H1 & Hm & He)|[_ (b1 & n1 & h1 & fl1 & Hrun & Hn1 & H1 & Hfr & Hk & He & Hz)]];
    unfold malloc in Hrun; unfold r; rewrite (bind_Ok _ _ _ _ _ Hrun).
  { left. exists h1. by split_and!. }
  right. set (B1 := mk_block b1 n1 None) in *.
  pose proof (heap_ok_block _ _ _ _ H1) as HB1. pose proof (block_mapped _ _ HB1 : mapped (hw h1) b1 n1) as Hm1.
  destruct (block_bounds _ _ HB1 : 0 < b1 ∧ 16 <= n1 ∧ b1 + n1 <= 9223372036854775808) as (Hb1 & Hb2 & Hb3).
  destruct (block_bounds _ _ (heap_ok_block _ _ _ _ H) : 0 < b ∧ 16 <= n ∧ b + n <= 9223372036854775808)
    as (Hc1 & Hc2 & Hc3).
  pose proof (heap_ok_disjoint _ _ _ _ _ H1 : disjoint b1 n1 b n) as Hdis.
  replace (BLOCK_RET b1 =? 0) with false by (unfold BLOCK_RET, sizeof_alloc_t; lia). cbn [negb].
  replace (BLOCK_START (BLOCK_RET b1)) with b1 by (unfold BLOCK_START, BLOCK_RET; lia).
  rewrite bind_assoc, (bind_Ok _ _ _ _ _ (load_size_ok _ _ _ _ _ H1)). cbv zeta.
  set (size := if n1 >? n then n else n1).
  assert (16 <= size <= n ∧ size <= n1 ∧ size = Z.min n n1) as (Hsz1 & Hsz2 & Hsz3)
    by (unfold size; destruct (Z.gtb_spec n1 n); lia).
  clearbody size. replace (size =? 0) with false by lia. cbn [negb].
  set (k := Z.to_nat (size - 16)).
  assert (bytes_at (hw h1) (BLOCK_RET b) (take k l)) as Hl1.
  { apply bytes_at_take. intros i v Hi. apply Hk; [by apply Hl|]. intros Hin.
    pose proof (lookup_lt_Some _ _ _ Hi). apply (heap_ok_not_free _ _ _ _ _ H Hin).
    unfold in_block, B, BLOCK_RET, sizeof_alloc_t. bsimpl. lia. }
  assert (length (take k l) = k) as Hlk by (rewrite length_take; lia).
  assert (memcpy (BLOCK_RET b1) (BLOCK_RET b) (size - sizeof_alloc_t) (hw h1) =
    Ok (BLOCK_RET b1, write_bytes (BLOCK_RET b1) (take k l) (hw h1))) as Hcpy.
  { replace (size - sizeof_alloc_t) with (Z.of_nat (length (take k l)))
      by (unfold sizeof_alloc_t; lia).
    apply memcpy_ok; rewrite ?Hlk; unfold BLOCK_RET, sizeof_alloc_t, disjoint in *; try lia; try done.
    - eapply mem_ok_bytes; [apply H1|exact Hl1].
    - eapply mapped_sub; [exact Hm1|lia|lia]. }
  rewrite bind_assoc. rewrite bind_assoc, (bind_Ok _ _ _ _ _ (lift_ok _ _ _ _ Hcpy)).
  erewrite bind_Ok by reflexivity.
  set (w2 := write_bytes (BLOCK_RET b1) (take k l) (hw h1)).
  assert (same_outside (λ a, b1 + 16 <= a < b1 + n1) (hw h1) w2) as Hs2.
  { eapply same_outside_mono; [|apply same_outside_write]. rewrite Hlk.
    unfold BLOCK_RET, sizeof_alloc_t. lia. }
  assert (heap_ok (mk_heap w2 (small_mem h1)) fl1 (B1 :: B :: live)) as H2.
  { eapply heap_change; [exact H1| | |done|done|].
    - eapply same_outside_mono; [|exact Hs2]. unfold in_block, B1. bsimpl. lia.
    - apply write_bytes_mem_ok; [apply H1|]. eapply mem_ok_bytes; [apply H1|exact Hl1].
    - destruct HB1 as (? & ? & ? & Hd & ?). unfold block_ok, block_data, B1 in *. bsimpl.
      split_and!; try done; [|by apply write_bytes_mapped].
      eapply bytes_at_same; [|exact Hd]. rewrite length_le_split. intros a Ha. apply Hs2. lia. }
  assert (heap_ok (mk_heap w2 (small_mem h1)) fl1 (B :: B1 :: live)) as H2'
    by (eapply heap_ok_perm; [|exact H2]; apply perm_swap).
  destruct (free_ok _ _ _ _ _ H2') as (h3 & fl3 & Hfree & H3 & Hk3 & _). unfold free in Hfree.
  rewrite (bind_Ok _ _ _ _ _ Hfree). exists b1, n1, h3, fl3. split_and!; try done.
  - intros a v Ha Hna. apply Hk3; cbn [hw]; [|tauto]. rewrite Hs2.
    + apply Hk; [done|tauto].
    + cbv beta. intros Hin.
      assert (in_block (mk_block b1 n1 None) a) as Hina by (unfold in_block; bsimpl; lia).
      destruct (Hfr a Hina) as [Hf|Hf]; [tauto|congruence].
  - intros i v Hi. apply Hk3; cbn [hw].
    + replace (take (Z.to_nat (n1 - 16)) l) with (take k l) in Hi.
      * by apply (write_bytes_at (BLOCK_RET b1) (take k l) (hw h1)).
      * destruct (decide (n <= n1)); [|unfold k; f_equal; lia].
        rewrite !take_ge; [done|lia|unfold k; lia].
    + pose proof (lookup_lt_Some _ _ _ Hi) as Hlt. rewrite length_take in Hlt.
      unfold in_block, B. bsimpl. unfold BLOCK_RET, sizeof_alloc_t, disjoint in *. lia.
Qed.

(** A mapping is moved or resized by the kernel. *)
Lemma realloc_remap h fl b n live l size0 size :
  heap_ok h fl (mk_block b n None :: live) → 2048 < n →
  bytes_at (hw h) (BLOCK_RET b) l → Z.of_nat (length l) = n - 16 →
  0 <= size < 2 ^ 64 → size mod 4096 = 0 → (size = 0 ∨ size0 + 16 <= size) →
  let r := (foo ← lift (mremap b n size);
            if foo =? MAP_FAILED then err_out else _ ← store_size foo size; mret (BLOCK_RET foo)) h in
  malloc_fails h fl (mk_block b n None :: live) r ∨
  realloc_returns size0 h fl (mk_block b n None) live l r.
Proof.
  intros H Hn Hl Hlen Hsize Hal Hge r. pose proof (heap_ok_block _ _ _ _ H) as HB.
  destruct (block_bounds _ _ HB : 0 < b ∧ 16 <= n ∧ b + n <= 9223372036854775808) as (Hb1 & Hb2 & Hb3).
  assert (n mod 4096 = 0 ∧ b mod 4096 = 0) as [Hnal Hbal].
  { destruct HB as (_ & _ & [(i & Hi & Hsz & _)|Hs] & _); bsimpl; [pose proof (class_range i Hi); lia|lia]. }
  destruct (mapped_bytes (hw h) b 16) as (hd & Hhd & Hhdb).
  { eapply mapped_sub; [apply (block_mapped _ _ HB)|bsimpl; lia|bsimpl; lia]. }
  assert (bytes_at (hw h) b (hd ++ l)) as Hall.
  { apply bytes_at_app. split; [done|]. rewrite Hhd. exact Hl. }
  assert (Z.of_nat (length (hd ++ l)) = n) as Hln by (rewrite length_app; lia).
  destruct (mremap_spec b (hd ++ l) size (hw h)) as [[e He]|(Hpos & q & Hmr & Hun & Hq & Hqal & Hhi)];
    rewrite ?Hln in *; try done; [lia| |].
  { left. unfold r. rewrite (bind_Ok _ _ _ _ _ (lift_ok _ _ _ _ He)).
    apply err_out_fails; [|done]. eapply heap_ok_mem; [..|exact H]; done. }
  right. set (w1 := World (unmap b n (mem (hw h))) (errno (hw h))) in *.
  set (m := Z.to_nat size) in *. set (new := take m (hd ++ l) ++ replicate (m - length (hd ++ l)) 0) in *.
  assert (length new = m) as Hnew by (unfold new; rewrite length_app, length_take, length_replicate; lia).
  assert (2048 < size) as Hsz by (Z.div_mod_to_equations; lia).
  set (w2 := write_bytes q new w1) in *. set (w3 := write_bytes (q + 8) (le_split 8 size) w2).
  change (2 ^ 63) with 9223372036854775808 in *.
  assert (mapped w2 q size) as Hm2.
  { pose proof (bytes_at_mapped _ _ _ (write_bytes_at q new w1)) as Hm. rewrite Hnew in Hm.
    unfold m in Hm. by rewrite Z2Nat.id in Hm by lia. }
  assert (r = Ok (BLOCK_RET q, mk_heap w3 (small_mem h))) as ->.
  { unfold r. erewrite bind_Ok by (apply lift_ok, Hmr).
    replace (q =? MAP_FAILED) with false by (unfold MAP_FAILED; lia).
    rewrite (bind_Ok _ _ _ tt (mk_heap w3 (small_mem h))); [done|].
    unfold store_size. rewrite (lift_ok _ _ tt w3); [done|]. apply store_ptr. eapply mapped_sub; [exact Hm2|lia|lia]. }
  pose proof (heap_drop h w1 fl _ live H (unmap_same_outside _ _ _) (unmap_mem_ok _ _ _ (ho_mem _ _ _ H))) as Hd.
  assert (Forall byte new) as Hnb.
  { apply Forall_app. split; [|apply Forall_replicate; unfold byte; lia].
    apply Forall_take. eapply mem_ok_bytes; [apply H|exact Hall]. }
  assert (same_outside (λ a, q <= a < q + size) w1 w3) as Hs3.
  { apply same_outside_trans with w2; (eapply same_outside_mono; [|apply same_outside_write]);
      intros a; rewrite ?Hnew, ?length_le_split; lia. }
  exists q, size. do 2 eexists. split_and!; [reflexivity|lia| | |]; cbn [hw].
  - apply (heap_add _ w3 _ (mk_block q size None) _ Hd); bsimpl; [exact Hun|exact Hs3| |].
    + repeat apply write_bytes_mem_ok; auto using le_split_byte. apply Hd.
    + split_and!; bsimpl; try done; [by right|]. split; [apply write_bytes_at|by apply write_bytes_mapped].
  - intros a v Ha Hna. rewrite Hs3.
    + unfold w1. cbn [mem]. apply map_lookup_filter_Some_2; [done|]. intros Hr. apply Hna. by right.
    + intros Hr. assert (mem w1 !! a = Some v) as Hw1; [|rewrite (Hun a Hr) in Hw1; done].
      unfold w1. cbn [mem]. apply map_lookup_filter_Some_2; [done|]. intros Hr'. apply Hna. by right.
  - unfold BLOCK_RET, sizeof_alloc_t. apply write_bytes_bytes_at_ne.
    + pose proof (write_bytes_at q new w1) as Hw. fold w2 in Hw.
      assert (∃ z, new = hd ++ take (Z.to_nat (size - 16)) l ++ z) as [z Hz].
      { exists (replicate (m - length (hd ++ l)) 0). unfold new.
        rewrite take_app, take_ge, <- app_assoc by lia. do 3 f_equal. lia. }
      rewrite Hz in Hw. apply bytes_at_app in Hw as [_ Hw]. rewrite Hhd in Hw.
      by apply bytes_at_app in Hw as [Hw _].
    + rewrite length_le_split. unfold disjoint. lia.
Qed.

(** [realloc] fails and leaves the block alone, returns a block with the old
    contents, or (for size 0) frees the block. *)
Lemma realloc_ok h fl b n live l size :
  heap_ok h fl (mk_block b n None :: live) → 0 < size < 2 ^ 64 →
  bytes_at (hw h) (BLOCK_RET b) l → Z.of_nat (length l) = n - 16 →
  malloc_fails h fl (mk_block b n None :: live) (realloc (BLOCK_RET b) size h) ∨
  realloc_returns size h fl (mk_block b n None) live l (realloc (BLOCK_RET b) size h).
Proof.
  intros H Hsize Hl Hlen. pose proof (heap_ok_block _ _ _ _ H) as HB.
  destruct (block_bounds _ _ HB : 0 < b ∧ 16 <= n ∧ b + n <= 9223372036854775808) as (Hb1 & Hb2 & Hb3).
  unfold realloc. cbv zeta.
  replace (BLOCK_RET b =? 0) with false by (unfold BLOCK_RET, sizeof_alloc_t; lia).
  replace (BLOCK_START (BLOCK_RET b)) with b by (unfold BLOCK_START, BLOCK_RET; lia).
  replace (size =? 0) with false by lia. cbn [negb].
  destruct (u64 (size + sizeof_alloc_t) <? sizeof_alloc_t) eqn:Hwrap; [left; by apply (err_out_fails h)|].
  assert (u64 (size + sizeof_alloc_t) = size + 16 ∧ size + 16 < 2 ^ 64) as [-> Hs16].
  { unfold sizeof_alloc_t in *. change (2 ^ 64) with 18446744073709551616 in *. int_lia. }
  clear Hwrap. rewrite (bind_Ok _ _ _ _ _ (load_size_ok _ _ _ _ _ H)).
  change __MAX_SMALL_SIZE with 2048.
  set (need := if size + 16 <=? 2048 then GET_SIZE (size + 16) else PAGE_ALIGN (size + 16)).
  assert (0 <= need < 2 ^ 64 ∧ (need = 0 ∨ size + 16 <= need)) as [Hneed Hge].
  { unfold need. destruct (Z.leb_spec (size + 16) 2048).
    - destruct (class_of (size + 16)) as (i & Hi & _ & -> & Hr & _); [lia|].
      change (2 ^ 64) with 18446744073709551616. lia.
    - destruct (PAGE_ALIGN_spec (size + 16)) as (_ & Hr & Hg); [lia|]. lia. }
  destruct (Z.eqb_spec n need) as [Heq|Hne]; cbn [negb].
  - right. exists b, n, h, fl. split_and!; [done|lia|done|by intros a v|].
    rewrite take_ge by lia. exact Hl.
  - destruct (Z.leb_spec n 2048); [by apply realloc_copy|].
    destruct (decide (need = 0)) as [->|Hnz].
    + apply realloc_remap; done.
    + destruct (PAGE_ALIGN_spec need) as (Hal & Hr & Hg); [lia|]. apply realloc_remap; try done. lia.
Qed.
End with_kernel.
