(* ===== verification/AllocSafety.v ===== *)
(** * Programs that use the allocator

    A program is a sequence of calls of [malloc], [calloc], [realloc], [free] and
    of writes to memory it got: the relation [client_step].  In every state such a
    program can reach from an empty heap, the regions it holds are mapped,
    aligned and disjoint, and no call of the allocator faults. *)

From S2P Require Import Prelude Mem MemFuncs Strings StrlenFacts Alloc AllocFacts.

(** ** A kernel *)

(** The first page above all mapped memory. *)
Definition top_page (w : world) : Z := 4096 * (map_fold (λ a _ m, Z.max a m) 0 (mem w) / 4096 + 1).

Lemma top_page_spec w a v : mem w !! a = Some v → a < top_page w.
Proof.
  intros H. assert (a <= map_fold (λ a _ m, Z.max a m) 0 (mem w)) as Ha.
  { revert a v H. induction (mem w) as [|k x m Hk Hf IH] using map_first_key_ind; intros a v H; [done|].
    rewrite map_fold_insert_first_key by done. apply lookup_insert_Some in H as [[-> _]|[_ H]]; [lia|].
    apply IH in H. lia. }
  unfold top_page. Z.div_mod_to_equations. lia.
Qed.

Lemma top_page_pos w : 0 < top_page w.
Proof.
  unfold top_page. assert (0 <= map_fold (λ a _ m, Z.max a m) 0 (mem w)); [|Z.div_mod_to_equations; lia].
  induction (mem w) as [|k x m Hk Hf IH] using map_first_key_ind; [done|].
  rewrite map_fold_insert_first_key by done. lia.
Qed.

Definition low_mmap (size : Z) : M Z := λ w,
  let p := top_page w in
  if p + size <=? 2 ^ 63 then Ok (p, write_bytes p (replicate (Z.to_nat size) 0) w)
  else Ok (MAP_FAILED, World (mem w) ENOMEM).
Definition low_munmap (p size : Z) : M Z := λ w, Ok (0, World (unmap p size (mem w)) (errno w)).
Definition low_mremap (p old size : Z) : M Z := λ w,
  match load_bytes (Z.to_nat old) p w with
  | Ok (l, _) =>
      let w' := World (unmap p old (mem w)) (errno w) in
      let q := top_page w' in
      let n := Z.to_nat size in
      if (0 <? size) && (q + size <=? 2 ^ 63)
      then Ok (q, write_bytes q (take n l ++ replicate (n - length l) 0) w')
      else Ok (MAP_FAILED, World (mem w) ENOMEM)
  | Fault => Fault
  | Hang => Hang
  end.

Lemma top_page_unmapped w n : unmapped w (top_page w) n.
Proof.
  intros a Ha. destruct (mem w !! a) as [v|] eqn:Hv; [|done]. apply top_page_spec in Hv. lia.
Qed.

Lemma top_page_align w : top_page w mod PAGE_SIZE = 0.
Proof. unfold top_page, PAGE_SIZE. rewrite Z.mul_comm. by apply Z.mod_mul. Qed.

(** A kernel that always maps above everything: the laws of [Kernel] can hold. *)
Definition low_kernel : Kernel.
Proof.
  refine {| mmap := low_mmap; munmap := low_munmap; mremap := low_mremap |}.
  - intros size w Hs Hal. unfold low_mmap. cbv zeta. destruct (Z.leb_spec (top_page w + size) (2 ^ 63)).
    + right. eexists. split_and!; [reflexivity|apply top_page_unmapped|apply top_page_pos|apply top_page_align|done].
    + left. by eexists.
  - done.
  - intros p l size w Hp Hlen Hal Hl Hs Hsal. unfold low_mremap.
    rewrite Nat2Z.id, (load_bytes_ok _ _ _ Hl). cbv zeta.
    destruct (Z.ltb_spec 0 size); cbn [andb]; [|left; by eexists].
    destruct (Z.leb_spec (top_page (World (unmap p (Z.of_nat (length l)) (mem w)) (errno w)) + size) (2 ^ 63));
      [|left; by eexists].
    right. split; [done|]. eexists.
    split_and!; [reflexivity|apply top_page_unmapped|apply top_page_pos|apply top_page_align|done].
Defined.

(** ** Programs *)

Section programs.
Context {K : Kernel}.

(** The heap, and the regions (address and requested size) the program holds. *)
Definition client : Type := heap * list (Z * Z).

Definition init_heap (w : world) : heap := mk_heap w (replicate 8 0).

(** A region is added to the list unless the call failed. *)
Definition got (p size : Z) (L : list (Z * Z)) : list (Z * Z) := if p =? 0 then L else (p, size) :: L.

Inductive client_step : client → client → Prop :=
| step_malloc size p h h' L :
    0 <= size < 2 ^ 64 → malloc size h = Ok (p, h') → client_step (h, L) (h', got p size L)
| step_calloc nmemb size p h h' L :
    0 <= nmemb < 2 ^ 64 → 0 <= size < 2 ^ 64 → calloc nmemb size h = Ok (p, h') →
    client_step (h, L) (h', got p (size * nmemb) L)
| step_realloc p n size q h h' L L' :
    0 < size < 2 ^ 64 → L ≡ₚ (p, n) :: L' → realloc p size h = Ok (q, h') →
    client_step (h, L) (h', if q =? 0 then L else (q, size) :: L')
| step_free p n h h' L L' :
    L ≡ₚ (p, n) :: L' → free p h = Ok (tt, h') → client_step (h, L) (h', L')
| step_write p n a v h L :
    (p, n) ∈ L → p <= a < p + n → byte v →
    client_step (h, L) (mk_heap (write_bytes a [v] (hw h)) (small_mem h), L).

Inductive reachable : client → Prop :=
| reach_init w : mem_ok w → reachable (init_heap w, [])
| reach_step c c' : reachable c → client_step c c' → reachable c'.

(** The region of a program within its block. *)
Definition region_ok (pn : Z * Z) (B : block) : Prop :=
  b_next B = None ∧ pn.1 = BLOCK_RET (b_at B) ∧ 0 < pn.2 ∧ pn.2 + 16 <= b_size B.
Definition client_ok (c : client) : Prop :=
  ∃ fl live, heap_ok c.1 fl live ∧ Forall2 region_ok c.2 live.

Lemma init_ok w : mem_ok w → client_ok (init_heap w, []).
Proof.
  intros H. exists (replicate 8 []), []. split; [|constructor]. split; try done; by vm_compute.
Qed.

(** The invariant, opened for the region [(p, n)] of the program. *)
Lemma client_ok_split h L p n L' :
  client_ok (h, L) → L ≡ₚ (p, n) :: L' →
  ∃ fl b m live, heap_ok h fl (mk_block b m None :: live) ∧ p = BLOCK_RET b ∧ 0 < n ∧ n + 16 <= m ∧
    Forall2 region_ok L' live.
Proof.
  intros (fl & live0 & H & HR) HP. cbn [fst snd] in *.
  destruct (Permutation_Forall2 HP HR) as (live1 & HP1 & HR1).
  apply Forall2_cons_inv_l in HR1 as (B & live & (HB & HB1 & HB2 & HB3) & HR1 & ->).
  destruct B as [b m nx]. bsimpl. subst nx. exists fl, b, m, live. split_and!; try done.
  by eapply heap_ok_perm.
Qed.

(** And closed again, when the region keeps its place. *)
Lemma client_ok_join h L fl b m n live L' :
  heap_ok h fl (mk_block b m None :: live) → 0 < n → n + 16 <= m → Forall2 region_ok L' live →
  L ≡ₚ (BLOCK_RET b, n) :: L' → client_ok (h, L).
Proof.
  intros H Hn Hm HR HP.
  assert (Forall2 region_ok ((BLOCK_RET b, n) :: L') (mk_block b m None :: live)) as HR' by by constructor.
  destruct (Permutation_Forall2 (symmetry HP) HR') as (live1 & HP1 & HR1).
  exists fl, live1. split; [by eapply heap_ok_perm|done].
Qed.

Lemma client_ok_got size h L h' p fl live :
  heap_ok h fl live → Forall2 region_ok L live →
  malloc_fails h fl live (Ok (p, h')) ∨ (0 < size ∧ malloc_returns size h fl live (Ok (p, h'))) →
  client_ok (h', got p size L).
Proof.
  intros H HR [(h1 & Heq & H1 & _)|(Hpos & b & n & h1 & fl1 & Heq & Hn & H1 & _)]; simplify_eq.
  - exists fl, live. done.
  - exists fl1, (mk_block b n None :: live). split; [done|].
    destruct (block_bounds _ _ (heap_ok_block _ _ _ _ H1)) as (Hb & _). bsimpl. unfold got.
    replace (BLOCK_RET b =? 0) with false by (unfold BLOCK_RET, sizeof_alloc_t; lia).
    constructor; [|done]. split_and!; try done.
Qed.

(** Writing into a region does not concern the allocator. *)
Lemma heap_ok_write h fl b m live a v :
  heap_ok h fl (mk_block b m None :: live) → b + 16 <= a < b + m → byte v →
  heap_ok (mk_heap (write_bytes a [v] (hw h)) (small_mem h)) fl (mk_block b m None :: live).
Proof.
  intros H Ha Hv. eapply heap_change; [exact H| | |done|done|].
  - eapply same_outside_mono; [|apply same_outside_write]. cbn [length]. unfold in_block. bsimpl. lia.
  - apply write_bytes_mem_ok; [apply H|]. constructor; [done|constructor].
  - destruct (heap_ok_block _ _ _ _ H) as (H1 & H2 & H3 & H4 & H5). bsimpl. split_and!; try done.
    split; [|by apply write_bytes_mapped]. bsimpl. apply write_bytes_bytes_at_ne; [done|].
    rewrite length_le_split. unfold disjoint. cbn [length]. lia.
Qed.

Lemma step_ok c c' : client_ok c → client_step c c' → client_ok c'.
Proof.
  intros Hc Hstep. destruct Hstep as [size p h h' L Hs Hrun|nmemb size p h h' L Hm Hs Hrun
    |p n size q h h' L L' Hs HP Hrun|p n h h' L L' HP Hrun|p n a v h L Hin Ha Hv].
  - destruct Hc as (fl & live & H & HR). eapply client_ok_got; [exact H|exact HR|].
    rewrite <- Hrun. by apply malloc_ok.
  - destruct Hc as (fl & live & H & HR). eapply client_ok_got; [exact H|exact HR|].
    rewrite <- Hrun. destruct (calloc_ok nmemb size h fl live H Hm Hs) as [?|[? ?]]; [by left|].
    right. split; [lia|done].
  - destruct (client_ok_split _ _ _ _ _ Hc HP) as (fl & b & m & live & H & -> & Hn & Hnm & HR).
    destruct (mapped_bytes (hw h) (BLOCK_RET b) (Z.to_nat (m - 16))) as (l & Hl & Hlb).
    { eapply mapped_sub; [apply (block_mapped _ _ (heap_ok_block _ _ _ _ H))|..];
        unfold BLOCK_RET, sizeof_alloc_t; bsimpl; lia. }
    destruct (realloc_ok h fl b m live l size H Hs Hlb ltac:(lia))
      as [(h1 & Heq & H1 & _)|(b1 & n1 & h1 & fl1 & Heq & Hn1 & H1 & _)];
      rewrite Hrun in Heq; simplify_eq.
    + by eapply client_ok_join.
    + destruct (block_bounds _ _ (heap_ok_block _ _ _ _ H1)) as (Hb & _). bsimpl.
      replace (BLOCK_RET b1 =? 0) with false by (unfold BLOCK_RET, sizeof_alloc_t; lia).
      exists fl1, (mk_block b1 n1 None :: live). split; [done|]. constructor; [|done].
      split_and!; try done. bsimpl. lia.
  - destruct (client_ok_split _ _ _ _ _ Hc HP) as (fl & b & m & live & H & -> & Hn & Hnm & HR).
    destruct (free_ok _ _ _ _ _ H) as (h1 & fl1 & Heq & H1 & _). rewrite Hrun in Heq. simplify_eq.
    exists fl1, live. done.
  - apply elem_of_Permutation in Hin as [L' HP].
    destruct (client_ok_split _ _ _ _ _ Hc HP) as (fl & b & m & live & H & -> & Hn & Hnm & HR).
    apply (heap_ok_write _ _ _ _ _ a v) in H; [|unfold BLOCK_RET, sizeof_alloc_t in *; lia|done].
    by eapply client_ok_join.
Qed.

Lemma reachable_ok c : reachable c → client_ok c.
Proof. induction 1 as [w Hw|c c' _ IH Hs]; [by apply init_ok|by eapply step_ok]. Qed.

(** ** What a program can rely on *)

Lemma separate_lookup Bs i j B C :
  separate Bs → Bs !! i = Some B → Bs !! j = Some C → i ≠ j → overlap_free B C.
Proof.
  revert i j. induction Bs as [|D Bs IH]; intros i j; [done|]. intros [HF HS] Hi Hj Hne.
  rewrite Forall_lookup in HF. destruct i as [|i], j as [|j]; simplify_eq/=; [by eauto| |by eauto].
  symmetry. by eauto.
Qed.

Lemma heap_ok_live_separate h fl live : heap_ok h fl live → separate live.
Proof.
  intros H. pose proof (ho_separate _ _ _ H) as Hs. unfold all_blocks in Hs.
  induction (all_free 0 fl) as [|B Bs IH]; [done|]. apply IH, Hs.
Qed.

Lemma client_ok_disjoint h L i j p n q m :
  client_ok (h, L) → L !! i = Some (p, n) → L !! j = Some (q, m) → i ≠ j → disjoint p n q m.
Proof.
  intros (fl & live & H & HR) Hi Hj Hne. cbn [fst snd] in *. apply heap_ok_live_separate in H.
  destruct (Forall2_lookup_l _ _ _ _ _ HR Hi) as (B & HB & _ & HB1 & HB2 & HB3).
  destruct (Forall2_lookup_l _ _ _ _ _ HR Hj) as (C & HC & _ & HC1 & HC2 & HC3).
  pose proof (separate_lookup _ _ _ _ _ H HB HC Hne). cbn [fst snd] in *.
  unfold overlap_free, disjoint, BLOCK_RET, sizeof_alloc_t in *. lia.
Qed.

(** The block of a region. *)
Lemma region_block L live p n :
  Forall2 region_ok L live → (p, n) ∈ L →
  ∃ b m live', live ≡ₚ mk_block b m None :: live' ∧ p = BLOCK_RET b ∧ 0 < n ∧ n + 16 <= m.
Proof.
  intros HR [i Hi]%list_elem_of_lookup.
  destruct (Forall2_lookup_l _ _ _ _ _ HR Hi) as ([b m nx] & HB & Hnx & H1 & H2 & H3). bsimpl. subst.
  apply delete_Permutation in HB. by exists b, m, (delete i live).
Qed.

Lemma client_region h L fl live p n :
  heap_ok h fl live → Forall2 region_ok L live → (p, n) ∈ L →
  ∃ b m live', heap_ok h fl (mk_block b m None :: live') ∧ live ≡ₚ mk_block b m None :: live' ∧
    p = BLOCK_RET b ∧ 0 < n ∧ n + 16 <= m.
Proof.
  intros H HR Hin. destruct (region_block _ _ _ _ HR Hin) as (b & m & live' & HP & Hb).
  exists b, m, live'. split_and!; [by eapply heap_ok_perm|done|apply Hb..].
Qed.

(** What an operation leaves alone: the regions [L] keep their contents, and are
    disjoint from the new region. *)
Definition regions_kept (h h' : heap) (L : list (Z * Z)) (p size : Z) : Prop :=
  ∀ q m, (q, m) ∈ L →
    disjoint p size q m ∧ ∀ a, q <= a < q + m → mem (hw h') !! a = mem (hw h) !! a.

Lemma malloc_returns_kept h L fl live size r p h' :
  heap_ok h fl live → Forall2 region_ok L live → malloc_returns size h fl live r → r = Ok (p, h') →
  p ≠ 0 ∧ bytes_at (hw h') p (zeros size) ∧ regions_kept h h' L p size.
Proof.
  intros H HR (b & n & h1 & fl1 & -> & Hn & H1 & Hf & Hk & _ & Hz) Heq. simplify_eq.
  destruct (block_bounds _ _ (heap_ok_block _ _ _ _ H1) : 0 < b ∧ 16 <= n ∧ _) as (Hb & Hn16 & _).
  split_and!; [unfold BLOCK_RET, sizeof_alloc_t; lia| |].
  { replace (zeros size) with (take (Z.to_nat size) (zeros (n - 16))); [by apply bytes_at_take|].
    unfold zeros. rewrite take_replicate. f_equal. lia. }
  intros q m Hq. destruct (client_region _ _ _ _ _ _ H HR Hq) as (c & k & live' & H' & HP & -> & Hm & Hmk).
  pose proof (heap_ok_disjoint _ _ _ _ _ (heap_ok_perm _ _ _ _ (perm_skip _ HP) H1)) as Hd.
  unfold overlap_free in Hd. bsimpl. unfold BLOCK_RET, sizeof_alloc_t, disjoint in *. split; [lia|].
  intros a Ha. destruct (block_mapped _ _ (heap_ok_block _ _ _ _ H') a) as [v Hv]; [bsimpl; lia|].
  rewrite Hv. apply Hk; [done|]. intros Hin. apply (heap_ok_not_free _ _ _ _ _ H' Hin).
  unfold in_block. bsimpl. lia.
Qed.


(** C39: [calloc] returns zeroed memory although it never clears it: free blocks
    are kept zeroed.  It fails with [ENOMEM] (always, when the product does not
    fit into a [size_t]) without touching the memory, or returns zeros in a region
    that meets none of the program's, whose contents stay as they are. *)
Theorem calloc_zeroed h L nmemb size p h' :
  reachable (h, L) → 0 <= nmemb < 2 ^ 64 → 0 <= size < 2 ^ 64 → calloc nmemb size h = Ok (p, h') →
  (p = 0 ∧ errno (hw h') = ENOMEM ∧ mem (hw h') = mem (hw h)) ∨
  (p ≠ 0 ∧ size * nmemb < 2 ^ 64 ∧ bytes_at (hw h') p (zeros (size * nmemb)) ∧
   regions_kept h h' L p (size * nmemb)).
Proof.
  intros Hr Hn Hs Hrun. apply reachable_ok in Hr as (fl & live & H & HR). cbn [fst snd] in *.
  destruct (calloc_ok nmemb size h fl live H Hn Hs) as [(h1 & Heq & _ & Hm & He)|[Hlt Hret]].
  - left. rewrite Hrun in Heq. by simplify_eq.
  - right. destruct (malloc_returns_kept _ _ _ _ _ _ _ _ H HR Hret Hrun) as (H1 & H2 & H3).
    split_and!; try done. lia.
Qed.

(** C38: [realloc] keeps the contents up to the smaller of the two sizes, in a
    region that meets none of the program's others, or fails with [ENOMEM] and
    leaves everything alone. *)
Theorem realloc_keeps_contents h L L' p n l size q h' :
  reachable (h, L) → L ≡ₚ (p, n) :: L' → bytes_at (hw h) p l → Z.of_nat (length l) = n →
  0 < size < 2 ^ 64 → realloc p size h = Ok (q, h') →
  (q = 0 ∧ errno (hw h') = ENOMEM ∧ mem (hw h') = mem (hw h)) ∨
  (q ≠ 0 ∧ bytes_at (hw h') q (take (Z.to_nat size) l) ∧ regions_kept h h' L' q size).
Proof.
  intros Hr HP Hl Hlen Hs Hrun. apply reachable_ok in Hr.
  destruct (client_ok_split _ _ _ _ _ Hr HP) as (fl & b & m & live & H & -> & Hn & Hnm & HR).
  assert (∃ l', bytes_at (hw h) (BLOCK_RET b) (l ++ l') ∧ Z.of_nat (length (l ++ l')) = m - 16) as (l' & Hll & Hln).
  { destruct (mapped_bytes (hw h) (BLOCK_RET b + n) (Z.to_nat (m - 16 - n))) as (l' & Hl' & Hlb).
    - eapply mapped_sub; [apply (block_mapped _ _ (heap_ok_block _ _ _ _ H))|..];
        unfold BLOCK_RET, sizeof_alloc_t; bsimpl; lia.
    - exists l'. rewrite bytes_at_app, Hlen, length_app. split; [done|lia]. }
  destruct (realloc_ok h fl b m live _ size H Hs Hll Hln)
    as [(h1 & Heq & _ & Hm & He)|(b1 & n1 & h1 & fl1 & Heq & Hn1 & H1 & Hk & Hz)];
    rewrite Hrun in Heq; simplify_eq; [by left|right].
  destruct (block_bounds _ _ (heap_ok_block _ _ _ _ H1) : 0 < b1 ∧ _) as (Hb & _).
  split_and!; [unfold BLOCK_RET, sizeof_alloc_t; lia| |].
  { apply (bytes_at_take _ _ (Z.to_nat size)) in Hz. rewrite take_take in Hz.
    replace (Nat.min _ _) with (Z.to_nat size) in Hz by lia.
    rewrite take_app in Hz. by apply bytes_at_app in Hz as [Hz _]. }
  intros r k Hin. destruct (region_block _ _ _ _ HR Hin) as (c & j & live' & HPl & -> & Hkpos & Hkj).
  pose proof (heap_ok_perm _ _ _ _ (perm_skip _ HPl) H) as H0.
  pose proof (heap_ok_perm _ _ _ _ (perm_skip _ HPl) H1) as H2.
  pose proof (heap_ok_disjoint _ _ _ _ _ H0 : disjoint b m c j) as Hd0.
  pose proof (heap_ok_disjoint _ _ _ _ _ H2 : disjoint b1 n1 c j) as Hd2.
  pose proof (heap_ok_perm _ _ _ _ (perm_swap _ _ _) H0) as Hc.
  unfold BLOCK_RET, sizeof_alloc_t, disjoint in *. split; [lia|].
  intros a Ha. destruct (block_mapped _ _ (heap_ok_block _ _ _ _ Hc) a) as [v Hv]; [bsimpl; lia|].
  rewrite Hv. apply Hk; [done|]. intros [Hf|Hf].
  - apply (heap_ok_not_free _ _ _ _ _ Hc Hf). unfold in_block. bsimpl. lia.
  - unfold in_block in Hf. bsimpl. lia.
Qed.

Lemma block_words_mapped w B p n :
  block_ok w B → b_at B <= p → p + n <= b_at B + b_size B → words_mapped w p n.
Proof.
  intros HB Hp Hn a c Ha Hc. apply (block_mapped _ _ HB).
  pose proof (size_ok_align _ (proj1 (proj2 (proj2 HB)))) as Hal.
  assert (b_size B mod 16 = 0) as Hsz.
  { destruct HB as (_ & _ & [(i & Hi & -> & _)|(_ & Hs & _)] & _); [by apply class_idx|].
    Z.div_mod_to_equations. lia. }
  Z.div_mod_to_equations. lia.
Qed.

(** [strdup] of a string in one of the program's regions fails (returns null)
    or returns a copy of the string in a new region, and changes none of the
    program's regions: [strlen], [malloc] and [memcpy] work together. *)
Theorem strdup_copies h L q m s str :
  reachable (h, L) → (q, m) ∈ L → q <= s → s + Z.of_nat (length str) + 1 <= q + m → cstr (hw h) s str →
  ∃ p h', strdup s h = Ok (p, h') ∧
    (p = 0 ∨ cstr (hw h') p str ∧ regions_kept h h' L p (Z.of_nat (length str) + 1)).
Proof.
  intros Hr Hin Hq Hs Hstr. apply reachable_ok in Hr as (fl & live & H & HR). cbn [fst snd] in *.
  destruct (client_region _ _ _ _ _ _ H HR Hin) as (b & n & live' & H' & _ & -> & Hm & Hnm).
  pose proof (heap_ok_block _ _ _ _ H') as HB.
  destruct (block_bounds _ _ HB : 0 < b ∧ 16 <= n ∧ b + n <= 9223372036854775808) as (Hb & _ & Hhi).
  unfold BLOCK_RET, sizeof_alloc_t in *. unfold strdup.
  assert (strlen s (hw h) = Ok (Z.of_nat (length str), hw h)) as Hlen.
  { apply strlen_ok; [apply H|done| |lia]. apply (block_words_mapped _ _ _ _ HB); bsimpl; lia. }
  rewrite (bind_Ok _ _ _ _ _ (lift_ok _ _ _ _ Hlen)). cbv zeta.
  replace (mk_heap (hw h) (small_mem h)) with h by (by destruct h).
  rewrite u64_id by lia. set (k := Z.of_nat (length str) + 1) in *.
  destruct (malloc_ok k h fl live H ltac:(change (2 ^ 64) with 18446744073709551616; lia))
    as [(h1 & Heq & _)|[_ Hret]].
  { exists 0, h1. rewrite (bind_Ok _ _ _ _ _ Heq). split; [done|by left]. }
  pose proof Hret as (c & j & h1 & fl1 & Heq & Hj & H1 & _ & Hk & _).
  destruct (malloc_returns_kept _ _ _ _ _ _ _ _ H HR Hret Heq) as (Hp & _ & Hkept).
  rewrite (bind_Ok _ _ _ _ _ Heq). replace (BLOCK_RET c =? 0) with false by lia.
  set (p := BLOCK_RET c) in *. destruct (Hkept _ _ Hin) as [Hdis Hsame].
  assert (bytes_at (hw h1) s (str ++ [0])) as Hsrc.
  { eapply bytes_at_same; [|apply Hstr]. rewrite length_app. cbn [length]. intros a Ha. apply Hsame. lia. }
  destruct (block_bounds _ _ (heap_ok_block _ _ _ _ H1) : 0 < c ∧ _) as (Hc & _).
  assert (Z.of_nat (length (str ++ [0])) = k) as Hkk by (rewrite length_app; cbn [length]; lia).
  assert (memcpy p s k (hw h1) = Ok (p, write_bytes p (str ++ [0]) (hw h1))) as Hcpy.
  { rewrite <- Hkk. apply memcpy_ok; rewrite ?Hkk; try done.
    - eapply mem_ok_bytes; [apply H1|exact Hsrc].
    - eapply mapped_sub; [exact (block_mapped _ _ (heap_ok_block _ _ _ _ H1))|..];
        unfold p, BLOCK_RET, sizeof_alloc_t; bsimpl; lia.
    - unfold disjoint in *. lia.
    - unfold p, BLOCK_RET, sizeof_alloc_t. lia.
    - change (2 ^ 64) with 18446744073709551616. lia. }
  rewrite (lift_ok _ _ _ _ Hcpy). exists p. eexists. split; [reflexivity|]. right. split.
  - split; [apply write_bytes_at|apply Hstr].
  - intros r i Hri. destruct (Hkept _ _ Hri) as [Hd Hsm]. split; [done|]. intros a Ha. cbn [hw].
    rewrite write_bytes_lookup_ne by (rewrite Hkk; unfold disjoint in Hd; lia). by apply Hsm.
Qed.
End programs.

(** ** A program *)

(** Eight bytes from an empty heap of the kernel above, with "hello" in them. *)
Definition heap_after (r : outcome (Z * heap)) : heap :=
  match r with Ok (_, h) => h | _ => init_heap (World ∅ 0) end.
Definition returns_ptr (r : outcome (Z * heap)) (p : Z) : bool :=
  match r with Ok (q, _) => q =? p | _ => false end.
Lemma returns_ptr_true r p : returns_ptr r p = true → r = Ok (p, heap_after r).
Proof. destruct r as [[q h]| |]; [|done..]. by intros ->%Z.eqb_eq. Qed.

Definition demo_heap : heap := heap_after (malloc (K := low_kernel) 8 (init_heap (World ∅ 0))).
Definition demo_hello : heap :=
  mk_heap (foldl (λ w av, write_bytes av.1 [av.2] w) (hw demo_heap)
    (zip (seqZ 4112 5) (STR "hello"))) (small_mem demo_heap).

Lemma reachable_writes {K : Kernel} avs w sm L p n :
  reachable (mk_heap w sm, L) → (p, n) ∈ L → Forall (λ av, p <= av.1 < p + n ∧ byte av.2) avs →
  reachable (mk_heap (foldl (λ w av, write_bytes av.1 [av.2] w) w avs) sm, L).
Proof.
  intros Hr Hin Havs. revert w Hr. induction Havs as [|[a v] avs [Ha Hv] _ IH]; intros w Hr; [done|].
  apply IH. eapply reach_step; [exact Hr|]. by apply (step_write p n a v (mk_heap w sm)).
Qed.

Lemma demo_malloc : malloc (K := low_kernel) 8 (init_heap (World ∅ 0)) = Ok (4112, demo_heap).
Proof. apply returns_ptr_true. vm_compute. reflexivity. Qed.

Lemma demo_reachable : reachable (K := low_kernel) (demo_hello, [(4112, 8)]).
Proof.
  unfold demo_hello. generalize demo_heap, demo_malloc. intros h Hh. apply reachable_writes with 4112 8.
  - apply reach_step with (init_heap (World ∅ 0), []); [apply reach_init; by intros a b Hab|].
    destruct h. apply (step_malloc 8 4112 _ _ [] ltac:(lia) Hh).
  - apply list_elem_of_here.
  - repeat constructor; vm_compute; congruence.
Qed.


Definition demo_zeros : heap := heap_after (calloc (K := low_kernel) 4 2 demo_hello).
Lemma demo_calloc : calloc (K := low_kernel) 4 2 demo_hello = Ok (4144, demo_zeros).
Proof. apply returns_ptr_true. vm_compute. reflexivity. Qed.

Lemma calloc_zeroed_witness : 4144 ≠ 0 ∧ 2 * 4 < 2 ^ 64 ∧ bytes_at (hw demo_zeros) 4144 (zeros 8) ∧
  regions_kept demo_hello demo_zeros [(4112, 8)] 4144 8.
Proof.
  destruct (calloc_zeroed (K := low_kernel) _ _ 4 2 _ _ demo_reachable ltac:(lia) ltac:(lia) demo_calloc)
    as [[H _]|H]; [discriminate H|exact H].
Defined.

(** Growing the block to 3000 bytes moves it to a page of its own. *)
Definition demo_grown : heap := heap_after (realloc (K := low_kernel) 4112 3000 demo_hello).
Lemma demo_realloc : realloc (K := low_kernel) 4112 3000 demo_hello = Ok (8208, demo_grown).
Proof. apply returns_ptr_true. vm_compute. reflexivity. Qed.

Lemma demo_contents : bytes_at (hw demo_hello) 4112 (STR "hello" ++ [0; 0; 0]).
Proof. world_check. Qed.

Lemma realloc_keeps_contents_witness : bytes_at (hw demo_grown) 8208 (STR "hello" ++ [0; 0; 0]).
Proof.
  destruct (realloc_keeps_contents (K := low_kernel) _ _ [] 4112 8 _ 3000 _ _ demo_reachable
    (Permutation_refl _) demo_contents eq_refl ltac:(lia) demo_realloc) as [[H _]|(_ & H & _)];
    [discriminate H|].
  replace (take _ _) with (STR "hello" ++ [0; 0; 0]) in H by reflexivity. exact H.
Defined.

Lemma strdup_copies_witness :
  ∃ p h', strdup (K := low_kernel) 4112 demo_hello = Ok (p, h') ∧
    (p = 0 ∨ cstr (hw h') p (STR "hello") ∧
     regions_kept demo_hello h' [(4112, 8)] p (Z.of_nat (length (STR "hello")) + 1)).
Proof.
  apply (strdup_copies (K := low_kernel) _ _ 4112 8 4112 (STR "hello") demo_reachable);
    [apply list_elem_of_here|lia|simpl; lia|].
  split; [apply (bytes_at_take _ _ 6 _ demo_contents)|apply nzbytesb_true; reflexivity].
Defined.
