(* ===== verification/Random.v ===== *)
(** * Pseudo-random numbers

    [lib/rand_r.c], [lib/rand.c], the integer part of [lib/rand48.c] and
    [arc4random_uniform] of [lib/arc4random.c].  The static seeds and buffers are
    arguments and results of the functions. *)

From S2P Require Import Prelude.

(** ** [rand_r]: Schrage's method *)

Definition RAND_M : Z := u32 (Z.shiftl 1 31 - 1).
Definition RAND_A : Z := 48271.
Definition RAND_Q : Z := 44488.
Definition RAND_R : Z := 3399.

(** The result, which is also the new seed. *)
Definition rand_r (seed : Z) : Z :=
  let X := s32 seed in
  let X := s32 (RAND_A * Z.rem X RAND_Q - RAND_R * s32 (Z.quot X RAND_Q)) in
  if X <? 0 then s32 (u32 X + RAND_M) else X.

(** [rand] and [random] (with the seed), [srand]. *)
Definition rand (seed : Z) : Z * Z := let X := rand_r seed in (X, u32 X).
Definition srand (i : Z) : Z := if negb (i =? 0) then i else 23.

Lemma rand_r_range seed : 0 <= seed < 2 ^ 32 → 0 <= rand_r seed < 2 ^ 31.
Proof.
  intros Hs. unfold rand_r, RAND_A, RAND_Q, RAND_R. change RAND_M with 2147483647. cbv zeta.
  change (2 ^ 32) with 4294967296 in *. change (2 ^ 31) with 2147483648.
  assert (-2147483648 <= s32 seed < 2147483648) as HX by int_lia.
  set (X := s32 seed) in *. clearbody X.
  pose proof (Z.quot_rem' X 44488) as Hqr. pose proof (Z.rem_bound_abs X 44488 ltac:(lia)) as Hb.
  assert (0 <= X → 0 <= Z.rem X 44488) as Hp by (intros; by apply Z.rem_nonneg).
  assert (X <= 0 → Z.rem X 44488 <= 0) as Hn by (intros; by apply Z.rem_nonpos).
  set (q := Z.quot X 44488) in *. set (m := Z.rem X 44488) in *. clearbody q m.
  assert (s32 q = q) as -> by int_lia.
  assert (s32 (48271 * m - 3399 * q) = 48271 * m - 3399 * q) as -> by int_lia.
  destruct (Z.ltb_spec (48271 * m - 3399 * q) 0); int_lia.
Qed.

(** [rand_r] computes the generator x -> 48271 x mod (2^31 - 1) without
    overflowing 32 bits (Schrage's method). *)
Theorem rand_r_lehmer seed : 0 <= seed < 2 ^ 31 - 1 → rand_r seed = (48271 * seed) mod (2 ^ 31 - 1).
Proof.
  intros Hs. change (2 ^ 31 - 1) with 2147483647 in *.
  unfold rand_r, RAND_A, RAND_Q, RAND_R. change RAND_M with 2147483647. cbv zeta.
  assert (s32 seed = seed) as -> by int_lia.
  pose proof (Z.quot_rem' seed 44488) as Hqr. pose proof (Z.rem_bound_pos seed 44488 ltac:(lia) ltac:(lia)) as Hb.
  set (q := Z.quot seed 44488) in *. set (m := Z.rem seed 44488) in *. clearbody q m.
  assert (s32 q = q) as -> by int_lia.
  assert (s32 (48271 * m - 3399 * q) = 48271 * m - 3399 * q) as -> by int_lia.
  destruct (Z.ltb_spec (48271 * m - 3399 * q) 0).
  - assert (s32 (u32 (48271 * m - 3399 * q) + 2147483647) = 48271 * m - 3399 * q + 2147483647) as -> by int_lia.
    apply Z.mod_unique with (q - 1); lia.
  - apply Z.mod_unique with q; lia.
Qed.

Lemma rand_r_lehmer_witness : rand_r 1000000000 = 2010066381.
Proof. rewrite (rand_r_lehmer 1000000000); [reflexivity|split; [discriminate|reflexivity]]. Defined.

(** ** [rand48]

    A [randbuf] is three 16-bit words, the least significant first; the products
    are computed in [int], where an overflow wraps. *)

Definition randbuf : Type := Z * Z * Z.
Record rand48_state : Type := mk_rand48 { rand48buf : randbuf; mult_a : randbuf; addend_c : Z }.

Definition A_0 : Z := 0xE66D.
Definition A_1 : Z := 0xDEEC.
Definition A_2 : Z := 0x5.
Definition C48 : Z := 0xB.

(** [buf] after the call; the static [a] and [c] are arguments. *)
Definition calc_next (a : randbuf) (c : Z) (buf : randbuf) : randbuf :=
  let '(a0, a1, a2) := a in
  let '(b0, b1, b2) := buf in
  let t := s32 (b0 * a0 + c) in
  let tmp0 := Z.land t 0xffff in
  let tmp1 := Z.land (Z.shiftr t 16) 0xffff in
  let t := s32 (b1 * a0 + b0 * a1 + tmp1) in
  let tmp1 := Z.land t 0xffff in
  let tmp2 := Z.land (Z.shiftr t 16) 0xffff in
  let t := s32 (b2 * a0 + b1 * a1 + b0 * a2 + tmp2) in
  (tmp0, tmp1, Z.land t 0xffff).

Definition srand48 (seed : Z) : rand48_state :=
  mk_rand48 (0x330e, Z.land (Z.shiftr seed 16) 0xffff, Z.land seed 0xffff) (A_0, A_1, A_2) C48.
(** The new state and the contents of [oldx]. *)
Definition seed48 (buf : randbuf) (s : rand48_state) : randbuf * rand48_state :=
  (rand48buf s, mk_rand48 buf (A_0, A_1, A_2) C48).
Definition lcong48 (p0 p1 p2 p3 p4 p5 p6 : Z) : rand48_state := mk_rand48 (p0, p1, p2) (p3, p4, p5) p6.
(** The result is that of the old [buf]. *)
Definition jrand48 (s : rand48_state) (buf : randbuf) : Z * randbuf :=
  let '(_, b1, b2) := buf in
  (s32 (Z.lor (Z.shiftl b2 16) b1), calc_next (mult_a s) (addend_c s) buf).
Definition nrand48 (s : rand48_state) (buf : randbuf) : Z * randbuf :=
  let '(r, buf) := jrand48 s buf in (Z.land r 0x7FFFFFFF, buf).
Definition mrand48 (s : rand48_state) : Z * rand48_state :=
  let '(r, buf) := jrand48 s (rand48buf s) in (r, mk_rand48 buf (mult_a s) (addend_c s)).
Definition lrand48 (s : rand48_state) : Z * rand48_state :=
  let '(r, buf) := nrand48 s (rand48buf s) in (r, mk_rand48 buf (mult_a s) (addend_c s)).

(** The number a [randbuf] stands for. *)
Definition value48 (b : randbuf) : Z := let '(b0, b1, b2) := b in b0 + 2 ^ 16 * b1 + 2 ^ 32 * b2.
Definition word16 (x : Z) : Prop := 0 <= x < 2 ^ 16.
Definition randbuf_ok (b : randbuf) : Prop := let '(b0, b1, b2) := b in word16 b0 ∧ word16 b1 ∧ word16 b2.

Lemma land_16 x : Z.land x 0xffff = x mod 65536.
Proof. change 0xffff with (Z.ones 16). by rewrite Z.land_ones. Qed.

(** Sixteen bits from bit [k] on survive the wrap-around of [int]. *)
Lemma s32_low x : Z.land (s32 x) 0xffff = x mod 65536.
Proof. rewrite land_16. int_lia. Qed.
Lemma s32_high x : Z.land (Z.shiftr (s32 x) 16) 0xffff = (x / 65536) mod 65536.
Proof. rewrite land_16, Z.shiftr_div_pow2 by lia. change (2 ^ 16) with 65536. int_lia. Qed.

(** [calc_next] is the 48-bit linear congruential generator, although it
    works with 16-bit digits in 32-bit arithmetic that overflows. *)
Theorem calc_next_lcg a c buf :
  randbuf_ok a → word16 c → randbuf_ok buf →
  randbuf_ok (calc_next a c buf) ∧
  value48 (calc_next a c buf) = (value48 a * value48 buf + c) mod 2 ^ 48.
Proof.
  destruct a as [[a0 a1] a2], buf as [[b0 b1] b2]. unfold randbuf_ok, calc_next, value48, word16.
  rewrite !s32_low, !s32_high. change (2 ^ 16) with 65536. change (2 ^ 32) with (65536 * 65536).
  change (2 ^ 48) with (65536 * 65536 * 65536). intros (Ha0 & Ha1 & Ha2) Hc (Hb0 & Hb1 & Hb2).
  set (t0 := b0 * a0 + c). set (t1 := b1 * a0 + b0 * a1 + (t0 / 65536) mod 65536).
  set (t2 := b2 * a0 + b1 * a1 + b0 * a2 + (t1 / 65536) mod 65536).
  assert (0 <= t0 < 65536 * 65536) as Ht0 by (unfold t0; nia).
  split; [split_and!; apply Z.mod_pos_bound; lia|].
  assert (t0 / 65536 < 65536) as Hq by (apply Z.div_lt_upper_bound; lia).
  assert (0 <= t0 / 65536) by (apply Z.div_pos; lia).
  apply Z.mod_unique with
    (t2 / 65536 + t1 / 65536 / 65536 + a1 * b2 + a2 * b1 + 65536 * (a2 * b2)).
  { left. pose proof (Z.mod_pos_bound t0 65536). pose proof (Z.mod_pos_bound t1 65536).
    pose proof (Z.mod_pos_bound t2 65536). lia. }
  pose proof (Z.div_mod t0 65536 ltac:(lia)) as H0. pose proof (Z.div_mod t1 65536 ltac:(lia)) as H1.
  pose proof (Z.div_mod t2 65536 ltac:(lia)) as H2. pose proof (Z.div_mod (t1 / 65536) 65536 ltac:(lia)) as H3.
  assert (t1 = b1 * a0 + b0 * a1 + t0 / 65536) as E1 by (unfold t1; rewrite Z.mod_small by lia; done).
  assert (t2 = b2 * a0 + b1 * a1 + b0 * a2 + (t1 / 65536) mod 65536) as E2 by done.
  assert (t0 = b0 * a0 + c) as E0 by done. clearbody t0 t1 t2. nia.
Qed.

Lemma calc_next_lcg_witness :
  value48 (calc_next (A_0, A_1, A_2) C48 (0xFFFF, 0xFFFF, 0xFFFF)) = (25214903917 * (2 ^ 48 - 1) + 11) mod 2 ^ 48.
Proof.
  refine (proj2 (calc_next_lcg (A_0, A_1, A_2) C48 (0xFFFF, 0xFFFF, 0xFFFF) _ _ _));
    unfold randbuf_ok, word16; repeat split; vm_compute; congruence.
Defined.

(** ** [arc4random]

    The buffer of 256 numbers and the index; [fresh] is what [arc4random_buf]
    (the kernel's [getrandom]) puts into the buffer. *)

Record arc4_state : Type := mk_arc4 { arc4_buf : list Z; arc4_n : Z }.

Definition arc4random_stir (fresh : list Z) (s : arc4_state) : arc4_state := mk_arc4 fresh 0.
Definition arc4random (fresh : list Z) (s : arc4_state) : outcome (Z * arc4_state) :=
  let s := if arc4_n s =? 0 then arc4random_stir fresh s else s in
  match arc4_buf s !! Z.to_nat (arc4_n s) with
  | None => Fault
  | Some r =>
      let n := arc4_n s + 1 in
      Ok (r, mk_arc4 (arc4_buf s) (if n >? 256 then 0 else n))
  end.

(** [arc4random_uniform], where [rs] are the successive values of [arc4random]. *)
Definition arc4_min (upper_bound : Z) : Z := u32 (- upper_bound) mod upper_bound.
Fixpoint arc4random_uniform (upper_bound : Z) (rs : list Z) : outcome Z :=
  if upper_bound <? 2 then Ok 0 else
  match rs with
  | [] => Hang
  | r :: rs => if r >=? arc4_min upper_bound then Ok (r mod upper_bound) else arc4random_uniform upper_bound rs
  end.

Lemma arc4_min_spec b : 2 <= b < 2 ^ 32 → arc4_min b = 2 ^ 32 mod b ∧ 2 * arc4_min b < 2 ^ 32.
Proof.
  intros Hb. unfold arc4_min. change (2 ^ 32) with 4294967296 in *.
  assert (u32 (- b) = 4294967296 - b) as -> by int_lia.
  assert ((4294967296 - b) mod b = 4294967296 mod b) as ->.
  { replace (4294967296 - b) with (4294967296 + (-1) * b) by lia. apply Z.mod_add. lia. }
  split; [done|]. pose proof (Z.div_mod 4294967296 b ltac:(lia)).
  pose proof (Z.mod_pos_bound 4294967296 b ltac:(lia)).
  assert (1 <= 4294967296 / b) by (apply Z.div_le_lower_bound; lia). nia.
Qed.

(** In [k] consecutive runs of [b] numbers every residue occurs [k] times. *)
Lemma residues_in_runs b v k m :
  0 <= v < b → length (filter (λ r, r mod b = v) (seqZ m (Z.of_nat k * b))) = k.
Proof.
  intros Hv. revert m. induction k as [|k IH]; intros m; [done|].
  replace (Z.of_nat (S k) * b) with (b + Z.of_nat k * b) by lia.
  rewrite seqZ_app, filter_app, length_app, IH by nia.
  assert (filter (λ r, r mod b = v) (seqZ m b) = [m + (v - m) mod b]) as ->; [|done].
  pose proof (Z.mod_pos_bound (v - m) b ltac:(lia)) as Hr.
  set (d := (v - m) mod b) in *.
  assert ((m + d) mod b = v) as Hd.
  { unfold d. rewrite Z.add_mod_idemp_r by lia. replace (m + (v - m)) with v by lia. apply Z.mod_small. lia. }
  assert (seqZ m b = seqZ m d ++ seqZ (m + d) 1 ++ seqZ (m + d + 1) (b - d - 1)) as ->.
  { rewrite <- !seqZ_app by lia. f_equal. lia. }
  rewrite !filter_app.
  assert (∀ x e, 0 <= e → (∀ y, x <= y < x + e → y mod b ≠ v) →
    filter (λ r, r mod b = v) (seqZ x e) = []) as Hnone.
  { intros x e He Hy. apply list_filter_none. intros y Hin%elem_of_seqZ. auto. }
  assert (∀ y, m <= y < m + b → y ≠ m + d → y mod b ≠ v) as Huniq.
  { intros y Hy Hne Heq. apply Hne. clearbody d. clear -Hd Heq Hy Hr Hv.
    pose proof (Z.div_mod (m + d) b ltac:(lia)) as H1. pose proof (Z.div_mod y b ltac:(lia)) as H2.
    rewrite Hd in H1. rewrite Heq in H2.
    assert ((m + d) / b = y / b) by nia. nia. }
  rewrite (Hnone m d), (Hnone (m + d + 1)); try lia.
  - rewrite seqZ_cons by lia. cbn [app]. rewrite filter_cons_True by done.
    by rewrite seqZ_nil by lia.
  - intros y Hy. apply Huniq; lia.
  - intros y Hy. apply Huniq; lia.
Qed.

(** [arc4random_uniform] is uniform: of the values of [arc4random] that it
    does not reject, every result below the bound comes from equally many, and
    fewer than half are rejected; what it returns is below the bound. *)
Theorem arc4random_uniform_unbiased b rs :
  2 <= b < 2 ^ 32 →
  (∀ v, 0 <= v < b →
     Z.of_nat (length (filter (λ r, arc4_min b <= r ∧ arc4random_uniform b [r] = Ok v) (seqZ 0 (2 ^ 32)))) = 2 ^ 32 / b) ∧
  2 * arc4_min b < 2 ^ 32 ∧
  (∀ v, arc4random_uniform b rs = Ok v → 0 <= v < b).
Proof.
  intros Hb. destruct (arc4_min_spec b Hb) as [Hmin Hhalf]. split_and!; [|done|].
  - intros v Hv. set (P := λ r, arc4_min b <= r ∧ arc4random_uniform b [r] = Ok v).
    assert (2 ^ 32 = arc4_min b + Z.of_nat (Z.to_nat (2 ^ 32 / b)) * b) as Hsplit.
    { rewrite Z2Nat.id by (apply Z.div_pos; lia). rewrite Hmin. pose proof (Z.div_mod (2 ^ 32) b ltac:(lia)). lia. }
    assert (0 <= arc4_min b) by (rewrite Hmin; apply Z.mod_pos_bound; lia).
    rewrite Hsplit at 1. rewrite seqZ_app, filter_app, length_app by nia.
    assert (filter P (seqZ 0 (arc4_min b)) = []) as ->.
    { apply list_filter_none. intros r Hr%elem_of_seqZ. unfold P. lia. }
    rewrite (list_filter_ext_in P (λ r, r mod b = v)).
    + rewrite residues_in_runs by done. cbn [length]. rewrite Nat.add_0_l.
      apply Z2Nat.id. apply Z.div_pos; lia.
    + intros r Hr%elem_of_seqZ. unfold P. cbn [arc4random_uniform].
      replace (b <? 2) with false by lia. replace (r >=? arc4_min b) with true by lia.
      split; [by intros [_ [=]]|intros <-; split; [lia|done]].
  - induction rs as [|r rs IH]; intros v; cbn [arc4random_uniform]; replace (b <? 2) with false by lia; [done|].
    destruct (r >=? arc4_min b); [|apply IH]. intros [= <-]. apply Z.mod_pos_bound. lia.
Qed.

Lemma arc4random_uniform_unbiased_witness :
  Z.of_nat (length (filter (λ r, arc4_min 6 <= r ∧ arc4random_uniform 6 [r] = Ok 5) (seqZ 0 (2 ^ 32)))) = 715827882.
Proof. apply (proj1 (arc4random_uniform_unbiased 6 [] ltac:(lia)) 5). lia. Defined.

(** [k] calls of [arc4random]. *)
Fixpoint arc4random_calls (k : nat) (fresh : list Z) (s : arc4_state) : outcome arc4_state :=
  match k with
  | O => Ok s
  | S k =>
      match arc4random fresh s with
      | Ok (_, s) => arc4random_calls k fresh s
      | Fault => Fault
      | Hang => Hang
      end
  end.

Lemma arc4random_calls_ok k fresh n :
  0 < n → n + Z.of_nat k <= 256 → length fresh = 256%nat →
  arc4random_calls k fresh (mk_arc4 fresh n) = Ok (mk_arc4 fresh (n + Z.of_nat k)).
Proof.
  revert n. induction k as [|k IH]; intros n Hn Hk Hl; cbn [arc4random_calls]; [by rewrite Z.add_0_r|].
  unfold arc4random. cbn [arc4_n arc4_buf]. replace (n =? 0) with false by lia. cbn [arc4_n arc4_buf].
  destruct (lookup_lt_is_Some_2 fresh (Z.to_nat n)) as [r ->]; [lia|].
  replace (n + 1 >? 256) with false by lia. rewrite IH by lia. do 2 f_equal. lia.
Qed.

(** [arc4random] reads past its buffer: it resets the index only when it
    exceeds the number of elements, so the 257th call reads [buf[256]]. *)
Theorem arc4random_overrun fresh s :
  length fresh = 256%nat → arc4_n s = 0 →
  (∃ s', arc4random_calls 256 fresh s = Ok s') ∧ arc4random_calls 257 fresh s = Fault.
Proof.
  intros Hl Hs. assert (∃ r, arc4random fresh s = Ok (r, mk_arc4 fresh 1)) as [r H1].
  { unfold arc4random. rewrite Hs. cbn [Z.eqb arc4random_stir arc4_n arc4_buf].
    destruct (lookup_lt_is_Some_2 fresh (Z.to_nat 0)) as [r ->]; [simpl; lia|]. by eexists. }
  assert (∀ k, arc4random_calls (S k) fresh s = arc4random_calls k fresh (mk_arc4 fresh 1)) as Hstep.
  { intros k. cbn [arc4random_calls]. by rewrite H1. }
  assert (∀ k s0 s1, arc4random_calls k fresh s0 = Ok s1 →
    arc4random_calls (S k) fresh s0 = arc4random_calls 1 fresh s1) as Hsnoc.
  { induction k as [|k IH]; intros s0 s1 H; [by simplify_eq/=|].
    cbn [arc4random_calls] in H. remember (S k) as k'. cbn [arc4random_calls].
    destruct (arc4random fresh s0) as [[x s2]| |]; [|done..]. subst k'. by apply IH. }
  pose proof (arc4random_calls_ok 255 fresh 1 ltac:(lia) ltac:(simpl; lia) Hl) as H255.
  rewrite <- Hstep in H255. split; [eauto|]. rewrite (Hsnoc _ _ _ H255). cbn [arc4random_calls].
  unfold arc4random. cbn [arc4_n arc4_buf]. rewrite lookup_ge_None_2; [done|]. simpl. lia.
Qed.

Lemma arc4random_overrun_witness :
  arc4random_calls 257 (replicate 256 7) (mk_arc4 [] 0) = Fault.
Proof. apply (arc4random_overrun (replicate 256 7)); reflexivity. Defined.
