(* ===== verification/Sort.v ===== *)
(** * Sorting and searching

    [lib/qsort.c] (with [RAND] defined, as in the file) and [lib/bsearch.c].  The
    array is its bytes, [base]; element [i] is the bytes from [i * size] on.  The
    comparison function gets the bytes of two elements; its result is an [int].
    The state also has the seed of [rand], which chooses the pivots. *)

From S2P Require Import Prelude Random.

Record sort_state : Type := mk_sort { base : list Z; seed : Z }.

(** Element [i], as the comparison function reads it. *)
Definition elem (size i : Z) : CM sort_state (list Z) := λ s,
  if (0 <=? i) && (i * size + size <=? Z.of_nat (length (base s)))
  then Ok (take (Z.to_nat size) (drop (Z.to_nat (i * size)) (base s)), s) else Fault.

(** [z=*x; *x=*y; *y=z;] on the bytes [x] and [y] of the array. *)
Definition exch_byte (x y : Z) : CM sort_state unit := λ s,
  if (x <? 0) || (y <? 0) then Fault else
  match base s !! Z.to_nat x, base s !! Z.to_nat y with
  | Some bx, Some by_ => Ok (tt, mk_sort (<[Z.to_nat y := bx]> (<[Z.to_nat x := by_]> (base s))) (seed s))
  | _, _ => Fault
  end.
(** [while (size) { ...; --size; ++x; ++y; }] *)
Fixpoint exch_loop (size : nat) (x y : Z) : CM sort_state unit :=
  match size with
  | O => mret tt
  | S size => _ ← exch_byte x y; exch_loop size (x + 1) (y + 1)
  end.
Definition exch (size a b : Z) : CM sort_state unit := exch_loop (Z.to_nat size) (a * size) (b * size).

Definition do_rand : CM sort_state Z := λ s, let '(x, sd) := rand (seed s) in Ok (x, mk_sort (base s) sd).

Section qsort.
Context (compar : list Z → list Z → Z) (size : Z).

(** [compar(base+i*size, v)], [compar(v, base+j*size)] with [v=base+r*size] *)
Definition compar_at (i j : Z) : CM sort_state Z :=
  x ← elem size i; y ← elem size j; mret (compar x y).

(** [while (++i != r && compar(base+i*size,v)<0) ;] *)
Definition scan_up (fuel : nat) (r i : Z) : CM sort_state Z :=
  loop fuel (λ i,
    let i := i + 1 in
    if i =? r then mret (Done i) else
    c ← compar_at i r;
    if c <? 0 then mret (Next i) else mret (Done i)) i.
(** [while (compar(v,base+(--j)*size)<0) if (j == l) break;] *)
Definition scan_down (fuel : nat) (l r j : Z) : CM sort_state Z :=
  loop fuel (λ j,
    let j := j - 1 in
    c ← compar_at r j;
    if c <? 0 then if j =? l then mret (Done j) else mret (Next j) else mret (Done j)) j.

(** The [for (;;)] loop: [i] when it is left, and [p] and [q]. *)
Definition partition_body (l r : Z) : Z * Z * Z * Z → CM sort_state (step (Z * Z * Z * Z) (Z * Z * Z)) :=
  λ '(i, j, p, q),
    let fuel := Z.to_nat (r - l + 2) in
    i ← scan_up fuel r i;
    j ← scan_down fuel l r j;
    if i >=? j then mret (Done (i, p, q)) else
    _ ← exch size i j;
    c ← compar_at i r;
    p ← (if c =? 0 then _ ← exch size (p + 1) i; mret (p + 1) else mret p);
    c ← compar_at r j;
    q ← (if c =? 0 then _ ← exch size j (q - 1); mret (q - 1) else mret q);
    mret (Next (i, j, p, q)).

(** [for (k=l; k<p; k++, j--) exch(base,size,k,j);]: [j] after the loop *)
Definition swap_left (fuel : nat) (p l j : Z) : CM sort_state Z :=
  loop fuel (λ '(k, j),
    if k <? p then _ ← exch size k j; mret (Next (k + 1, j - 1)) else mret (Done j)) (l, j).
(** [for (k=r-1; k>q; k--, i++) exch(base,size,i,k);]: [i] after the loop *)
Definition swap_right (fuel : nat) (q r i : Z) : CM sort_state Z :=
  loop fuel (λ '(k, i),
    if k >? q then _ ← exch size i k; mret (Next (k - 1, i + 1)) else mret (Done i)) (r - 1, i).

(** The body of [quicksort] up to the recursive calls: their bounds [j] and [i]. *)
Definition partition (l r : Z) : CM sort_state (Z * Z) :=
  let fuel := Z.to_nat (r - l + 2) in
  x ← do_rand;
  _ ← exch size (l + Z.rem x (r - l)) r;
  '(i, p, q) ← loop fuel (partition_body l r) (l - 1, r, l - 1, r);
  _ ← exch size i r;
  let j := i - 1 in
  let i := i + 1 in
  j ← swap_left fuel p l j;
  i ← swap_right fuel q r i;
  mret (j, i).

Fixpoint quicksort (fuel : nat) (l r : Z) : CM sort_state unit :=
  match fuel with
  | O => λ _, Hang
  | S fuel =>
      if r <=? l then mret tt else
      '(j, i) ← partition l r;
      _ ← quicksort fuel l j;
      quicksort fuel i r
  end.

Definition qsort (nmemb : Z) : CM sort_state unit :=
  if (nmemb >=? 0x7fffffffffffffff) || (size >=? 0x7fffffffffffffff) then mret tt else
  if nmemb >? 1 then quicksort (S (Z.to_nat nmemb)) 0 (nmemb - 1) else mret tt.

(** [bsearch]: the index of the element found. *)
Definition bsearch (key : list Z) (nmemb : Z) : CM sort_state (option Z) :=
  loop (S (Z.to_nat nmemb)) (λ '(b, nmemb),
    if nmemb =? 0 then mret (Done None) else
    let m := nmemb / 2 in
    let p := b + m in
    x ← elem size p;
    let tmp := compar key x in
    if tmp <? 0 then mret (Next (b, m))
    else if tmp >? 0 then mret (Next (p + 1, nmemb - (m + 1)))
    else mret (Done (Some p))) (0, nmemb).
End qsort.

(** Twelve one-byte elements. *)
Example qsort_bytes :
  qsort (λ x y, hd 0 x - hd 0 y) 1 12 (mk_sort [5; 3; 9; 3; 5; 5; 1; 8; 3; 5; 2; 5] 1) =
  Ok (tt, mk_sort [1; 2; 3; 3; 3; 5; 5; 5; 5; 5; 8; 9] 1105902161).
Proof. vm_compute. reflexivity. Qed.
