(* ===== verification/SortFacts.v ===== *)
(** * [qsort] sorts

    For every comparison function that orders the elements, whatever the random
    pivots: [qsort] terminates, stays within the array and leaves the elements of
    the array in order; [bsearch] finds an element of a sorted array if there is
    one.  The array is seen as a function from indices to elements. *)

From S2P Require Import Prelude Random Sort.

(** ** Arrays as functions *)

Definition swap {A} (a b : Z) (f : Z → A) : Z → A :=
  λ x, if decide (x = a) then f b else if decide (x = b) then f a else f x.

(** The elements with indices [l] to [r], and the functions that have the same
    ones there and agree elsewhere. *)
Definition between {A} (l r : Z) (f : Z → A) : list A := f <$> seqZ l (r - l + 1).
Definition perm_on {A} (l r : Z) (f g : Z → A) : Prop :=
  between l r g ≡ₚ between l r f ∧ ∀ x, x < l ∨ r < x → g x = f x.

Section functions.
Context {A : Type}.
Implicit Types f g : Z → A.

Lemma between_split l m r f : l <= m <= r + 1 → between l r f = between l (m - 1) f ++ between m r f.
Proof.
  intros H. unfold between. replace (r - l + 1) with ((m - 1 - l + 1) + (r - m + 1)) by lia.
  rewrite seqZ_app by lia. rewrite fmap_app. do 3 f_equal. lia.
Qed.

Lemma between_ext l r f g : (∀ x, l <= x <= r → f x = g x) → between l r f = between l r g.
Proof.
  intros H. unfold between. apply list_fmap_ext. intros i x Hx.
  apply H. apply list_elem_of_lookup_2, elem_of_seqZ in Hx. lia.
Qed.

Lemma between_one l f : between l l f = [f l].
Proof. unfold between. replace (l - l + 1) with 1 by lia. done. Qed.

Lemma elem_of_between l r f y : y ∈ between l r f ↔ ∃ x, l <= x <= r ∧ y = f x.
Proof.
  unfold between. rewrite list_elem_of_fmap. split.
  - intros (x & -> & Hx%elem_of_seqZ). exists x. split; [lia|done].
  - intros (x & Hx & ->). exists x. split; [done|]. apply elem_of_seqZ. lia.
Qed.

Lemma perm_on_refl l r f : perm_on l r f f.
Proof. done. Qed.

Lemma perm_on_trans l r f g h : perm_on l r f g → perm_on l r g h → perm_on l r f h.
Proof.
  intros [H1 H2] [H3 H4]. split; [by rewrite H3|]. intros x Hx. rewrite H4, H2; done.
Qed.

Lemma perm_on_mono l r l' r' f g : l' <= l → r <= r' → l <= r + 1 → perm_on l r f g → perm_on l' r' f g.
Proof.
  intros Hl Hr Hlr [H1 H2]. split; [|intros x Hx; apply H2; lia].
  rewrite (between_split l' l r' g), (between_split l' l r' f) by lia.
  rewrite (between_split l (r + 1) r' g), (between_split l (r + 1) r' f) by lia.
  replace (r + 1 - 1) with r by lia. rewrite H1.
  rewrite (between_ext l' (l - 1) g f), (between_ext (r + 1) r' g f); [done|..];
    intros x Hx; apply H2; lia.
Qed.

(** What holds of all elements of the part still does. *)
Lemma perm_on_Forall (P : A → Prop) l r f g :
  perm_on l r f g → (∀ x, l <= x <= r → P (f x)) → ∀ x, l <= x <= r → P (g x).
Proof.
  intros [HP _] Hf x Hx. assert (g x ∈ between l r f) as Hin.
  { rewrite <- HP. apply elem_of_between. eauto. }
  apply elem_of_between in Hin as (y & Hy & ->). auto.
Qed.

Lemma swap_comm a b f x : swap a b f x = swap b a f x.
Proof. unfold swap. repeat case_decide; congruence. Qed.

Lemma swap_perm l r a b f : l <= a <= r → l <= b <= r → perm_on l r f (swap a b f).
Proof.
  assert (∀ a b, l <= a → a < b → b <= r → between l r (swap a b f) ≡ₚ between l r f) as Hlt.
  { intros a' b' Ha Hab Hb.
    assert (∀ g, between l r g = between l (a' - 1) g ++ [g a'] ++ between (a' + 1) (b' - 1) g ++
      [g b'] ++ between (b' + 1) r g) as Hsplit.
    { intros g. rewrite (between_split l a' r) by lia. f_equal.
      rewrite (between_split a' (a' + 1) r) by lia. replace (a' + 1 - 1) with a' by lia.
      rewrite between_one. f_equal. rewrite (between_split (a' + 1) b' r) by lia. f_equal.
      rewrite (between_split b' (b' + 1) r) by lia. replace (b' + 1 - 1) with b' by lia.
      by rewrite between_one. }
    rewrite (Hsplit (swap a' b' f)), (Hsplit f).
    rewrite (between_ext l (a' - 1) (swap a' b' f) f), (between_ext (a' + 1) (b' - 1) (swap a' b' f) f),
      (between_ext (b' + 1) r (swap a' b' f) f);
      try (intros x Hx; unfold swap; repeat case_decide; lia || done).
    replace (swap a' b' f a') with (f b') by (unfold swap; by rewrite decide_True).
    replace (swap a' b' f b') with (f a') by (unfold swap; rewrite decide_False, decide_True by lia; done).
    apply Permutation_app_head. cbn [app]. rewrite <- !Permutation_middle. apply perm_swap. }
  intros Ha Hb. split; [|intros x Hx; unfold swap; repeat case_decide; lia || done].
  destruct (Z.lt_trichotomy a b) as [H|[->|H]].
  - apply Hlt; lia.
  - erewrite between_ext; [done|]. intros x Hx. unfold swap. repeat case_decide; congruence.
  - rewrite (between_ext _ _ _ (swap b a f)) by (intros; apply swap_comm). apply Hlt; lia.
Qed.
End functions.

(** ** The array in memory *)

Definition slice (size : Z) (l : list Z) (i : Z) : list Z :=
  take (Z.to_nat size) (drop (Z.to_nat (i * size)) l).

(** [s] holds the [n] elements [f 0] to [f (n - 1)]. *)
Record rep (size n : Z) (f : Z → list Z) (s : sort_state) : Prop := {
  rep_length : Z.of_nat (length (base s)) = n * size;
  rep_elem i : 0 <= i < n → slice size (base s) i = f i;
  rep_seed : 0 <= seed s < 2 ^ 32;
}.

Lemma slice_lookup size l i k :
  0 <= i → 0 <= k < size → slice size l i !! Z.to_nat k = l !! Z.to_nat (i * size + k).
Proof.
  intros Hi Hk. unfold slice. rewrite lookup_take_lt by lia. rewrite lookup_drop.
  f_equal. nia.
Qed.

Lemma slice_length size l i n :
  0 <= size → Z.of_nat (length l) = n * size → 0 <= i < n → Z.of_nat (length (slice size l i)) = size.
Proof. intros Hs Hl Hi. unfold slice. rewrite length_take, length_drop. nia. Qed.

Section array.
Context (size n : Z) (Hsize : 0 <= size).

Lemma elem_ok f s i : rep size n f s → 0 <= i < n → elem size i s = Ok (f i, s).
Proof.
  intros [Hl He _] Hi. unfold elem. rewrite <- (He i Hi). unfold slice.
  replace (0 <=? i) with true by lia. replace (_ <=? _) with true by nia. done.
Qed.

Lemma compar_at_ok compar f s i j :
  rep size n f s → 0 <= i < n → 0 <= j < n → compar_at compar size i j s = Ok (compar (f i) (f j), s).
Proof.
  intros Hr Hi Hj. unfold compar_at. rewrite (bind_Ok _ _ _ _ _ (elem_ok _ _ _ Hr Hi)).
  by rewrite (bind_Ok _ _ _ _ _ (elem_ok _ _ _ Hr Hj)).
Qed.

Lemma exch_loop_ok m x y s :
  0 <= x → 0 <= y → x + Z.of_nat m <= Z.of_nat (length (base s)) →
  y + Z.of_nat m <= Z.of_nat (length (base s)) →
  x = y ∨ x + Z.of_nat m <= y ∨ y + Z.of_nat m <= x →
  ∃ l, exch_loop m x y s = Ok (tt, mk_sort l (seed s)) ∧ length l = length (base s) ∧
    ∀ k, 0 <= k → l !! Z.to_nat k =
      if decide (x <= k < x + Z.of_nat m) then base s !! Z.to_nat (k - x + y)
      else if decide (y <= k < y + Z.of_nat m) then base s !! Z.to_nat (k - y + x)
      else base s !! Z.to_nat k.
Proof.
  revert x y s. induction m as [|m IH]; intros x y s Hx Hy Hlx Hly Hd.
  - exists (base s). destruct s as [l sd]. split_and!; [done..|]. intros k Hk.
    rewrite !decide_False by lia. done.
  - cbn [exch_loop]. unfold exch_byte at 1.
    replace ((x <? 0) || (y <? 0)) with false by lia.
    destruct (lookup_lt_is_Some_2 (base s) (Z.to_nat x)) as [bx Hbx]; [lia|].
    destruct (lookup_lt_is_Some_2 (base s) (Z.to_nat y)) as [by_ Hby]; [lia|].
    set (s1 := mk_sort (<[Z.to_nat y:=bx]> (<[Z.to_nat x:=by_]> (base s))) (seed s)).
    erewrite bind_Ok by (rewrite Hbx, Hby; reflexivity). fold s1.
    assert (length (base s1) = length (base s)) as Hlen by (unfold s1; cbn; by rewrite !length_insert).
    destruct (IH (x + 1) (y + 1) s1) as (l & Hrun & Hl & Hlk); [lia|lia|lia|lia|lia|].
    exists l. split_and!; [exact Hrun|congruence|]. intros k Hk. rewrite Hlk by done.
    assert (∀ z, 0 <= z → base s1 !! Z.to_nat z =
      if decide (z = y) then Some bx else if decide (z = x) then Some by_ else base s !! Z.to_nat z) as Hs1.
    { intros z Hz. unfold s1. cbn [base]. destruct (decide (z = y)) as [->|Hzy].
      - rewrite list_lookup_insert_eq; [done|]. rewrite length_insert. lia.
      - rewrite list_lookup_insert_ne by lia. destruct (decide (z = x)) as [->|Hzx].
        + rewrite list_lookup_insert_eq; [done|lia].
        + rewrite list_lookup_insert_ne by lia. done. }
    rewrite Nat2Z.inj_succ. repeat case_decide; try lia; rewrite Hs1 by lia;
      repeat case_decide; try lia; subst; rewrite <- ?Hbx, <- ?Hby; repeat (f_equal; lia || f_equal).
Qed.

Lemma exch_ok f s a b :
  rep size n f s → 0 <= a < n → 0 <= b < n →
  ∃ s', exch size a b s = Ok (tt, s') ∧ rep size n (swap a b f) s'.
Proof.
  intros [Hl He Hsd] Ha Hb. unfold exch.
  destruct (exch_loop_ok (Z.to_nat size) (a * size) (b * size) s) as (l & Hrun & Hll & Hlk);
    [nia|nia|nia|nia| |].
  { destruct (Z.lt_trichotomy a b) as [H|[->|H]]; [right; left; nia|by left|right; right; nia]. }
  eexists. split; [exact Hrun|]. split; [cbn; lia| |done]. intros i Hi. cbn [base].
  assert (∀ j, 0 <= j < n → (∀ k, 0 <= k < size → l !! Z.to_nat (i * size + k) = base s !! Z.to_nat (j * size + k)) →
    slice size l i = f j) as Hslice.
  { intros j Hj Hk. rewrite <- (He j Hj). apply list_eq. intros k.
    destruct (decide (Z.of_nat k < size)).
    - rewrite <- (Nat2Z.id k), !slice_lookup by lia. apply Hk. lia.
    - rewrite !lookup_ge_None_2; [done|..].
      + apply Nat2Z.inj_le. rewrite (slice_length size (base s) j n); lia.
      + apply Nat2Z.inj_le. rewrite (slice_length size l i n); lia. }
  rewrite Z2Nat.id in Hlk by lia. unfold swap.
  destruct (decide (i = a)) as [->|Hia]; [|destruct (decide (i = b)) as [->|Hib]].
  - apply Hslice; [done|]. intros k Hk. rewrite Hlk by nia. rewrite decide_True by nia.
    f_equal. nia.
  - apply Hslice; [done|]. intros k Hk. rewrite Hlk by nia.
    rewrite decide_False by nia. rewrite decide_True by nia. f_equal. nia.
  - apply Hslice; [done|]. intros k Hk. rewrite Hlk by nia. rewrite !decide_False by nia. done.
Qed.
End array.

(** ** Partitioning *)

(** What [qsort] needs of the comparison function: it orders the elements. *)
Class Comparison (compar : list Z → list Z → Z) : Prop := {
  cmp_anti x y : compar x y < 0 ↔ 0 < compar y x;
  cmp_trans x y z : compar x y <= 0 → compar y z <= 0 → compar x z <= 0;
}.

Lemma cmp_sym0 {compar} `{!Comparison compar} x y : compar x y = 0 ↔ compar y x = 0.
Proof. pose proof (cmp_anti x y). pose proof (cmp_anti y x). lia. Qed.
Lemma cmp_le_ge {compar} `{!Comparison compar} x y : compar x y <= 0 ↔ 0 <= compar y x.
Proof. pose proof (cmp_anti x y). pose proof (cmp_anti y x). lia. Qed.

Section partition.
Context (compar : list Z → list Z → Z) {C : Comparison compar} (size n : Z) (Hsize : 0 <= size).
Notation rep := (rep size n).

Lemma scan_up_ok f s r lim fuel i :
  rep f s → -1 <= i < lim → lim <= r → r < n → (lim = r ∨ 0 <= compar (f lim) (f r)) →
  lim - i < Z.of_nat fuel →
  ∃ i', scan_up compar size fuel r i s = Ok (i', s) ∧ i < i' <= lim ∧
    (∀ x, i < x < i' → compar (f x) (f r) < 0) ∧ (i' = r ∨ 0 <= compar (f i') (f r)).
Proof.
  intros Hr Hi Hlim Hn Hstop. revert i Hi. induction fuel as [|fuel IH]; intros i Hi Hf; [lia|].
  unfold scan_up in *. destruct (Z.eqb_spec (i + 1) r) as [Heq|Hne].
  - exists r. split_and!; [|lia|lia|intros x Hx; lia|by left]. apply loop_Done. cbv zeta.
    rewrite Heq, Z.eqb_refl. done.
  - assert (compar_at compar size (i + 1) r s = Ok (compar (f (i + 1)) (f r), s)) as Hc
      by (apply (compar_at_ok size n); [done|done|lia|lia]).
    destruct (Z.ltb_spec (compar (f (i + 1)) (f r)) 0) as [Hlt|Hge].
    + assert (i + 1 ≠ lim) by (intros E; rewrite <- E in Hstop; lia).
      destruct (IH (i + 1)) as (i' & Hrun & Hi' & Hbelow & Hend); [lia|lia|].
      exists i'. split_and!; [|lia|lia| |done].
      * erewrite loop_Next; [exact Hrun|]. cbv beta zeta. rewrite (proj2 (Z.eqb_neq _ _) Hne).
        rewrite (bind_Ok _ _ _ _ _ Hc). rewrite (proj2 (Z.ltb_lt _ _) Hlt). done.
      * intros x Hx. destruct (decide (x = i + 1)) as [->|]; [done|apply Hbelow; lia].
    + exists (i + 1). split_and!; [|lia|lia|intros x Hx; lia|by right]. apply loop_Done. cbv beta zeta.
      rewrite (proj2 (Z.eqb_neq _ _) Hne), (bind_Ok _ _ _ _ _ Hc), (proj2 (Z.ltb_ge _ _) Hge). done.
Qed.

Lemma scan_down_ok f s l r lo fuel j :
  rep f s → 0 <= l <= lo → lo < j → j <= r → r < n → (lo = l ∨ 0 <= compar (f r) (f lo)) →
  j - lo < Z.of_nat fuel →
  ∃ j', scan_down compar size fuel l r j s = Ok (j', s) ∧ lo <= j' < j ∧
    (∀ x, j' < x < j → compar (f r) (f x) < 0) ∧ (j' = l ∨ 0 <= compar (f r) (f j')).
Proof.
  intros Hr Hl Hlo Hjr Hn Hstop. revert j Hlo Hjr. induction fuel as [|fuel IH]; intros j Hlo Hjr Hf; [lia|].
  unfold scan_down in *.
  assert (compar_at compar size r (j - 1) s = Ok (compar (f r) (f (j - 1)), s)) as Hc
    by (apply (compar_at_ok size n); [done|done|lia|lia]).
  destruct (Z.ltb_spec (compar (f r) (f (j - 1))) 0) as [Hlt|Hge].
  - destruct (Z.eqb_spec (j - 1) l) as [Heq|Hne].
    + exists l. split_and!; [|lia|lia|intros x Hx; lia|by left]. apply loop_Done. cbv beta zeta.
      rewrite (bind_Ok _ _ _ _ _ Hc), (proj2 (Z.ltb_lt _ _) Hlt), Heq, Z.eqb_refl. done.
    + assert (j - 1 ≠ lo) by (intros E; rewrite <- E in Hstop; lia).
      destruct (IH (j - 1)) as (j' & Hrun & Hj' & Habove & Hend); [lia|lia|lia|].
      exists j'. split_and!; [|lia|lia| |done].
      * erewrite loop_Next; [exact Hrun|]. cbv beta zeta. rewrite (bind_Ok _ _ _ _ _ Hc).
        rewrite (proj2 (Z.ltb_lt _ _) Hlt), (proj2 (Z.eqb_neq _ _) Hne). done.
      * intros x Hx. destruct (decide (x = j - 1)) as [->|]; [done|apply Habove; lia].
  - exists (j - 1). split_and!; [|lia|lia|intros x Hx; lia|by right]. apply loop_Done. cbv beta zeta.
    rewrite (bind_Ok _ _ _ _ _ Hc), (proj2 (Z.ltb_ge _ _) Hge). done.
Qed.

(** An exchange within the part that is being sorted. *)
Lemma exch_perm f g s l r a b :
  rep g s → perm_on l r f g → 0 <= l → r < n → l <= a <= r → l <= b <= r →
  ∃ s', exch size a b s = Ok (tt, s') ∧ rep (swap a b g) s' ∧ perm_on l r f (swap a b g).
Proof.
  intros Hr Hp Hl Hrn Ha Hb. destruct (exch_ok size n Hsize g s a b Hr) as (s' & Hrun & Hr'); [lia|lia|].
  exists s'. split_and!; [done|done|]. eapply perm_on_trans; [exact Hp|by apply swap_perm].
Qed.

(** The state of the partition loop: elements up to [p] and from [q] on equal the
    pivot, those up to [i] are not greater, those from [j] on not less. *)
Record part_inv (f : Z → list Z) (l r i j p q : Z) (g : Z → list Z) : Prop := {
  pi_perm : perm_on l r f g;
  pi_pivot : g r = f r;
  pi_bounds : l - 1 <= p <= i ∧ i < j <= q ∧ q <= r ∧ l < j;
  pi_p x : l <= x <= p → compar (g x) (f r) = 0;
  pi_i x : l <= x <= i → compar (g x) (f r) <= 0;
  pi_j x : j <= x < r → 0 <= compar (g x) (f r);
  pi_q x : q <= x < r → compar (g x) (f r) = 0;
}.

(** And when it is left. *)
Record part_done (f : Z → list Z) (l r i p q : Z) (g : Z → list Z) : Prop := {
  pd_perm : perm_on l r f g;
  pd_pivot : g r = f r;
  pd_bounds : l - 1 <= p < i ∧ i <= q <= r;
  pd_p x : l <= x <= p → compar (g x) (f r) = 0;
  pd_le x : l <= x < i → compar (g x) (f r) <= 0;
  pd_ge x : i <= x < r → 0 <= compar (g x) (f r);
  pd_q x : q <= x < r → compar (g x) (f r) = 0;
}.

Ltac swap_case := unfold swap; repeat case_decide; subst; try lia.

(** The end of a round that goes on: [i] and [j] were exchanged, and equal
    elements move to the ends. *)
Lemma part_inv_exch f l r i j p q g i' j' :
  part_inv f l r i j p q g → i < i' → i' < j' → j' < j →
  (∀ x, i < x < i' → compar (g x) (f r) < 0) → (∀ x, j' < x < j → compar (f r) (g x) < 0) →
  0 <= compar (g i') (f r) → 0 <= compar (f r) (g j') →
  part_inv f l r i' j' p q (swap i' j' g).
Proof.
  intros [H1 H2 H3 H4 H5 H6 H7] Hi Hij Hj Hlt Hgt Hi' Hj'. split.
  - eapply perm_on_trans; [exact H1|]. apply swap_perm; lia.
  - swap_case. done.
  - lia.
  - intros x Hx. swap_case. apply H4. lia.
  - intros x Hx. swap_case; [by apply cmp_le_ge|].
    destruct (decide (x <= i)); [apply H5; lia|]. specialize (Hlt x ltac:(lia)). lia.
  - intros x Hx. swap_case. destruct (decide (j <= x)); [apply H6; lia|].
    apply cmp_le_ge. specialize (Hgt x ltac:(lia)). lia.
  - intros x Hx. swap_case. apply H7. lia.
Qed.

Lemma part_inv_p f l r i j p q g :
  part_inv f l r i j p q g → p < i → compar (g i) (f r) = 0 → part_inv f l r i j (p + 1) q (swap (p + 1) i g).
Proof.
  intros [H1 H2 H3 H4 H5 H6 H7] Hp He. split.
  - eapply perm_on_trans; [exact H1|]. apply swap_perm; lia.
  - swap_case; done.
  - lia.
  - intros x Hx. swap_case; apply H4; lia.
  - intros x Hx. swap_case; apply H5; lia.
  - intros x Hx. swap_case. apply H6. lia.
  - intros x Hx. swap_case. apply H7. lia.
Qed.

Lemma part_inv_q f l r i j p q g :
  part_inv f l r i j p q g → j < q → compar (g j) (f r) = 0 → part_inv f l r i j p (q - 1) (swap j (q - 1) g).
Proof.
  intros [H1 H2 H3 H4 H5 H6 H7] Hq He. split.
  - eapply perm_on_trans; [exact H1|]. apply swap_perm; lia.
  - swap_case; done.
  - lia.
  - intros x Hx. swap_case. apply H4. lia.
  - intros x Hx. swap_case. apply H5. lia.
  - intros x Hx. swap_case; apply H6; lia.
  - intros x Hx. rewrite swap_comm. swap_case; apply H7; lia.
Qed.

Lemma partition_body_ok f l r i j p q g s :
  0 <= l → l < r → r < n → rep g s → part_inv f l r i j p q g →
  (∃ i' s', partition_body compar size l r (i, j, p, q) s = Ok (Done (i', p, q), s') ∧ rep g s' ∧
     part_done f l r i' p q g) ∨
  (∃ i' j' p' q' g' s', partition_body compar size l r (i, j, p, q) s = Ok (Next (i', j', p', q'), s') ∧
     j' - i' < j - i ∧ rep g' s' ∧ part_inv f l r i' j' p' q' g').
Proof.
  intros Hl Hlr Hrn Hrep HI. pose proof HI as [Hperm Hpiv Hb Hp Hle Hge Hq].
  assert (∀ x, j <= x < r → x < q ∨ q <= x) as Hsplit by lia.
  destruct (scan_up_ok g s r j (Z.to_nat (r - l + 2)) i Hrep) as (i' & Hup & Hi' & Hbelow & Hiend);
    [lia|lia|done| |lia|].
  { destruct (decide (j = r)); [by left|right]. rewrite Hpiv. apply Hge. lia. }
  set (lo := Z.max l i). rewrite Hpiv in Hbelow, Hiend.
  destruct (scan_down_ok g s l r lo (Z.to_nat (r - l + 2)) j Hrep) as (j' & Hdown & Hj' & Habove & Hjend);
    [lia|lia|lia|done| |lia|].
  { destruct (decide (l <= i)); [right|left; lia]. rewrite Hpiv. apply cmp_le_ge.
    replace lo with i by lia. apply Hle. lia. }
  rewrite Hpiv in Habove, Hjend. unfold partition_body.
  rewrite (bind_Ok _ _ _ _ _ Hup), (bind_Ok _ _ _ _ _ Hdown).
  destruct (Z.geb_spec i' j') as [Hge'|Hlt].
  { left. exists i', s. split_and!; [done|done|]. split; try done; [lia|..].
    - intros x Hx. destruct (decide (x <= i)); [apply Hle; lia|]. specialize (Hbelow x ltac:(lia)). lia.
    - intros x Hx. destruct (decide (j <= x)); [apply Hge; lia|].
      destruct (decide (x = i')) as [->|]; [destruct Hiend; lia|].
      apply cmp_le_ge. specialize (Habove x ltac:(lia)). lia. }
  right. destruct Hiend as [?|Hiend]; [lia|]. destruct Hjend as [?|Hjend]; [lia|].
  destruct (exch_ok size n Hsize g s i' j' Hrep) as (s1 & Hex & Hrep1); [lia|lia|].
  rewrite (bind_Ok _ _ _ _ _ Hex).
  pose proof (part_inv_exch f l r i j p q g i' j' HI ltac:(lia) Hlt ltac:(lia) Hbelow Habove Hiend Hjend) as HI1.
  set (g1 := swap i' j' g) in *. clearbody g1.
  rewrite (bind_Ok _ _ _ _ _ (compar_at_ok size n Hsize compar g1 s1 i' r Hrep1 ltac:(lia) ltac:(lia))).
  rewrite (pi_pivot _ _ _ _ _ _ _ _ HI1).
  assert (∃ p' g2 s2, (if compar (g1 i') (f r) =? 0 then _ ← exch size (p + 1) i'; mret (p + 1) else mret p) s1 =
    Ok (p', s2) ∧ rep g2 s2 ∧ part_inv f l r i' j' p' q g2) as (p' & g2 & s2 & Hrun2 & Hrep2 & HI2).
  { destruct (Z.eqb_spec (compar (g1 i') (f r)) 0) as [He|_]; [|by exists p, g1, s1].
    destruct (exch_ok size n Hsize g1 s1 (p + 1) i' Hrep1) as (s2 & Hex2 & Hrep2); [lia|lia|].
    exists (p + 1), (swap (p + 1) i' g1), s2. rewrite (bind_Ok _ _ _ _ _ Hex2). split_and!; [done|done|].
    apply part_inv_p; [done|lia|done]. }
  rewrite (bind_Ok _ _ _ _ _ Hrun2).
  rewrite (bind_Ok _ _ _ _ _ (compar_at_ok size n Hsize compar g2 s2 r j' Hrep2 ltac:(lia) ltac:(lia))).
  rewrite (pi_pivot _ _ _ _ _ _ _ _ HI2).
  destruct (Z.eqb_spec (compar (f r) (g2 j')) 0) as [He|_].
  - destruct (exch_ok size n Hsize g2 s2 j' (q - 1) Hrep2) as (s3 & Hex3 & Hrep3); [lia|lia|].
    rewrite bind_assoc, (bind_Ok _ _ _ _ _ Hex3).
    exists i', j', p', (q - 1), (swap j' (q - 1) g2), s3. split_and!; [done|lia|done|].
    apply part_inv_q; [done|lia|]. by apply cmp_sym0.
  - exists i', j', p', q, g2, s2. split_and!; [done|lia|done|done].
Qed.

Lemma partition_loop_ok f l r i j p q g s fuel :
  0 <= l → l < r → r < n → rep g s → part_inv f l r i j p q g → j - i < Z.of_nat fuel →
  ∃ i' p' q' g' s', loop fuel (partition_body compar size l r) (i, j, p, q) s = Ok ((i', p', q'), s') ∧
    rep g' s' ∧ part_done f l r i' p' q' g'.
Proof.
  intros Hl Hlr Hrn. revert i j p q g s. induction fuel as [|fuel IH]; intros i j p q g s Hrep HI Hf.
  { destruct HI as [_ _ Hb]. lia. }
  destruct (partition_body_ok f l r i j p q g s Hl Hlr Hrn Hrep HI)
    as [(i' & s' & Hrun & Hrep' & HD)|(i' & j' & p' & q' & g' & s' & Hrun & Hlt & Hrep' & HI')].
  - exists i', p, q, g, s'. rewrite (loop_Done _ _ _ _ _ _ Hrun). done.
  - rewrite (loop_Next _ _ _ _ _ _ Hrun). apply (IH _ _ _ _ _ _ Hrep' HI'). lia.
Qed.

(** Moving the equal elements from the left end to the middle: of the [m0]
    elements that may be smaller, those already moved are at the left end. *)
Lemma swap_left_ok g s l r p i0 v fuel :
  rep g s → 0 <= l → i0 <= r → r < n → l - 1 <= p < i0 → (r - l + 1) < Z.of_nat fuel →
  (∀ x, l <= x <= p → compar (g x) v = 0) → (∀ x, l <= x < i0 → compar (g x) v <= 0) →
  ∃ j g' s', swap_left size fuel p l (i0 - 1) s = Ok (j, s') ∧ rep g' s' ∧ perm_on l (i0 - 1) g g' ∧
    l - 1 <= j < i0 ∧ (∀ x, l <= x < i0 → compar (g' x) v <= 0) ∧ (∀ x, j < x < i0 → compar (g' x) v = 0).
Proof.
  intros Hrep Hl Hi0 Hrn Hp Hf Heq Hle.
  edestruct (loop_total (λ '(k, j), if k <? p then _ ← exch size k j; mret (Next (k + 1, j - 1)) else mret (Done j))
    (λ m '(k, j) s, ∃ g', rep g' s ∧ perm_on l (i0 - 1) g g' ∧ l <= k ∧ (k <= p ∨ k = l) ∧
       j = i0 - 1 - (k - l) ∧ m = Z.to_nat (p - k) ∧
       ∀ x, l <= x < i0 → compar (g' x) v <= 0 ∧
         (compar (g' x) v = 0 ∨ (x < k ∧ x < l + (i0 - 1 - p)) ∨ p < x <= j))
    (λ j s, ∃ g', rep g' s ∧ perm_on l (i0 - 1) g g' ∧ l - 1 <= j < i0 ∧
       (∀ x, l <= x < i0 → compar (g' x) v <= 0) ∧ (∀ x, j < x < i0 → compar (g' x) v = 0)))
    with (fuel := fuel) (s := (l, i0 - 1)) (w := s) as (j & s' & Hrun & g' & H).
  - intros m [k j] s1 (g' & Hrep' & Hperm & Hk & Hkp & Hj & Hm & Hall).
    destruct (Z.ltb_spec k p) as [Hlt|Hge].
    + right. destruct (exch_ok size n Hsize g' s1 k j Hrep') as (s2 & Hex & Hrep2); [lia|lia|].
      exists (Z.to_nat (p - (k + 1))), (k + 1, j - 1), s2. rewrite (bind_Ok _ _ _ _ _ Hex).
      split_and!; [done|lia|]. exists (swap k j g').
      split_and!; [done| |lia|lia|lia|done|].
      * eapply perm_on_trans; [exact Hperm|apply swap_perm; lia].
      * assert (compar (g' k) v = 0) as Hk0 by (destruct (Hall k) as [_ [H|[H|H]]]; lia).
        intros x Hx. pose proof (Hall x Hx). pose proof (Hall j ltac:(lia)) as Hj'. swap_case.
    + left. exists j, s1. split; [done|]. exists g'. split_and!; [done|done|lia|lia| |].
      * intros x Hx. apply Hall, Hx.
      * intros x Hx. destruct (Hall x ltac:(lia)) as [_ [H|[H|H]]]; [done|lia|lia].
  - exists g. split_and!; [done|done|lia|by right|lia|done|]. intros x Hx. split; [by apply Hle|].
    destruct (decide (x <= p)); [left; apply Heq; lia|right; right; lia].
  - lia.
  - exists j, g', s'. unfold swap_left. split; [exact Hrun|exact H].
Qed.

(** And from the right end; the last element stays where it is. *)
Lemma swap_right_ok g s l r q i0 v fuel :
  rep g s → 0 <= l → l <= i0 → i0 <= q <= r → r < n → (r - l + 1) < Z.of_nat fuel →
  (∀ x, q <= x < r → x ≠ i0 → compar (g x) v = 0) → (∀ x, i0 < x <= r → 0 <= compar (g x) v) →
  ∃ i g' s', swap_right size fuel q r (i0 + 1) s = Ok (i, s') ∧ rep g' s' ∧ perm_on (i0 + 1) r g g' ∧
    i0 < i <= r + 1 ∧ (∀ x, i0 < x <= r → 0 <= compar (g' x) v) ∧ (∀ x, i0 < x < i → compar (g' x) v = 0).
Proof.
  intros Hrep Hl Hli Hiq Hrn Hf Heq Hge.
  edestruct (loop_total (λ '(k, i), if k >? q then _ ← exch size i k; mret (Next (k - 1, i + 1)) else mret (Done i))
    (λ m '(k, i) s, ∃ g', rep g' s ∧ perm_on (i0 + 1) r g g' ∧ k <= r - 1 ∧ (q <= k ∨ k = r - 1) ∧
       i = i0 + 1 + (r - 1 - k) ∧ m = Z.to_nat (k - q) ∧
       ∀ x, i0 < x <= r → 0 <= compar (g' x) v ∧
         (compar (g' x) v = 0 ∨ x = r ∨ (k < x ∧ r - 1 - (q - 1 - i0) < x) ∨ i <= x < q))
    (λ i s, ∃ g', rep g' s ∧ perm_on (i0 + 1) r g g' ∧ i0 < i <= r + 1 ∧
       (∀ x, i0 < x <= r → 0 <= compar (g' x) v) ∧ (∀ x, i0 < x < i → compar (g' x) v = 0)))
    with (fuel := fuel) (s := (r - 1, i0 + 1)) (w := s) as (i & s' & Hrun & g' & H).
  - intros m [k i] s1 (g' & Hrep' & Hperm & Hk & Hkp & Hi & Hm & Hall).
    destruct (Z.gtb_spec k q) as [Hlt|Hle].
    + right. destruct (exch_ok size n Hsize g' s1 i k Hrep') as (s2 & Hex & Hrep2); [lia|lia|].
      exists (Z.to_nat (k - 1 - q)), (k - 1, i + 1), s2. rewrite (bind_Ok _ _ _ _ _ Hex).
      split_and!; [done|lia|]. exists (swap i k g').
      split_and!; [done| |lia|lia|lia|done|].
      * eapply perm_on_trans; [exact Hperm|apply swap_perm; lia].
      * assert (compar (g' k) v = 0) as Hk0 by (destruct (Hall k) as [_ [H|[H|[H|H]]]]; lia).
        intros x Hx. pose proof (Hall x Hx). pose proof (Hall i ltac:(lia)) as Hi'. swap_case.
    + left. exists i, s1. split; [done|]. exists g'. split_and!; [done|done|lia|lia| |].
      * intros x Hx. apply Hall, Hx.
      * intros x Hx. destruct (Hall x ltac:(lia)) as [_ [H|[H|[H|H]]]]; lia.
  - exists g. split_and!; [done|done|lia|by right|lia|done|]. intros x Hx. split; [by apply Hge|].
    destruct (decide (x = r)); [by right; left|].
    destruct (decide (q <= x)); [left; apply Heq; lia|right; right; right; lia].
  - lia.
  - exists i, g', s'. unfold swap_right. split; [exact Hrun|exact H].
Qed.

Lemma do_rand_ok f s : rep f s → ∃ x s', do_rand s = Ok (x, s') ∧ 0 <= x ∧ rep f s'.
Proof.
  intros [Hl He Hsd]. pose proof (rand_r_range _ Hsd) as Hr. unfold do_rand, rand.
  eexists _, _. split; [reflexivity|]. split; [lia|]. split; [done|done|]. cbn [seed].
  change (2 ^ 31) with 2147483648 in *. change (2 ^ 32) with 4294967296. int_lia.
Qed.

(** [partition] brings elements equal to a pivot [v] to their place, smaller ones
    to the left and greater ones to the right. *)
Lemma partition_ok f l r s :
  0 <= l → l < r → r < n → rep f s →
  ∃ j i g s' v, partition compar size l r s = Ok ((j, i), s') ∧ rep g s' ∧ perm_on l r f g ∧
    l - 1 <= j < r ∧ l < i <= r + 1 ∧ j < i ∧
    (∀ x, l <= x <= j → compar (g x) v <= 0) ∧ (∀ x, j < x < i → compar (g x) v = 0) ∧
    (∀ x, i <= x <= r → 0 <= compar (g x) v).
Proof.
  intros Hl Hlr Hrn Hrep. unfold partition. cbv zeta.
  destruct (do_rand_ok f s Hrep) as (y & s0 & Hrand & Hy & Hrep0). rewrite (bind_Ok _ _ _ _ _ Hrand).
  assert (0 <= Z.rem y (r - l) < r - l) as Hrem by (apply Z.rem_bound_pos; lia).
  destruct (exch_perm f f s0 l r (l + Z.rem y (r - l)) r Hrep0 (perm_on_refl _ _ _))
    as (s1 & Hex1 & Hrep1 & Hp1); [lia..|]. rewrite (bind_Ok _ _ _ _ _ Hex1).
  set (f1 := swap (l + Z.rem y (r - l)) r f) in *. clearbody f1. set (v := f1 r).
  destruct (partition_loop_ok f1 l r (l - 1) r (l - 1) r f1 s1 (Z.to_nat (r - l + 2)) Hl Hlr Hrn Hrep1)
    as (i0 & p & q & g & s2 & Hloop & Hrep2 & [Hperm Hpiv Hb Hp Hle Hge Hq]); [|lia|].
  { split; try done; try lia; intros x Hx; lia. }
  rewrite (bind_Ok _ _ _ _ _ Hloop). fold v in Hpiv, Hp, Hle, Hge, Hq.
  destruct (exch_perm f1 g s2 l r i0 r Hrep2 Hperm) as (s3 & Hex3 & Hrep3 & Hp3); [lia..|].
  rewrite (bind_Ok _ _ _ _ _ Hex3).
  assert (compar v v = 0) as Hvv by (pose proof (cmp_anti v v); lia).
  set (g3 := swap i0 r g) in *.
  assert (∀ x, l <= x < i0 → g3 x = g x) as Hg3l by (intros x Hx; unfold g3, swap; by rewrite !decide_False by lia).
  assert (g3 i0 = v) as Hg3i by (unfold g3, swap; by rewrite decide_True).
  assert (∀ x, i0 < x < r → g3 x = g x) as Hg3r by (intros x Hx; unfold g3, swap; by rewrite !decide_False by lia).
  assert (i0 < r → 0 <= compar (g3 r) v) as Hg3e.
  { intros H. unfold g3, swap. rewrite decide_False, decide_True by lia. apply Hge. lia. }
  clearbody g3.
  destruct (swap_left_ok g3 s3 l r p i0 v (Z.to_nat (r - l + 2)) Hrep3)
    as (j & g4 & s4 & Hleft & Hrep4 & Hp4 & Hj & Hle4 & Heq4); [lia..| | |].
  { intros x Hx. rewrite Hg3l by lia. by apply Hp. }
  { intros x Hx. rewrite Hg3l by lia. by apply Hle. }
  rewrite (bind_Ok _ _ _ _ _ Hleft). destruct Hp4 as [Hp4a Hp4b].
  destruct (swap_right_ok g4 s4 l r q i0 v (Z.to_nat (r - l + 2)) Hrep4)
    as (i & g5 & s5 & Hright & Hrep5 & Hp5 & Hi & Hge5 & Heq5); [lia..| | |].
  { intros x Hx Hne. rewrite Hp4b, Hg3r by lia. apply Hq. lia. }
  { intros x Hx. rewrite Hp4b by lia. destruct (decide (x = r)) as [->|]; [apply Hg3e; lia|].
    rewrite Hg3r by lia. apply Hge. lia. }
  rewrite (bind_Ok _ _ _ _ _ Hright). pose proof Hp5 as [_ Hp5b].
  exists j, i, g5, s5, v. split_and!; [done|done| |lia|lia|lia|lia|lia|..].
  - eapply perm_on_trans; [exact Hp1|]. eapply perm_on_trans; [exact Hp3|].
    eapply perm_on_trans; [eapply (perm_on_mono l (i0 - 1)); [lia|lia|lia|by split]|].
    eapply (perm_on_mono (i0 + 1) r); [lia|lia|lia|done].
  - intros x Hx. rewrite Hp5b by lia. apply Hle4. lia.
  - intros x Hx. destruct (Z.lt_trichotomy x i0) as [H|[->|H]].
    + rewrite Hp5b by lia. apply Heq4. lia.
    + rewrite Hp5b, Hp4b, Hg3i by lia. done.
    + apply Heq5. lia.
  - intros x Hx. apply Hge5. lia.
Qed.

Definition sorted_on (l r : Z) (g : Z → list Z) : Prop :=
  ∀ x y, l <= x → x <= y → y <= r → compar (g x) (g y) <= 0.

Lemma quicksort_ok fuel f l r s :
  0 <= l → r < n → l - 1 <= r → r - l + 1 < Z.of_nat fuel → rep f s →
  ∃ g s', quicksort compar size fuel l r s = Ok (tt, s') ∧ rep g s' ∧ perm_on l r f g ∧ sorted_on l r g.
Proof.
  revert f l r s. induction fuel as [|fuel IH]; intros f l r s Hl Hrn Hlr Hf Hrep; [lia|].
  cbn [quicksort]. destruct (Z.leb_spec r l) as [Hle|Hlt].
  { exists f, s. split_and!; [done|done|done|]. intros x y Hx Hxy Hy. replace y with x by lia.
    pose proof (cmp_anti (f x) (f x)). lia. }
  destruct (partition_ok f l r s Hl Hlt Hrn Hrep)
    as (j & i & g & s1 & v & Hpart & Hrep1 & Hp1 & Hj & Hi & Hji & Hle & Heq & Hge).
  rewrite (bind_Ok _ _ _ _ _ Hpart).
  destruct (IH g l j s1 Hl) as (g2 & s2 & Hrun2 & Hrep2 & Hp2 & Hs2); [lia|lia|lia|done|].
  rewrite (bind_Ok _ _ _ _ _ Hrun2).
  destruct (IH g2 i r s2) as (g3 & s3 & Hrun3 & Hrep3 & Hp3 & Hs3); [lia|lia|lia|lia|done|].
  pose proof Hp2 as [_ Hp2b]. pose proof Hp3 as [_ Hp3b].
  exists g3, s3. split_and!; [done|done| |].
  - eapply perm_on_trans; [exact Hp1|]. eapply perm_on_trans.
    + eapply (perm_on_mono l j); [lia|lia|lia|exact Hp2].
    + eapply (perm_on_mono i r); [lia|lia|lia|exact Hp3].
  - assert (∀ x, l <= x <= j → compar (g3 x) v <= 0) as Hle3.
    { intros x Hx. rewrite Hp3b by lia.
      by apply (perm_on_Forall (λ y, compar y v <= 0) l j g g2 Hp2 Hle). }
    assert (∀ x, j < x < i → compar (g3 x) v = 0) as Heq3.
    { intros x Hx. rewrite Hp3b, Hp2b by lia. by apply Heq. }
    assert (∀ x, i <= x <= r → 0 <= compar (g3 x) v) as Hge3.
    { apply (perm_on_Forall (λ y, 0 <= compar y v) i r g2 g3 Hp3). intros x Hx. rewrite Hp2b by lia. by apply Hge. }
    intros x y Hx Hxy Hy. destruct (decide (y <= j)).
    { rewrite !Hp3b by lia. apply Hs2; lia. }
    destruct (decide (i <= x)); [apply Hs3; lia|].
    apply (cmp_trans _ v).
    + destruct (decide (x <= j)); [apply Hle3; lia|]. rewrite Heq3 by lia. done.
    + apply cmp_le_ge. destruct (decide (i <= y)); [apply Hge3; lia|]. rewrite Heq3 by lia. done.
Qed.
End partition.

(** ** The functions *)

(** The elements of an array of [n] elements. *)
Definition elements (size n : Z) (l : list Z) : list (list Z) := between 0 (n - 1) (slice size l).

Lemma rep_slice size n l sd :
  Z.of_nat (length l) = n * size → 0 <= sd < 2 ^ 32 → rep size n (slice size l) (mk_sort l sd).
Proof. done. Qed.

(** C6: [qsort] terminates and sorts: for every comparison function that orders
    the elements, and whatever the pivots the random numbers choose, it stays
    within the array and leaves the elements of the array, byte for byte, in
    ascending order. *)
Theorem qsort_sorts compar size nmemb l sd :
  Comparison compar → 0 <= size < 2 ^ 63 - 1 → 0 <= nmemb < 2 ^ 63 - 1 →
  Z.of_nat (length l) = nmemb * size → 0 <= sd < 2 ^ 32 →
  ∃ l' sd', qsort compar size nmemb (mk_sort l sd) = Ok (tt, mk_sort l' sd') ∧
    length l' = length l ∧
    elements size nmemb l' ≡ₚ elements size nmemb l ∧
    ∀ i j, 0 <= i → i <= j → j < nmemb → compar (slice size l' i) (slice size l' j) <= 0.
Proof.
  intros HC Hsize Hn Hlen Hsd. change (2 ^ 63 - 1) with 0x7fffffffffffffff in *. unfold qsort.
  replace (_ || _) with false by lia. destruct (Z.gtb_spec nmemb 1) as [Hgt|Hle].
  - destruct (quicksort_ok compar size nmemb ltac:(lia) (S (Z.to_nat nmemb)) (slice size l) 0 (nmemb - 1)
      (mk_sort l sd)) as (g & [l' sd'] & Hrun & [Hl' He' Hsd'] & [Hp _] & Hs); [lia|lia|lia|lia|by apply rep_slice|].
    cbn [base seed] in *. exists l', sd'. split_and!; [done|lia| |].
    + unfold elements. rewrite (between_ext 0 (nmemb - 1) (slice size l') g); [exact Hp|].
      intros x Hx. apply He'. lia.
    + intros i j Hi Hij Hj. rewrite !He' by lia. apply Hs; lia.
  - exists l, sd. split_and!; [done|done|done|]. intros i j Hi Hij Hj. replace j with i by lia.
    pose proof (cmp_anti (slice size l i) (slice size l i)). lia.
Qed.

(** The order of the first bytes. *)
Definition first_byte (x y : list Z) : Z := hd 0 x - hd 0 y.
#[export] Instance first_byte_Comparison : Comparison first_byte.
Proof. split; unfold first_byte; lia. Qed.

Lemma qsort_sorts_witness :
  ∃ l' sd', qsort first_byte 2 3 (mk_sort [5; 1; 9; 2; 4; 3] 1) = Ok (tt, mk_sort l' sd') ∧
    length l' = 6%nat ∧ elements 2 3 l' ≡ₚ [[5; 1]; [9; 2]; [4; 3]] ∧
    ∀ i j, 0 <= i → i <= j → j < 3 → first_byte (slice 2 l' i) (slice 2 l' j) <= 0.
Proof.
  apply (qsort_sorts first_byte 2 3 [5; 1; 9; 2; 4; 3] 1 _); [split; reflexivity || discriminate..|reflexivity|].
  split; reflexivity || discriminate.
Defined.

(** The elements that [key] is below come last, those it is above come first. *)
Definition sorted_for (compar : list Z → list Z → Z) (size nmemb : Z) (key l : list Z) : Prop :=
  ∀ i j, 0 <= i → i <= j → j < nmemb →
    (compar key (slice size l i) < 0 → compar key (slice size l j) < 0) ∧
    (0 < compar key (slice size l j) → 0 < compar key (slice size l i)).

(** [bsearch] in an array that is sorted with respect to the key terminates
    without leaving the array; it returns an element that compares equal to the
    key, and [NULL] exactly when there is none. *)
Theorem bsearch_correct compar size nmemb key s :
  0 <= size → 0 <= nmemb → Z.of_nat (length (base s)) = nmemb * size →
  sorted_for compar size nmemb key (base s) →
  ∃ r, bsearch compar size key nmemb s = Ok (r, s) ∧
    match r with
    | Some i => 0 <= i < nmemb ∧ compar key (slice size (base s) i) = 0
    | None => ∀ i, 0 <= i < nmemb → compar key (slice size (base s) i) ≠ 0
    end.
Proof.
  intros Hsize Hn Hlen Hs. unfold bsearch.
  match goal with |- context [loop _ ?b _ _] => set (body := b) end.
  destruct (loop_total body (λ n '(b, m) w, w = s ∧ n = Z.to_nat m ∧ 0 <= b ∧ 0 <= m ∧ b + m <= nmemb ∧
      (∀ i, 0 <= i < b → 0 < compar key (slice size (base s) i)) ∧
      (∀ i, b + m <= i < nmemb → compar key (slice size (base s) i) < 0))
    (λ r w, w = s ∧ match r with
      | Some i => 0 <= i < nmemb ∧ compar key (slice size (base s) i) = 0
      | None => ∀ i, 0 <= i < nmemb → compar key (slice size (base s) i) ≠ 0
      end)) with (n := Z.to_nat nmemb) (s := (0, nmemb)) (w := s) (fuel := S (Z.to_nat nmemb)) as (r & w & Hrun & -> & Hr); [..|by exists r].
  - intros n [b m] w (-> & -> & Hb & Hm & Hbm & Hlo & Hhi). unfold body. cbv zeta. destruct (Z.eqb_spec m 0) as [->|Hm0].
    { left. exists None, s. split_and!; [done|done|]. intros i Hi.
      destruct (decide (i < b)); [specialize (Hlo i)|specialize (Hhi i)]; lia. }
    assert (0 <= m / 2 < m) as Hm2 by (Z.div_mod_to_equations; lia).
    assert (elem size (b + m / 2) s = Ok (slice size (base s) (b + m / 2), s)) as He.
    { unfold elem. replace (0 <=? _) with true by lia. replace (_ <=? _) with true by nia. done. }
    rewrite !(bind_Ok _ _ _ _ _ He).
    destruct (Z.ltb_spec (compar key (slice size (base s) (b + m / 2))) 0) as [Hlt|Hge].
    + right. eexists _, (b, m / 2), s. split_and!; [done| |done|reflexivity|lia|lia|lia|done|]; [lia|].
      * intros i Hi. apply (proj1 (Hs (b + m / 2) i ltac:(lia) ltac:(lia) ltac:(lia)) Hlt).
    + destruct (Z.gtb_spec (compar key (slice size (base s) (b + m / 2))) 0) as [Hgt|Hle].
      * right. eexists (Z.to_nat (m - (m / 2 + 1))), (b + m / 2 + 1, m - (m / 2 + 1)), s.
        split_and!; [done|lia|done|lia|lia|lia|lia|..].
        -- intros i Hi. apply (proj2 (Hs i (b + m / 2) ltac:(lia) ltac:(lia) ltac:(lia))). lia.
        -- intros i Hi. apply Hhi. lia.
      * left. exists (Some (b + m / 2)), s. split_and!; [done|done|lia|lia|lia].
  - split_and!; try done; lia.
  - lia.
Qed.

Lemma bsearch_correct_witness :
  ∃ r, bsearch first_byte 2 [4] 3 (mk_sort [2; 7; 4; 6; 8; 0] 1) = Ok (r, mk_sort [2; 7; 4; 6; 8; 0] 1) ∧
    match r with
    | Some i => 0 <= i < 3 ∧ first_byte [4] (slice 2 [2; 7; 4; 6; 8; 0] i) = 0
    | None => ∀ i, 0 <= i < 3 → first_byte [4] (slice 2 [2; 7; 4; 6; 8; 0] i) ≠ 0
    end.
Proof.
  apply (bsearch_correct first_byte 2 3 [4] (mk_sort [2; 7; 4; 6; 8; 0] 1)); [lia|lia|reflexivity|].
  intros i j Hi Hij Hj.
  assert (i = 0 ∨ i = 1 ∨ i = 2) as [-> | [-> | ->]] by lia;
    assert (j = 0 ∨ j = 1 ∨ j = 2) as [-> | [-> | ->]] by lia; try lia;
    unfold first_byte, slice; simpl; lia.
Defined.
