(* ===== verification/Time.v ===== *)
(** * The calendar

    [libugly/gmtime_r.c], [timegm.c], [isleap.c], [time_table_spd.c], [mktime.c],
    [localtime_r.c] and the time zone file of [tzfile.c].  A [struct tm] is a
    record (its last two fields are not used by the library); [time_t] is a
    64-bit integer. *)

From S2P Require Import Prelude.

Record tm : Type := mk_tm {
  tm_sec : Z; tm_min : Z; tm_hour : Z; tm_mday : Z; tm_mon : Z; tm_year : Z;
  tm_wday : Z; tm_yday : Z; tm_isdst : Z
}.

(** [__isleap] as a truth value. *)
Definition __isleap (year : Z) : bool :=
  (Z.rem year 4 =? 0) && (negb (Z.rem year 100 =? 0) || (Z.rem year 400 =? 0)).

(** Days before each month of a year that is not a leap year. *)
Definition __spm : list Z :=
  [0; 31; 31+28; 31+28+31; 31+28+31+30; 31+28+31+30+31; 31+28+31+30+31+30;
   31+28+31+30+31+30+31; 31+28+31+30+31+30+31+31; 31+28+31+30+31+30+31+31+30;
   31+28+31+30+31+30+31+31+30+31; 31+28+31+30+31+30+31+31+30+31+30;
   31+28+31+30+31+30+31+31+30+31+30+31].
(** [__spm[i]]; there is nothing to read outside the table. *)
Definition spm (i : Z) : outcome Z :=
  if i <? 0 then Fault else
  match __spm !! Z.to_nat i with Some d => Ok d | None => Fault end.

(** Seconds per day. *)
Definition SPD : Z := 24 * 60 * 60.

(** ** [gmtime_r] *)

(** [for (i=1970; ; ++i) ...]: the year and the days left. *)
Fixpoint year_loop (fuel : nat) (i work : Z) : outcome (Z * Z) :=
  match fuel with
  | O => Hang
  | S fuel =>
      let k := if __isleap (s32 i) then 366 else 365 in
      if work >=? k then year_loop fuel (i + 1) (work - k) else Ok (i, work)
  end.
(** [for (i=11; i && (__spm[i]>work); --i) ;] *)
Fixpoint month_loop (i : nat) (work : Z) : Z :=
  match i with
  | O => 0
  | S i' => if nth i __spm 0 >? work then month_loop i' work else Z.of_nat i
  end.

Definition gmtime_r (timep : Z) (r : tm) : outcome tm :=
  let work := Z.rem timep SPD in
  let sec := Z.rem work 60 in
  let work := Z.quot work 60 in
  let min := Z.rem work 60 in
  let hour := Z.quot work 60 in
  let work := Z.quot timep SPD in
  let wday := Z.rem (4 + work) 7 in
  match year_loop (S (Z.to_nat (work / 365))) 1970 work with
  | Ok (i, work) =>
      let year := s32 (i - 1900) in
      let yday := s32 work in
      let '(mday, work) :=
        if __isleap (s32 i) && (work >? 58) then ((if work =? 59 then 2 else 1), work - 1) else (1, work) in
      let mon := month_loop 11 work in
      Ok (mk_tm sec min hour (mday + (work - nth (Z.to_nat mon) __spm 0)) mon year wday yday (tm_isdst r))
  | Fault => Fault
  | Hang => Hang
  end.

(** ** [timegm] *)

(** The four lines that carry seconds, minutes, hours and months over; the
    fields are [int]s. *)
Definition carry (t : tm) : tm :=
  let '(mk_tm sec min hour mday mon year wday yday isdst) := t in
  let '(min, sec) := if sec >? 60 then (s32 (min + Z.quot sec 60), Z.rem sec 60) else (min, sec) in
  let '(hour, min) := if min >? 60 then (s32 (hour + Z.quot min 60), Z.rem min 60) else (hour, min) in
  let '(mday, hour) := if hour >? 60 then (s32 (mday + Z.quot hour 60), Z.rem hour 60) else (mday, hour) in
  let '(year, mon) := if mon >? 12 then (s32 (year + Z.quot mon 12), Z.rem mon 12) else (year, mon) in
  let mon := if mon <? 0 then 0 else mon in
  mk_tm sec min hour mday mon year wday yday isdst.

(** [while (t->tm_mday>__spm[1+t->tm_mon]) ...]: day, month and year.  The
    condition of the [break], [tm_mon==31+29], is false where it is tested. *)
Fixpoint mday_loop (fuel : nat) (mday mon year : Z) : outcome (Z * Z * Z) :=
  match fuel with
  | O => Hang
  | S fuel =>
      match spm (1 + mon), spm mon with
      | Ok lim, Ok before =>
          if mday >? lim then
            let leap := (mon =? 1) && __isleap (s32 (year + 1900)) in
            if leap && (mon =? 31 + 29) then Ok (mday, mon, year) else
            let mday := if leap then mday - 1 else mday in
            let mday := mday - before in
            let mon := mon + 1 in
            if mon >? 11 then mday_loop fuel mday 0 (s32 (year + 1)) else mday_loop fuel mday mon year
          else Ok (mday, mon, year)
      | _, _ => Fault
      end
  end.

(** Days from 1970 to the first of January, [years] years later. *)
Definition days_since_1970 (years : Z) : Z :=
  let day := years * 365 + Z.quot (years + 1) 4 in
  let years := years - 131 in
  if years >=? 0 then
    let years := Z.quot years 100 in
    let day := day - (Z.shiftr years 2 * 3 + 1) in
    let years := Z.land years 3 in
    let years := if years =? 3 then years - 1 else years in
    day - years
  else day.

(** The result and the normalised [t]. *)
Definition timegm (t : tm) : outcome (Z * tm) :=
  let years := s32 (tm_year t - 70) in
  let t := carry t in
  match mday_loop (S (Z.to_nat (2 * tm_mday t + 2))) (tm_mday t) (tm_mon t) (tm_year t) with
  | Ok (mday, mon, year) =>
      if year <? 70 then
        Ok (-1, mk_tm (tm_sec t) (tm_min t) (tm_hour t) mday mon year (tm_wday t) (tm_yday t) (tm_isdst t))
      else
      match spm mon with
      | Ok before =>
          let yday := s32 (before + mday - 1 + b2z (__isleap (s32 (year + 1900)) && (mon >? 1))) in
          let day := days_since_1970 years + yday in
          let wday := Z.rem (day + 4) 7 in
          Ok (((day * 24 + tm_hour t) * 60 + tm_min t) * 60 + tm_sec t,
              mk_tm (tm_sec t) (tm_min t) (tm_hour t) mday mon year wday yday (tm_isdst t))
      | Fault => Fault
      | Hang => Hang
      end
  | Fault => Fault
  | Hang => Hang
  end.

(** 29 February 2024, 12:34:56. *)
Example gmtime_r_2024 : gmtime_r 1709210096 (mk_tm 0 0 0 0 0 0 0 0 0) = Ok (mk_tm 56 34 12 29 1 124 4 59 0).
Proof. vm_compute. reflexivity. Qed.
Example timegm_2024 :
  timegm (mk_tm 56 34 12 29 1 124 0 0 0) = Ok (1709210096, mk_tm 56 34 12 29 1 124 4 59 0).
Proof. vm_compute. reflexivity. Qed.
