(* ===== verification/TimeFacts.v ===== *)
(** * The calendar is the Gregorian one

    A reference calendar counts the days by adding up the lengths of years and
    months.  [gmtime_r] finds the date of every time from 1970 on, [timegm]
    inverts it, and its normalising loop terminates for every [struct tm]; where
    it normalises wrongly is stated as well. *)

From S2P Require Import Prelude Time.

(** ** The reference calendar *)

Definition leap (y : Z) : bool := (y mod 4 =? 0) && (negb (y mod 100 =? 0) || (y mod 400 =? 0)).
Definition year_length (y : Z) : Z := if leap y then 366 else 365.
(** Months are counted from 0, as in [tm_mon]. *)
Definition month_length (l : bool) (m : Z) : Z :=
  nth (Z.to_nat m) [31; if l then 29 else 28; 31; 30; 31; 30; 31; 31; 30; 31; 30; 31] 0.
Definition sum (l : list Z) : Z := foldr Z.add 0 l.
(** Days from 1 January 1970 to 1 January [y], and from 1 January to the first
    day of month [m]. *)
Definition days_before_year (y : Z) : Z := sum (year_length <$> seqZ 1970 (y - 1970)).
Definition days_before_month (l : bool) (m : Z) : Z := sum (month_length l <$> seqZ 0 m).
Definition day_of_year (t : tm) : Z :=
  days_before_month (leap (tm_year t + 1900)) (tm_mon t) + tm_mday t - 1.
Definition day_number (t : tm) : Z := days_before_year (tm_year t + 1900) + day_of_year t.
Definition seconds_of (t : tm) : Z :=
  ((day_number t * 24 + tm_hour t) * 60 + tm_min t) * 60 + tm_sec t.

(** A date from 1970 on whose year is an [int]. *)
Record date_ok (t : tm) : Prop := {
  ok_sec : 0 <= tm_sec t < 60;
  ok_min : 0 <= tm_min t < 60;
  ok_hour : 0 <= tm_hour t < 24;
  ok_mon : 0 <= tm_mon t < 12;
  ok_mday : 1 <= tm_mday t <= month_length (leap (tm_year t + 1900)) (tm_mon t);
  ok_year : 70 <= tm_year t < 2 ^ 31 - 1900;
}.
(** The day of the week and of the year that belong to the date. *)
Definition derived_ok (t : tm) : Prop :=
  tm_yday t = day_of_year t ∧ tm_wday t = (day_number t + 4) mod 7.

Lemma sum_app l k : sum (l ++ k) = sum l + sum k.
Proof. unfold sum. induction l as [|x l IH]; cbn [app foldr]; [|rewrite IH]; lia. Qed.

Lemma days_before_year_0 : days_before_year 1970 = 0.
Proof. done. Qed.

Lemma days_before_year_S y : 1970 <= y → days_before_year (y + 1) = days_before_year y + year_length y.
Proof.
  intros Hy. unfold days_before_year. replace (y + 1 - 1970) with ((y - 1970) + 1) by lia.
  rewrite seqZ_app, fmap_app, sum_app by lia. replace (1970 + (y - 1970)) with y by lia.
  change (seqZ y 1) with [y]. cbn. lia.
Qed.

Lemma leap_spec y : leap y = true ↔ y mod 4 = 0 ∧ (y mod 100 ≠ 0 ∨ y mod 400 = 0).
Proof. unfold leap. lia. Qed.

Lemma isleap_ok y : 0 <= y → __isleap y = leap y.
Proof. intros Hy. unfold __isleap, leap. by rewrite !Z.rem_mod_nonneg by lia. Qed.

Lemma isleap_int y : 0 <= y < 2 ^ 31 → __isleap (s32 y) = leap y.
Proof. intros Hy. change (2 ^ 31) with 2147483648 in *. rewrite isleap_ok; [f_equal|]; int_lia. Qed.

(** The closed form. *)
Lemma days_before_year_closed y :
  1970 <= y → days_before_year y = 365 * (y - 1970) + (y - 1) / 4 - (y - 1) / 100 + (y - 1) / 400 - 477.
Proof.
  intros Hy. replace y with (1970 + (y - 1970)) by lia. generalize (Z.to_nat (y - 1970)) (Z2Nat.id (y - 1970) ltac:(lia)).
  intros n <-. clear Hy y. induction n as [|n IH]; [done|].
  replace (1970 + Z.of_nat (S n)) with (1970 + Z.of_nat n + 1) by lia.
  rewrite days_before_year_S, IH by lia. set (y := 1970 + Z.of_nat n). unfold year_length.
  replace (y + 1 - 1) with y by lia. clearbody y. clear IH.
  pose proof (leap_spec y). destruct (leap y); Z.div_mod_to_equations; lia.
Qed.

(** ** [gmtime_r] *)

Lemma year_length_bounds y : 365 <= year_length y <= 366.
Proof. unfold year_length. destruct (leap y); lia. Qed.

(** Taking off the lengths of the years leaves the day of the year. *)
Lemma year_loop_ok fuel i work :
  1970 <= i → 0 <= work → i + work / 365 < 2 ^ 31 → (Z.to_nat (work / 365) < fuel)%nat →
  ∃ y d, year_loop fuel i work = Ok (y, d) ∧ i <= y <= i + work / 365 ∧ 0 <= d < year_length y ∧
    days_before_year y + d = days_before_year i + work.
Proof.
  change (2 ^ 31) with 2147483648.
  revert i work. induction fuel as [|fuel IH]; intros i work Hi Hw Hb Hf; [lia|]. cbn [year_loop].
  assert (0 <= work / 365) by (Z.div_mod_to_equations; lia).
  rewrite isleap_int by (change (2 ^ 31) with 2147483648; lia). fold (year_length i).
  pose proof (year_length_bounds i) as Hl.
  destruct (Z.geb_spec work (year_length i)) as [Hge|Hlt].
  - assert ((work - year_length i) / 365 <= work / 365 - 1).
    { replace (work / 365 - 1) with ((work + -1 * 365) / 365) by (rewrite Z.div_add; lia).
      apply Z.div_le_mono; lia. }
    assert (1 <= work / 365) by (apply Z.div_le_lower_bound; lia).
    destruct (IH (i + 1) (work - year_length i)) as (y & d & Hrun & Hy & Hd & Heq); [lia|lia|lia|lia|].
    exists y, d. rewrite days_before_year_S in Heq by lia. split_and!; [done|lia..].
  - exists i, work. split_and!; [done|lia..].
Qed.

(** What the months do, for each day of both kinds of year. *)
Definition month_part (l : bool) (work : Z) : Z * Z :=
  let '(mday, work) := if l && (work >? 58) then ((if work =? 59 then 2 else 1), work - 1) else (1, work) in
  let mon := month_loop 11 work in (mday + (work - nth (Z.to_nat mon) __spm 0), mon).

Definition month_part_good (l : bool) (work : Z) : bool :=
  let '(mday, mon) := month_part l work in
  (0 <=? mon) && (mon <? 12) && (1 <=? mday) && (mday <=? month_length l mon) &&
  (days_before_month l mon + mday - 1 =? work).

Lemma month_part_ok y work :
  0 <= work < year_length y → ∃ mday mon, month_part (leap y) work = (mday, mon) ∧
    0 <= mon < 12 ∧ 1 <= mday <= month_length (leap y) mon ∧
    days_before_month (leap y) mon + mday - 1 = work.
Proof.
  unfold year_length. intros Hw. assert (month_part_good (leap y) work = true) as H.
  { destruct (leap y).
    - apply (interval_forallb (month_part_good true) 0 366); [vm_compute; reflexivity|lia].
    - apply (interval_forallb (month_part_good false) 0 365); [vm_compute; reflexivity|lia]. }
  unfold month_part_good in H. destruct (month_part (leap y) work) as [mday mon].
  exists mday, mon. split; [done|lia].
Qed.

(** A time in seconds as days, hours, minutes and seconds. *)
Lemma split_time t :
  0 <= t → let w := Z.rem t SPD in
  t = ((Z.quot t SPD * 24 + Z.quot (Z.quot w 60) 60) * 60 + Z.rem (Z.quot w 60) 60) * 60 + Z.rem w 60 ∧
  0 <= Z.rem w 60 < 60 ∧ 0 <= Z.rem (Z.quot w 60) 60 < 60 ∧ 0 <= Z.quot (Z.quot w 60) 60 < 24.
Proof.
  intros Ht. unfold SPD. change (24 * 60 * 60) with 86400. cbv zeta.
  pose proof (Z.mod_pos_bound t 86400 ltac:(lia)) as Hw. pose proof (Z.div_mod t 86400 ltac:(lia)) as Ht'.
  rewrite (Z.rem_mod_nonneg t), (Z.quot_div_nonneg t) by lia.
  set (w := t mod 86400) in *. set (d := t / 86400) in *. clearbody w d.
  assert (0 <= w / 60) by (apply Z.div_pos; lia).
  rewrite (Z.quot_div_nonneg w 60) by lia. rewrite !Z.rem_mod_nonneg, !Z.quot_div_nonneg by lia.
  Z.div_mod_to_equations. lia.
Qed.

Lemma gmtime_ok t r :
  0 <= t < 2 ^ 55 → ∃ r', gmtime_r t r = Ok r' ∧ date_ok r' ∧ derived_ok r' ∧ seconds_of r' = t ∧
    tm_isdst r' = tm_isdst r.
Proof.
  intros Ht. destruct (split_time t) as (Heq & Hs & Hm & Hh); [lia|].
  unfold gmtime_r. cbv zeta. set (d := Z.quot t SPD) in *.
  assert (0 <= d < 416999965498) as Hd.
  { unfold d, SPD. change (24 * 60 * 60) with 86400. rewrite Z.quot_div_nonneg by lia.
    change (2 ^ 55) with 36028797018963968 in Ht.
    Z.div_mod_to_equations. lia. }
  assert (0 <= d / 365 <= 1142465659) as Hd365 by (Z.div_mod_to_equations; lia).
  destruct (year_loop_ok (S (Z.to_nat (d / 365))) 1970 d) as (y & w & Hrun & Hy & Hw & Hsum);
    [lia|lia|change (2 ^ 31) with 2147483648; lia|lia|].
  rewrite Hrun. rewrite days_before_year_0 in Hsum.
  destruct (month_part_ok y w Hw) as (mday & mon & Hpart & Hmon & Hmday & Hday).
  pose proof (year_length_bounds y) as Hlen.
  rewrite isleap_int by (change (2 ^ 31) with 2147483648; lia).
  unfold month_part in Hpart.
  destruct (if leap y && (w >? 58) then _ else _) as [md w'] eqn:Ew. apply pair_eq in Hpart as [Emd Emon].
  rewrite Emon in Emd |- *. rewrite Emd.
  replace (s32 (y - 1900)) with (y - 1900) by int_lia. replace (s32 w) with w by int_lia.
  eexists. split; [reflexivity|].
  assert (y - 1900 + 1900 = y) as Hy19 by lia.
  assert (∀ wd yd isd, day_number (mk_tm (Z.rem (Z.rem t SPD) 60) (Z.rem (Z.quot (Z.rem t SPD) 60) 60)
    (Z.quot (Z.quot (Z.rem t SPD) 60) 60) mday mon (y - 1900) wd yd isd) = d) as Hnum.
  { intros. unfold day_number, day_of_year. cbn [tm_year tm_mon tm_mday]. rewrite Hy19. lia. }
  split_and!.
  - split; cbn [tm_sec tm_min tm_hour tm_mon tm_mday tm_year]; rewrite ?Hy19; change (2 ^ 31) with 2147483648; lia.
  - unfold derived_ok. rewrite Hnum. cbn [tm_yday tm_wday]. split.
    + unfold day_of_year. cbn [tm_year tm_mon tm_mday]. rewrite Hy19. lia.
    + rewrite Z.rem_mod_nonneg by lia. f_equal. lia.
  - unfold seconds_of. rewrite Hnum. cbn [tm_hour tm_min tm_sec]. lia.
  - done.
Qed.

(** ** [timegm] *)

Lemma days_since_1970_ok y : 1970 <= y → days_since_1970 (y - 1970) = days_before_year y.
Proof.
  intros Hy. rewrite days_before_year_closed by done. unfold days_since_1970. cbv zeta.
  rewrite (Z.quot_div_nonneg (y - 1970 + 1)) by lia.
  destruct (Z.geb_spec (y - 1970 - 131) 0) as [Hge|Hlt]; [|Z.div_mod_to_equations; lia].
  rewrite (Z.quot_div_nonneg (y - 1970 - 131)) by lia.
  assert ((y - 1) / 100 = (y - 2101) / 100 + 21) by (Z.div_mod_to_equations; lia).
  assert ((y - 1) / 400 = ((y - 2101) / 100 + 21) / 4) by (Z.div_mod_to_equations; lia).
  rewrite (λ a, Z.land_ones a 2 ltac:(lia) : Z.land a 3 = a mod 4), Z.shiftr_div_pow2 by lia. change (2 ^ 2) with 4.
  destruct (Z.eqb_spec (((y - 1970 - 131) / 100) mod 4) 3); Z.div_mod_to_equations; lia.
Qed.

(** The table agrees with the lengths of the months. *)
Definition month_good (l : bool) (m : Z) : bool :=
  match spm m, spm (1 + m) with
  | Ok before, Ok lim =>
      (month_length l m <=? lim) && (before + b2z (l && (m >? 1)) =? days_before_month l m) &&
      (0 <=? before) && (before <=? 334) && (month_length l m <=? 31)
  | _, _ => false
  end.

Lemma month_ok l m :
  0 <= m < 12 → ∃ before lim, spm m = Ok before ∧ spm (1 + m) = Ok lim ∧ month_length l m <= lim ∧
    before + b2z (l && (m >? 1)) = days_before_month l m ∧ 0 <= before <= 334 ∧ month_length l m <= 31.
Proof.
  intros Hm. assert (month_good l m = true) as H.
  { destruct l; [apply (interval_forallb (month_good true) 0 12)|apply (interval_forallb (month_good false) 0 12)];
      (vm_compute; reflexivity) || lia. }
  unfold month_good in H. destruct (spm m) as [before| |]; [|done..].
  destruct (spm (1 + m)) as [lim| |]; [|done..]. exists before, lim. split_and!; lia || done.
Qed.

Lemma carry_ok t : date_ok t → carry t = t.
Proof.
  intros []. destruct t as [sec min hour mday mon year wday yday isdst]. unfold carry. cbn in *.
  repeat cif. done.
Qed.

Definition with_derived (t : tm) : tm :=
  mk_tm (tm_sec t) (tm_min t) (tm_hour t) (tm_mday t) (tm_mon t) (tm_year t)
    ((day_number t + 4) mod 7) (day_of_year t) (tm_isdst t).

Lemma timegm_ok t : date_ok t → timegm t = Ok (seconds_of t, with_derived t).
Proof.
  intros Ht. pose proof Ht as []. change (2 ^ 31) with 2147483648 in *. unfold timegm. rewrite carry_ok by done.
  destruct (month_ok (leap (tm_year t + 1900)) (tm_mon t)) as (before & lim & Hb & Hl & Hlen & Hsum & Hb0 & H31); [done|].
  cbv zeta. cbn [mday_loop]. rewrite Hl, Hb.
  replace (tm_mday t >? lim) with false by lia. replace (tm_year t <? 70) with false by lia.
  rewrite Hb. cbv beta iota zeta. rewrite isleap_int by (change (2 ^ 31) with 2147483648; lia).
  assert (0 <= days_before_year (tm_year t + 1900)) as Hpos.
  { rewrite days_before_year_closed by lia. Z.div_mod_to_equations. lia. }
  assert (s32 (before + tm_mday t - 1 + b2z (leap (tm_year t + 1900) && (tm_mon t >? 1))) = day_of_year t) as ->.
  { unfold day_of_year. rewrite <- Hsum. assert (0 <= b2z (leap (tm_year t + 1900) && (tm_mon t >? 1)) <= 1)
      by (destruct (_ && _); cbn; lia). int_lia. }
  replace (s32 (tm_year t - 70)) with (tm_year t + 1900 - 1970) by int_lia.
  rewrite days_since_1970_ok by lia. fold (day_number t). unfold with_derived.
  rewrite Z.rem_mod_nonneg; [done| |lia]. unfold day_number, day_of_year. rewrite <- Hsum.
  destruct (_ && _); cbn; lia.
Qed.

Lemma date_ok_derived t : date_ok (with_derived t) ↔ date_ok t.
Proof. destruct t. split; intros []; split; done. Qed.

Lemma derived_ok_id t : derived_ok t → with_derived t = t.
Proof. destruct t. intros [H1 H2]. unfold with_derived. cbn in *. by rewrite <- H1, <- H2. Qed.

(** ** A time has one date *)

Lemma days_before_year_le y y' : 1970 <= y → y <= y' → days_before_year y <= days_before_year y'.
Proof.
  intros Hy Hle. replace y' with (y + Z.of_nat (Z.to_nat (y' - y))) by lia.
  induction (Z.to_nat (y' - y)) as [|n IH]; [by rewrite Z.add_0_r|].
  replace (y + Z.of_nat (S n)) with (y + Z.of_nat n + 1) by lia. rewrite days_before_year_S by lia.
  pose proof (year_length_bounds (y + Z.of_nat n)). lia.
Qed.

Definition month_order_good (l : bool) (m : Z) : bool :=
  forallb (λ m', (m' <=? m) || (days_before_month l m + month_length l m <=? days_before_month l m')) (seqZ 0 13).

Lemma month_order l m m' :
  0 <= m < 12 → m < m' <= 12 → days_before_month l m + month_length l m <= days_before_month l m'.
Proof.
  intros Hm Hm'. assert (month_order_good l m = true) as H.
  { destruct l; [apply (interval_forallb (month_order_good true) 0 12)|apply (interval_forallb (month_order_good false) 0 12)];
      (vm_compute; reflexivity) || lia. }
  pose proof (interval_forallb _ 0 13 H m' ltac:(lia)). lia.
Qed.

Lemma day_of_year_bounds t : date_ok t → 0 <= day_of_year t < year_length (tm_year t + 1900).
Proof.
  intros []. unfold day_of_year, year_length. set (l := leap _) in *.
  pose proof (month_order l (tm_mon t) 12 ltac:(lia) ltac:(lia)) as H.
  assert (0 <= days_before_month l (tm_mon t)).
  { destruct (month_ok l (tm_mon t)) as (? & ? & _ & _ & _ & <- & ? & _); [lia|].
    destruct (_ && _); cbn; lia. }
  change (days_before_month l 12) with (days_before_month l 12) in H.
  assert (days_before_month l 12 = if l then 366 else 365) as Hy by (by destruct l). lia.
Qed.

Lemma seconds_of_inj t t' :
  date_ok t → date_ok t' → seconds_of t = seconds_of t' →
  tm_sec t = tm_sec t' ∧ tm_min t = tm_min t' ∧ tm_hour t = tm_hour t' ∧
  tm_mday t = tm_mday t' ∧ tm_mon t = tm_mon t' ∧ tm_year t = tm_year t'.
Proof.
  intros H H' Heq. pose proof (day_of_year_bounds t H) as Hd. pose proof (day_of_year_bounds t' H') as Hd'.
  destruct H, H'. unfold seconds_of in Heq.
  assert (day_number t = day_number t') as Hday by lia. unfold day_number in Hday.
  assert (tm_year t = tm_year t') as Hy.
  { assert (∀ y y', 1970 <= y → y < y' → days_before_year y + year_length y <= days_before_year y') as Hord.
    { intros y y' Hy Hlt. rewrite <- days_before_year_S by lia. apply days_before_year_le; lia. }
    destruct (Z.lt_trichotomy (tm_year t + 1900) (tm_year t' + 1900)) as [Hlt|[He|Hlt]]; [|lia|].
    - pose proof (Hord (tm_year t + 1900) _ ltac:(lia) Hlt). lia.
    - pose proof (Hord (tm_year t' + 1900) _ ltac:(lia) Hlt). lia. }
  rewrite Hy in *. unfold day_of_year in Hday. rewrite Hy in Hday. set (l := leap _) in *.
  assert (tm_mon t = tm_mon t') as Hmon.
  { destruct (Z.lt_trichotomy (tm_mon t) (tm_mon t')) as [Hlt|[He|Hlt]]; [|done|].
    - pose proof (month_order l (tm_mon t) (tm_mon t') ltac:(lia) ltac:(lia)). lia.
    - pose proof (month_order l (tm_mon t') (tm_mon t) ltac:(lia) ltac:(lia)). lia. }
  rewrite Hmon in *. split_and!; lia.
Qed.

Lemma derived_unique t t' : 
  tm_mday t = tm_mday t' → tm_mon t = tm_mon t' → tm_year t = tm_year t' →
  day_of_year t = day_of_year t' ∧ day_number t = day_number t'.
Proof. intros H1 H2 H3. unfold day_number, day_of_year. by rewrite H1, H2, H3. Qed.

(** From 1970 on [gmtime_r] finds the date and time of day of the Gregorian
    calendar, with the right day of the week and of the year; the search for the
    year terminates. *)
Theorem gmtime_r_correct t r :
  0 <= t < 2 ^ 55 →
  ∃ r', gmtime_r t r = Ok r' ∧ date_ok r' ∧ derived_ok r' ∧ seconds_of r' = t.
Proof. intros Ht. destruct (gmtime_ok t r Ht) as (r' & ? & ? & ? & ? & _). by exists r'. Qed.

Lemma gmtime_r_correct_witness :
  ∃ r', gmtime_r 4107542400 (mk_tm 0 0 0 0 0 0 0 0 0) = Ok r' ∧ date_ok r' ∧ derived_ok r' ∧
    seconds_of r' = 4107542400.
Proof. apply (gmtime_r_correct 4107542400). split; [discriminate|reflexivity]. Defined.

(** C18: [timegm] inverts [gmtime_r]: for every time from 1970 on it gives back the
    time and leaves the date, which is normal, as it is; and [gmtime_r] inverts
    [timegm] on every valid date. *)
Theorem timegm_gmtime_roundtrip :
  (∀ t r, 0 <= t < 2 ^ 55 → ∃ r', gmtime_r t r = Ok r' ∧ timegm r' = Ok (t, r')) ∧
  (∀ d r, date_ok d → seconds_of d < 2 ^ 55 → tm_isdst r = tm_isdst d →
     ∃ t d', timegm d = Ok (t, d') ∧ gmtime_r t r = Ok d').
Proof.
  split.
  - intros t r Ht. destruct (gmtime_ok t r Ht) as (r' & Hrun & Hok & Hd & Hsec & _).
    exists r'. split; [done|]. by rewrite timegm_ok, derived_ok_id, Hsec.
  - intros d r Hok Hlt Hisd. assert (0 <= seconds_of d) as Hpos.
    { pose proof (day_of_year_bounds d Hok) as Hd. destruct Hok.
      pose proof (days_before_year_le 1970 (tm_year d + 1900) ltac:(lia) ltac:(lia)) as Hy.
      rewrite days_before_year_0 in Hy. unfold seconds_of, day_number. lia. }
    destruct (gmtime_ok (seconds_of d) r) as (r' & Hrun & Hok' & [Hy Hw] & Hsec & Hisd'); [lia|].
    exists (seconds_of d), (with_derived d). split; [by apply timegm_ok|]. rewrite Hrun. f_equal.
    destruct (seconds_of_inj r' d Hok' Hok Hsec) as (H1 & H2 & H3 & H4 & H5 & H6).
    destruct (derived_unique r' d H4 H5 H6) as [Hdy Hdn].
    rewrite Hdy in Hy. rewrite Hdn in Hw. rewrite Hisd in Hisd'. clear - H1 H2 H3 H4 H5 H6 Hy Hw Hisd'.
    destruct r'. unfold with_derived. cbn in *. by subst.
Qed.

Lemma timegm_gmtime_roundtrip_witness :
  (∃ r', gmtime_r 951782400 (mk_tm 0 0 0 0 0 0 0 0 0) = Ok r' ∧ timegm r' = Ok (951782400, r')) ∧
  (∃ t d', timegm (mk_tm 59 59 23 31 11 199 0 0 0) = Ok (t, d') ∧ gmtime_r t (mk_tm 0 0 0 0 0 0 0 0 0) = Ok d').
Proof.
  split.
  - apply (proj1 timegm_gmtime_roundtrip). split; [discriminate|reflexivity].
  - apply (proj2 timegm_gmtime_roundtrip).
    + split; vm_compute; split; (reflexivity || discriminate).
    + vm_compute. reflexivity.
    + reflexivity.
Defined.

(** ** Dates that are not normal *)

Lemma spm_ok m : 0 <= m <= 12 → ∃ d, spm m = Ok d ∧ 0 <= d ∧ (1 <= m → 31 <= d).
Proof.
  intros Hm. set (good := λ m, match spm m with Ok d => (0 <=? d) && ((m <? 1) || (31 <=? d)) | _ => false end).
  assert (good m = true) as H by (apply (interval_forallb good 0 13); [vm_compute; reflexivity|lia]).
  unfold good in H. destruct (spm m) as [d| |]; [|done..]. exists d. split_and!; [done|lia|lia].
Qed.

Lemma mday_loop_total fuel mday mon year :
  0 <= mon <= 11 → (Z.to_nat (2 * mday + b2z (Z.eqb mon 0)) < fuel)%nat →
  ∃ mday' mon' year', mday_loop fuel mday mon year = Ok (mday', mon', year') ∧ 0 <= mon' <= 11.
Proof.
  revert mday mon year. induction fuel as [|fuel IH]; intros mday mon year Hmon Hf; [lia|]. cbn [mday_loop].
  destruct (spm_ok (1 + mon)) as (lim & -> & _ & Hlim); [lia|].
  destruct (spm_ok mon) as (before & -> & Hb0 & Hb1); [lia|].
  destruct (Z.gtb_spec mday lim) as [Hgt|Hle]; [|by eauto 6]. cbv zeta.
  destruct (_ && (mon =? 31 + 29)); [by eauto 6|].
  set (md := (if (mon =? 1) && _ then mday - 1 else mday) - before).
  assert ((mon ≠ 0 ∧ md + 30 <= mday) ∨ (mon = 0 ∧ md <= mday)) as Hmd.
  { unfold md. clear - Hb0 Hb1 Hmon. destruct (Z.eqb_spec mon 0) as [->|]; [right|left]; cbn [b2z];
      bool_case; lia. }
  clearbody md. destruct (Z.gtb_spec (mon + 1) 11); (apply IH; [lia|]); unfold b2z in *; repeat bool_case; lia.
Qed.

Lemma carry_mon t : tm_mon t ≠ 12 → 0 <= tm_mon (carry t) <= 11.
Proof.
  destruct t as [sec min hour mday mon year wday yday isdst]. unfold carry. cbn. intros Hm.
  repeat match goal with |- context [if ?b then (_, _) else _] => destruct b eqn:? end; cbn;
    pose proof (Z.rem_bound_pos mon 12); bool_case; lia.
Qed.

(** [timegm] terminates and returns for every [struct tm] whose month is not
    12; its normalising loop never leaves the table. *)
Theorem timegm_total t : tm_mon t ≠ 12 → ∃ x t', timegm t = Ok (x, t').
Proof.
  intros Hm. apply carry_mon in Hm. unfold timegm. cbv zeta.
  edestruct (mday_loop_total (S (Z.to_nat (2 * tm_mday (carry t) + 2))) (tm_mday (carry t))
    (tm_mon (carry t)) (tm_year (carry t))) as (mday & mon & year & -> & Hmon'); [done|unfold b2z; bool_case; lia|].
  destruct (year <? 70); [by eauto|]. destruct (spm_ok mon) as (d & -> & _); [lia|]. by eauto.
Qed.

Lemma timegm_total_witness :
  ∃ x t', timegm (mk_tm 100 100 100 100000 (-5) 80 0 0 0) = Ok (x, t').
Proof. apply timegm_total. discriminate. Defined.

(** What [timegm] does to dates out of their ranges: month 12 reads past the
    table of months, 32 January 1970 becomes 4 March and not 1 February, and a
    minute or hour of 60 is not carried into the stored fields. *)
Theorem timegm_denormal :
  (∀ sec min hour mday year wday yday isdst,
     timegm (mk_tm sec min hour mday 12 year wday yday isdst) = Fault) ∧
  timegm (mk_tm 0 0 0 32 0 70 0 0 0) = Ok (5356800, mk_tm 0 0 0 32 1 70 3 62 0) ∧
  gmtime_r 5356800 (mk_tm 0 0 0 0 0 0 0 0 0) = Ok (mk_tm 0 0 0 4 2 70 3 62 0) ∧
  timegm (mk_tm 0 60 0 1 0 70 0 0 0) = Ok (3600, mk_tm 0 60 0 1 0 70 4 0 0).
Proof.
  split_and!; [|vm_compute; reflexivity..]. intros. unfold timegm, carry.
  repeat match goal with |- context [if ?b then (_, _) else _] => destruct b eqn:? end; done.
Qed.

(** Before 1970 the fields get negative. *)
Lemma gmtime_r_negative r :
  gmtime_r (-1) r = Ok (mk_tm (-1) 0 0 1 0 70 4 0 (tm_isdst r)) ∧
  gmtime_r (-86400) r = Ok (mk_tm 0 0 0 0 0 70 3 (-1) (tm_isdst r)).
Proof. split; vm_compute; reflexivity. Qed.
