(* ===== verification/Tzone.v ===== *)
(** * Local time

    [libugly/tzfile.c], [localtime_r.c], [localtime.c], [mktime.c] and
    [gmtime.c], with [WANT_TZFILE_PARSER] defined as in [dietfeatures.h].  The
    state is the static and global variables of [tzfile.c]; [/etc/localtime] is
    an argument.  A read outside the bytes of the file is a fault. *)

From S2P Require Import Prelude Time TimeFacts.

(** The outcome of opening and mapping the file, and what [tzfile] points to: a
    null pointer, [MAP_FAILED] or the contents of the file. *)
Inductive zone_map : Type :=
| Unopened
| Unmappable
| Mapped (bytes : list Z).

Record tz_state : Type := mk_tz {
  tzfile : zone_map; tzlen : Z; daylight : bool; timezone : Z;
  tzname0 : option Z (** offset in the file, [None] for ["GMT"] *)
}.
Definition tz_init : tz_state := mk_tz Unopened (-1) false 0 None.

(** [tzfile[off]] *)
Definition tz_byte (off : Z) : CM tz_state Z := λ s,
  match tzfile s with
  | Mapped bytes =>
      if off <? 0 then Fault else
      match bytes !! Z.to_nat off with Some b => Ok (b, s) | None => Fault end
  | _ => Fault
  end.

(** [__myntohl], and [ntohl] of an aligned load. *)
Definition be32 (c0 c1 c2 c3 : Z) : Z :=
  s32 (Z.shiftl c0 24 + Z.shiftl c1 16 + Z.shiftl c2 8 + c3).
Definition __myntohl (off : Z) : CM tz_state Z :=
  c0 ← tz_byte off; c1 ← tz_byte (off + 1); c2 ← tz_byte (off + 2); c3 ← tz_byte (off + 3);
  mret (be32 c0 c1 c2 c3).

(** [file] is what [open] and [mmap] make of [/etc/localtime]. *)
Definition __maplocaltime (file : zone_map) : CM tz_state unit := λ s,
  if tzlen s >=? 0 then Ok (tt, s) else
  let with_file f n := mk_tz f n (daylight s) (timezone s) (tzname0 s) in
  match file with
  | Unopened => Ok (tt, with_file (tzfile s) 0)
  | Unmappable => Ok (tt, with_file Unmappable 0)
  | Mapped bytes =>
      let len := Z.of_nat (length bytes) in
      if len <? 44 then Ok (tt, with_file Unopened 0) else
      match __myntohl 0 (with_file (Mapped bytes) 0) with
      | Ok (magic, _) =>
          if negb (magic =? 0x545a6966) then Ok (tt, with_file Unopened 0)
          else Ok (tt, with_file (Mapped bytes) len)
      | Fault => Fault
      | Hang => Hang
      end
  end.

Definition set_daylight (b : bool) : CM tz_state unit := λ s,
  Ok (tt, mk_tz (tzfile s) (tzlen s) b (timezone s) (tzname0 s)).
Definition set_zone (zone name : Z) : CM tz_state unit := λ s,
  Ok (tt, mk_tz (tzfile s) (tzlen s) (daylight s) zone (Some name)).

(** The body of the forward loop: the time and [*isdst] when it is left. *)
Definition forward_body (t tmp tzh_timecnt tzh_typecnt : Z) (i : Z) : CM tz_state (step Z (Z * Z)) :=
  if i <? tzh_timecnt then
    tr ← __myntohl (tmp + i * 4);
    if tr >=? t then
      let tz := tmp in
      let tmp := tmp + tzh_timecnt * 4 in
      i ← tz_byte (tmp + (i - 1));
      let tmp := tmp + tzh_timecnt in
      let tz := tz + (tzh_timecnt * 5 + tzh_typecnt * 6) in
      let tmp := tmp + i * 6 in
      isdst ← tz_byte (tmp + 4);
      name ← tz_byte (tmp + 5);
      zone ← __myntohl tmp;
      _ ← set_zone zone (tz + name);
      mret (Done (t + zone, isdst))
    else mret (Next (i + 1))
  else mret (Done (t, 0)).

(** The body of the reverse loop; the state is [i] and [lastval]. *)
Definition reverse_body (t tmp tzh_timecnt : Z) : Z * Z → CM tz_state (step (Z * Z) (Z * Z)) := λ '(i, lastval),
  if i <? tzh_timecnt - 1 then
    let x := tmp + tzh_timecnt * 4 in
    j ← tz_byte (x + (i - 1));
    nexttz ← __myntohl (x + tzh_timecnt + j * 6);
    if lastval <=? t then
      tr ← __myntohl (tmp + i * 4);
      let k := tr - nexttz in
      if k >? t then mret (Done (t - nexttz, 0)) else mret (Next (i + 1, k))
    else mret (Next (i + 1, 0))
  else mret (Done (t, 0)).

(** The time and [*isdst]. *)
Definition __tzfile_map (t : Z) (forward : bool) : CM tz_state (Z * Z) := λ s,
  match tzfile s with
  | Unopened => Ok ((t, 0), s)
  | _ =>
      (tzh_timecnt ← __myntohl 32;
       tzh_typecnt ← __myntohl 36;
       let tmp := 20 + 6 * 4 in
       _ ← set_daylight (tzh_timecnt >? 0);
       let fuel := S (Z.to_nat tzh_timecnt) in
       if forward then loop fuel (forward_body t tmp tzh_timecnt tzh_typecnt) 0
       else loop fuel (reverse_body t tmp tzh_timecnt) (1, 0)) s
  end.

Definition tzset (file : zone_map) (now : Z) : CM tz_state unit :=
  _ ← __maplocaltime file;
  _ ← __tzfile_map now true;
  mret tt.

(** A pure result in the monad. *)
Definition pure {A} (o : outcome A) : CM tz_state A := λ s,
  match o with Ok a => Ok (a, s) | Fault => Fault | Hang => Hang end.

Definition localtime_r (file : zone_map) (t : Z) (r : tm) : CM tz_state tm :=
  _ ← __maplocaltime file;
  '(tmp, isdst) ← __tzfile_map t true;
  let r := mk_tm (tm_sec r) (tm_min r) (tm_hour r) (tm_mday r) (tm_mon r) (tm_year r) (tm_wday r) (tm_yday r) isdst in
  pure (gmtime_r tmp r).

(** The result and the normalised [struct tm]. *)
Definition mktime (file : zone_map) (t : tm) : CM tz_state (Z * tm) :=
  '(x, t) ← pure (timegm t);
  _ ← __maplocaltime file;
  '(x, _) ← __tzfile_map x false;
  mret (x, t).

(** ** Zone files

    The layout of a zone file: a header of 44 bytes, the times of the
    transitions, the type of each, the types, the names. *)

Record zone : Type := mk_zone {
  z_times : list Z; z_index : list Z; z_types : list (Z * Z * Z); z_names : list Z
}.
Definition be32_bytes (x : Z) : list Z := [u8 (Z.shiftr x 24); u8 (Z.shiftr x 16); u8 (Z.shiftr x 8); u8 x].
Definition type_bytes (ty : Z * Z * Z) : list Z := let '(off, dst, name) := ty in be32_bytes off ++ [dst; name].
Definition zone_header (z : zone) : list Z :=
  be32_bytes 0x545a6966 ++ replicate 28 0 ++ be32_bytes (Z.of_nat (length (z_times z))) ++
  be32_bytes (Z.of_nat (length (z_types z))) ++ be32_bytes (Z.of_nat (length (z_names z))).
Definition encode_zone (z : zone) : list Z :=
  zone_header z ++ (z_times z ≫= be32_bytes) ++ z_index z ++ (z_types z ≫= type_bytes) ++ z_names z.

Definition int32 (x : Z) : Prop := - 2 ^ 31 <= x < 2 ^ 31.
Record zone_ok (z : zone) : Prop := {
  zo_times : Forall int32 (z_times z);
  zo_index : length (z_index z) = length (z_times z);
  zo_types : Forall (λ '(off, dst, name), int32 off) (z_types z);
  zo_count : Z.of_nat (length (z_times z)) < 2 ^ 31 ∧ Z.of_nat (length (z_types z)) < 2 ^ 31;
}.

(** [l] is what the file has at [off]. *)
Definition has (bytes : list Z) (off : Z) (l : list Z) : Prop :=
  ∃ pre post, bytes = pre ++ l ++ post ∧ Z.of_nat (length pre) = off.

Lemma has_part bytes off l a b c : has bytes off l → l = a ++ b ++ c → has bytes (off + Z.of_nat (length a)) b.
Proof.
  intros (pre & post & -> & Hlen) ->. exists (pre ++ a), (c ++ post). rewrite !app_assoc, length_app. split; [done|lia].
Qed.

Lemma has_bind {A} (f : A → list Z) (n : nat) bytes off l i x :
  (∀ y, length (f y) = n) → has bytes off (l ≫= f) → l !! i = Some x → has bytes (off + Z.of_nat (i * n)) (f x).
Proof.
  intros Hf Hhas Hi. replace (Z.of_nat (i * n)) with (Z.of_nat (length (take i l ≫= f))).
  - eapply has_part; [exact Hhas|]. instantiate (1 := drop (S i) l ≫= f).
    rewrite <- (take_drop_middle _ _ _ Hi) at 1. by rewrite bind_app, bind_cons.
  - f_equal. apply lookup_lt_Some in Hi. rewrite <- (length_take_le l i) at 2 by lia.
    generalize (take i l). intros k. induction k as [|y k IH]; [done|]. cbn. rewrite length_app, Hf. cbn in IH. lia.
Qed.

Lemma has_lookup bytes off l i b : has bytes off l → l !! i = Some b → has bytes (off + Z.of_nat i) [b].
Proof.
  intros Hhas Hi. replace (Z.of_nat i) with (Z.of_nat (length (take i l))).
  - eapply has_part; [exact Hhas|]. instantiate (1 := drop (S i) l). cbn. by rewrite (take_drop_middle _ _ _ Hi).
  - apply lookup_lt_Some in Hi. rewrite length_take. lia.
Qed.

Section reading.
Context (s : tz_state) (bytes : list Z) (Hs : tzfile s = Mapped bytes).

Lemma tz_byte_ok off b : has bytes off [b] → tz_byte off s = Ok (b, s).
Proof.
  intros (pre & post & -> & <-). unfold tz_byte. rewrite Hs. cif. rewrite Nat2Z.id.
  rewrite lookup_app_r by lia. by rewrite Nat.sub_diag.
Qed.

Lemma be32_roundtrip x :
  int32 x → be32 (u8 (Z.shiftr x 24)) (u8 (Z.shiftr x 16)) (u8 (Z.shiftr x 8)) (u8 x) = x.
Proof.
  unfold int32, be32. change (2 ^ 31) with 2147483648. intros Hx.
  rewrite !Z.shiftr_div_pow2, !Z.shiftl_mul_pow2 by lia. uwrap.
  change (2 ^ 24) with 16777216. change (2 ^ 16) with 65536. change (2 ^ 8) with 256.
  assert ((x / 16777216) mod 256 * 16777216 + (x / 65536) mod 256 * 65536 + (x / 256) mod 256 * 256 + x mod 256
          = x mod 4294967296) as -> by (Z.div_mod_to_equations; lia).
  bool_case; Z.div_mod_to_equations; lia.
Qed.

Lemma myntohl_ok off x : int32 x → has bytes off (be32_bytes x) → __myntohl off s = Ok (x, s).
Proof.
  intros Hx Hhas. unfold __myntohl.
  pose proof (has_lookup _ _ _ 0 _ Hhas eq_refl) as H0. pose proof (has_lookup _ _ _ 1 _ Hhas eq_refl) as H1.
  pose proof (has_lookup _ _ _ 2 _ Hhas eq_refl) as H2. pose proof (has_lookup _ _ _ 3 _ Hhas eq_refl) as H3.
  rewrite Z.add_0_r in H0. cbn in H1, H2, H3.
  rewrite (bind_Ok _ _ _ _ _ (tz_byte_ok _ _ H0)), (bind_Ok _ _ _ _ _ (tz_byte_ok _ _ H1)),
    (bind_Ok _ _ _ _ _ (tz_byte_ok _ _ H2)), (bind_Ok _ _ _ _ _ (tz_byte_ok _ _ H3)).
  by rewrite be32_roundtrip.
Qed.
End reading.

Lemma be32_bytes_length x : length (be32_bytes x) = 4%nat.
Proof. done. Qed.
Lemma type_bytes_length ty : length (type_bytes ty) = 6%nat.
Proof. by destruct ty as [[??]?]. Qed.

Lemma bind_length {A} (f : A → list Z) (n : nat) l :
  (∀ y, length (f y) = n) → length (l ≫= f) = (length l * n)%nat.
Proof. intros Hf. induction l as [|y l IH]; [done|]. cbn. rewrite length_app, Hf. cbn in IH. lia. Qed.

Section zone.
Context (z : zone) (Hz : zone_ok z).

Let n := Z.of_nat (length (z_times z)).

Lemma zone_counts :
  has (encode_zone z) 32 (be32_bytes n) ∧ has (encode_zone z) 36 (be32_bytes (Z.of_nat (length (z_types z)))).
Proof.
  split.
  - exists (be32_bytes 0x545a6966 ++ replicate 28 0), (drop 36 (encode_zone z)). done.
  - exists (be32_bytes 0x545a6966 ++ replicate 28 0 ++ be32_bytes n), (drop 40 (encode_zone z)). done.
Qed.

Lemma zone_sections :
  has (encode_zone z) 44 (z_times z ≫= be32_bytes) ∧
  has (encode_zone z) (44 + n * 4) (z_index z) ∧
  has (encode_zone z) (44 + n * 5) (z_types z ≫= type_bytes).
Proof.
  pose proof (zo_index z Hz) as Hi. split_and!.
  - exists (zone_header z). eexists. split; [reflexivity|done].
  - exists (zone_header z ++ (z_times z ≫= be32_bytes)). eexists. split; [by rewrite <- app_assoc|].
    rewrite length_app, (bind_length be32_bytes 4) by done. change (length (zone_header z)) with 44%nat. lia.
  - exists (zone_header z ++ (z_times z ≫= be32_bytes) ++ z_index z). eexists.
    split; [by rewrite <- !app_assoc|].
    rewrite !length_app, (bind_length be32_bytes 4), Hi by done. change (length (zone_header z)) with 44%nat. lia.
Qed.

Lemma zone_time s i tr :
  tzfile s = Mapped (encode_zone z) → z_times z !! i = Some tr → __myntohl (44 + Z.of_nat i * 4) s = Ok (tr, s).
Proof.
  intros Hs Hi. eapply myntohl_ok; [exact Hs| |].
  - by eapply (proj1 (Forall_lookup _ _) (zo_times z Hz)).
  - replace (Z.of_nat i * 4) with (Z.of_nat (i * 4)) by lia.
    eapply has_bind; [apply be32_bytes_length|apply zone_sections|done].
Qed.

Lemma zone_index s i j :
  tzfile s = Mapped (encode_zone z) → z_index z !! i = Some j → tz_byte (44 + n * 4 + Z.of_nat i) s = Ok (j, s).
Proof. intros Hs Hi. eapply tz_byte_ok; [exact Hs|]. eapply has_lookup; [apply zone_sections|done]. Qed.

Lemma zone_type s j off dst name :
  tzfile s = Mapped (encode_zone z) → z_types z !! j = Some (off, dst, name) →
  __myntohl (44 + n * 5 + Z.of_nat j * 6) s = Ok (off, s) ∧
  tz_byte (44 + n * 5 + Z.of_nat j * 6 + 4) s = Ok (dst, s) ∧
  tz_byte (44 + n * 5 + Z.of_nat j * 6 + 5) s = Ok (name, s).
Proof.
  intros Hs Hj.
  assert (has (encode_zone z) (44 + n * 5 + Z.of_nat j * 6) (be32_bytes off ++ [dst; name])) as Hty.
  { replace (Z.of_nat j * 6) with (Z.of_nat (j * 6)) by lia.
    change (be32_bytes off ++ [dst; name]) with (type_bytes (off, dst, name)).
    eapply (has_bind type_bytes); [apply type_bytes_length|apply zone_sections|done]. }
  split_and!.
  - eapply myntohl_ok; [exact Hs| |].
    + by eapply (proj1 (Forall_lookup _ _) (zo_types z Hz) j (off, dst, name)).
    + replace (44 + n * 5 + Z.of_nat j * 6) with (44 + n * 5 + Z.of_nat j * 6 + Z.of_nat (length (@nil Z)))
        by (cbn; lia). by eapply (has_part _ _ _ []).
  - eapply tz_byte_ok; [exact Hs|]. by apply (has_lookup _ _ _ 4 _ Hty).
  - eapply tz_byte_ok; [exact Hs|]. by apply (has_lookup _ _ _ 5 _ Hty).
Qed.

(** The search passes the transitions before [t]. *)
Lemma forward_scan s t typ k i fuel :
  tzfile s = Mapped (encode_zone z) → (i <= k)%nat → (k <= length (z_times z))%nat → (k - i <= fuel)%nat →
  (∀ j tr, (i <= j < k)%nat → z_times z !! j = Some tr → tr < t) →
  loop fuel (forward_body t 44 n typ) (Z.of_nat i) s = loop (fuel - (k - i)) (forward_body t 44 n typ) (Z.of_nat k) s.
Proof.
  intros Hs Hik Hk Hf Hlt. remember (k - i)%nat as m eqn:Em. revert i fuel Hik Hf Hlt Em.
  induction m as [|m IH]; intros i fuel Hik Hf Hlt Em.
  { replace i with k by lia. by rewrite Nat.sub_0_r. }
  destruct fuel as [|fuel]; [lia|].
  destruct (lookup_lt_is_Some_2 (z_times z) i) as [tr Htr]; [lia|].
  rewrite (loop_Next _ _ _ _ (Z.of_nat (S i)) s).
  - cbn [Nat.sub]. apply IH; [lia|lia| |lia]. intros j tr' Hj. apply Hlt. lia.
  - unfold forward_body. unfold n. cif. rewrite (bind_Ok _ _ _ _ _ (zone_time _ _ _ Hs Htr)).
    specialize (Hlt i tr ltac:(lia) Htr). cif. unfold mret, CM_ret. by replace (Z.of_nat i + 1) with (Z.of_nat (S i)) by lia.
Qed.

(** [__tzfile_map] up to the search. *)
Lemma tzfile_map_start s t forward :
  tzfile s = Mapped (encode_zone z) →
  let s' := mk_tz (tzfile s) (tzlen s) (n >? 0) (timezone s) (tzname0 s) in
  __tzfile_map t forward s =
    if forward then loop (S (Z.to_nat n)) (forward_body t 44 n (Z.of_nat (length (z_types z)))) 0 s'
    else loop (S (Z.to_nat n)) (reverse_body t 44 n) (1, 0) s'.
Proof.
  intros Hs. cbv zeta. unfold __tzfile_map. rewrite Hs.
  destruct (zo_count z Hz) as [Hn Hty]. fold n in Hn. assert (0 <= n) by (unfold n; lia).
  rewrite (bind_Ok _ _ _ _ _ (myntohl_ok s _ Hs 32 n ltac:(unfold int32; lia) (proj1 zone_counts))).
  rewrite (bind_Ok _ _ _ _ _ (myntohl_ok s _ Hs 36 (Z.of_nat (length (z_types z))) ltac:(unfold int32; lia) (proj2 zone_counts))).
  unfold set_daylight, mbind, CM_bind. rewrite Hs. by destruct forward.
Qed.
End zone.

(** With a zone file mapped, the forward map adds to a time the offset that
    holds from the last transition before it, sets [*isdst], [timezone] and
    [tzname] from the type of that transition, and terminates; but after the last
    transition of the file it falls back to UTC. *)
Theorem tzfile_map_forward z s t :
  zone_ok z → tzfile s = Mapped (encode_zone z) →
  (∀ k tr tr' j off dst name,
     z_times z !! k = Some tr → z_times z !! S k = Some tr' → tr < t <= tr' →
     (∀ i x, (i <= k)%nat → z_times z !! i = Some x → x <= tr) →
     z_index z !! k = Some j → 0 <= j → z_types z !! Z.to_nat j = Some (off, dst, name) →
     ∃ s', __tzfile_map t true s = Ok ((t + off, dst), s') ∧ timezone s' = off ∧ daylight s' = true ∧
       tzname0 s' = Some (44 + Z.of_nat (length (z_times z)) * 5 + Z.of_nat (length (z_types z)) * 6 + name)) ∧
  (Forall (λ tr, tr < t) (z_times z) → ∃ s', __tzfile_map t true s = Ok ((t, 0), s')).
Proof.
  intros Hz Hs. rewrite (tzfile_map_start z Hz s t true Hs).
  set (s0 := mk_tz _ _ _ _ _). assert (tzfile s0 = Mapped (encode_zone z)) as Hs0 by done. split.
  - intros k tr tr' j off dst name Hk Hk' Ht Hbefore Hj Hj0 Hty.
    pose proof (lookup_lt_Some _ _ _ Hk') as Hlt.
    rewrite (forward_scan z Hz s0 t _ (S k) 0); [|done|lia|lia|lia|].
    2: { intros i x Hi Hx. specialize (Hbefore i x ltac:(lia) Hx). lia. }
    replace (S (Z.to_nat (Z.of_nat (length (z_times z)))) - (S k - 0))%nat with (S (length (z_times z) - S k)) by lia.
    destruct (zone_type z Hz s0 _ _ _ _ Hs0 Hty) as (Hoff & Hdst & Hname). rewrite Z2Nat.id in Hoff, Hdst, Hname by done.
    eexists. split.
    + apply loop_Done. unfold forward_body. cif. rewrite (bind_Ok _ _ _ _ _ (zone_time z Hz _ _ _ Hs0 Hk')). cif.
      replace (Z.of_nat (S k) - 1) with (Z.of_nat k) by lia.
      rewrite (bind_Ok _ _ _ _ _ (zone_index z Hz _ _ _ Hs0 Hj)).
      replace (44 + Z.of_nat (length (z_times z)) * 4 + Z.of_nat (length (z_times z))) with
        (44 + Z.of_nat (length (z_times z)) * 5) by lia.
      rewrite (bind_Ok _ _ _ _ _ Hdst), (bind_Ok _ _ _ _ _ Hname), (bind_Ok _ _ _ _ _ Hoff). reflexivity.
    + unfold s0; cbn [timezone daylight tzname0]. split_and!; [done|lia|]. f_equal. lia.
  - intros Hall. rewrite (forward_scan z Hz s0 t _ (length (z_times z)) 0); [|done|lia|lia|lia|].
    2: { intros i x _ Hx. by eapply (proj1 (Forall_lookup _ _) Hall). }
    replace (S (Z.to_nat _) - _)%nat with 1%nat by lia. exists s0. apply loop_Done. unfold forward_body. by cif.
Qed.

Lemma tzfile_map_forward_witness :
  let z := mk_zone [100; 200; 300] [1; 0; 1] [(3600, 0, 0); (7200, 1, 4)] [67; 69; 84; 0; 67; 0] in
  let s := mk_tz (Mapped (encode_zone z)) 77 false 0 None in
  (∃ s', __tzfile_map 150 true s = Ok ((150 + 7200, 1), s') ∧ timezone s' = 7200 ∧ daylight s' = true ∧
     tzname0 s' = Some (44 + 3 * 5 + 2 * 6 + 4)) ∧
  (∃ s', __tzfile_map 301 true s = Ok ((301, 0), s')).
Proof.
  intros z s. assert (zone_ok z) as Hz.
  { split; [repeat constructor; discriminate|reflexivity|repeat constructor; discriminate|split; reflexivity]. }
  destruct (tzfile_map_forward z s 150 Hz eq_refl) as [H _].
  destruct (tzfile_map_forward z s 301 Hz eq_refl) as [_ H'].
  split; [|apply H'; repeat constructor].
  refine (H 0%nat 100 200 1 7200 1 4 eq_refl eq_refl _ _ eq_refl _ eq_refl); [lia| |discriminate].
  intros i x Hi Hx. destruct i as [|i]; [injection Hx as <-; reflexivity || lia|lia].
Defined.

(** ** Without a zone file local time is UTC *)

Lemma maplocaltime_unopened s :
  tzfile s = Unopened → ∃ s', __maplocaltime Unopened s = Ok (tt, s') ∧ tzfile s' = Unopened ∧ tzlen s' >= 0.
Proof.
  intros Hs. unfold __maplocaltime. destruct (Z.geb_spec (tzlen s) 0); eexists; split_and!; try reflexivity; cbn; done || lia.
Qed.

(** Without [/etc/localtime], [mktime] inverts [localtime_r] for every time
    from 1970 on, and both agree with [timegm] and [gmtime_r]. *)
Theorem localtime_mktime_utc s t r :
  tzfile s = Unopened → 0 <= t < 2 ^ 55 →
  ∃ r' s' s'', localtime_r Unopened t r s = Ok (r', s') ∧ seconds_of r' = t ∧ date_ok r' ∧
    mktime Unopened r' s' = Ok ((t, r'), s'').
Proof.
  intros Hs Ht. destruct (maplocaltime_unopened s Hs) as (s1 & H1 & Hs1 & _).
  unfold localtime_r. rewrite (bind_Ok _ _ _ _ _ H1).
  assert (∀ t f s, tzfile s = Unopened → __tzfile_map t f s = Ok ((t, 0), s)) as Hmap.
  { intros t' f s' Hs'. unfold __tzfile_map. by rewrite Hs'. }
  rewrite (bind_Ok _ _ _ _ _ (Hmap t true s1 Hs1)). cbv beta iota zeta.
  match goal with |- context [gmtime_r t ?r] => destruct (gmtime_ok t r Ht) as (r' & Hrun & Hok & Hd & Hsec & _) end.
  unfold pure at 1. rewrite Hrun. destruct (maplocaltime_unopened s1 Hs1) as (s2 & H2 & Hs2 & _).
  exists r', s1, s2. split_and!; [done|done|done|]. unfold mktime.
  assert (pure (timegm r') s1 = Ok ((t, r'), s1)) as Hg.
  { unfold pure. by rewrite timegm_ok, derived_ok_id, Hsec. }
  rewrite (bind_Ok _ _ _ _ _ Hg). cbv beta iota. rewrite (bind_Ok _ _ _ _ _ H2).
  by rewrite (bind_Ok _ _ _ _ _ (Hmap t false s2 Hs2)).
Qed.

Lemma localtime_mktime_utc_witness :
  ∃ r' s' s'', localtime_r Unopened 1000000000 (mk_tm 0 0 0 0 0 0 0 0 0) tz_init = Ok (r', s') ∧
    seconds_of r' = 1000000000 ∧ date_ok r' ∧ mktime Unopened r' s' = Ok ((1000000000, r'), s'').
Proof. apply localtime_mktime_utc; [reflexivity|split; [discriminate|reflexivity]]. Defined.

(** A zone file that opens but cannot be mapped, as an empty one, leaves
    [MAP_FAILED] in [tzfile], which is then dereferenced. *)
Lemma localtime_r_unmappable t r : localtime_r Unmappable t r tz_init = Fault.
Proof. done. Qed.
