(* ===== verification/TimeFmt.v ===== *)
(** * Writing dates

    [libugly/strftime.c] and [asctime_r.c].  The text goes to memory; a format
    and the constant strings are the lists of their characters, and reading a
    format past its terminator is a fault.  [strftime] may normalise the
    [struct tm] and load the zone file, so both are part of the state. *)

From S2P Require Import Prelude Mem Time TimeFacts Tzone.

Record fmt_state : Type := mk_fmt { fw : world; fz : tz_state; ftm : tm }.

Definition in_mem {A} (m : M A) : CM fmt_state A := λ s,
  match m (fw s) with
  | Ok (a, w) => Ok (a, mk_fmt w (fz s) (ftm s)) | Fault => Fault | Hang => Hang
  end.
Definition in_zone {A} (m : CM tz_state A) : CM fmt_state A := λ s,
  match m (fz s) with
  | Ok (a, z) => Ok (a, mk_fmt (fw s) z (ftm s)) | Fault => Fault | Hang => Hang
  end.
Definition get_tm : CM fmt_state tm := λ s, Ok (ftm s, s).
Definition put_tm (t : tm) : CM fmt_state unit := λ s, Ok (tt, mk_fmt (fw s) (fz s) t).

(** ** The tables *)

Definition sweekdays : list (list Z) :=
  [STR "Sun"; STR "Mon"; STR "Tue"; STR "Wed"; STR "Thu"; STR "Fri"; STR "Sat"].
Definition weekdays : list (list Z) :=
  [STR "Sunday"; STR "Monday"; STR "Tuesday"; STR "Wednesday"; STR "Thursday"; STR "Friday"; STR "Saturday"].
Definition smonths : list (list Z) :=
  [STR "Jan"; STR "Feb"; STR "Mar"; STR "Apr"; STR "May"; STR "Jun";
   STR "Jul"; STR "Aug"; STR "Sep"; STR "Oct"; STR "Nov"; STR "Dec"].
Definition months : list (list Z) :=
  [STR "January"; STR "February"; STR "March"; STR "April"; STR "May"; STR "June";
   STR "July"; STR "August"; STR "September"; STR "October"; STR "November"; STR "December"].
Definition ampm : list (list Z) := [STR "am"; STR "pm"; STR "AM"; STR "PM"].

(** ** [strftime] *)

(** The two characters that [i2a] writes. *)
Definition i2a (x : Z) : list Z := [u8 (x / 10 + CH "0"); u8 (x mod 10 + CH "0")].
(** The string at a pointer to [l]. *)
Fixpoint until_nul (l : list Z) : list Z :=
  match l with [] => [] | c :: l => if c =? 0 then [] else c :: until_nul l end.

(** What a conversion does: store one character, format again, append a string,
    or nothing at all. *)
Inductive action : Type :=
| Char (c : Z)
| Format (src : list Z)
| Str (src : list Z)
| Nothing.

Definition entry (table : list (list Z)) (i : Z) : CM fmt_state action :=
  if i <? 0 then fault else
  match table !! Z.to_nat i with Some s => mret (Str s) | None => fault end.
Definition no (n : Z) : CM fmt_state action := mret (Str (until_nul (i2a (u64 n)))).
Definition nos (n : Z) : CM fmt_state action :=
  let buf := i2a (u64 n) in
  mret (Str (until_nul (match buf with c :: r => if c =? CH "0" then CH " " :: r else buf | [] => [] end))).

(** [for (c=sbuf+99; c>sbuf; --c) ...]: the string from [c] on. *)
Fixpoint sbuf_digits (fuel : nat) (t : Z) (acc : list Z) : outcome (list Z) :=
  match fuel with
  | O => Fault
  | S fuel =>
      let acc := u8 (Z.rem t 10 + CH "0") :: acc in
      let t := Z.quot t 10 in
      if t =? 0 then Ok acc else sbuf_digits fuel t acc
  end.

(** The string [tzname[0]]. *)
Definition zone_name : CM tz_state (list Z) := λ s,
  match tzname0 s, tzfile s with
  | None, _ => Ok (STR "GMT", s)
  | Some off, Mapped bytes =>
      let l := drop (Z.to_nat off) bytes in
      if bool_decide (0 ∈ l) then Ok (until_nul l, s) else Fault
  | Some _, _ => Fault
  end.

Section strftime.
Context (file : zone_map) (now : Z).

Definition directive (c : Z) : CM fmt_state action :=
  t ← get_tm;
  if c =? CH "n" then mret (Char 10)
  else if c =? CH "t" then mret (Char 9)
  else if c =? CH "c" then mret (Format (STR "%b %a %d %k:%M:%S %Z %Y"))
  else if c =? CH "r" then mret (Format (STR "%I:%M:%S %p"))
  else if c =? CH "R" then mret (Format (STR "%H:%M"))
  else if c =? CH "x" then mret (Format (STR "%b %a %d"))
  else if c =? CH "X" then mret (Format (STR "%k:%M:%S"))
  else if c =? CH "D" then mret (Format (STR "%m/%d/%y"))
  else if c =? CH "F" then mret (Format (STR "%Y-%m-%d"))
  else if c =? CH "T" then mret (Format (STR "%H:%M:%S"))
  else if c =? CH "a" then entry sweekdays (tm_wday t)
  else if c =? CH "A" then entry weekdays (tm_wday t)
  else if (c =? CH "h") || (c =? CH "b") then entry smonths (tm_mon t)
  else if c =? CH "B" then entry months (tm_mon t)
  else if c =? CH "p" then entry ampm (if tm_hour t >? 12 then 3 else 2)
  else if c =? CH "P" then entry ampm (if tm_hour t >? 12 then 1 else 0)
  else if c =? CH "C" then no (Z.quot (tm_year t) 100 + 19)
  else if c =? CH "d" then no (tm_mday t)
  else if c =? CH "e" then nos (tm_mday t)
  else if c =? CH "H" then no (tm_hour t)
  else if c =? CH "I" then no (Z.rem (tm_hour t) 12)
  else if c =? CH "j" then no (tm_yday t)
  else if c =? CH "k" then nos (tm_hour t)
  else if c =? CH "l" then nos (Z.rem (tm_hour t) 12)
  else if c =? CH "m" then no (tm_mon t + 1)
  else if c =? CH "M" then no (tm_min t)
  else if c =? CH "S" then no (tm_sec t)
  else if c =? CH "u" then no (if negb (tm_wday t =? 0) then tm_wday t else 7)
  else if c =? CH "w" then no (tm_wday t)
  else if c =? CH "U" then no (Z.quot (tm_yday t - tm_wday t + 7) 7)
  else if c =? CH "W" then no (Z.quot (tm_yday t - Z.rem (tm_wday t - 1 + 7) 7 + 7) 7)
  else if c =? CH "s" then
    '(x, t) ← in_zone (mktime file t);
    _ ← put_tm t;
    src ← in_zone (pure (sbuf_digits 99 x []));
    mret (Str (until_nul src))
  else if c =? CH "Z" then
    _ ← in_zone (tzset file now);
    src ← in_zone zone_name;
    mret (Str src)
  else if c =? CH "Y" then
    mret (Str (until_nul (i2a (u32 (Z.quot (tm_year t) 100 + 19)) ++ i2a (u32 (Z.rem (tm_year t) 100)))))
  else if c =? CH "y" then no (Z.rem (tm_year t) 100)
  else mret Nothing.

(** [case 'O': case 'E': ++format; goto again;]: the conversion character and the
    format after it; [None] at the end of the format. *)
Fixpoint skip_modifiers (format : list Z) : option (Z * list Z) :=
  match format with
  | [] => None
  | c :: format => if (c =? CH "O") || (c =? CH "E") then skip_modifiers format else Some (c, format)
  end.

(** [while ( *src && p < dst+max) *p++ = *src++;]: [p] after it. *)
Fixpoint put_str (src : list Z) (p lim : Z) : M Z :=
  match src with
  | [] => mret p
  | c :: src => if p <? lim then _ ← store p c; put_str src (p + 1) lim else mret p
  end.

(** One round of [for ( ; *format != '\0'; format++)]: the state is [format] and
    [p]; [self] is the call for a nested format. *)
Definition perform (self : Z → Z → list Z → CM fmt_state Z) (lim p : Z) (a : action) : CM fmt_state Z :=
  match a with
  | Char x => _ ← in_mem (store p x); mret (p + 1)
  | Format src => n ← self p (lim - p) src; mret (p + n)
  | Str src => in_mem (put_str src p lim)
  | Nothing => mret p
  end.
(** The new [p] and the rest of the format; [None] when [format] has reached the
    terminator within a conversion. *)
Definition convert (self : Z → Z → list Z → CM fmt_state Z) (lim p c : Z) (format : list Z) : CM fmt_state (Z * option (list Z)) :=
  if c =? CH "%" then
    if hd 0 format =? CH "%" then _ ← in_mem (store p (CH "%")); mret (p + 1, Some (tail format))
    else
      match skip_modifiers format with
      | None => mret (p, None)
      | Some (d, format) => a ← directive d; p ← perform self lim p a; mret (p, Some format)
      end
  else _ ← in_mem (store p c); mret (p + 1, Some format).
Definition strftime_step (self : Z → Z → list Z → CM fmt_state Z) (lim : Z) : list Z * Z → CM fmt_state (step (list Z * Z) Z) := λ '(format, p),
  match format with
  | [] => mret (Done p)
  | c :: format =>
      '(p, rest) ← convert self lim p c format;
      if p >=? lim then mret (Done p) else
      match rest with Some format => mret (Next (format, p)) | None => fault end
  end.

(** Conversions nest one deep; [depth] counts the calls. *)
Fixpoint strftime_at (depth : nat) (dst max : Z) (format : list Z) : CM fmt_state Z :=
  match depth with
  | O => λ _, Hang
  | S depth =>
      if max =? 0 then mret 0 else
      let lim := dst + max in
      p ← loop (S (length format)) (strftime_step (strftime_at depth) lim) (format, dst);
      _ ← in_mem (if p - dst >=? max then store (p - 1) 0 else store p 0);
      mret (p - dst)
  end.
Definition strftime : Z → Z → list Z → CM fmt_state Z := strftime_at 2.
End strftime.

(** ** [asctime_r] *)

Definition days : list Z := STR "Sun Mon Tue Wed Thu Fri Sat ".
Definition asc_months : list Z := STR "Jan Feb Mar Apr May Jun Jul Aug Sep Oct Nov Dec ".

(** [*(int* )p = *(int* )(table + (i<<2))]; the terminator of the table is the
    last byte there is to read. *)
Definition copy_int (p : Z) (table : list Z) (i : Z) : M unit :=
  let off := Z.shiftl i 2 in
  if (off <? 0) || (Z.of_nat (length table) + 1 <? off + 4) then fault
  else store_bytes p (take 4 (drop (Z.to_nat off) (table ++ [0]))).
Definition num2str (c i : Z) : M unit :=
  _ ← store c (Z.quot i 10 + CH "0"); store (c + 1) (Z.rem i 10 + CH "0").

Definition asctime_r (t : tm) (buf : Z) : M Z :=
  _ ← copy_int buf days (tm_wday t);
  _ ← copy_int (buf + 4) asc_months (tm_mon t);
  _ ← num2str (buf + 8) (tm_mday t);
  c ← load (buf + 8);
  _ ← (if c =? CH "0" then store (buf + 8) (CH " ") else mret tt);
  _ ← store (buf + 10) (CH " ");
  _ ← num2str (buf + 11) (tm_hour t);
  _ ← store (buf + 13) (CH ":");
  _ ← num2str (buf + 14) (tm_min t);
  _ ← store (buf + 16) (CH ":");
  _ ← num2str (buf + 17) (tm_sec t);
  _ ← store (buf + 19) (CH " ");
  _ ← num2str (buf + 20) (Z.quot (tm_year t + 1900) 100);
  _ ← num2str (buf + 22) (Z.rem (tm_year t + 1900) 100);
  _ ← store (buf + 24) 10;
  _ ← store (buf + 25) 0;
  mret buf.

(** ** What a format stands for

    [expands t n format text]: with conversions nested at most [n] deep, [format]
    stands for [text].  A format that ends within a conversion stands for
    nothing. *)

(** The action of a conversion at [t], without a zone file. *)
Definition act (t : tm) (c : Z) : action :=
  match directive Unopened 0 c (mk_fmt (World ∅ 0) tz_init t) with Ok (a, _) => a | _ => Nothing end.

Inductive expands (t : tm) : nat → list Z → list Z → Prop :=
| expands_nil n : expands t n [] []
| expands_char n c format text :
    c ≠ CH "%" → expands t n format text → expands t n (c :: format) (c :: text)
| expands_percent n format text :
    expands t n format text → expands t n (CH "%" :: CH "%" :: format) (CH "%" :: text)
| expands_conv n d format format' part text :
    hd 0 format ≠ CH "%" → skip_modifiers format = Some (d, format') →
    expands_action t n (act t d) part → expands t n format' text →
    expands t n (CH "%" :: format) (part ++ text)
with expands_action (t : tm) : nat → action → list Z → Prop :=
| expands_Char n c : expands_action t n (Char c) [c]
| expands_Str n s : expands_action t n (Str s) s
| expands_Nothing n : expands_action t n Nothing []
| expands_Format n src text : expands t n src text → expands_action t (S n) (Format src) text.

Scheme expands_mind := Minimality for expands Sort Prop
with expands_action_mind := Minimality for expands_action Sort Prop.
Combined Scheme expands_mutind from expands_mind, expands_action_mind.

(** No zone file has been found. *)
Definition utc (z : tz_state) : Prop := tzfile z = Unopened ∧ tzname0 z = None.

Lemma maplocaltime_utc z : utc z → ∃ z', __maplocaltime Unopened z = Ok (tt, z') ∧ utc z'.
Proof. intros [Hz Hn]. unfold __maplocaltime. destruct (tzlen z >=? 0); eexists; split; by try reflexivity. Qed.

Lemma tzfile_map_utc x f z : utc z → __tzfile_map x f z = Ok ((x, 0), z).
Proof. intros [Hz _]. unfold __tzfile_map. by rewrite Hz. Qed.

Lemma mktime_utc t z :
  date_ok t → derived_ok t → utc z → ∃ z', mktime Unopened t z = Ok ((seconds_of t, t), z') ∧ utc z'.
Proof.
  intros Ht Hd Hz. unfold mktime, pure. rewrite timegm_ok, derived_ok_id by done.
  rewrite (bind_Ok _ _ z (seconds_of t, t) z) by done. cbv beta iota.
  destruct (maplocaltime_utc z Hz) as (z' & Hmap & Hz'). rewrite (bind_Ok _ _ _ _ _ Hmap). exists z'.
  by rewrite (bind_Ok _ _ _ _ _ (tzfile_map_utc _ _ _ Hz')).
Qed.

Lemma tzset_utc now z : utc z → ∃ z', tzset Unopened now z = Ok (tt, z') ∧ utc z'.
Proof.
  intros Hz. unfold tzset. destruct (maplocaltime_utc z Hz) as (z' & Hmap & Hz').
  rewrite (bind_Ok _ _ _ _ _ Hmap). exists z'. by rewrite (bind_Ok _ _ _ _ _ (tzfile_map_utc _ _ _ Hz')).
Qed.

Lemma sbuf_digits_ok n fuel x acc :
  (n < fuel)%nat → 0 <= x < 10 ^ Z.of_nat (S n) → Forall nzbyte acc →
  ∃ l, sbuf_digits fuel x acc = Ok l ∧ Forall nzbyte l.
Proof.
  revert fuel x acc. induction n as [|n IH]; intros [|fuel] x acc Hf Hx Hacc; [lia| |lia|]; cbn [sbuf_digits];
    rewrite Z.rem_mod_nonneg, Z.quot_div_nonneg by lia.
  - change (10 ^ Z.of_nat 1) with 10 in Hx. replace (x / 10 =? 0) with true by (Z.div_mod_to_equations; lia).
    eexists. split; [done|]. constructor; [|done]. unfold nzbyte. int_lia.
  - assert (Forall nzbyte (u8 (x mod 10 + CH "0") :: acc)) by (constructor; [unfold nzbyte; int_lia|done]).
    destruct (x / 10 =? 0); [by eauto|]. apply IH; [lia| |done].
    replace (Z.of_nat (S (S n))) with (Z.succ (Z.of_nat (S n))) in Hx by lia. rewrite Z.pow_succ_r in Hx by lia.
    split; [apply Z.div_pos; lia|]. apply Z.div_lt_upper_bound; lia.
Qed.

Lemma until_nul_ok l : Forall byte l → Forall nzbyte (until_nul l).
Proof.
  induction 1 as [|c l Hc Hl IH]; [constructor|]. cbn. destruct (Z.eqb_spec c 0); [constructor|].
  constructor; [unfold byte, nzbyte in *; lia|done].
Qed.
Lemma i2a_byte x : Forall byte (i2a x).
Proof. unfold i2a. repeat constructor; apply u8_byte. Qed.
Lemma until_nul_id l : Forall nzbyte l → until_nul l = l.
Proof. induction 1 as [|c l Hc Hl IH]; [done|]. cbn. unfold nzbyte in Hc. cif. by rewrite IH. Qed.

(** What every conversion does when there is no zone file: it leaves the date and
    the memory alone. *)
Definition formats : list (list Z) :=
  [STR "%b %a %d %k:%M:%S %Z %Y"; STR "%I:%M:%S %p"; STR "%H:%M"; STR "%b %a %d"; STR "%k:%M:%S";
   STR "%m/%d/%y"; STR "%Y-%m-%d"; STR "%H:%M:%S"].
Definition action_ok (a : action) : Prop :=
  match a with
  | Char c => nzbyte c | Str s => Forall nzbyte s | Format src => src ∈ formats | Nothing => True
  end.
Definition utc_state (t : tm) (s : fmt_state) : Prop := ftm s = t ∧ utc (fz s).

Section directives.
Context (t : tm) (Hok : date_ok t) (Hd : derived_ok t).

Lemma wday_range : 0 <= tm_wday t < 7.
Proof. destruct Hd as [_ ->]. apply Z.mod_pos_bound. lia. Qed.

Lemma seconds_bound : 0 <= seconds_of t < 10 ^ Z.of_nat 20.
Proof.
  pose proof (day_of_year_bounds t Hok) as Hy. pose proof (year_length_bounds (tm_year t + 1900)).
  destruct Hok. change (2 ^ 31) with 2147483648 in *. change (10 ^ Z.of_nat 20) with 100000000000000000000.
  pose proof (days_before_year_le 1970 (tm_year t + 1900) ltac:(lia) ltac:(lia)) as Hy0.
  rewrite days_before_year_0 in Hy0. unfold seconds_of, day_number.
  assert (days_before_year (tm_year t + 1900) <= 366 * 2147483648); [|lia].
  rewrite days_before_year_closed by lia. Z.div_mod_to_equations. lia.
Qed.

Lemma entry_ok table i s :
  0 <= i < Z.of_nat (length table) → Forall (Forall nzbyte) table →
  ∃ e, entry table i s = Ok (Str e, s) ∧ (∀ s', entry table i s' = Ok (Str e, s')) ∧ Forall nzbyte e.
Proof.
  intros Hi Ht. unfold entry. cif. destruct (lookup_lt_is_Some_2 table (Z.to_nat i)) as [e He]; [lia|].
  rewrite He. exists e. split_and!; [done|done|]. by eapply (proj1 (Forall_lookup _ _) Ht).
Qed.

Lemma two_digits_ok x : Forall nzbyte (until_nul (i2a x)).
Proof. apply until_nul_ok, i2a_byte. Qed.

(** [act] is what [directive] does in any such state. *)
Definition acts (s : fmt_state) (r r' : outcome (action * fmt_state)) : Prop :=
  ∃ a s' s'', r = Ok (a, s') ∧ r' = Ok (a, s'') ∧ action_ok a ∧ fw s' = fw s ∧ utc_state t s'.

Lemma acts_ret s s0 a : utc_state t s → action_ok a → acts s (Ok (a, s)) (Ok (a, s0)).
Proof. intros Hs Ha. by exists a, s, s0. Qed.

Lemma acts_entry s s0 table i :
  utc_state t s → 0 <= i < Z.of_nat (length table) → Forall (Forall nzbyte) table →
  acts s (entry table i s) (entry table i s0).
Proof.
  intros Hs Hi Ht. destruct (entry_ok table i s Hi Ht) as (e & -> & He & Hnz). rewrite He. by apply acts_ret.
Qed.

Lemma acts_no s s0 n : utc_state t s → acts s (no n s) (no n s0).
Proof. intros Hs. apply acts_ret; [done|]. apply two_digits_ok. Qed.

Lemma acts_nos s s0 n : utc_state t s → acts s (nos n s) (nos n s0).
Proof.
  intros Hs. apply acts_ret; [done|]. cbn [action_ok]. apply until_nul_ok. unfold i2a. cbn [hd].
  bool_case; repeat constructor; try apply u8_byte; unfold byte; lia.
Qed.

Lemma acts_year s s0 a b : utc_state t s → 
  acts s (Ok (Str (until_nul (i2a a ++ i2a b)), s)) (Ok (Str (until_nul (i2a a ++ i2a b)), s0)).
Proof. intros Hs. apply acts_ret; [done|]. apply until_nul_ok, Forall_app; split; apply i2a_byte. Qed.

Lemma in_zone_ok {A} (m : CM tz_state A) s a z : m (fz s) = Ok (a, z) → in_zone m s = Ok (a, mk_fmt (fw s) z (ftm s)).
Proof. intros H. unfold in_zone. by rewrite H. Qed.

(** [%s]: the seconds, and the date is left as it was. *)
Lemma seconds_action_ok s :
  utc_state t s → ∃ l z', Forall nzbyte l ∧ utc z' ∧ sbuf_digits 99 (seconds_of t) [] = Ok l ∧
    (x ← in_zone (mktime Unopened t);
     let '(x, t) := x in
     _ ← put_tm t;
     src ← in_zone (pure (sbuf_digits 99 x []));
     mret (Str (until_nul src)) : CM fmt_state action) s = Ok (Str l, mk_fmt (fw s) z' t).
Proof.
  intros [Ht Hz]. destruct (mktime_utc t (fz s) Hok Hd Hz) as (z' & Hmk & Hz').
  destruct (sbuf_digits_ok 19 99 (seconds_of t) []) as (l & Hl & Hnz); [lia|apply seconds_bound|constructor|].
  exists l, z'. split_and!; [done|done|done|].
  rewrite (bind_Ok _ _ _ _ _ (in_zone_ok _ _ _ _ Hmk)). cbv beta iota.
  unfold put_tm, pure, in_zone, mbind, CM_bind, mret, CM_ret. cbn [fw fz ftm]. rewrite Hl. cbv beta iota.
  by rewrite until_nul_id.
Qed.

Lemma zone_action_ok now s :
  utc_state t s → ∃ z', utc z' ∧
    (_ ← in_zone (tzset Unopened now); src ← in_zone zone_name; mret (Str src) : CM fmt_state action) s =
    Ok (Str (STR "GMT"), mk_fmt (fw s) z' t).
Proof.
  intros [Ht Hz]. destruct (tzset_utc now (fz s) Hz) as (z' & Hset & Hz'). exists z'. split; [done|].
  rewrite (bind_Ok _ _ _ _ _ (in_zone_ok _ _ _ _ Hset)).
  unfold in_zone, zone_name, mbind, CM_bind. cbn [fz fw ftm]. destruct Hz' as [_ ->]. by rewrite Ht.
Qed.

Lemma directive_acts now c s :
  utc_state t s → acts s (directive Unopened now c s) (directive Unopened 0 c (mk_fmt (World ∅ 0) tz_init t)).
Proof.
  intros Hs. set (s0 := mk_fmt _ _ _). assert (utc_state t s0) as Hs0 by done.
  pose proof wday_range as Hw. destruct (ok_mon t Hok) as [Hm0 Hm1].
  unfold directive. rewrite (bind_Ok get_tm _ s t s) by (unfold get_tm; by destruct Hs as [-> _]).
  rewrite (bind_Ok get_tm _ s0 t s0) by done. cbv beta iota.
  repeat (bool_case; [first
    [ apply acts_ret; [done|cbn; unfold nzbyte; lia || (unfold formats; set_solver)]
    | apply acts_entry; [done|cbn; repeat bool_case; lia|repeat constructor; unfold nzbyte; lia]
    | apply acts_no; done | apply acts_nos; done | apply acts_year; done | idtac]|]).
  - destruct (seconds_action_ok s Hs) as (l & z1 & Hnz & Hz1 & Hl & ->).
    destruct (seconds_action_ok s0 Hs0) as (l0 & z2 & _ & _ & Hl0 & ->). rewrite Hl in Hl0. injection Hl0 as <-.
    by exists (Str l), (mk_fmt (fw s) z1 t), (mk_fmt (fw s0) z2 t).
  - destruct (zone_action_ok now s Hs) as (z1 & Hz1 & ->). destruct (zone_action_ok 0 s0 Hs0) as (z2 & _ & ->).
    eexists _, _, _. split_and!; try reflexivity; [cbn; repeat constructor; unfold nzbyte; lia|done].
  - by apply acts_ret.
Qed.

Lemma directive_ok now c s :
  utc_state t s →
  ∃ s', directive Unopened now c s = Ok (act t c, s') ∧ action_ok (act t c) ∧ fw s' = fw s ∧ utc_state t s'.
Proof.
  intros Hs. destruct (directive_acts now c s Hs) as (a & s' & s'' & H1 & H2 & Ha & Hfw & Hs').
  unfold act. rewrite H2. eauto.
Qed.
End directives.

(** ** The buffer *)

(** What the loop has written from [p] on: the text, as far as there is room for
    it and a terminator, and perhaps one more byte. *)
Definition wrote (p lim : Z) (text : list Z) (w w' : world) : Prop :=
  ∃ junk, (length junk <= 1)%nat ∧ w' = write_bytes p (take (Z.to_nat (lim - p - 1)) text ++ junk) w.

Lemma write_bytes_over q junk l w :
  (length junk <= 1)%nat → (length junk <= length l)%nat → write_bytes q l (write_bytes q junk w) = write_bytes q l w.
Proof.
  intros Hj Hl. destruct junk as [|c [|]]; [done| |cbn in Hj; lia]. destruct l as [|b l]; [cbn in Hl; lia|].
  cbn [write_bytes]. f_equal. unfold set_mem. cbn. by rewrite insert_insert_eq.
Qed.

Lemma wrote_nil p lim w : wrote p lim [] w w.
Proof. exists []. rewrite take_nil. split; [cbn; lia|done]. Qed.

Lemma wrote_take p lim l w : p < lim → wrote p lim l w (write_bytes p (take (Z.to_nat (lim - p)) l) w).
Proof.
  intros Hp. exists (take 1 (drop (Z.to_nat (lim - p - 1)) l)). split; [rewrite length_take; lia|].
  rewrite take_take_drop. do 2 f_equal. lia.
Qed.

Lemma wrote_full p lim l k w w' : lim - p <= Z.of_nat (length l) → wrote p lim l w w' → wrote p lim (l ++ k) w w'.
Proof. intros Hl (junk & Hj & ->). exists junk. rewrite take_app_le by lia. done. Qed.

Lemma wrote_app p lim l k w w1 w2 :
  Z.of_nat (length l) < lim - p → wrote p lim l w w1 → wrote (p + Z.of_nat (length l)) lim k w1 w2 →
  wrote p lim (l ++ k) w w2.
Proof.
  intros Hl (junk & Hj & ->) (junk' & Hj' & ->). rewrite (take_ge l) by lia. unfold wrote.
  replace (take (Z.to_nat (lim - p - 1)) (l ++ k)) with (l ++ take (Z.to_nat (lim - (p + Z.of_nat (length l)) - 1)) k).
  2: { rewrite take_app_ge by lia. do 2 f_equal. lia. }
  set (k' := take _ k). destruct (decide (length junk <= length (k' ++ junk'))%nat) as [Hle|Hgt].
  - exists junk'. split; [done|]. rewrite (write_bytes_app p l junk), write_bytes_over by done.
    by rewrite <- write_bytes_app, <- app_assoc.
  - rewrite length_app in Hgt. assert (k' = [] ∧ junk' = []) as [-> ->].
    { destruct k', junk'; cbn in *; try done; lia. }
    exists junk. by rewrite (app_nil_r l).
Qed.

Lemma wrote_end p lim text w w' :
  p < lim → mapped w p (lim - p) → wrote p lim text w w' →
  store (p + Z.min (Z.of_nat (length text)) (lim - p - 1)) 0 w' =
    Ok (tt, write_bytes p (take (Z.to_nat (lim - p - 1)) text ++ [0]) w).
Proof.
  intros Hp Hm (junk & Hj & ->). rewrite store_ok by (apply write_bytes_mapped with (n := lim - p) (q := p); [done|lia]).
  f_equal. f_equal. rewrite !write_bytes_app.
  replace (p + Z.min (Z.of_nat (length text)) (lim - p - 1)) with
    (p + Z.of_nat (length (take (Z.to_nat (lim - p - 1)) text))) by (rewrite length_take; lia).
  by rewrite write_bytes_over by (cbn; lia).
Qed.

Lemma put_str_ok src p lim w :
  p <= lim → mapped w p (lim - p) → Forall byte src →
  put_str src p lim w = Ok (p + Z.min (Z.of_nat (length src)) (lim - p), write_bytes p (take (Z.to_nat (lim - p)) src) w).
Proof.
  revert p w. induction src as [|c src IH]; intros p w Hp Hm Hb; cbn [put_str].
  { rewrite take_nil. cbn [write_bytes length]; cret. }
  inversion Hb; subst. destruct (Z.ltb_spec p lim) as [Hlt|Hge].
  - rewrite (bind_Ok _ _ _ _ _ (store_mapped _ _ _ _ Hm ltac:(lia))). rewrite u8_id by done.
    rewrite IH; [|lia|apply write_bytes_mapped; eapply mapped_sub; [exact Hm|lia|lia]|done].
    replace (Z.to_nat (lim - p)) with (S (Z.to_nat (lim - (p + 1)))) by lia.
    do 2 f_equal. cbn [length]. lia.
  - replace (lim - p) with 0 by lia. cret.
Qed.

(** ** [strftime] writes what the format stands for *)

Section strftime_ok.
Context (t : tm) (Hok : date_ok t) (Hd : derived_ok t) (now : Z).

Lemma in_mem_ok {A} (m : M A) s a w : m (fw s) = Ok (a, w) → in_mem m s = Ok (a, mk_fmt w (fz s) (ftm s)).
Proof. intros H. unfold in_mem. by rewrite H. Qed.

(** A part of [text] has been written from [p] on: the new [p]. *)
Definition wrote_at (p lim : Z) (text : list Z) (s : fmt_state) (p' : Z) (s' : fmt_state) : Prop :=
  p' = p + Z.min (Z.of_nat (length text)) (lim - p) ∧ wrote p lim text (fw s) (fw s') ∧ utc_state t s' ∧
  mapped (fw s') p (lim - p).

Lemma wrote_mapped p lim text w w' n q : wrote p lim text w w' → mapped w q n → mapped w' q n.
Proof. intros (junk & _ & ->). apply write_bytes_mapped. Qed.

Definition runs_format (n : nat) (format text : list Z) : Prop :=
  Forall nzbyte format → Forall nzbyte text ∧
  ∀ fuel p lim s, (length format < fuel)%nat → p < lim → mapped (fw s) p (lim - p) → utc_state t s →
  ∃ p' s', loop fuel (strftime_step Unopened now (strftime_at Unopened now n) lim) (format, p) s = Ok (p', s') ∧
    wrote_at p lim text s p' s'.
Definition runs_action (n : nat) (a : action) (text : list Z) : Prop :=
  action_ok a → Forall nzbyte text ∧
  ∀ p lim s, p < lim → mapped (fw s) p (lim - p) → utc_state t s →
  ∃ p' s', perform (strftime_at Unopened now n) lim p a s = Ok (p', s') ∧ wrote_at p lim text s p' s'.

Lemma store_char_ok p lim c s :
  p < lim → mapped (fw s) p (lim - p) → utc_state t s → nzbyte c →
  ∃ s', in_mem (store p c) s = Ok (tt, s') ∧ wrote_at p lim [c] s (p + 1) s'.
Proof.
  intros Hp Hm Hs Hc. eexists. split.
  - apply in_mem_ok. rewrite (store_mapped _ _ _ _ Hm) by lia. by rewrite u8_id by auto using nzbyte_byte.
  - split_and!; [cbn; lia| |exact Hs|by apply write_bytes_mapped].
    pose proof (wrote_take p lim [c] (fw s) Hp) as Hw. by rewrite take_ge in Hw by (cbn; lia).
Qed.

(** After a part of the text, the rest of the format. *)
Lemma runs_rest n format' c format part text rest :
  runs_format n format' text → Forall nzbyte format' → (length format' < length (c :: format))%nat →
  (∀ p lim s, p < lim → mapped (fw s) p (lim - p) → utc_state t s →
   ∃ p' s', convert Unopened now (strftime_at Unopened now n) lim p c format s = Ok ((p', Some format'), s') ∧
     wrote_at p lim part s p' s') →
  rest = part ++ text → ∀ fuel p lim s, (length (c :: format) < fuel)%nat → p < lim → mapped (fw s) p (lim - p) → utc_state t s →
  ∃ p' s', loop fuel (strftime_step Unopened now (strftime_at Unopened now n) lim) (c :: format, p) s = Ok (p', s') ∧
    wrote_at p lim rest s p' s'.
Proof.
  intros Hfmt Hnz Hlen Hconv -> fuel p lim s Hfuel Hp Hm Hs. destruct fuel as [|fuel]; [lia|].
  destruct (Hconv p lim s Hp Hm Hs) as (p1 & s1 & Hrun & -> & Hw1 & Hs1 & Hm1).
  destruct (Z.geb_spec (p + Z.min (Z.of_nat (length part)) (lim - p)) lim) as [Hge|Hlt].
  - eexists _, s1. split.
    + apply loop_Done. unfold strftime_step. rewrite (bind_Ok _ _ _ _ _ Hrun). cbv beta iota. by cif.
    + split_and!; [rewrite length_app; lia|apply wrote_full; [lia|done]|done|done].
  - replace (p + Z.min (Z.of_nat (length part)) (lim - p)) with (p + Z.of_nat (length part)) in * by lia.
    destruct (proj2 (Hfmt Hnz) fuel (p + Z.of_nat (length part)) lim s1) as (p2 & s2 & Hrun2 & -> & Hw2 & Hs2 & Hm2);
      [cbn in *; lia|lia|eapply mapped_sub; [exact Hm1|lia|lia]|done|].
    eexists _, s2. split.
    + rewrite (loop_Next _ _ _ _ (format', p + Z.of_nat (length part)) s1); [exact Hrun2|].
      unfold strftime_step. rewrite (bind_Ok _ _ _ _ _ Hrun). cbv beta iota. by cif.
    + split_and!; [rewrite length_app; lia|by eapply wrote_app; [lia|..]|done|by eapply wrote_mapped].
Qed.

Lemma skip_modifiers_ok format d format' :
  skip_modifiers format = Some (d, format') → Forall nzbyte format →
  Forall nzbyte format' ∧ (length format' < length format)%nat.
Proof.
  induction format as [|c format IH]; [done|]. cbn [skip_modifiers]. intros H Hnz. inversion Hnz; subst.
  destruct (_ || _); [destruct (IH H) as [? ?]; [done|]; cbn; split; [done|lia]|].
  injection H as <- <-. cbn. split; [done|lia].
Qed.

(** The buffer is filled and terminated. *)
Lemma strftime_at_ok n format text dst max s :
  runs_format n format text → Forall nzbyte format → 0 < max → mapped (fw s) dst max → utc_state t s →
  ∃ s', strftime_at Unopened now (S n) dst max format s = Ok (Z.min (Z.of_nat (length text)) max, s') ∧
    fw s' = write_bytes dst (take (Z.to_nat (max - 1)) text ++ [0]) (fw s) ∧ utc_state t s'.
Proof.
  intros Hrun Hnz Hmax Hm Hs. cbn [strftime_at]. cif.
  replace max with (dst + max - dst) in Hm by lia.
  destruct (proj2 (Hrun Hnz) (S (length format)) dst (dst + max) s) as (p & s1 & Hloop & -> & Hw & Hs1 & Hm1);
    [lia|lia|done|done|].
  rewrite (bind_Ok _ _ _ _ _ Hloop). clear Hloop.
  pose proof (wrote_end dst (dst + max) text (fw s) (fw s1) ltac:(lia) Hm Hw) as Hend.
  replace (dst + max - dst) with max in * by lia.
  assert ((if dst + Z.min (Z.of_nat (length text)) max - dst >=? max
     then store (dst + Z.min (Z.of_nat (length text)) max - 1) 0
     else store (dst + Z.min (Z.of_nat (length text)) max) 0) (fw s1) =
     Ok (tt, write_bytes dst (take (Z.to_nat (max - 1)) text ++ [0]) (fw s))) as Hstore.
  { rewrite <- Hend. bool_case; f_equal; lia. }
  rewrite (bind_Ok _ _ _ _ _ (in_mem_ok _ _ _ _ Hstore)).
  eexists. split; [cret|]. done.
Qed.

Lemma strftime_expands_all :
  (∀ n format text, expands t n format text → runs_format n format text) ∧
  (∀ n a text, expands_action t n a text → runs_action n a text).
Proof.
  apply expands_mutind.
  - intros n _. split; [constructor|]. intros [|fuel] p lim s Hf Hp Hm Hs; [cbn in Hf; lia|].
    exists p, s. split; [by apply loop_Done|]. split_and!; [cbn; lia|apply wrote_nil|done|done].
  - intros n c format text Hc _ IH Hnz. inversion Hnz; subst. destruct (IH ltac:(done)) as [Htext _].
    split; [by constructor|]. intros fuel p lim s. eapply (runs_rest n format c format [c]); [done|done|cbn; lia| |done].
    intros p' lim' s' Hp Hm Hs. destruct (store_char_ok p' lim' c s' Hp Hm Hs) as (s1 & Hst & Hw); [done|].
    exists (p' + 1), s1. split; [|done]. unfold convert. cif. by rewrite (bind_Ok _ _ _ _ _ Hst).
  - intros n format text _ IH Hnz. inversion Hnz as [|?? H1 Hnz']; subst. inversion Hnz'; subst.
    destruct (IH ltac:(done)) as [Htext _]. split; [by constructor|]. intros fuel p lim s.
    eapply (runs_rest n format _ _ [CH "%"]); [done|done|cbn; lia| |done].
    intros p' lim' s' Hp Hm Hs. destruct (store_char_ok p' lim' (CH "%") s' Hp Hm Hs) as (s1 & Hst & Hw); [done|].
    exists (p' + 1), s1. split; [|done]. unfold convert. cbn [hd tail]. cif. by rewrite (bind_Ok _ _ _ _ _ Hst).
  - intros n d format format' part text Hhd Hskip _ IHa _ IH Hnz. inversion Hnz; subst.
    destruct (skip_modifiers_ok _ _ _ Hskip ltac:(done)) as [Hnz' Hlen].
    assert (action_ok (act t d)) as Ha.
    { destruct (directive_ok t Hok Hd 0 d (mk_fmt (World ∅ 0) tz_init t)) as (_ & _ & ? & _); done. }
    destruct (IHa Ha) as [Hpart Hperf], (IH Hnz') as [Htext _]. split; [by apply Forall_app|].
    intros fuel p lim s. eapply (runs_rest n format' _ _ part); [done|done|cbn; lia| |done].
    intros p' lim' s' Hp Hm Hs. destruct (directive_ok t Hok Hd now d s' Hs) as (s1 & Hdir & _ & Hfw & Hs1).
    rewrite <- Hfw in Hm. destruct (Hperf p' lim' s1 Hp Hm Hs1) as (p2 & s2 & Hrun & Hw).
    exists p2, s2. split; [|unfold wrote_at in *; by rewrite <- Hfw]. unfold convert. cif. cif. rewrite Hskip. cbv beta iota.
    rewrite (bind_Ok _ _ _ _ _ Hdir). by rewrite (bind_Ok _ _ _ _ _ Hrun).
  - intros n c Hc. split; [by constructor|]. intros p lim s Hp Hm Hs.
    destruct (store_char_ok p lim c s Hp Hm Hs Hc) as (s1 & Hst & Hw). exists (p + 1), s1. split; [|done].
    cbn [perform]. by rewrite (bind_Ok _ _ _ _ _ Hst).
  - intros n src Hsrc. split; [done|]. intros p lim s Hp Hm Hs. eexists _, _. split.
    + apply in_mem_ok. apply put_str_ok; [lia|done|by apply Forall_nzbyte_byte].
    + split_and!; [done|by apply wrote_take|done|by apply write_bytes_mapped].
  - intros n _. split; [constructor|]. intros p lim s Hp Hm Hs. exists p, s. split; [done|].
    split_and!; [cbn; lia|apply wrote_nil|done|done].
  - intros n src text _ IH Hsrc. assert (Forall nzbyte src) as Hnz.
    { cbn in Hsrc. unfold formats in Hsrc. repeat (apply elem_of_cons in Hsrc as [->|Hsrc];
        [repeat constructor; unfold nzbyte; lia|]). by apply elem_of_nil in Hsrc. }
    split; [by apply IH|]. intros p lim s Hp Hm Hs.
    destruct (strftime_at_ok n src text p (lim - p) s IH Hnz ltac:(lia) Hm Hs) as (s1 & Hrun & Hfw & Hs1).
    eexists _, s1. split; [cbn [perform]; by rewrite (bind_Ok _ _ _ _ _ Hrun)|].
    split_and!; [done| |done|rewrite Hfw; by apply write_bytes_mapped].
    exists [0]. split; [cbn; lia|done].
Qed.
End strftime_ok.

(** A format that does not end within a conversion. *)
Fixpoint complete (fuel : nat) (format : list Z) : bool :=
  match fuel, format with
  | _, [] => true
  | O, _ => false
  | S fuel, c :: format =>
      if c =? CH "%" then
        if hd 0 format =? CH "%" then complete fuel (tail format)
        else match skip_modifiers format with None => false | Some (_, format) => complete fuel format end
      else complete fuel format
  end.

Section totality.
Context (t : tm) (Hok : date_ok t) (Hd : derived_ok t).

(** The conversions of the nested formats do not nest further. *)
Lemma act_nested d src' src : src ∈ formats → d ∈ src → act t d ≠ Format src'.
Proof.
  intros Hsrc Hin. assert (d ∈ concat formats) as Hd' by (apply list_elem_of_In, in_concat;
    exists src; rewrite <- !list_elem_of_In; done). clear src Hsrc Hin.
  unfold act. set (s0 := mk_fmt _ _ _). assert (utc_state t s0) as Hs0 by done.
  unfold directive. rewrite (bind_Ok get_tm _ s0 t s0) by done. cbv beta iota.
  assert (∀ table i, match entry table i s0 with Ok (a, _) => a | _ => Nothing end ≠ Format src') as Hentry.
  { intros table i. unfold entry. destruct (i <? 0); [done|]. by destruct (table !! Z.to_nat i). }
  unfold formats in Hd'. cbn [concat app] in Hd'.
  repeat (apply elem_of_cons in Hd' as [->|Hd']; [cbn [Z.eqb Pos.eqb orb]; first
    [ apply Hentry | done | destruct (zone_action_ok t 0 s0 Hs0) as (? & _ & ->); done]|]).
  by apply elem_of_nil in Hd'.
Qed.

Lemma skip_modifiers_elem format d format' :
  skip_modifiers format = Some (d, format') → d ∈ format ∧ ∀ x, x ∈ format' → x ∈ format.
Proof.
  induction format as [|c format IH]; [done|]. cbn [skip_modifiers].
  destruct (_ || _); [intros H; destruct (IH H); set_solver|]. intros [= <- <-]. set_solver.
Qed.

Lemma expands_complete n fuel format :
  (∀ d src, d ∈ format → act t d = Format src → ∃ k text, n = S k ∧ expands t k src text) →
  complete fuel format = true → ∃ text, expands t n format text.
Proof.
  revert format. induction fuel as [|fuel IH]; intros [|c format] Hact H;
    [by exists []; apply expands_nil|done|by exists []; apply expands_nil|].
  cbn [complete] in H. destruct (Z.eqb_spec c (CH "%")) as [->|Hc].
  - destruct (Z.eqb_spec (hd 0 format) (CH "%")) as [Hh|Hh].
    + destruct format as [|c' format]; [done|]. cbn in Hh. subst c'. cbn [tail] in H.
      destruct (IH format) as [text Ht]; [set_solver|done|]. eexists. by apply expands_percent.
    + destruct (skip_modifiers format) as [[d format']|] eqn:Hskip; [|done].
      destruct (skip_modifiers_elem _ _ _ Hskip) as [Hdin Hsub].
      destruct (IH format') as [text Ht]; [set_solver|done|].
      assert (∃ part, expands_action t n (act t d) part) as [part Hp].
      { destruct (act t d) as [x|src|src|] eqn:Ea; try (eexists; by constructor).
        destruct (Hact d src ltac:(set_solver) Ea) as (k & text' & -> & Hk). eexists. by constructor. }
      eexists. by eapply expands_conv.
  - destruct (IH format) as [text Ht]; [set_solver|done|]. eexists. by apply expands_char.
Qed.

Lemma act_in_formats d src : act t d = Format src → src ∈ formats.
Proof.
  intros Ha. destruct (directive_ok t Hok Hd 0 d (mk_fmt (World ∅ 0) tz_init t)) as (_ & _ & Hok' & _); [done|].
  by rewrite Ha in Hok'.
Qed.

Lemma expands_total format : complete (length format) format = true → ∃ text, expands t 1 format text.
Proof.
  apply expands_complete. intros d src _ Ha. apply act_in_formats in Ha. exists 0%nat.
  destruct (expands_complete 0 (length src) src) as [text Ht]; [| |by exists text].
  - intros d' src' Hd' Ha'. by apply (act_nested d' src' src) in Hd'.
  - unfold formats in Ha. repeat (apply elem_of_cons in Ha as [->|Ha]; [reflexivity|]). by apply elem_of_nil in Ha.
Qed.
End totality.


Definition zeros_at (p : Z) (n : nat) : world := write_bytes p (replicate n 0) (World ∅ 0).


(** Where [strftime] goes wrong: a format that ends in a percent sign is read past
    its terminator, noon is hour 00 AM, and the day of the year counts from zero
    and is not a number from the hundredth day on. *)
Lemma strftime_flaws :
  let noon := mk_tm 0 0 12 9 3 124 2 99 0 in
  let hundredth := mk_tm 0 0 12 10 3 124 3 100 0 in
  let run t format := strftime Unopened 0 100 20 format (mk_fmt (zeros_at 100 20) tz_init t) in
  let text t format k :=
    match run t format with
    | Ok (_, s) => match load_bytes k 100 (fw s) with Ok (l, _) => l | _ => [] end
    | _ => []
    end in
  run noon (STR "%") = Fault ∧ text noon (STR "%I %p") 6%nat = STR "00 AM" ++ [0] ∧
  text noon (STR "%j") 3%nat = STR "99" ++ [0] ∧ text hundredth (STR "%j") 3%nat = STR ":0" ++ [0].
Proof. vm_compute. auto. Qed.

(** ** [asctime_r] *)

Definition two (n : Z) : list Z := [n / 10 + CH "0"; n mod 10 + CH "0"].
Definition asctime_text (t : tm) : list Z :=
  nth (Z.to_nat (tm_wday t)) sweekdays [] ++ STR " " ++ nth (Z.to_nat (tm_mon t)) smonths [] ++ STR " " ++
  (if tm_mday t <? 10 then [CH " "; tm_mday t + CH "0"] else two (tm_mday t)) ++ STR " " ++
  two (tm_hour t) ++ STR ":" ++ two (tm_min t) ++ STR ":" ++ two (tm_sec t) ++ STR " " ++
  two ((tm_year t + 1900) / 100) ++ two ((tm_year t + 1900) mod 100) ++ [10].

Section appending.
Context (buf n : Z) (w0 : world) (Hm : mapped w0 buf n).

Lemma store_append l v k :
  k = Z.of_nat (length l) → k < n → store (buf + k) v (write_bytes buf l w0) = Ok (tt, write_bytes buf (l ++ [u8 v]) w0).
Proof.
  intros -> Hk. rewrite write_bytes_app. apply store_ok, (write_bytes_mapped w0 buf l buf n Hm). lia.
Qed.

Lemma num2str_append l i k :
  k = Z.of_nat (length l) → k + 1 < n → 0 <= i < 100 →
  num2str (buf + k) i (write_bytes buf l w0) = Ok (tt, write_bytes buf (l ++ two i) w0).
Proof.
  intros Hk Hn Hi. unfold num2str. rewrite Z.quot_div_nonneg, Z.rem_mod_nonneg by lia.
  rewrite (bind_Ok _ _ _ _ _ (store_append l _ k Hk ltac:(lia))).
  rewrite <- Z.add_assoc, store_append by (rewrite ?length_app; cbn; lia).
  unfold two. rewrite <- app_assoc. cbn [app]. rewrite !u8_id by (unfold byte; Z.div_mod_to_equations; lia). done.
Qed.

Lemma store_bytes_append l k :
  Z.of_nat (length l + length k) <= n → Forall byte k →
  store_bytes (buf + Z.of_nat (length l)) k (write_bytes buf l w0) = Ok (tt, write_bytes buf (l ++ k) w0).
Proof.
  intros Hn Hk. rewrite write_bytes_app. apply store_bytes_ok; [|done].
  apply write_bytes_mapped. eapply mapped_sub; [exact Hm|lia|lia].
Qed.
End appending.

(** The last two bytes written, in the other order. *)
Lemma write_bytes_pair_set p x y v w :
  set_mem <[p := v]> (write_bytes p [x; y] w) = write_bytes p [v; y] w.
Proof.
  cbn [write_bytes]. unfold set_mem. cbn. rewrite (insert_insert_ne _ p (p + 1)), insert_insert_eq by lia. done.
Qed.

Lemma day_entry t : 0 <= tm_wday t < 7 →
  let e := nth (Z.to_nat (tm_wday t)) sweekdays [] ++ STR " " in
  take 4 (drop (Z.to_nat (Z.shiftl (tm_wday t) 2)) (days ++ [0])) = e ∧ length e = 4%nat ∧ Forall byte e.
Proof.
  intros H. assert (∃ k, tm_wday t = Z.of_nat k ∧ (k < 7)%nat) as (k & -> & Hk) by (exists (Z.to_nat (tm_wday t)); lia).
  do 7 (destruct k as [|k]; [split_and!; [done|done|repeat constructor; unfold byte; lia]|]). lia.
Qed.
Lemma month_entry t : 0 <= tm_mon t < 12 →
  let e := nth (Z.to_nat (tm_mon t)) smonths [] ++ STR " " in
  take 4 (drop (Z.to_nat (Z.shiftl (tm_mon t) 2)) (asc_months ++ [0])) = e ∧ length e = 4%nat ∧ Forall byte e.
Proof.
  intros H. assert (∃ k, tm_mon t = Z.of_nat k ∧ (k < 12)%nat) as (k & -> & Hk) by (exists (Z.to_nat (tm_mon t)); lia).
  do 12 (destruct k as [|k]; [split_and!; [done|done|repeat constructor; unfold byte; lia]|]). lia.
Qed.

(** The day of the month, with a leading zero made a space. *)
Lemma mday_append buf n w0 l i (k : M Z) :
  mapped w0 buf n → length l = 8%nat → 10 <= n → 0 <= i < 100 →
  (_ ← num2str (buf + 8) i;
   c ← load (buf + 8);
   _ ← (if c =? CH "0" then store (buf + 8) (CH " ") else mret tt); k) (write_bytes buf l w0) =
  k (write_bytes buf (l ++ if i <? 10 then [CH " "; i + CH "0"] else two i) w0).
Proof.
  intros Hm Hl Hn Hi. rewrite (bind_Ok _ _ _ _ _ (num2str_append buf n w0 Hm l i 8 ltac:(lia) ltac:(lia) Hi)).
  assert (mem (write_bytes buf (l ++ two i) w0) !! (buf + 8) = Some (i / 10 + CH "0")) as Hload.
  { pose proof (write_bytes_at buf (l ++ two i) w0) as Hat. apply bytes_at_app in Hat as [_ Hat].
    apply bytes_at_cons in Hat as [Hat _]. by rewrite Hl in Hat. }
  rewrite (bind_Ok _ _ _ _ _ (load_ok _ _ _ Hload)). destruct (Z.ltb_spec i 10) as [Hlt|Hge].
  - replace (i / 10 + CH "0" =? CH "0") with true by (Z.div_mod_to_equations; lia).
    unfold store, mbind, CM_bind. rewrite Hload. cbv beta iota.
    rewrite !write_bytes_app, Hl. change (Z.of_nat 8) with 8. unfold two.
    rewrite write_bytes_pair_set. rewrite (Z.mod_small i) by lia. done.
  - replace (i / 10 + CH "0" =? CH "0") with false by (Z.div_mod_to_equations; lia). done.
Qed.

(** [asctime_r] writes the 24 characters of the date, a newline and a
    terminator, and nothing after them, for every date up to the year 9999. *)
Theorem asctime_r_correct t buf w :
  date_ok t → derived_ok t → tm_year t + 1900 <= 9999 → mapped w buf 26 →
  asctime_r t buf w = Ok (buf, write_bytes buf (asctime_text t ++ [0]) w) ∧ length (asctime_text t) = 25%nat.
Proof.
  intros Hok Hd Hy Hm. pose proof (wday_range t Hd) as Hw. destruct Hok.
  assert (tm_mday t <= 31) as H31.
  { destruct (month_ok (leap (tm_year t + 1900)) (tm_mon t)) as (? & ? & _ & _ & _ & _ & _ & ?); lia. }
  destruct (day_entry t Hw) as (Hday & Hdl & Hdb). destruct (month_entry t) as (Hmon & Hml & Hmb); [lia|].
  unfold asctime_text, asctime_r, copy_int.
  set (dn := nth (Z.to_nat (tm_wday t)) sweekdays [] ++ STR " ") in *.
  set (mn := nth (Z.to_nat (tm_mon t)) smonths [] ++ STR " ") in *.
  rewrite !Z.shiftl_mul_pow2 in * by lia. change (2 ^ 2) with 4 in *. rewrite Hday, Hmon.
  replace (_ || _) with false by (unfold days; cbn; lia). replace (_ || _) with false by (unfold asc_months; cbn; lia).
  pose proof (store_bytes_append buf 26 w Hm [] dn) as H1. cbn [length Z.of_nat app write_bytes] in H1.
  rewrite Z.add_0_r in H1. rewrite (bind_Ok _ _ _ _ _ (H1 ltac:(lia) Hdb)).
  pose proof (store_bytes_append buf 26 w Hm dn mn) as H2. rewrite Hdl in H2. 
  rewrite (bind_Ok _ _ _ _ _ (H2 ltac:(lia) Hmb)).
  assert (length (dn ++ mn) = 8%nat) as H8 by (rewrite length_app; lia).
  rewrite (mday_append buf 26 w (dn ++ mn) (tm_mday t)) by (done || lia). cbv beta.
  set (md := if tm_mday t <? 10 then _ else _).
  assert (length md = 2%nat) as Hmd by (unfold md; by destruct (tm_mday t <? 10)).
  assert (length ((dn ++ mn) ++ md) = 10%nat) as H10 by (rewrite length_app; lia).
  set (l10 := (dn ++ mn) ++ md) in *.
  assert (0 <= (tm_year t + 1900) / 100 < 100 ∧ 0 <= (tm_year t + 1900) mod 100 < 100) as [Hc Hyy]
    by (Z.div_mod_to_equations; lia).
  rewrite Z.quot_div_nonneg, Z.rem_mod_nonneg by lia.
  repeat (first
    [ erewrite (bind_Ok (store _ _)) by
        (apply (store_append buf 26 w Hm); rewrite ?length_app, ?H10; unfold two; cbn [length]; lia)
    | erewrite (bind_Ok (num2str _ _)) by
        (apply (num2str_append buf 26 w Hm); rewrite ?length_app, ?H10; unfold two; cbn [length]; lia) ]).
  split.
  - unfold mret, CM_ret. do 3 f_equal. unfold l10, dn, mn, md. rewrite <- !app_assoc. done.
  - transitivity (length (l10 ++ replicate 15 0)); [|rewrite length_app, H10; done].
    unfold l10, dn, mn. rewrite !length_app. unfold two. cbn [length]. rewrite length_replicate. lia.
Qed.
