(* ===== verification/Inet.v ===== *)
(** * Internet addresses

    [libcruft/inet_aton.c], [inet_addr.c], [inet_ntoa_r.c], [inet_pton.c],
    [inet_ntop.c] and [scan_ulong.c].  As in [Convert], a string is the list of
    its bytes before the terminator and a pointer into it the list of the bytes
    that are left; an address is the list of its bytes in network order.  The
    conversions set [errno] through [strtoul]. *)

From S2P Require Import Prelude Convert.

Definition AF_INET : Z := 2.
Definition AF_INET6 : Z := 10.
Definition EAFNOSUPPORT : Z := 97.

(** The bytes of [htonl(ip)] in memory. *)
Definition in_addr (ip : Z) : list Z :=
  [u8 (Z.shiftr ip 24); u8 (Z.shiftr ip 16); u8 (Z.shiftr ip 8); u8 ip].

(** The pointer [strtoul] stores; it does not store one for a bad base only. *)
Definition end_of (r : conv) (s : list Z) : list Z := default s (endptr r).

(** ** [inet_aton] *)

Fixpoint aton_loop (fuel : nat) (tmp : list Z) (i ip errno : Z) : outcome (option Z * Z) :=
  match fuel with
  | O => Hang
  | S fuel =>
      let r := strtoul tmp 0 errno in
      let j := s64 (value r) in
      let tmp := end_of r tmp in
      let errno := conv_errno r in
      if peek tmp 0 =? 0 then Ok (Some (u32 (Z.lor ip j)), errno)
      else if peek tmp 0 =? CH "." then
        if j >? 255 then Ok (None, errno)
        else
          let ip := u32 (Z.lor ip (Z.shiftl j i)) in
          aton_loop fuel (tail tmp) (if i >? 0 then i - 8 else i) ip errno
      else Ok (None, errno)
  end.
(** The address, if the result is not 0, and [errno]. *)
Definition inet_aton (cp : list Z) (errno : Z) : outcome (option (list Z) * Z) :=
  match aton_loop (S (length cp)) cp 24 0 errno with
  | Ok (ip, errno) => Ok (in_addr <$> ip, errno)
  | Fault => Fault
  | Hang => Hang
  end.

(** [inet_addr], whose result is the address as it is in memory. *)
Definition inet_addr (cp : list Z) (errno : Z) : outcome (option (list Z) * Z) := inet_aton cp errno.

(** ** [inet_ntoa_r] *)

(** The digits written by [i2a]. *)
Definition i2a (x : Z) : list Z :=
  let tmp := x in
  let '(d1, tmp) := if x >=? 100 then ([tmp / 100 + CH "0"], tmp mod 100) else ([], tmp) in
  let '(d2, tmp) := if x >=? 10 then ([tmp / 10 + CH "0"], tmp mod 10) else ([], tmp) in
  d1 ++ d2 ++ [tmp + CH "0"].
(** The text in [buf]. *)
Definition inet_ntoa_r (ip : list Z) : list Z :=
  i2a (nth 0 ip 0) ++ STR "." ++ i2a (nth 1 ip 0) ++ STR "." ++ i2a (nth 2 ip 0) ++ STR "." ++ i2a (nth 3 ip 0).

(** ** [inet_pton] *)

(** The bytes of an address, stored over [ip] from index [k] on. *)
Definition put_bytes (ip : list Z) (k : nat) (l : list Z) : list Z := take k ip ++ l ++ drop (k + length l) ip.

(** The result of a [scan_ip6] loop: to go on after ["::"], or to return. *)
Inductive part1 : Type :=
| Suffix (s ip : list Z) (prefixlen : nat) (len : Z)
| Return (len : Z) (ip : list Z).

(** The first [for (;;)]: from the [strtoul] on, with the next round [self], and
    the loop. *)
Definition prefix_group (self : list Z → list Z → nat → Z → Z → outcome (part1 * Z))
    (s ip : list Z) (prefixlen : nat) (len errno : Z) : outcome (part1 * Z) :=
  let r := strtoul s 16 errno in
  let u := value r in
  let errno := conv_errno r in
  let i := (length s - length (end_of r s))%nat in
  if (i =? 0)%nat then Ok (Return 0 ip, errno)
  else if (prefixlen =? 12)%nat && (peek s i =? CH ".") then
    match inet_aton s errno with
    | Ok (Some a, errno) => Ok (Return (Z.of_nat i + len) (put_bytes ip 12 a), errno)
    | Ok (None, errno) => Ok (Return 0 ip, errno)
    | Fault => Fault
    | Hang => Hang
    end
  else
    let ip := put_bytes ip prefixlen [u8 (Z.shiftr u 8); u8 (Z.land u 255)] in
    let prefixlen := (prefixlen + 2)%nat in
    let s := drop i s in
    let len := len + Z.of_nat i in
    if (prefixlen =? 16)%nat then Ok (Return len ip, errno)
    else self s ip prefixlen len errno.

Fixpoint scan_prefix (fuel : nat) (s ip : list Z) (prefixlen : nat) (len errno : Z) : outcome (part1 * Z) :=
  match fuel with
  | O => Hang
  | S fuel =>
      if peek s 0 =? CH ":" then
        if peek s 1 =? CH ":" then Ok (Suffix (drop 2 s) ip prefixlen (len + 2), errno)
        else prefix_group (scan_prefix fuel) (tail s) ip prefixlen (len + 1) errno
      else prefix_group (scan_prefix fuel) s ip prefixlen len errno
  end.

(** The second one: [suffix], [len] and [errno] after it.  [prefixlen] is
    unsigned. *)
Definition suffix_group (self : list Z → list Z → Z → Z → Z → outcome (list Z * Z * Z))
    (s suffix : list Z) (prefixlen : Z) (len errno : Z) : outcome (list Z * Z * Z) :=
  let r := strtol s 16 errno in
  let u := u64 (value r) in
  let errno := conv_errno r in
  let i := (length s - length (end_of r s))%nat in
  if (i =? 0)%nat then Ok (suffix, if peek s 0 =? 0 then len else len - 1, errno) else
  let group prefixlen errno :=
    let suffix := suffix ++ [u8 (Z.shiftr u 8); u8 (Z.land u 255)] in
    let s := drop i s in
    let len := len + Z.of_nat i in
    if u32 (prefixlen + Z.of_nat (length suffix)) =? 16 then Ok (suffix, len, errno)
    else self s suffix prefixlen len errno in
  let suffixlen := Z.of_nat (length suffix) in
  if (u32 (suffixlen + prefixlen) <=? 12) && (peek s i =? CH ".") then
    match inet_aton s errno with
    | Ok (Some a, errno) => Ok (suffix ++ a, len + Z.of_nat (length s), errno)
    | Ok (None, errno) => group (u32 (12 - suffixlen)) errno
    | Fault => Fault
    | Hang => Hang
    end
  else group prefixlen errno.

Fixpoint scan_suffix (fuel : nat) (s suffix : list Z) (prefixlen : Z) (len errno : Z) : outcome (list Z * Z * Z) :=
  match fuel with
  | O => Hang
  | S fuel =>
      let suffixlen := Z.of_nat (length suffix) in
      if peek s 0 =? CH ":" then
        if suffixlen =? 0 then Ok (suffix, len, errno)
        else suffix_group (scan_suffix fuel) (tail s) suffix prefixlen (len + 1) errno
      else if negb (suffixlen =? 0) then Ok (suffix, len, errno)
      else suffix_group (scan_suffix fuel) s suffix prefixlen len errno
  end.

(** The length scanned (0 for an error), the contents of [ip] and [errno]. *)
Definition scan_ip6 (s : list Z) (errno : Z) : outcome (Z * list Z * Z) :=
  let ip := replicate 16 0 in
  match scan_prefix 9 s ip 0 0 errno with
  | Ok (Return len ip, errno) => Ok (len, ip, errno)
  | Ok (Suffix s ip prefixlen len, errno) =>
      match scan_suffix 9 s [] (Z.of_nat prefixlen) len errno with
      | Ok (suffix, len, errno) => Ok (len, put_bytes ip (16 - length suffix) suffix, errno)
      | Fault => Fault
      | Hang => Hang
      end
  | Fault => Fault
  | Hang => Hang
  end.

(** The result, the contents of [BUF] where it has been written, and [errno]. *)
Definition inet_pton (AF : Z) (CP : list Z) (errno : Z) : outcome (Z * option (list Z) * Z) :=
  if AF =? AF_INET then
    match inet_aton CP errno with
    | Ok (Some a, errno) => Ok (1, Some a, errno)
    | Ok (None, errno) => Ok (0, None, errno)
    | Fault => Fault
    | Hang => Hang
    end
  else if AF =? AF_INET6 then
    match scan_ip6 CP errno with
    | Ok (len, ip, errno) =>
        let c := peek CP (Z.to_nat len) in
        if negb (c =? 0) && negb (c =? CH "%") then Ok (0, Some ip, errno) else Ok (1, Some ip, errno)
    | Fault => Fault
    | Hang => Hang
    end
  else Ok (-1, None, EAFNOSUPPORT).

(** ** [inet_ntop] *)

Definition V4mappedprefix : list Z := [0; 0; 0; 0; 0; 0; 0; 0; 0; 0; 0xff; 0xff].
Definition tohex (hexdigit : Z) : Z := if hexdigit >? 9 then hexdigit + CH "a" - 10 else hexdigit + CH "0".

(** One line of [fmt_xlong]: the digit stays unless it is a leading zero. *)
Definition xlong_digit (d : Z) (out : list Z) : list Z :=
  if negb (length out =? 0)%nat || negb (tohex d =? CH "0") then out ++ [tohex d] else out.
Definition fmt_xlong (i : Z) : list Z :=
  let out := xlong_digit (Z.land (Z.shiftr i 12) 0xf) [] in
  let out := xlong_digit (Z.land (Z.shiftr i 8) 0xf) out in
  let out := xlong_digit (Z.land (Z.shiftr i 4) 0xf) out in
  out ++ [tohex (Z.land i 0xf)].

(** [for (j=0; j<16; j+=2)] with [n] rounds left: the text from here on. *)
Fixpoint fmt_ip6_loop (n : nat) (ip : list Z) (compressing compressed : bool) : list Z :=
  match n with
  | O => if compressing then STR ":" else []
  | S n' =>
      let j := (16 - 2 * n)%nat in
      if (j =? 12)%nat && bool_decide (take 12 ip = V4mappedprefix) then inet_ntoa_r (drop 12 ip) else
      let temp := u32 (Z.shiftl (nth j ip 0) 8 + nth (j + 1) ip 0) in
      if (temp =? 0) && negb compressed then
        (if negb compressing && (j =? 0)%nat then STR ":" else []) ++ fmt_ip6_loop n' ip true compressed
      else
        let '(colon, compressing, compressed) :=
          if compressing then (STR ":", false, true) else ([], false, compressed) in
        colon ++ fmt_xlong temp ++ (if (j <? 14)%nat then STR ":" else []) ++
        fmt_ip6_loop n' ip compressing compressed
  end.
Definition fmt_ip6 (ip : list Z) : list Z := fmt_ip6_loop 8 ip false false.

(** The text in [BUF], or [None] for a null result. *)
Definition inet_ntop (AF : Z) (CP : list Z) (LEN : Z) : option (list Z) :=
  let result buf := if Z.of_nat (length buf) <? LEN then Some buf else None in
  if AF =? AF_INET then result (inet_ntoa_r CP)
  else if AF =? AF_INET6 then result (fmt_ip6 CP)
  else None.

(** ** [scan_ulong] *)

(** The number and the length. *)
Fixpoint scan_ulong_loop (s : list Z) (x : Z) (n : nat) : Z * nat :=
  match s with
  | c :: s =>
      let digit := u32 (s8 c - CH "0") in
      if digit <? 10 then scan_ulong_loop s (u64 (x * 10 + digit)) (S n) else (x, n)
  | [] => (x, n)
  end.
Definition scan_ulong (s : list Z) : Z * nat := scan_ulong_loop s 0 0.

Example inet_ntop_1 : inet_ntop AF_INET6 [0x20; 1; 0xd; 0xb8; 0; 0; 0; 0; 0; 0; 0; 0; 0; 0; 0; 1] 46 = Some (STR "2001:db8::1").
Proof. vm_compute. reflexivity. Qed.
Example inet_pton_1 : inet_pton AF_INET6 (STR "::ffff:1.2.3.4") 0 = Ok (1, Some [0; 0; 0; 0; 0; 0; 0; 0; 0; 0; 255; 255; 1; 2; 3; 4], 0).
Proof. vm_compute. reflexivity. Qed.
