(* ===== verification/InetFacts.v ===== *)
(** * Addresses can be read back

    [inet_aton] reads what [inet_ntoa_r] writes, and [inet_pton] what
    [inet_ntop] writes, for every IPv4 and IPv6 address; the scanners
    terminate and stay within their arrays on every string. *)

From S2P Require Import Prelude Ctype Convert ConvertFacts Inet.

(** ** Numerals that end in front of a separator *)

(** A number is followed by a dot, a colon or the end of the string. *)
Definition sep_next (rest : list Z) : Prop := peek rest 0 = 0 ∧ rest = [] ∨ peek rest 0 = CH "." ∨ peek rest 0 = CH ":".

Lemma sep_stops base rest : base <= 36 → sep_next rest → stops base rest.
Proof.
  intros Hb. destruct rest as [|c rest]; [done|]. unfold sep_next, stops, is_digit. cbn.
  intros [[_ ?]|[->| ->]]; [done|change (digit_value (CH ".")) with 254|change (digit_value (CH ":")) with 255]; lia.
Qed.

Lemma sep_not_0x c rest : sep_next rest → has_0x (c :: rest) = false.
Proof.
  unfold has_0x. destruct rest as [|d rest]; [done|]. unfold sep_next. cbn.
  by intros [[_ ?]|[->| ->]].
Qed.

(** ** IPv4 *)

Definition byte_good (x : Z) : bool :=
  let ds := i2a x in
  let b := if x =? 0 then 8 else 10 in
  forallb (λ c, (0 <? c) && (c <? 256) && (digit_value c <? b)) ds && (num b ds =? x) &&
  negb (length ds =? 0)%nat && Bool.eqb (peek ds 0 =? CH "0") (x =? 0) && ((length ds <=? 1)%nat || negb (x =? 0)).

Lemma byte_good_ok x : byte x → byte_good x = true.
Proof. unfold byte. intros Hx. apply (interval_forallb byte_good 0 256); [vm_compute; reflexivity|lia]. Qed.

Lemma digits_Forall b ds :
  0 <= b → forallb (λ c, (0 <? c) && (c <? 256) && (digit_value c <? b)) ds = true →
  Forall nzbyte ds ∧ Forall (is_digit b) ds.
Proof.
  intros Hb. rewrite forallb_forall. intros H. split; apply Forall_forall; intros c Hc;
    apply list_elem_of_In, H in Hc; unfold nzbyte, is_digit; pose proof (digit_value_range c); lia.
Qed.

Lemma peek_app ds rest : ds ≠ [] → peek (ds ++ rest) 0 = peek ds 0.
Proof. by destruct ds. Qed.

Lemma strtoul_byte x rest errno :
  byte x → sep_next rest → strtoul (i2a x ++ rest) 0 errno = mk_conv x (Some rest) errno.
Proof.
  intros Hx Hrest. pose proof (byte_good_ok x Hx) as Hg. unfold byte_good in Hg.
  set (b := if x =? 0 then 8 else 10) in *. assert (0 <= b <= 36) as Hb by (unfold b; bool_case; lia).
  rewrite !andb_true_iff in Hg. destruct Hg as [[[[Hds Hn] Hne] Hz] Hlen].
  destruct (digits_Forall b (i2a x)) as [Hnz Hd]; [lia|done|].
  assert (i2a x ≠ []) as Hne' by (intros E; by rewrite E in Hne).
  apply Z.eqb_eq in Hn. apply eqb_prop in Hz.
  rewrite (strtoul_ok 0 [] [] [] (i2a x) rest false b).
  - unfold unsigned_result. rewrite Hn. unfold byte in Hx. change (2 ^ 64) with 18446744073709551616. by cif.
  - split; try done; [constructor| |apply sep_stops; [lia|done]].
    unfold b in *. destruct (Z.eqb_spec x 0) as [->|Hx0].
    + apply radix_oct; [done|]. by apply sep_not_0x.
    + apply radix_dec. rewrite peek_app by done. lia.
Qed.

Lemma in_addr_bytes a b c d :
  byte a → byte b → byte c → byte d → in_addr (((a * 256 + b) * 256 + c) * 256 + d) = [a; b; c; d].
Proof.
  unfold byte, in_addr. intros. rewrite !Z.shiftr_div_pow2 by lia. uwrap.
  change (2 ^ 24) with 16777216. change (2 ^ 16) with 65536. change (2 ^ 8) with 256.
  repeat (f_equal; [Z.div_mod_to_equations; lia|]). f_equal. Z.div_mod_to_equations; lia.
Qed.

(** One component and the dot after it. *)
Lemma aton_dot fuel x rest i ip errno :
  byte x → aton_loop (S fuel) (i2a x ++ CH "." :: rest) i ip errno =
    aton_loop fuel rest (if i >? 0 then i - 8 else i) (u32 (Z.lor ip (Z.shiftl x i))) errno.
Proof.
  intros Hx. cbn [aton_loop]. rewrite strtoul_byte by (done || (right; left; done)).
  unfold end_of. cbn [value endptr conv_errno default peek nth tail].
  assert (s64 x = x) as -> by (unfold byte in Hx; int_lia). unfold byte in Hx. by repeat cif.
Qed.

Lemma aton_last fuel x i ip errno :
  byte x → aton_loop (S fuel) (i2a x) i ip errno = Ok (Some (u32 (Z.lor ip x)), errno).
Proof.
  intros Hx. rewrite <- (app_nil_r (i2a x)). cbn [aton_loop]. rewrite strtoul_byte by (done || by left).
  unfold end_of. cbn [value endptr conv_errno default peek nth].
  assert (s64 x = x) as -> by (unfold byte in Hx; int_lia). done.
Qed.

Lemma aton_ok a b c d fuel errno :
  byte a → byte b → byte c → byte d → (4 <= fuel)%nat →
  aton_loop fuel (inet_ntoa_r [a; b; c; d]) 24 0 errno = Ok (Some (((a * 256 + b) * 256 + c) * 256 + d), errno).
Proof.
  intros Ha Hb Hc Hd Hf. do 4 (destruct fuel as [|fuel]; [lia|]). unfold inet_ntoa_r. cbn [nth app].
  rewrite !aton_dot by done. cbn [Z.gtb Z.compare Pos.compare Pos.compare_cont Z.sub Z.add Z.pos_sub Z.opp Pos.pred_double].
  change (24 >? 0) with true. cbv iota. change (24 - 8) with 16. change (16 >? 0) with true. cbv iota.
  change (16 - 8) with 8. change (8 >? 0) with true. cbv iota. change (8 - 8) with 0.
  rewrite aton_last by done. unfold byte in *. do 3 f_equal.
  rewrite !Z.shiftl_mul_pow2 by lia. rewrite Z.lor_0_l.
  rewrite (u32_id (a * 2 ^ 24)) by lia.
  rewrite lor_add by lia. rewrite (u32_id (_ + _)) by lia.
  replace (a * 2 ^ 24 + b * 2 ^ 16) with ((a * 256 + b) * 2 ^ 16) by lia. rewrite lor_add by lia.
  rewrite (u32_id (_ + _)) by lia.
  replace ((a * 256 + b) * 2 ^ 16 + c * 2 ^ 8) with (((a * 256 + b) * 256 + c) * 2 ^ 8) by lia.
  rewrite lor_add by lia. rewrite u32_id by lia. lia.
Qed.

Lemma aton_ntoa a b c d errno :
  byte a → byte b → byte c → byte d →
  inet_aton (inet_ntoa_r [a; b; c; d]) errno = Ok (Some [a; b; c; d], errno).
Proof.
  intros Ha Hb Hc Hd. unfold inet_aton. rewrite aton_ok; try done.
  - cbn [fmap option_fmap option_map]. by rewrite in_addr_bytes.
  - assert (∀ x, (1 <= length (i2a x))%nat) as Hl.
    { intros x. unfold i2a. repeat case_match; simplify_eq; rewrite !length_app; cbn; lia. }
    unfold inet_ntoa_r. rewrite !length_app. cbn [nth length].
    pose proof (Hl a). pose proof (Hl b). pose proof (Hl c). lia.
Qed.

(** ** Hexadecimal groups *)

Definition fmt4 (d3 d2 d1 d0 : Z) : list Z := xlong_digit d1 (xlong_digit d2 (xlong_digit d3 [])) ++ [tohex d0].
Definition hex_good (d3 d2 d1 d0 : Z) : bool :=
  let ds := fmt4 d3 d2 d1 d0 in
  forallb (λ c, (0 <? c) && (c <? 256) && (digit_value c <? 16)) ds &&
  (num 16 ds =? d3 * 4096 + d2 * 256 + d1 * 16 + d0) &&
  (negb (peek ds 0 =? CH "0") || (length ds =? 1)%nat).

Definition nibbles (P : Z → bool) : bool := forallb P (seqZ 0 16).
Lemma nibbles_ok P d : nibbles P = true → 0 <= d < 16 → P d = true.
Proof. intros H Hd. by apply (interval_forallb P 0 16 H). Qed.

Lemma hex_good_all : nibbles (λ d3, nibbles (λ d2, nibbles (λ d1, nibbles (hex_good d3 d2 d1)))) = true.
Proof. vm_compute. reflexivity. Qed.

Lemma hex_good_ok d3 d2 d1 d0 :
  0 <= d3 < 16 → 0 <= d2 < 16 → 0 <= d1 < 16 → 0 <= d0 < 16 → hex_good d3 d2 d1 d0 = true.
Proof.
  intros H3 H2 H1 H0.
  pose proof (nibbles_ok (λ d3, nibbles (λ d2, nibbles (λ d1, nibbles (hex_good d3 d2 d1)))) d3 hex_good_all H3) as H.
  apply (nibbles_ok (λ d2, nibbles (λ d1, nibbles (hex_good d3 d2 d1))) d2) in H; [|done].
  apply (nibbles_ok (λ d1, nibbles (hex_good d3 d2 d1)) d1) in H; [|done].
  exact (nibbles_ok (hex_good d3 d2 d1) d0 H H0).
Qed.

Definition group (g : Z) : Prop := 0 <= g < 65536.

(** The digits of a group. *)
Record hex_digits (g : Z) (ds : list Z) : Prop := {
  hd_some : ds ≠ [];
  hd_byte : Forall nzbyte ds;
  hd_digit : Forall (is_digit 16) ds;
  hd_num : num 16 ds = g;
  hd_zero : peek ds 0 = CH "0" → length ds = 1%nat;
}.

Lemma fmt_xlong_ok g : group g → hex_digits g (fmt_xlong g).
Proof.
  unfold group. intros Hg. assert (∀ k, 0 <= k → Z.land (Z.shiftr g k) 0xf = (g / 2 ^ k) mod 16) as Hn.
  { intros k Hk. rewrite Z.shiftr_div_pow2 by done. by rewrite (Z.land_ones _ 4) by lia. }
  assert (Z.land g 0xf = g mod 16) as Hn0 by (by rewrite (Z.land_ones _ 4) by lia).
  unfold fmt_xlong. rewrite !Hn, Hn0 by lia. change (2 ^ 12) with 4096. change (2 ^ 8) with 256. change (2 ^ 4) with 16.
  fold (fmt4 ((g / 4096) mod 16) ((g / 256) mod 16) ((g / 16) mod 16) (g mod 16)).
  pose proof (hex_good_ok ((g / 4096) mod 16) ((g / 256) mod 16) ((g / 16) mod 16) (g mod 16)
    ltac:(apply Z.mod_pos_bound; lia) ltac:(apply Z.mod_pos_bound; lia) ltac:(apply Z.mod_pos_bound; lia)
    ltac:(apply Z.mod_pos_bound; lia)) as H.
  unfold hex_good in H. set (ds := fmt4 _ _ _ _) in *. rewrite !andb_true_iff in H. destruct H as [[Hds Hnum] Hz].
  destruct (digits_Forall 16 ds) as [Hnz Hd]; [lia|done|]. split; try done.
  - unfold ds, fmt4. apply app_nonempty_ne_r || (intros E; apply app_eq_nil in E as [_ E]; done).
  - apply Z.eqb_eq in Hnum. rewrite Hnum. Z.div_mod_to_equations. lia.
  - intros E. lia.
Qed.

Lemma hex_numeral ds rest :
  ds ≠ [] → Forall nzbyte ds → Forall (is_digit 16) ds → (peek ds 0 = CH "0" → length ds = 1%nat) → sep_next rest →
  numeral 16 [] [] [] ds rest false 16.
Proof.
  intros Hne Hnz Hd Hz Hrest. split; try done; [constructor| |apply sep_stops; [lia|done]].
  apply radix_plain; [lia|]. intros _. rewrite peek_app by done. intros H0.
  destruct ds as [|c [|]]; [done| |by specialize (Hz H0)]. by apply sep_not_0x.
Qed.

Lemma strtoul_hex g ds rest errno :
  group g → hex_digits g ds → sep_next rest → strtoul (ds ++ rest) 16 errno = mk_conv g (Some rest) errno.
Proof.
  intros Hg [Hne Hnz Hd Hnum Hz] Hrest.
  pose proof (strtoul_ok 16 [] [] [] ds rest false 16 errno (hex_numeral _ _ Hne Hnz Hd Hz Hrest)) as E.
  cbn [app] in E. rewrite E.
  unfold unsigned_result. rewrite Hnum. unfold group in Hg. change (2 ^ 64) with 18446744073709551616. by cif.
Qed.

Lemma strtol_hex n ds rest errno :
  0 <= n < 2 ^ 63 → hex_digits n ds → sep_next rest → strtol (ds ++ rest) 16 errno = mk_conv n (Some rest) errno.
Proof.
  intros Hn [Hne Hnz Hd Hnum Hz] Hrest.
  pose proof (strtol_ok 16 [] [] [] ds rest false 16 errno (hex_numeral _ _ Hne Hnz Hd Hz Hrest)) as E.
  cbn [app] in E. rewrite E.
  unfold signed_result. rewrite Hnum. unfold LONG_MIN, LONG_MAX. repeat cif. done.
Qed.

(** The digits of a byte, read in base 16. *)
Lemma i2a_hex x : byte x → ∃ n, 0 <= n < 2 ^ 63 ∧ hex_digits n (i2a x).
Proof.
  intros Hx. pose proof (byte_good_ok x Hx) as Hg. unfold byte_good in Hg.
  rewrite !andb_true_iff in Hg. destruct Hg as [[[[Hds Hn] Hne] Hz] Hlen].
  destruct (digits_Forall (if x =? 0 then 8 else 10) (i2a x)) as [Hnz Hd]; [bool_case; lia|done|].
  assert (Forall (is_digit 16) (i2a x)) as Hd16.
  { eapply Forall_impl; [exact Hd|]. unfold is_digit. intros c. destruct (x =? 0); lia. }
  exists (num 16 (i2a x)). split.
  - assert ((λ y, (0 <=? num 16 (i2a y)) && (num 16 (i2a y) <? 2 ^ 63)) x = true); [|lia].
    apply (interval_forallb (λ y, (0 <=? num 16 (i2a y)) && (num 16 (i2a y) <? 2 ^ 63)) 0 256);
      [vm_compute; reflexivity|unfold byte in Hx; lia].
  - apply eqb_prop in Hz. split; try done; [intros E; by rewrite E in Hne|].
    intros E. rewrite E in Hz. cbn in Hz. destruct (x =? 0); [|done].
    destruct (i2a x) as [|c [|]]; done.
Qed.

(** ** The text of an IPv6 address

    The groups of an address: all of them in a row, those after a run of zeros,
    and those before one. *)

Definition bytes_of (gs : list Z) : list Z := gs ≫= λ g, [g / 256; g mod 256].

Fixpoint joined (gs : list Z) : list Z :=
  match gs with
  | [] => []
  | g :: gs => fmt_xlong g ++ match gs with [] => [] | _ => STR ":" ++ joined gs end
  end.
Fixpoint drop_zeros (gs : list Z) : list Z :=
  match gs with [] => [] | g :: gs' => if g =? 0 then drop_zeros gs' else gs end.
Definition after_zero (gs : list Z) : list Z := STR ":" ++ joined (drop_zeros gs).
Fixpoint plain (gs : list Z) : list Z :=
  match gs with
  | [] => []
  | g :: gs => if g =? 0 then after_zero gs else fmt_xlong g ++ match gs with [] => [] | _ => STR ":" ++ plain gs end
  end.

Definition mapped4 (ip : list Z) : Prop := take 12 ip = V4mappedprefix.

Lemma bytes_of_app gs hs : bytes_of (gs ++ hs) = bytes_of gs ++ bytes_of hs.
Proof. apply bind_app. Qed.
Lemma bytes_of_length gs : length (bytes_of gs) = (2 * length gs)%nat.
Proof. induction gs as [|g gs IH]; [done|]. unfold bytes_of in *. cbn. rewrite IH. lia. Qed.

Lemma group_bytes g : group g → u32 (Z.shiftl (g / 256) 8 + g mod 256) = g ∧
  u8 (Z.shiftr g 8) = g / 256 ∧ u8 (Z.land g 255) = g mod 256.
Proof.
  unfold group. intros Hg. rewrite Z.shiftl_mul_pow2, Z.shiftr_div_pow2, (Z.land_ones _ 8) by lia.
  uwrap. change (2 ^ 8) with 256. split_and!; Z.div_mod_to_equations; lia.
Qed.

Section fmt.
Context (gs : list Z) (Hlen : length gs = 8%nat) (Hgs : Forall group gs) (Hm : ¬ mapped4 (bytes_of gs)).

(** One round of [fmt_ip6]. *)
Lemma fmt_round pre g rest compressing compressed :
  gs = pre ++ g :: rest →
  fmt_ip6_loop (S (length rest)) (bytes_of gs) compressing compressed =
    if (g =? 0) && negb compressed then
      (if negb compressing && (length pre =? 0)%nat then STR ":" else []) ++
      fmt_ip6_loop (length rest) (bytes_of gs) true compressed
    else
      let '(colon, compressing, compressed) := if compressing then (STR ":", false, true) else ([], false, compressed) in
      colon ++ fmt_xlong g ++ (match rest with [] => [] | _ => STR ":" end) ++
      fmt_ip6_loop (length rest) (bytes_of gs) compressing compressed.
Proof.
  intros Hsplit. assert (length pre + S (length rest) = 8)%nat as Hl by (rewrite <- Hlen, Hsplit, length_app; done).
  assert (group g) as Hg by (rewrite Hsplit in Hgs; by apply Forall_app in Hgs as [_ [? _]%Forall_cons]).
  cbn [fmt_ip6_loop]. replace (16 - 2 * S (length rest))%nat with (2 * length pre)%nat by lia.
  rewrite (bool_decide_false (take 12 (bytes_of gs) = _)) by done. rewrite andb_false_r.
  assert (nth (2 * length pre) (bytes_of gs) 0 = g / 256 ∧ nth (2 * length pre + 1) (bytes_of gs) 0 = g mod 256) as [-> ->].
  { rewrite Hsplit, bytes_of_app. rewrite !app_nth2; rewrite bytes_of_length; [|lia..].
    replace (2 * length pre + 1 - 2 * length pre)%nat with 1%nat by lia. by rewrite Nat.sub_diag. }
  destruct (group_bytes g Hg) as [-> _]. replace (2 * length pre =? 0)%nat with (length pre =? 0)%nat by lia.
  destruct ((g =? 0) && negb compressed); [done|].
  assert ((if (2 * length pre <? 14)%nat then STR ":" else []) = match rest with [] => [] | _ => STR ":" end) as ->; [|done].
  destruct rest; cbn [length] in Hl; bool_case; done || lia.
Qed.

Lemma fmt_joined pre rest :
  gs = pre ++ rest → fmt_ip6_loop (length rest) (bytes_of gs) false true = joined rest.
Proof.
  revert pre. induction rest as [|g rest IH]; intros pre Hsplit; [done|]. cbn [length].
  rewrite (fmt_round pre g rest) by done. rewrite andb_false_r. cbn [joined app]. f_equal.
  rewrite (IH (pre ++ [g])) by (by rewrite <- app_assoc). by destruct rest.
Qed.

Lemma fmt_after_zero pre rest :
  gs = pre ++ rest → fmt_ip6_loop (length rest) (bytes_of gs) true false = after_zero rest.
Proof.
  revert pre. induction rest as [|g rest IH]; intros pre Hsplit; [done|]. cbn [length].
  rewrite (fmt_round pre g rest) by done. unfold after_zero. cbn [drop_zeros negb andb app].
  rewrite andb_true_r. destruct (g =? 0).
  - rewrite (IH (pre ++ [g])) by (by rewrite <- app_assoc). done.
  - rewrite (fmt_joined (pre ++ [g])) by (by rewrite <- app_assoc). cbn [joined app]. by destruct rest.
Qed.

Lemma fmt_plain pre rest :
  gs = pre ++ rest → pre ≠ [] → fmt_ip6_loop (length rest) (bytes_of gs) false false = plain rest.
Proof.
  revert pre. induction rest as [|g rest IH]; intros pre Hsplit Hne; [done|]. cbn [length].
  rewrite (fmt_round pre g rest) by done. cbn [plain negb andb].
  replace (length pre =? 0)%nat with false by (destruct pre; done).
  rewrite andb_true_r. destruct (g =? 0).
  - cbn [app]. apply (fmt_after_zero (pre ++ [g])). by rewrite <- app_assoc.
  - rewrite (IH (pre ++ [g])) by ((by rewrite <- app_assoc) || by destruct pre). cbn [app]. f_equal. by destruct rest.
Qed.

Lemma fmt_ip6_ok g rest :
  gs = g :: rest → fmt_ip6 (bytes_of gs) = (if g =? 0 then STR ":" else []) ++ plain (g :: rest).
Proof.
  intros E. unfold fmt_ip6. assert (length rest = 7%nat) as H7 by (rewrite E in Hlen; cbn in Hlen; lia).
  pose proof (fmt_round [] g rest false false E) as Hr. rewrite H7 in Hr. rewrite Hr. clear Hr.
  cbn [negb andb length Nat.eqb plain]. rewrite andb_true_r, <- H7.
  destruct (g =? 0).
  - f_equal. by apply (fmt_after_zero [g]).
  - rewrite (fmt_plain [g]) by done. cbn [app]. f_equal. by destruct rest.
Qed.
End fmt.

(** ** Scanning it *)

Lemma hex_head g ds : hex_digits g ds → ∃ c t, ds = c :: t ∧ c ≠ CH ":" ∧ c ≠ 0.
Proof.
  intros [Hne Hnz Hd _ _]. destruct ds as [|c t]; [done|]. exists c, t. split; [done|].
  apply Forall_cons in Hnz as [Hc _], Hd as [Hd _]. unfold nzbyte, is_digit in *. split; [intros ->|lia].
  change (digit_value (CH ":")) with 255 in Hd. lia.
Qed.

(** The rest of a text after a group. *)
Definition sep_rest (f : list Z → list Z) (gs : list Z) : list Z := match gs with [] => [] | _ => STR ":" ++ f gs end.

Lemma sep_rest_next f gs : sep_next (sep_rest f gs).
Proof. destruct gs; [by left|by right; right]. Qed.

Lemma sep_rest_peek f gs : (peek (sep_rest f gs) 0 =? CH ".") = false.
Proof. by destruct gs. Qed.

Lemma drop_length_app {A} (ds rest : list A) :
  (length (ds ++ rest) - length rest)%nat = length ds ∧ drop (length ds) (ds ++ rest) = rest.
Proof. rewrite length_app, drop_app_length. split; [lia|done]. Qed.

Lemma peek_length_app ds rest : peek (ds ++ rest) (length ds) = peek rest 0.
Proof. unfold peek. rewrite app_nth2 by lia. by rewrite Nat.sub_diag. Qed.

Lemma end_of_Some v e er s : end_of (mk_conv v (Some e) er) s = e.
Proof. done. Qed.

(** [strtoul] and [strtol] on a group. *)
Lemma suffix_group_ok self g f gs suffix pl len errno :
  group g → 0 <= pl → pl + Z.of_nat (length suffix) + 2 < 16 →
  suffix_group self (fmt_xlong g ++ sep_rest f gs) suffix pl len errno =
  self (sep_rest f gs) (suffix ++ [g / 256; g mod 256]) pl (len + Z.of_nat (length (fmt_xlong g))) errno.
Proof.
  intros Hg Hpl Hlt. pose proof (fmt_xlong_ok g Hg) as Hds.
  destruct (hex_head _ _ Hds) as (c & t & Hct & _). destruct (group_bytes g Hg) as (_ & Hhi & Hlo).
  unfold suffix_group. rewrite (strtol_hex g) by (try apply sep_rest_next; unfold group in Hg; done || lia).
  rewrite end_of_Some. cbn [value conv_errno]. destruct (drop_length_app (fmt_xlong g) (sep_rest f gs)) as [-> ->].
  replace (length (fmt_xlong g) =? 0)%nat with false by (by rewrite Hct).
  rewrite peek_length_app, sep_rest_peek, andb_false_r. replace (u64 g) with g by (unfold group in Hg; int_lia).
  rewrite Hhi, Hlo, length_app. cbn [length].
  replace (u32 (pl + Z.of_nat (length suffix + 2)) =? 16) with false by (rewrite u32_id; lia). done.
Qed.

Lemma prefix_group_ok self g f gs ip k len errno :
  group g → (k + 2 <= 16)%nat →
  prefix_group self (fmt_xlong g ++ sep_rest f gs) ip k len errno =
  let ip := put_bytes ip k [g / 256; g mod 256] in
  let len := len + Z.of_nat (length (fmt_xlong g)) in
  if (k + 2 =? 16)%nat then Ok (Return len ip, errno) else self (sep_rest f gs) ip (k + 2)%nat len errno.
Proof.
  intros Hg Hk. pose proof (fmt_xlong_ok g Hg) as Hds.
  destruct (hex_head _ _ Hds) as (c & t & Hct & _). destruct (group_bytes g Hg) as (_ & Hhi & Hlo).
  unfold prefix_group. rewrite (strtoul_hex g) by (try apply sep_rest_next; done).
  rewrite end_of_Some. cbn [value conv_errno]. destruct (drop_length_app (fmt_xlong g) (sep_rest f gs)) as [-> ->].
  replace (length (fmt_xlong g) =? 0)%nat with false by (by rewrite Hct).
  by rewrite peek_length_app, sep_rest_peek, andb_false_r, Hhi, Hlo.
Qed.

(** Groups after others. *)
Lemma scan_suffix_rest gs fuel suffix pl len errno :
  Forall group gs → (length gs < fuel)%nat → suffix ≠ [] → 0 <= pl →
  pl + Z.of_nat (length suffix + 2 * length gs) < 16 →
  scan_suffix fuel (sep_rest joined gs) suffix pl len errno =
  Ok (suffix ++ bytes_of gs, len + Z.of_nat (length (sep_rest joined gs)), errno).
Proof.
  intros Hgs. revert fuel suffix len. induction Hgs as [|g gs Hg Hgs IH]; intros [|fuel] suffix len Hf Hne Hpl Hlt;
    try (cbn in Hf; lia); cbn [scan_suffix].
  - change (peek [] 0 =? CH ":") with false. cbv iota.
    replace (Z.of_nat (length suffix) =? 0) with false by (destruct suffix; done).
    cbn [negb bytes_of mbind list_bind]. rewrite app_nil_r, Z.add_0_r. done.
  - change (peek (sep_rest joined (g :: gs)) 0 =? CH ":") with true. cbv iota.
    replace (Z.of_nat (length suffix) =? 0) with false by (destruct suffix; done).
    change (tail (sep_rest joined (g :: gs))) with (fmt_xlong g ++ sep_rest joined gs). cbn [length] in *.
    rewrite suffix_group_ok by (done || lia).
    rewrite IH; [|lia|by destruct suffix|done|rewrite length_app; cbn; lia].
    change (bytes_of (g :: gs)) with ([g / 256; g mod 256] ++ bytes_of gs). rewrite <- app_assoc.
    do 3 f_equal. change (sep_rest joined (g :: gs)) with ([CH ":"] ++ fmt_xlong g ++ sep_rest joined gs).
    rewrite !length_app. cbn [length]. lia.
Qed.

(** The groups after ["::"]; without any, [strtol] finds no digits. *)
Lemma scan_suffix_ok gs fuel pl len errno :
  Forall group gs → (length gs < fuel)%nat → 0 <= pl → pl + Z.of_nat (2 * length gs) < 16 →
  ∃ errno', scan_suffix fuel (joined gs) [] pl len errno = Ok (bytes_of gs, len + Z.of_nat (length (joined gs)), errno').
Proof.
  intros Hgs Hf Hpl Hlt. destruct fuel as [|fuel]; [lia|]. destruct Hgs as [|g gs Hg Hgs]; cbn [scan_suffix].
  - exists EINVAL. cbn. by rewrite Z.add_0_r.
  - exists errno. pose proof (fmt_xlong_ok g Hg) as Hds. destruct (hex_head _ _ Hds) as (c & t & Hct & Hc & _).
    change (joined (g :: gs)) with (fmt_xlong g ++ sep_rest joined gs).
    replace (peek (fmt_xlong g ++ sep_rest joined gs) 0 =? CH ":") with false by (rewrite Hct; cbn; lia).
    cbn [length] in *. change (Z.of_nat 0 =? 0) with true. cbn [negb].
    rewrite suffix_group_ok by (done || (cbn; lia)). cbn [app].
    rewrite scan_suffix_rest by (done || (cbn [length]; lia)). rewrite length_app. do 3 f_equal. lia.
Qed.

(** What is left of the text behind the groups [pre]. *)
Definition seg (pre rest : list Z) : list Z :=
  match rest with
  | [] => []
  | g :: r => if g =? 0 then STR ":" ++ after_zero r else match pre with [] => [] | _ => STR ":" end ++ plain rest
  end.

Lemma seg_next pre g r : sep_rest plain r = seg (pre ++ [g]) r.
Proof.
  destruct r as [|h r]; [done|]. unfold seg. cbn [sep_rest]. destruct (Z.eqb_spec h 0) as [->|].
  - done.
  - by destruct pre.
Qed.

Lemma put_bytes_mid ip zs l k :
  k = length ip → put_bytes (ip ++ replicate (length l + zs) 0) k l = (ip ++ l) ++ replicate zs 0.
Proof.
  intros ->. unfold put_bytes. rewrite take_app_length, drop_app_ge by lia.
  replace (length ip + length l - length ip)%nat with (length l) by lia.
  rewrite drop_replicate. replace (length l + zs - length l)%nat with zs by lia. by rewrite app_assoc.
Qed.

(** The first loop reads the groups up to the run of zeros. *)
Lemma scan_prefix_ok rest pre fuel len errno :
  Forall group (pre ++ rest) → rest ≠ [] → (length pre + length rest = 8)%nat → (length rest < fuel)%nat →
  let ip := bytes_of pre ++ replicate (2 * length rest) 0 in
  (Forall (λ g, g ≠ 0) rest ∧
   scan_prefix fuel (seg pre rest) ip (2 * length pre) len errno =
     Ok (Return (len + Z.of_nat (length (seg pre rest))) (bytes_of (pre ++ rest)), errno)) ∨
  (∃ p r, rest = p ++ 0 :: r ∧
   scan_prefix fuel (seg pre rest) ip (2 * length pre) len errno =
     Ok (Suffix (joined (drop_zeros r)) (bytes_of (pre ++ p) ++ replicate (2 * S (length r)) 0) (2 * length (pre ++ p))
       (len + Z.of_nat (length (seg pre rest)) - Z.of_nat (length (joined (drop_zeros r)))), errno)).
Proof.
  revert pre fuel len. induction rest as [|g rest IH]; intros pre [|fuel] len Hgs Hne Hl Hf; [done|done|lia|].
  cbv zeta. destruct (Z.eqb_spec g 0) as [->|Hg0].
  { right. exists [], rest. split; [done|]. cbn [scan_prefix seg app].
    change (0 =? 0) with true. cbv iota. rewrite app_nil_r. unfold after_zero. cbn [app].
    change (peek (CH ":" :: CH ":" :: joined (drop_zeros rest)) 0 =? CH ":") with true.
    change (peek (CH ":" :: CH ":" :: joined (drop_zeros rest)) 1 =? CH ":") with true. cbv iota. cbn [drop length].
    do 3 f_equal. lia. }
  assert (group g) as Hg by (by apply Forall_app in Hgs as [_ [? _]%Forall_cons]).
  pose proof (fmt_xlong_ok g Hg) as Hds. destruct (hex_head _ _ Hds) as (c & t & Hct & Hc & _).
  assert (plain (g :: rest) = fmt_xlong g ++ sep_rest plain rest) as Hplain by (cbn [plain]; by cif).
  assert (scan_prefix (S fuel) (seg pre (g :: rest)) (bytes_of pre ++ replicate (2 * length (g :: rest)) 0) (2 * length pre) len errno =
    prefix_group (scan_prefix fuel) (plain (g :: rest)) (bytes_of pre ++ replicate (2 * length (g :: rest)) 0) (2 * length pre)
      (len + Z.of_nat (length (seg pre (g :: rest))) - Z.of_nat (length (plain (g :: rest)))) errno) as Hstart.
  { cbn [scan_prefix]. unfold seg. replace (g =? 0) with false by lia. destruct pre as [|b pre]; cbn [app].
    - replace (peek (plain (g :: rest)) 0 =? CH ":") with false by (rewrite Hplain, Hct; cbn; lia).
      do 2 f_equal. lia.
    - change (peek (CH ":" :: plain (g :: rest)) 0 =? CH ":") with true. cbv iota.
      replace (peek (CH ":" :: plain (g :: rest)) 1 =? CH ":") with false by (rewrite Hplain, Hct; cbn; lia).
      cbn [tail length]. do 2 f_equal. lia. }
  rewrite Hstart, Hplain, prefix_group_ok by (done || (cbn in Hl; lia)). cbv zeta. clear Hstart.
  replace (2 * length (g :: rest))%nat with (length [(g / 256)%Z; (g mod 256)%Z] + 2 * length rest)%nat by (cbn; lia).
  rewrite put_bytes_mid by (by rewrite bytes_of_length).
  change (bytes_of pre ++ [g / 256; g mod 256]) with (bytes_of pre ++ bytes_of [g]). rewrite <- bytes_of_app.
  rewrite (seg_next pre g rest). rewrite length_app.
  destruct rest as [|h rest].
  - left. split; [by constructor|]. replace (2 * length pre + 2 =? 16)%nat with true by (cbn in Hl; lia).
    cbn [seg length replicate Nat.mul]. rewrite app_nil_r. do 3 f_equal. lia.
  - replace (2 * length pre + 2 =? 16)%nat with false by (cbn in Hl; lia).
    replace (2 * length pre + 2)%nat with (2 * length (pre ++ [g]))%nat by (rewrite length_app; cbn; lia).
    set (len' := len + _ - _ + _). set (tl := h :: rest) in *.
    destruct (IH (pre ++ [g]) fuel len') as [[Hnz Hrun]|(p & r & Hr & Hrun)];
      [by rewrite <- app_assoc|done|rewrite length_app; cbn in *; lia|cbn in *; lia|left|right].
    + split; [by constructor|]. rewrite Hrun, <- app_assoc. do 3 f_equal. unfold len'. lia.
    + exists (g :: p), r. split; [by rewrite Hr|]. rewrite Hrun, <- app_assoc. cbn [app]. do 3 f_equal. unfold len'. lia.
Qed.

(** ** Both together *)

Lemma drop_zeros_split r : ∃ k, r = replicate k 0 ++ drop_zeros r.
Proof.
  induction r as [|g r [k IH]]; [by exists 0%nat|]. cbn [drop_zeros]. destruct (Z.eqb_spec g 0) as [->|].
  - exists (S k). cbn. by rewrite <- IH.
  - by exists 0%nat.
Qed.

Lemma bytes_of_zeros k : bytes_of (replicate k 0) = replicate (2 * k) 0.
Proof.
  induction k as [|k IH]; [done|]. replace (2 * S k)%nat with (S (S (2 * k))) by lia.
  change (bytes_of (replicate (S k) 0)) with ([0; 0] ++ bytes_of (replicate k 0)). by rewrite IH.
Qed.

Lemma put_bytes_end ip k l : (k + length l = length ip)%nat → put_bytes ip k l = take k ip ++ l.
Proof. intros Hk. unfold put_bytes. rewrite (drop_ge ip) by lia. by rewrite app_nil_r. Qed.

Lemma scan_groups gs errno :
  length gs = 8%nat → Forall group gs → ¬ mapped4 (bytes_of gs) →
  ∃ errno', scan_ip6 (fmt_ip6 (bytes_of gs)) errno = Ok (Z.of_nat (length (fmt_ip6 (bytes_of gs))), bytes_of gs, errno').
Proof.
  intros Hlen Hgs Hm. destruct gs as [|g rest] eqn:E; [done|]. rewrite <- E in *.
  assert (fmt_ip6 (bytes_of gs) = seg [] gs) as ->.
  { rewrite (fmt_ip6_ok gs Hlen Hgs Hm g rest E), E. cbn [seg plain]. by destruct (g =? 0). }
  unfold scan_ip6.
  destruct (scan_prefix_ok gs [] 9 0 errno) as [[_ Hrun]|(p & r & Hr & Hrun)]; [done|by rewrite E|by rewrite Hlen|lia|..];
    rewrite Hlen in Hrun; cbn [app] in Hrun; change (2 * length (@nil Z))%nat with 0%nat in Hrun;
    change (bytes_of [] ++ replicate (2 * 8) 0) with (replicate 16 0) in Hrun; rewrite Hrun; [by exists errno|].
  assert (length p + S (length r) = 8)%nat as Hpr by (rewrite <- Hlen, Hr, length_app; done).
  destruct (drop_zeros_split r) as [k Hk]. set (suf := drop_zeros r) in *.
  assert (length r = k + length suf)%nat as Hlr by (rewrite Hk, length_app, length_replicate at 1; done).
  assert (Forall group suf) as Hsuf.
  { rewrite Hr in Hgs. apply Forall_app in Hgs as [_ [_ Hgs]%Forall_cons]. rewrite Hk in Hgs.
    by apply Forall_app in Hgs as [_ ?]. }
  destruct (scan_suffix_ok suf 9 (Z.of_nat (2 * length p))
    (0 + Z.of_nat (length (seg [] gs)) - Z.of_nat (length (joined suf))) errno Hsuf) as [errno' Hs]; [lia|lia|lia|].
  rewrite Hs. exists errno'. do 2 f_equal. f_equal; [lia|].
  rewrite bytes_of_length, put_bytes_end.
  2: { rewrite length_app, !bytes_of_length, length_replicate. lia. }
  rewrite Hr, bytes_of_app. change (bytes_of (0 :: r)) with ([0; 0] ++ bytes_of r).
  rewrite Hk at 2. rewrite bytes_of_app, bytes_of_zeros, app_assoc, app_assoc. f_equal.
  replace (2 * S (length r))%nat with (2 + 2 * k + 2 * length suf)%nat by lia.
  rewrite replicate_add, app_assoc, take_app_le by (rewrite length_app, bytes_of_length, length_replicate; lia).
  rewrite take_ge by (rewrite length_app, bytes_of_length, length_replicate; lia).
  rewrite replicate_add. by rewrite app_assoc.
Qed.

Lemma scan_mapped4 a b c d errno :
  byte a → byte b → byte c → byte d →
  let ip := V4mappedprefix ++ [a; b; c; d] in
  scan_ip6 (fmt_ip6 ip) errno = Ok (Z.of_nat (length (fmt_ip6 ip)), ip, errno).
Proof.
  intros Ha Hb Hc Hd. cbv zeta.
  assert (fmt_ip6 (V4mappedprefix ++ [a; b; c; d]) = STR "::ffff:" ++ inet_ntoa_r [a; b; c; d]) as -> by reflexivity.
  set (text := inet_ntoa_r [a; b; c; d]). unfold scan_ip6.
  change (scan_prefix 9 (STR "::ffff:" ++ text) (replicate 16 0) 0 0 errno) with
    (@Ok (part1 * Z) (Suffix (fmt_xlong 0xffff ++ CH ":" :: text) (replicate 16 0) 0 2, errno)). cbv iota.
  assert (scan_suffix 9 (fmt_xlong 0xffff ++ CH ":" :: text) [] 0 2 errno =
    suffix_group (scan_suffix 8) (fmt_xlong 0xffff ++ sep_rest (λ _, text) [0]) [] 0 2 errno) as E1 by reflexivity.
  change (Z.of_nat 0) with 0. rewrite E1, suffix_group_ok by (unfold group; cbn; lia). clear E1. cbn [app].
  change (0xffff / 256) with 255. change (0xffff mod 256) with 255.
  change (scan_suffix 8 (sep_rest (λ _, text) [0]) [255; 255] 0 (2 + Z.of_nat (length (fmt_xlong 0xffff))) errno) with
    (suffix_group (scan_suffix 7) text [255; 255] 0 7 errno).
  assert (∃ r, text = i2a a ++ CH "." :: r) as [r Hr] by (by eexists).
  destruct (i2a_hex a Ha) as (n & Hn & Hds). destruct (hex_head _ _ Hds) as (c0 & t & Hct & _).
  assert (suffix_group (scan_suffix 7) text [255; 255] 0 7 errno =
    Ok ([255; 255; a; b; c; d], 7 + Z.of_nat (length text), errno)) as ->.
  { unfold suffix_group. rewrite Hr, (strtol_hex n) by (done || by right; left).
    rewrite end_of_Some. cbn [conv_errno value]. destruct (drop_length_app (i2a a) (CH "." :: r)) as [-> _].
    replace (length (i2a a) =? 0)%nat with false by (by rewrite Hct). rewrite peek_length_app.
    change (u32 (Z.of_nat (length [255; 255]) + 0) <=? 12) with true. change (peek (CH "." :: r) 0 =? CH ".") with true.
    cbn [andb]. rewrite <- Hr. unfold text. by rewrite aton_ntoa. }
  do 3 f_equal. cbn [length]. lia.
Qed.

Lemma groups_of ip :
  length ip = 16%nat → Forall byte ip → ∃ gs, length gs = 8%nat ∧ Forall group gs ∧ ip = bytes_of gs.
Proof.
  assert (∀ n ip, length ip = (2 * n)%nat → Forall byte ip → ∃ gs, length gs = n ∧ Forall group gs ∧ ip = bytes_of gs) as H;
    [|by apply (H 8%nat)].
  clear ip. induction n as [|n IH]; intros ip Hl Hip; [exists []; by destruct ip|].
  destruct ip as [|a [|b ip]]; [done|cbn in Hl; lia|]. cbn in Hl.
  apply Forall_cons in Hip as [Ha [Hb Hip]%Forall_cons].
  destruct (IH ip) as (gs & Hgl & Hgs & ->); [lia|done|]. exists ((a * 256 + b) :: gs). unfold byte in *.
  split_and!; [cbn; lia|constructor; [unfold group; lia|done]|].
  change (bytes_of (a * 256 + b :: gs)) with ([(a * 256 + b) / 256; (a * 256 + b) mod 256] ++ bytes_of gs).
  cbn [app]. f_equal; [|f_equal]; Z.div_mod_to_equations; lia.
Qed.

Lemma mapped4_split ip :
  length ip = 16%nat → Forall byte ip → mapped4 ip →
  ∃ a b c d, ip = V4mappedprefix ++ [a; b; c; d] ∧ byte a ∧ byte b ∧ byte c ∧ byte d.
Proof.
  intros Hl Hip Hm. assert (ip = V4mappedprefix ++ drop 12 ip) as Hsp by (rewrite <- Hm; by rewrite take_drop).
  assert (length (drop 12 ip) = 4%nat) as H4 by (rewrite length_drop; lia).
  rewrite Hsp in Hip. apply Forall_app in Hip as [_ Hip].
  destruct (drop 12 ip) as [|a [|b [|c [|d [|]]]]]; try done. exists a, b, c, d.
  by apply Forall_cons in Hip as [Ha [Hb [Hc [Hd _]%Forall_cons]%Forall_cons]%Forall_cons].
Qed.

Lemma scan_fmt ip errno :
  length ip = 16%nat → Forall byte ip →
  ∃ errno', scan_ip6 (fmt_ip6 ip) errno = Ok (Z.of_nat (length (fmt_ip6 ip)), ip, errno').
Proof.
  intros Hl Hip. destruct (decide (take 12 ip = V4mappedprefix)) as [Hm|Hm].
  - destruct (mapped4_split ip Hl Hip Hm) as (a & b & c & d & -> & Ha & Hb & Hc & Hd).
    exists errno. by apply scan_mapped4.
  - destruct (groups_of ip Hl Hip) as (gs & Hgl & Hgs & ->). by apply scan_groups.
Qed.

(** The text of an address fits into 46 bytes with its terminator. *)
Lemma i2a_length x : (length (i2a x) <= 3)%nat.
Proof. unfold i2a. repeat case_match; simplify_eq; rewrite !length_app; cbn; lia. Qed.

Lemma ntoa_length ip : (length (inet_ntoa_r ip) <= 15)%nat.
Proof.
  unfold inet_ntoa_r. rewrite !length_app. cbn [length].
  pose proof (i2a_length (nth 0 ip 0)). pose proof (i2a_length (nth 1 ip 0)).
  pose proof (i2a_length (nth 2 ip 0)). pose proof (i2a_length (nth 3 ip 0)). lia.
Qed.

Lemma xlong_length g : (length (fmt_xlong g) <= 4)%nat.
Proof.
  assert (∀ d out, (length (xlong_digit d out) <= S (length out))%nat) as H.
  { intros d out. unfold xlong_digit. case_match; rewrite ?length_app; cbn; lia. }
  unfold fmt_xlong. rewrite length_app. cbn [length].
  set (x := xlong_digit _ []). set (y := xlong_digit _ x). pose proof (H (Z.land (Z.shiftr g 4) 0xf) y).
  assert (length y <= S (length x))%nat by apply H. assert (length x <= 1)%nat by apply (H _ []). lia.
Qed.

Lemma joined_length gs : (length (joined gs) <= 5 * length gs)%nat.
Proof.
  induction gs as [|g gs IH]; [done|]. cbn [joined]. pose proof (xlong_length g).
  destruct gs; rewrite length_app; cbn [length app] in *; lia.
Qed.

Lemma after_zero_length gs : (length (after_zero gs) <= 1 + 5 * length gs)%nat.
Proof.
  unfold after_zero. rewrite length_app. cbn [length]. pose proof (joined_length (drop_zeros gs)).
  destruct (drop_zeros_split gs) as [k Hk]. apply (f_equal length) in Hk. rewrite length_app in Hk. lia.
Qed.

Lemma plain_length gs : (length (plain gs) <= 5 * length gs)%nat.
Proof.
  induction gs as [|g gs IH]; [done|]. cbn [plain]. pose proof (xlong_length g). pose proof (after_zero_length gs).
  destruct (g =? 0); [cbn [length]; lia|]. destruct gs; rewrite length_app; cbn [length app] in *; lia.
Qed.

Lemma fmt_length ip : length ip = 16%nat → Forall byte ip → (length (fmt_ip6 ip) <= 45)%nat.
Proof.
  intros Hl Hip. destruct (decide (take 12 ip = V4mappedprefix)) as [Hm|Hm].
  - destruct (mapped4_split ip Hl Hip Hm) as (a & b & c & d & -> & Ha & Hb & Hc & Hd).
    assert (fmt_ip6 (V4mappedprefix ++ [a; b; c; d]) = STR "::ffff:" ++ inet_ntoa_r [a; b; c; d]) as -> by reflexivity.
    rewrite length_app. pose proof (ntoa_length [a; b; c; d]). cbn [length]. lia.
  - destruct (groups_of ip Hl Hip) as (gs & Hgl & Hgs & ->). destruct gs as [|g rest] eqn:E; [done|]. rewrite <- E in *.
    rewrite (fmt_ip6_ok _ Hgl Hgs Hm _ _ E).
    rewrite length_app, <- E. pose proof (plain_length gs). bool_case; cbn [length]; lia.
Qed.

(** C19: addresses survive the conversion to text and back: for every IPv4 and
    IPv6 address a buffer of 46 bytes is enough for [inet_ntop], and [inet_pton]
    reads from the text, also with its run of zeros cut out and with an embedded
    IPv4 address, exactly the address. *)
Theorem inet_roundtrip AF ip LEN errno :
  AF = AF_INET ∧ length ip = 4%nat ∨ AF = AF_INET6 ∧ length ip = 16%nat → Forall byte ip → 46 <= LEN →
  ∃ text errno', inet_ntop AF ip LEN = Some text ∧ inet_pton AF text errno = Ok (1, Some ip, errno').
Proof.
  intros [[-> Hl]|[-> Hl]] Hip HLEN; unfold inet_ntop, inet_pton.
  - change (AF_INET =? AF_INET) with true. cbv iota. exists (inet_ntoa_r ip).
    pose proof (ntoa_length ip). exists errno. split; [by cif|].
    destruct ip as [|a [|b [|c [|d [|]]]]]; try done.
    apply Forall_cons in Hip as [Ha [Hb [Hc [Hd _]%Forall_cons]%Forall_cons]%Forall_cons].
    by rewrite aton_ntoa.
  - change (AF_INET6 =? AF_INET) with false. change (AF_INET6 =? AF_INET6) with true. cbv iota.
    pose proof (fmt_length ip Hl Hip). destruct (scan_fmt ip errno Hl Hip) as [errno' Hs].
    exists (fmt_ip6 ip), errno'. split; [by cif|]. rewrite Hs. rewrite Nat2Z.id.
    assert (peek (fmt_ip6 ip) (length (fmt_ip6 ip)) = 0) as -> by (apply nth_overflow; lia). done.
Qed.

Lemma inet_roundtrip_witness :
  ∃ text errno', inet_ntop AF_INET6 [0x20; 1; 0; 0; 0; 0; 0; 0; 0; 0; 0; 7; 0; 0; 0xff; 1] 46 = Some text ∧
    inet_pton AF_INET6 text 0 = Ok (1, Some [0x20; 1; 0; 0; 0; 0; 0; 0; 0; 0; 0; 7; 0; 0; 0xff; 1], errno').
Proof.
  apply inet_roundtrip; [right; split; reflexivity| |discriminate].
  repeat constructor; discriminate || reflexivity.
Defined.

(** ** Every string *)

Lemma end_of_length s base errno : (length (end_of (strtoul s base errno) s) <= length s)%nat.
Proof.
  unfold end_of. destruct (endptr _) as [e|] eqn:E; cbn; [by apply strtoul_endptr in E|done].
Qed.

Lemma aton_loop_total fuel tmp i ip errno :
  (length tmp < fuel)%nat → ∃ r errno', aton_loop fuel tmp i ip errno = Ok (r, errno').
Proof.
  revert tmp i ip errno. induction fuel as [|fuel IH]; intros tmp i ip errno Hf; [lia|]. cbn [aton_loop].
  pose proof (end_of_length tmp 0 errno) as Hl. set (e := end_of _ tmp) in *. clearbody e.
  destruct (peek e 0 =? 0) eqn:E0; [by eauto|]. destruct (peek e 0 =? CH "."); [|by eauto].
  destruct (_ >? 255); [by eauto|]. apply IH. destruct e; cbn in *; [done|lia].
Qed.

Lemma inet_aton_total cp errno :
  ∃ r errno', inet_aton cp errno = Ok (r, errno') ∧ ∀ a, r = Some a → length a = 4%nat.
Proof.
  unfold inet_aton. destruct (aton_loop_total (S (length cp)) cp 24 0 errno) as (r & errno' & ->); [lia|].
  eexists _, _. split; [done|]. by destruct r as [ip|]; intros a [= <-].
Qed.

Lemma put_bytes_length ip k l : (k + length l <= length ip)%nat → length (put_bytes ip k l) = length ip.
Proof. intros H. unfold put_bytes. rewrite !length_app, length_take, length_drop. lia. Qed.

Definition part1_ok (p : part1) : Prop :=
  match p with
  | Return _ ip => length ip = 16%nat
  | Suffix _ ip k _ => length ip = 16%nat ∧ (k <= 14)%nat ∧ Nat.Even k
  end.

Lemma prefix_group_total self s ip m len errno :
  (2 * m + 2 <= 16)%nat → length ip = 16%nat →
  (∀ s ip len errno, (2 * S m < 16)%nat → length ip = 16%nat →
     ∃ p errno', self s ip (2 * S m)%nat len errno = Ok (p, errno') ∧ part1_ok p) →
  ∃ p errno', prefix_group self s ip (2 * m)%nat len errno = Ok (p, errno') ∧ part1_ok p.
Proof.
  intros Hm Hip Hself. unfold prefix_group. destruct (_ =? 0)%nat; [by eauto|].
  destruct ((2 * m =? 12)%nat && _) eqn:E.
  - destruct (inet_aton_total s (conv_errno (strtoul s 16 errno))) as ([a|] & errno' & -> & Ha); [|by eauto].
    eexists _, _. split; [done|]. unfold part1_ok. rewrite put_bytes_length; [done|]. rewrite (Ha a eq_refl). lia.
  - replace (2 * m + 2)%nat with (2 * S m)%nat by lia. destruct (Nat.eqb_spec (2 * S m) 16).
    + eexists _, _. split; [done|]. unfold part1_ok. rewrite put_bytes_length; [done|cbn; lia].
    + apply Hself; [lia|]. rewrite put_bytes_length; [done|cbn; lia].
Qed.

Lemma scan_prefix_total fuel s ip m len errno :
  (8 < fuel + m)%nat → (m < 8)%nat → length ip = 16%nat →
  ∃ p errno', scan_prefix fuel s ip (2 * m) len errno = Ok (p, errno') ∧ part1_ok p.
Proof.
  revert s ip m len errno. induction fuel as [|fuel IH]; intros s ip m len errno Hf Hm Hip; [lia|]. cbn [scan_prefix].
  destruct (_ =? CH ":"); [destruct (_ =? CH ":")|].
  - eexists _, _. split; [done|]. split_and!; [done|lia|by exists m].
  - apply prefix_group_total; [lia|done|]. intros. apply IH; [lia|lia|done].
  - apply prefix_group_total; [lia|done|]. intros. apply IH; [lia|lia|done].
Qed.

(** The room left for groups after ["::"]. *)
Lemma suffix_group_total fuel s suffix pl k len errno :
  (2 * k + 2 <= 16)%nat → pl + Z.of_nat (length suffix) = Z.of_nat (16 - 2 * S k) → 0 <= pl →
  (∀ s suffix len errno, (0 < k)%nat → pl + Z.of_nat (length suffix) = Z.of_nat (16 - 2 * k) →
     ∃ l len' errno', scan_suffix fuel s suffix pl len errno = Ok (l, len', errno') ∧ (length l <= 16)%nat) →
  (0 < fuel)%nat →
  ∃ l len' errno', suffix_group (scan_suffix fuel) s suffix pl len errno = Ok (l, len', errno') ∧ (length l <= 16)%nat.
Proof.
  intros Hk Hlen Hpl Hself Hfuel. unfold suffix_group. set (i := (length s - _)%nat).
  destruct (i =? 0)%nat; [eexists _, _, _; split; [done|lia]|].
  destruct ((u32 _ <=? 12) && _) eqn:E.
  - destruct (inet_aton_total s (conv_errno (strtol s 16 errno))) as ([a|] & errno' & -> & Ha).
    + eexists _, _, _. split; [done|]. rewrite length_app, (Ha a eq_refl). rewrite u32_id in E by lia. lia.
    + rewrite u32_id in E by lia. apply andb_true_iff in E as [E12 Hdot].
      assert (u32 (u32 (12 - Z.of_nat (length suffix)) + Z.of_nat (length (suffix ++
        [u8 (Z.shiftr (u64 (value (strtol s 16 errno))) 8); u8 (Z.land (u64 (value (strtol s 16 errno))) 255)]))) =? 16 = false) as ->.
      { rewrite length_app. cbn [length]. rewrite (u32_id (12 - _)) by lia. rewrite u32_id by lia. lia. }
      destruct fuel as [|fuel]; [lia|]. cbn [scan_suffix].
      assert (peek (drop i s) 0 = peek s i) as -> by (unfold peek; by rewrite !nth_lookup, lookup_drop, Nat.add_0_r).
      rewrite length_app. cbn [length]. replace (peek s i =? CH ":") with false by lia.
      replace (Z.of_nat (length suffix + 2) =? 0) with false by lia. cbn [negb].
      eexists _, _, _. split; [done|]. rewrite length_app. cbn [length]. lia.
  - rewrite length_app. cbn [length]. rewrite u32_id by lia. destruct (Z.eqb_spec (pl + Z.of_nat (length suffix + 2)) 16).
    + eexists _, _, _. split; [done|]. rewrite length_app. cbn [length]. lia.
    + apply Hself; [lia|]. rewrite length_app. cbn [length]. lia.
Qed.

Lemma scan_suffix_total fuel s suffix pl k len errno :
  (1 <= k <= 8)%nat → (k < fuel)%nat → 0 <= pl → pl + Z.of_nat (length suffix) = Z.of_nat (16 - 2 * k) →
  ∃ l len' errno', scan_suffix fuel s suffix pl len errno = Ok (l, len', errno') ∧ (length l <= 16)%nat.
Proof.
  revert s suffix k len errno. induction fuel as [|fuel IH]; intros s suffix k len errno Hk Hf Hpl Hlen; [lia|].
  assert (∀ s len errno, ∃ l len' errno', suffix_group (scan_suffix fuel) s suffix pl len errno = Ok (l, len', errno') ∧
    (length l <= 16)%nat) as Hgroup.
  { intros s' len' errno'. destruct k as [|k]; [lia|]. apply (suffix_group_total fuel s' suffix pl k); [lia|done|done| |lia].
    intros s'' suffix' len'' errno'' Hk0 Hlen'. by apply (IH s'' suffix' k); [lia|lia| |]. }
  cbn [scan_suffix]. destruct (_ =? CH ":"); [destruct (_ =? 0)|destruct (negb _)];
    try apply Hgroup; eexists _, _, _; split; done || lia.
Qed.

(** C20: [inet_pton] returns for every string: its loops end, a value too large, a
    missing digit or a dotted part in the wrong place is an error and not an
    access out of bounds, and what it stores has the size of the address. *)
Theorem inet_pton_total AF CP errno :
  ∃ r buf errno', inet_pton AF CP errno = Ok (r, buf, errno') ∧ r ∈ [-1; 0; 1] ∧
    ∀ l, buf = Some l → length l = if AF =? AF_INET then 4%nat else 16%nat.
Proof.
  unfold inet_pton. destruct (AF =? AF_INET) eqn:E4.
  { destruct (inet_aton_total CP errno) as ([a|] & errno' & -> & Ha).
    - exists 1, (Some a), errno'. split_and!; [done|set_solver|]. intros l [= <-]. by apply Ha.
    - exists 0, None, errno'. split_and!; [done|set_solver|done]. }
  destruct (AF =? AF_INET6); [|exists (-1), None, EAFNOSUPPORT; split_and!; [done|set_solver|done]].
  assert (∃ len ip errno', scan_ip6 CP errno = Ok (len, ip, errno') ∧ length ip = 16%nat) as (len & ip & errno' & -> & Hip).
  { unfold scan_ip6. destruct (scan_prefix_total 9 CP (replicate 16 0) 0 0 errno) as (p & errno1 & Hp & Hok); [lia|lia|done|].
    change (2 * 0)%nat with 0%nat in Hp. rewrite Hp. destruct p as [s ip k len|len ip]; [|by eauto].
    destruct Hok as (Hip & Hk & m & Hm).
    destruct (scan_suffix_total 9 s [] (Z.of_nat k) (8 - m)%nat len errno1) as (l & len' & errno2 & -> & Hl);
      [lia|lia|lia|cbn [length]; lia|].
    eexists _, _, _. split; [done|]. rewrite put_bytes_length; [done|lia]. }
  destruct (_ && _); [exists 0|exists 1]; exists (Some ip), errno'; (split_and!; [done|set_solver|]); by intros l [= <-].
Qed.

(** What the scanners accept: an empty string (also as an IPv6 address), the last
    component of an IPv4 address when it is over 255, an earlier one when it is
    negative as a [long], and groups over 65535. *)
Lemma inet_lenient :
  inet_aton [] 0 = Ok (Some [0; 0; 0; 0], EINVAL) ∧
  inet_aton (STR "1.2.3.300") 0 = Ok (Some [1; 2; 3; 44], 0) ∧
  inet_aton (STR "18446744073709551615.2.3.4") 0 = Ok (Some [255; 2; 3; 4], 0) ∧
  inet_pton AF_INET6 [] 0 = Ok (1, Some (replicate 16 0), EINVAL) ∧
  inet_pton AF_INET6 (STR "12345::") 0 = Ok (1, Some (0x23 :: 0x45 :: replicate 14 0), EINVAL).
Proof. vm_compute. auto. Qed.
