(* ===== verification/Dns.v ===== *)
(** * Domain names in DNS packets

    [__dns_decodename] of [libcruft/dnscruft.c], [dn_expand.c], [dn_skipname.c]
    and [res_mkquery.c].  The packet and the decoded name are in memory; the
    bounds are pointers, as in the code.  [res_mkquery] builds its packet in a
    local array, here the list of its bytes. *)

From S2P Require Import Prelude Mem.

(** ** [__dns_decodename] *)

(** [for (duh=*tmp; duh>0; --duh) *dest++=*++tmp;] *)
Fixpoint copy_label (duh : nat) (dest tmp : Z) : M unit :=
  match duh with
  | O => mret tt
  | S duh => b ← load (tmp + 1); _ ← store dest b; copy_label duh (dest + 1) (tmp + 1)
  end.

(** The variables of the loop. *)
Record dec : Type := mk_dec { d_tmp : Z; d_after : Z; d_dest : Z; d_offset : Z; d_ok : bool }.

(** One round; [None] for [return -1], and the variables when the loop ends. *)
Definition decode_body (packet max maxlen behindpacket : Z) : dec → M (step dec (option dec)) :=
  λ '(mk_dec tmp after dest offset ok),
    if maxlen =? 0 then mret (Done (Some (mk_dec tmp after dest offset ok))) else
    c ← load tmp;
    if c =? 0 then mret (Done (Some (mk_dec tmp after dest offset ok))) else
    if tmp >=? behindpacket then mret (Done None) else
    if Z.shiftr c 6 =? 3 then
      c1 ← load (tmp + 1);
      let ofs := Z.lor (Z.shiftl (Z.land c 0x3f) 8) c1 in
      if ofs >=? offset then mret (Done None) else
      let after := if after <? tmp + 2 then tmp + 2 else after in
      mret (Next (mk_dec (packet + ofs) after dest ofs false))
    else if Z.shiftr c 6 =? 0 then
      if dest + c + 1 >? max then mret (Done None) else
      if tmp + c + 1 >=? behindpacket then mret (Done None) else
      _ ← copy_label (Z.to_nat c) dest tmp;
      _ ← store (dest + c) (CH ".");
      let dest := dest + c + 1 in
      let tmp := tmp + c + 1 in
      after ← (if tmp >? after then b ← load tmp; mret (if b =? 0 then tmp + 1 else tmp) else mret after);
      mret (Next (mk_dec tmp after dest offset true))
    else mret (Done None).

(** Every round lowers [offset] or writes to [dest]. *)
Definition __dns_decodename (packet offset dest maxlen behindpacket : Z) : M Z :=
  let max := dest + maxlen in
  let after := packet + offset in
  r ← loop (S (Z.to_nat (offset + maxlen))) (decode_body packet max maxlen behindpacket)
        (mk_dec after after dest offset false);
  match r with
  | None => mret (-1)
  | Some d =>
      let dest := if d_ok d then d_dest d - 1 else d_dest d in
      _ ← store dest 0;
      mret (d_after d - packet)
  end.

Definition dn_expand (msg eomorig comp_dn exp_dn length : Z) : M Z :=
  r ← __dns_decodename msg (comp_dn - msg) exp_dn length eomorig;
  mret (r - (comp_dn - msg)).

Definition dn_skipname (cur eom : Z) : M Z :=
  let orig := cur in
  loop (S (Z.to_nat (eom - cur))) (λ cur,
    if cur <? eom then
      c ← load cur;
      if Z.land c 0xc =? 0xc then mret (Done (if cur + 1 <? eom then cur - orig + 2 else -1))
      else if c =? 0 then mret (Done (cur - orig + 1))
      else if cur + c + 1 <? eom then mret (Next (cur + c + 1)) else mret (Done (-1))
    else mret (Done (-1))) cur.

(** ** [res_mkquery] *)

Definition dnspacket : list Z := [0xfe; 0xfe; 1; 0; 0; 1; 0; 0; 0; 0; 0; 0].

(** [while ( *y=='.') ++y;] and [for (tmp=y; *tmp && *tmp!='.'; ++tmp) ;]: the
    label, and the string from [tmp] on. *)
Fixpoint skip_dots (y : list Z) : list Z :=
  match y with c :: r => if c =? CH "." then skip_dots r else y | [] => [] end.
Fixpoint split_label (y : list Z) : list Z * list Z :=
  match y with
  | [] => ([], [])
  | c :: r => if c =? CH "." then ([], y) else let '(l, t) := split_label r in (c :: l, t)
  end.

(** The loop over the labels: [x] is the bytes from [packet+12] on, up to and with
    the zero byte that ends the name; [None] for [return -1].  For an empty name
    the byte at [*x] has never been written. *)
Fixpoint encode_name (fuel : nat) (y x : list Z) (len : Z) : outcome (option (list Z)) :=
  match fuel with
  | O => Hang
  | S fuel =>
      match y with
      | [] => Fault
      | _ =>
          let '(l, tmp) := split_label (skip_dots y) in
          let n := Z.of_nat (length l) in
          if n >? 63 then Ok None else
          if n =? 0 then Ok (Some (x ++ [0])) else
          let len := len + n + 1 in
          if len >? 254 then Ok None else
          let x := x ++ n :: l in
          match tmp with
          | [] => Ok (Some (x ++ [0]))
          | _ => encode_name fuel tmp x len
          end
      end
  end.

(** The packet that is copied to [buf], or [None] for -1; [rnd] is the result of
    [rand()] and [recurse] the flag of [_res.options]. *)
Definition res_mkquery (rnd : Z) (recurse : bool) (op : Z) (dname : list Z) (class type buflen : Z) : outcome (option (list Z)) :=
  let flags := Z.lor (if recurse then 1 else 0) (u8 (Z.shiftl (Z.land op 7) 3)) in
  let header := [u8 rnd; u8 (Z.shiftr rnd 8); flags] ++ drop 3 dnspacket in
  match encode_name (S (length dname)) dname [] 0 with
  | Ok (Some x) =>
      let packet := header ++ x ++ [0; u8 type; 0; u8 class] in
      if Z.of_nat (length packet) >? buflen then Ok None else Ok (Some packet)
  | Ok None => Ok None
  | Fault => Fault
  | Hang => Hang
  end.

Example res_mkquery_1 :
  res_mkquery 0x1234 true 0 (STR "www.fefe.de") 1 28 512 =
  Ok (Some ([0x34; 0x12; 1; 0; 0; 1; 0; 0; 0; 0; 0; 0; 3] ++ STR "www" ++ [4] ++ STR "fefe" ++ [2] ++ STR "de" ++ [0; 0; 28; 0; 1])).
Proof. vm_compute. reflexivity. Qed.
