(* ===== verification/DnsFacts.v ===== *)
(** * Names survive, and the decoder stays within its bounds

    A relation says which labels are at a place of a packet, with compression.
    [__dns_decodename] yields them joined by dots, whatever the packet it reads
    at most one byte behind it and writes at most one byte behind [dest], and
    [res_mkquery] and the decoder invert each other. *)

From S2P Require Import Prelude Mem Dns.

(** ** Labels in a packet *)

(** Where a name ends that has been read up to [after] before, when a label ends
    at [tmp]: behind the zero byte if there is one. *)
Definition step_after (w : world) (after tmp : Z) : Z :=
  if tmp >? after then if bool_decide (mem w !! tmp = Some 0) then tmp + 1 else tmp else after.

(** [labels_at off tmp ok0 after0 ls ok after]: with pointers to offsets below
    [off] only, the labels [ls] are at [tmp].  [ok0] says that a label has been
    read since the last pointer, [ok] that one has when the name ends; [after0]
    and [after] are the ends of what has been read. *)
Inductive labels_at (w : world) (packet behind : Z) : Z → Z → bool → Z → list (list Z) → bool → Z → Prop :=
| labels_end off tmp ok after : mem w !! tmp = Some 0 → labels_at w packet behind off tmp ok after [] ok after
| labels_cons off tmp ok0 after0 l ls ok after :
    1 <= Z.of_nat (length l) <= 63 → tmp + Z.of_nat (length l) + 1 < behind →
    bytes_at w tmp (Z.of_nat (length l) :: l) → Forall byte l →
    labels_at w packet behind off (tmp + Z.of_nat (length l) + 1) true
      (step_after w after0 (tmp + Z.of_nat (length l) + 1)) ls ok after →
    labels_at w packet behind off tmp ok0 after0 (l :: ls) ok after
| labels_pointer off tmp ok0 after0 c1 c2 ls ok after :
    tmp < behind → bytes_at w tmp [c1; c2] → 192 <= c1 < 256 → byte c2 → (c1 - 192) * 256 + c2 < off →
    labels_at w packet behind ((c1 - 192) * 256 + c2) (packet + ((c1 - 192) * 256 + c2)) false
      (Z.max after0 (tmp + 2)) ls ok after →
    labels_at w packet behind off tmp ok0 after0 ls ok after.

(** The labels with a dot after each. *)
Definition dotted (ls : list (list Z)) : list Z := ls ≫= λ l, l ++ [CH "."].

Lemma copy_label_ok l dest tmp w :
  bytes_at w (tmp + 1) l → Forall byte l → mapped w dest (Z.of_nat (length l)) →
  disjoint dest (Z.of_nat (length l)) (tmp + 1) (Z.of_nat (length l)) →
  copy_label (length l) dest tmp w = Ok (tt, write_bytes dest l w).
Proof.
  revert dest tmp w. induction l as [|b l IH]; intros dest tmp w Hl Hb Hm Hd; [done|]. cbn [length copy_label write_bytes].
  apply bytes_at_cons in Hl as [H0 Hl]. inversion Hb; subst.
  rewrite (bind_Ok _ _ _ _ _ (load_ok _ _ _ H0)). cbn [length] in *.
  rewrite (bind_Ok _ _ _ _ _ (store_mapped _ _ _ _ Hm ltac:(lia))). rewrite u8_id by done.
  apply (IH (dest + 1) (tmp + 1) (write_bytes dest [b] w)); [| |apply write_bytes_mapped; eapply mapped_sub; [exact Hm|lia..]|].
  - apply write_bytes_bytes_at_ne; [done|]. unfold disjoint in *. cbn [length]. lia.
  - done.
  - unfold disjoint in *. lia.
Qed.

(** ** Safety *)

(** Only [dest] and the [n] bytes after it have been written. *)
Definition only_wrote (dest n : Z) (w w' : world) : Prop :=
  (∀ a, a < dest ∨ dest + n < a → mem w' !! a = mem w !! a) ∧ (∀ q m, mapped w q m → mapped w' q m) ∧
  errno w' = errno w.

Lemma only_wrote_refl dest n w : only_wrote dest n w w.
Proof. by split. Qed.
Lemma only_wrote_trans dest n w1 w2 w3 : only_wrote dest n w1 w2 → only_wrote dest n w2 w3 → only_wrote dest n w1 w3.
Proof. intros (H1 & H2 & H3) (H4 & H5 & H6). split_and!; [|by auto|congruence]. intros a Ha. rewrite H4, H1; done. Qed.
Lemma only_wrote_write dest n w p l :
  dest <= p → p + Z.of_nat (length l) <= dest + n + 1 → only_wrote dest n w (write_bytes p l w).
Proof.
  intros Hp Hl. split_and!; [|intros; by apply write_bytes_mapped|by rewrite errno_write_bytes].
  intros a Ha. apply write_bytes_lookup_ne. lia.
Qed.

(** Every byte of memory is one. *)
Definition bytes_mem (w : world) : Prop := ∀ a b, mem w !! a = Some b → byte b.

Lemma bytes_mem_store w p v : bytes_mem w → bytes_mem (write_bytes p [u8 v] w).
Proof.
  intros Hw a b. cbn. unfold set_mem. cbn. destruct (decide (p = a)) as [->|Hne].
  - rewrite lookup_insert_eq. intros [= <-]. apply u8_byte.
  - rewrite lookup_insert_ne by done. apply Hw.
Qed.

Section safe.
Context (packet size dest0 maxlen : Z) (w0 : world).
Context (Hsize : 0 <= size) (Hmax : 0 <= maxlen).
Context (Hpacket : mapped w0 packet (size + 1)) (Hdest : mapped w0 dest0 (maxlen + 1)).

Definition safe_world (w : world) : Prop := only_wrote dest0 maxlen w0 w ∧ bytes_mem w.

Lemma safe_load w a : safe_world w → packet <= a <= packet + size → ∃ b, load a w = Ok (b, w) ∧ byte b.
Proof.
  intros [(_ & Hm & _) Hw] Ha. destruct (Hm _ _ Hpacket a) as [b Hb]; [lia|]. exists b.
  split; [by apply load_ok|by eapply Hw].
Qed.

Lemma safe_store w a v : safe_world w → dest0 <= a <= dest0 + maxlen →
  ∃ w', store a v w = Ok (tt, w') ∧ safe_world w'.
Proof.
  intros [Ho Hw] Ha. destruct Ho as (H1 & Hm & H3) eqn:E. exists (write_bytes a [u8 v] w). split.
  - apply store_ok. apply (Hm _ _ Hdest). lia.
  - split; [|by apply bytes_mem_store]. eapply only_wrote_trans; [exact Ho|]. apply only_wrote_write; cbn; lia.
Qed.

Lemma safe_copy n dest tmp w :
  safe_world w → dest0 <= dest → dest + Z.of_nat n <= dest0 + maxlen → packet <= tmp → tmp + Z.of_nat n <= packet + size →
  ∃ w', copy_label n dest tmp w = Ok (tt, w') ∧ safe_world w'.
Proof.
  revert dest tmp w. induction n as [|n IH]; intros dest tmp w Hw Hd Hdn Ht Htn; [by exists w|]. cbn [copy_label].
  destruct (safe_load w (tmp + 1) Hw) as (b & Hb & _); [lia|]. rewrite (bind_Ok _ _ _ _ _ Hb).
  destruct (safe_store w dest b Hw) as (w' & Hs & Hw'); [lia|]. rewrite (bind_Ok _ _ _ _ _ Hs).
  apply IH; done || lia.
Qed.

(** The variables of the loop stay within their ranges. *)
Definition safe_dec (d : dec) : Prop :=
  packet <= d_tmp d <= packet + size ∧ dest0 <= d_dest d <= dest0 + maxlen ∧ 0 <= d_offset d ∧
  packet <= d_after d <= packet + size + 1 ∧ packet + d_offset d <= packet + size ∧ (d_ok d = true → dest0 < d_dest d).

Lemma decode_body_safe d w :
  safe_world w → safe_dec d →
  let r := decode_body packet (dest0 + maxlen) maxlen (packet + size) d w in
  r = Ok (Done None, w) ∨ r = Ok (Done (Some d), w) ∨
  ∃ d' w', r = Ok (Next d', w') ∧ safe_world w' ∧ safe_dec d' ∧
    d_offset d' + (dest0 + maxlen - d_dest d') < d_offset d + (dest0 + maxlen - d_dest d).
Proof.
  intros Hw (Ht & Hd & Hoff & Ha & Hofs & Hok). destruct d as [tmp after dest offset ok]. cbn in *. unfold decode_body.
  destruct (Z.eqb_spec maxlen 0); [by right; left|].
  destruct (safe_load w tmp Hw ltac:(lia)) as (c & Hc & Hcb). rewrite (bind_Ok _ _ _ _ _ Hc).
  destruct (Z.eqb_spec c 0); [by right; left|]. destruct (Z.geb_spec tmp (packet + size)); [by left|].
  assert (Z.shiftr c 6 = c / 64) as -> by (by rewrite Z.shiftr_div_pow2). unfold byte in Hcb.
  destruct (Z.eqb_spec (c / 64) 3) as [H3|_].
  { destruct (safe_load w (tmp + 1) Hw ltac:(lia)) as (c1 & Hc1 & Hc1b). rewrite (bind_Ok _ _ _ _ _ Hc1). cbv zeta.
    set (ofs := Z.lor _ c1). assert (0 <= ofs) as Hofs0.
    { unfold ofs, byte in *. apply Z.lor_nonneg. split; [|lia]. apply Z.shiftl_nonneg, Z.land_nonneg. lia. }
    destruct (Z.geb_spec ofs offset); [by left|]. right; right.
    eexists _, w. split; [reflexivity|]. split; [done|]. unfold safe_dec. cbn. split; [split_and!; repeat bool_case; done || lia|lia]. }
  destruct (Z.eqb_spec (c / 64) 0) as [H0|_]; [|by left].
  destruct (Z.gtb_spec (dest + c + 1) (dest0 + maxlen)); [by left|].
  destruct (Z.geb_spec (tmp + c + 1) (packet + size)); [by left|]. right; right.
  destruct (safe_copy (Z.to_nat c) dest tmp w Hw) as (w1 & Hcopy & Hw1); [lia..|]. rewrite (bind_Ok _ _ _ _ _ Hcopy).
  destruct (safe_store w1 (dest + c) (CH ".") Hw1) as (w2 & Hst & Hw2); [lia|]. rewrite (bind_Ok _ _ _ _ _ Hst). cbv zeta.
  destruct (safe_load w2 (tmp + c + 1) Hw2) as (b & Hb & _); [lia|].
  assert (∃ after', (if tmp + c + 1 >? after then b ← load (tmp + c + 1); mret (if b =? 0 then tmp + c + 1 + 1 else tmp + c + 1)
    else mret after : M Z) w2 = Ok (after', w2) ∧ packet <= after' <= packet + size + 1) as (after' & Hafter & Hra).
  { destruct (_ >? after); [rewrite (bind_Ok _ _ _ _ _ Hb)|]; eexists; split; try reflexivity; [bool_case|]; lia. }
  rewrite (bind_Ok _ _ _ _ _ Hafter). eexists _, w2. split; [reflexivity|]. split; [done|]. unfold safe_dec. cbn.
  split; [split_and!; lia|lia].
Qed.
End safe.


Definition decode_world (packet : list Z) : world :=
  write_bytes 1000 (packet ++ [0]) (write_bytes 100 (replicate 9 0) (World ∅ 0)).


(** ** The names it decodes *)

Lemma dotted_cons l ls : dotted (l :: ls) = l ++ CH "." :: dotted ls.
Proof. unfold dotted. cbn. by rewrite <- app_assoc. Qed.

Lemma bytes_at_other w p l q k :
  disjoint p (Z.of_nat (length l)) q (Z.of_nat (length k)) → bytes_at w q k → bytes_at (write_bytes p l w) q k.
Proof. intros. by apply write_bytes_bytes_at_ne. Qed.

Section decode.
Context (packet size dest0 maxlen : Z) (w0 : world).
Context (Hdisj : disjoint packet (size + 1) dest0 (maxlen + 1)).
Context (Hdest : mapped w0 dest0 (maxlen + 1)).

(** The packet while [text] has been written to [dest]. *)
Lemma packet_lookup text a b :
  Z.of_nat (length text) <= maxlen + 1 → packet <= a <= packet + size → mem w0 !! a = Some b →
  mem (write_bytes dest0 text w0) !! a = Some b.
Proof. intros Ht Ha Hb. rewrite write_bytes_lookup_ne; [done|]. unfold disjoint in Hdisj. lia. Qed.

Lemma decode_loop off tmp ok0 after0 ls ok after : labels_at w0 packet (packet + size) off tmp ok0 after0 ls ok after →
  (∀ a, packet <= a <= packet + size → is_Some (mem w0 !! a)) →
  ∀ text fuel,
  packet <= tmp <= packet + size → 0 <= off <= size →
  Z.of_nat (length text + length (dotted ls)) <= maxlen → 0 < maxlen →
  off + maxlen - Z.of_nat (length text) < Z.of_nat fuel →
  ∃ tmp' off', loop fuel (decode_body packet (dest0 + maxlen) maxlen (packet + size))
    (mk_dec tmp after0 (dest0 + Z.of_nat (length text)) off ok0) (write_bytes dest0 text w0) =
  Ok (Some (mk_dec tmp' after (dest0 + Z.of_nat (length (text ++ dotted ls))) off' ok), write_bytes dest0 (text ++ dotted ls) w0).
Proof.
  intros Hlab Hpk. induction Hlab as [off tmp ok after H0|off tmp ok0 after0 l ls ok after Hl Hb Hat Hbyte _ IH
    |off tmp ok0 after0 c1 c2 ls ok after Ht Hat Hc1 Hc2 Hoff _ IH];
    intros text fuel Htmp Hoffs Hroom Hmax Hf; (destruct fuel as [|fuel]; [lia|]).
  - exists tmp, off. rewrite app_nil_r. apply loop_Done. unfold decode_body. cif.
    rewrite (bind_Ok _ _ _ _ _ (load_ok _ _ _ (packet_lookup text tmp 0 ltac:(lia) Htmp H0))). done.
  - rewrite dotted_cons in *. rewrite length_app in Hroom. cbn [length] in Hroom.
    apply bytes_at_cons in Hat as [H0 Hat]. set (n := Z.of_nat (length l)) in *.
    destruct (IH (text ++ l ++ [CH "."]) fuel) as (tmp' & off' & Hrun);
      [lia|done|rewrite !length_app; cbn; lia|done|rewrite !length_app; cbn; lia|].
    exists tmp', off'. rewrite <- !app_assoc in Hrun. cbn [app] in Hrun. rewrite <- Hrun. clear Hrun IH.
    apply loop_Next. unfold decode_body. cif.
    rewrite (bind_Ok _ _ _ _ _ (load_ok _ _ _ (packet_lookup text tmp n ltac:(lia) Htmp H0))).
    assert (Z.shiftr n 6 = 0) as -> by (rewrite Z.shiftr_div_pow2 by lia; apply Z.div_small; lia).
    replace (n =? 0) with false by lia. replace (tmp >=? packet + size) with false by lia.
    change (0 =? 3) with false. change (0 =? 0) with true. cbv iota. do 2 cif.
    replace (Z.to_nat n) with (length l) by lia.
    rewrite (bind_Ok (copy_label _ _ _) _ _ tt (write_bytes dest0 (text ++ l) w0)).
    2: { rewrite write_bytes_app. apply copy_label_ok; [|done| |unfold disjoint in *; lia].
      - apply bytes_at_other; [unfold disjoint in *; lia|done].
      - apply write_bytes_mapped. eapply mapped_sub; [exact Hdest|lia|lia]. }
    rewrite (bind_Ok (store _ _) _ _ tt (write_bytes dest0 (text ++ l ++ [CH "."]) w0)).
    2: { rewrite app_assoc, (write_bytes_app _ (text ++ l)), length_app, Nat2Z.inj_add, Z.add_assoc.
      apply store_ok, write_bytes_mapped with (n := maxlen + 1) (q := dest0); [done|lia]. }
    cbv zeta. unfold step_after. destruct (Z.gtb_spec (tmp + n + 1) after0) as [Hgt|Hle].
    + destruct (Hpk (tmp + n + 1)) as [b Hb']; [lia|].
      rewrite (bind_Ok _ _ _ (if b =? 0 then tmp + n + 1 + 1 else tmp + n + 1) (write_bytes dest0 (text ++ l ++ [CH "."]) w0)).
      2: { rewrite (bind_Ok _ _ _ _ _ (load_ok _ _ _ (packet_lookup (text ++ l ++ [CH "."]) (tmp + n + 1) b
             ltac:(rewrite !length_app; cbn; lia) ltac:(lia) Hb'))). done. }
      rewrite Hb'. assert (bool_decide (Some b = Some 0) = (b =? 0)) as ->.
      { destruct (Z.eqb_spec b 0) as [->|]; [by apply bool_decide_true|apply bool_decide_false; congruence]. }
      unfold mret, CM_ret. do 4 f_equal. rewrite !length_app. cbn. lia.
    + rewrite (bind_Ok _ _ _ after0 (write_bytes dest0 (text ++ l ++ [CH "."]) w0)) by done.
      unfold mret, CM_ret. do 4 f_equal. rewrite !length_app. cbn. lia.
  - set (ofs := (c1 - 192) * 256 + c2) in *. apply bytes_at_cons in Hat as [H0 Hat]. apply bytes_at_cons in Hat as [H1 _].
    unfold byte in Hc2. destruct (IH text fuel) as (tmp' & off' & Hrun); [unfold ofs in *; lia|unfold ofs; lia|done|done|lia|].
    exists tmp', off'. rewrite <- Hrun. clear Hrun IH. apply loop_Next. unfold decode_body. cif.
    rewrite (bind_Ok _ _ _ _ _ (load_ok _ _ _ (packet_lookup text tmp c1 ltac:(lia) Htmp H0))).
    replace (c1 =? 0) with false by lia. replace (tmp >=? packet + size) with false by lia.
    assert (Z.shiftr c1 6 = 3) as -> by (rewrite Z.shiftr_div_pow2 by lia; Z.div_mod_to_equations; lia).
    change (3 =? 3) with true. cbv iota.
    rewrite (bind_Ok _ _ _ _ _ (load_ok _ _ _ (packet_lookup text (tmp + 1) c2 ltac:(lia) ltac:(lia) H1))).
    assert (Z.lor (Z.shiftl (Z.land c1 63) 8) c2 = ofs) as ->.
    { rewrite (Z.land_ones _ 6), Z.shiftl_mul_pow2 by lia. change (2 ^ 6) with 64.
      replace (c1 mod 64) with (c1 - 192) by (Z.div_mod_to_equations; lia). apply lor_add; lia. }
    cbv zeta. cif. unfold mret, CM_ret. do 4 f_equal. bool_case; lia.
Qed.
End decode.

(** The name that is left in [dest]: the last dot is cut off when the name ends in
    a label. *)
Definition name_of (ls : list (list Z)) (ok : bool) : list Z :=
  if ok then take (length (dotted ls) - 1) (dotted ls) else dotted ls.

Lemma labels_ok w packet behind off tmp after0 ls ok after :
  labels_at w packet behind off tmp false after0 ls ok after → ok = true → dotted ls ≠ [].
Proof.
  remember false as ok0 eqn:E. intros H. revert E.
  induction H as [| |off tmp ok0 after0 c1 c2 ls ok after _ _ _ _ _ _ IH]; intros E Hok; [congruence| |by apply IH].
  rewrite dotted_cons. by destruct l.
Qed.

Lemma decode_ok packet offset size dest maxlen w ls ok after :
  labels_at w packet (packet + size) offset (packet + offset) false (packet + offset) ls ok after →
  0 <= offset <= size → mapped w packet (size + 1) → mapped w dest (maxlen + 1) →
  disjoint packet (size + 1) dest (maxlen + 1) → Z.of_nat (length (dotted ls)) <= maxlen → 0 < maxlen →
  __dns_decodename packet offset dest maxlen (packet + size) w =
    Ok (after - packet, write_bytes dest (name_of ls ok ++ [0]) (if ok then write_bytes dest (dotted ls) w else w)).
Proof.
  intros Hlab Hoff Hp Hd Hdisj Hroom Hmax. unfold __dns_decodename.
  destruct (decode_loop packet size dest maxlen w Hdisj Hd _ _ _ _ _ _ _ Hlab ltac:(intros a Ha; apply Hp; lia)
    [] (S (Z.to_nat (offset + maxlen)))) as (tmp' & off' & Hrun); [lia|lia|cbn; lia|done|cbn; lia|].
  cbn [app length write_bytes] in Hrun. rewrite Z.add_0_r in Hrun. rewrite (bind_Ok _ _ _ _ _ Hrun). cbv zeta. cbn [d_ok d_dest d_after].
  unfold name_of. destruct ok.
  - pose proof (labels_ok _ _ _ _ _ _ _ _ _ Hlab eq_refl) as Hne. destruct (dotted ls) as [|b t] eqn:E; [done|]. rewrite <- E in *.
    assert (1 <= length (dotted ls))%nat as H1 by (rewrite E; cbn; lia).
    rewrite (bind_Ok (store _ _) _ _ tt (write_bytes dest (take (length (dotted ls) - 1) (dotted ls) ++ [0]) (write_bytes dest (dotted ls) w))); [done|].
    rewrite write_bytes_app, (write_bytes_id _ dest (take _ _)).
    + rewrite length_take, Nat.min_l by lia.
      replace (dest + Z.of_nat (length (dotted ls)) - 1) with (dest + Z.of_nat (length (dotted ls) - 1)) by lia.
      apply store_ok, write_bytes_mapped with (n := maxlen + 1) (q := dest); [done|lia].
    + pose proof (write_bytes_at dest (dotted ls) w) as Hat. rewrite <- (take_drop (length (dotted ls) - 1) (dotted ls)) in Hat at 2.
      by apply bytes_at_app in Hat as [? _].
  - rewrite (bind_Ok (store _ _) _ _ tt (write_bytes dest (dotted ls ++ [0]) w)); [done|].
    rewrite write_bytes_app. apply store_ok, write_bytes_mapped with (n := maxlen + 1) (q := dest); [done|lia].
Qed.

(** C27: the decoder follows the pointers of a compressed name: it yields the labels
    the packet has for the name, joined by dots, returns where the name ends in
    the packet, and needs no more room than the labels with a dot after each. *)
Theorem decodename_correct packet offset size dest maxlen w ls ok after :
  labels_at w packet (packet + size) offset (packet + offset) false (packet + offset) ls ok after →
  0 <= offset <= size → mapped w packet (size + 1) → mapped w dest (maxlen + 1) →
  disjoint packet (size + 1) dest (maxlen + 1) → Z.of_nat (length (dotted ls)) <= maxlen → 0 < maxlen →
  ∃ w', __dns_decodename packet offset dest maxlen (packet + size) w = Ok (after - packet, w') ∧
    bytes_at w' dest (name_of ls ok ++ [0]) ∧ only_wrote dest maxlen w w'.
Proof.
  intros Hlab Hoff Hp Hd Hdisj Hroom Hmax. eexists. split; [by apply (decode_ok _ _ _ _ _ _ _ _ _ Hlab)|].
  assert (Z.of_nat (length (name_of ls ok)) <= maxlen) by (unfold name_of; destruct ok; rewrite ?length_take; lia).
  split; [apply write_bytes_at|].
  eapply only_wrote_trans; [|apply only_wrote_write; rewrite ?length_app; cbn [length]; lia].
  destruct ok; [apply only_wrote_write; lia|apply only_wrote_refl].
Qed.

(** A packet with "fefe.de" at 0 and a name "www" with a pointer to it. *)
Definition compressed : list Z :=
  [4] ++ STR "fefe" ++ [2] ++ STR "de" ++ [0; 3] ++ STR "www" ++ [0xc0; 0; 0; 0].

Definition name_world : world := write_bytes 1000 compressed (write_bytes 100 (replicate 17 0) (World ∅ 0)).

Lemma decodename_correct_witness :
  ∃ w', __dns_decodename 1000 9 100 16 (1000 + 16) name_world = Ok (1015 - 1000, w') ∧
    bytes_at w' 100 (STR "www.fefe.de" ++ [0]) ∧ only_wrote 100 16 name_world w'.
Proof.
  assert (∀ i b, compressed !! i = Some b → mem name_world !! (1000 + Z.of_nat i) = Some b) as Hat by apply write_bytes_at.
  assert (∀ off l, l = take (length l) (drop off compressed) → bytes_at name_world (1000 + Z.of_nat off) l) as Hpart.
  { intros off l Hl i b Hi. rewrite Hl in Hi. apply lookup_take_Some in Hi as [Hi _]. rewrite lookup_drop in Hi.
    replace (1000 + Z.of_nat off + Z.of_nat i) with (1000 + Z.of_nat (off + i)) by lia. by apply Hat. }
  apply (decodename_correct 1000 9 16 100 16 name_world [STR "www"; STR "fefe"; STR "de"] true 1015).
  - apply labels_cons; [cbn; lia|cbn; lia|by apply (Hpart 9%nat)|repeat constructor; unfold byte; lia|].
    apply (labels_pointer _ _ _ _ _ _ _ 0xc0 0); [cbn; lia|by apply (Hpart 13%nat)|lia|unfold byte; lia|cbn; lia|].
    apply labels_cons; [cbn; lia|cbn; lia|by apply (Hpart 0%nat)|repeat constructor; unfold byte; lia|].
    apply labels_cons; [cbn; lia|cbn; lia|by apply (Hpart 5%nat)|repeat constructor; unfold byte; lia|].
    assert (mem name_world !! 1008 = Some 0) as H8 by (by apply (Hat 8%nat)).
    replace (step_after _ _ _) with 1015; [by apply labels_end|].
    unfold step_after. cbn [length]. change (1000 + 9 + Z.of_nat 3 + 1) with 1013. vm_compute. reflexivity.
  - lia.
  - apply (bytes_at_mapped _ _ compressed). apply write_bytes_at.
  - apply write_bytes_mapped. apply (bytes_at_mapped _ _ (replicate 17 0)). apply write_bytes_at.
  - right. lia.
  - cbn. lia.
  - lia.
Defined.

(** ** Queries *)

(** A name on the wire, without the zero byte that ends it. *)
Definition wire (ls : list (list Z)) : list Z := ls ≫= λ l, Z.of_nat (length l) :: l.

(** A label that can be written in a name. *)
Definition good_label (l : list Z) : Prop := (1 <= length l <= 63)%nat ∧ Forall (λ c, byte c ∧ c ≠ CH ".") l.

Definition dots_before (ls : list (list Z)) : list Z := ls ≫= λ l, CH "." :: l.

Lemma name_of_cons l ls : name_of (l :: ls) true = l ++ dots_before ls.
Proof.
  unfold name_of. enough (dotted (l :: ls) = (l ++ dots_before ls) ++ [CH "."]) as ->.
  { rewrite length_app. cbn [length]. rewrite Nat.add_sub. by rewrite take_app_length. }
  revert l. induction ls as [|k ls IH]; intros l; rewrite dotted_cons.
  - unfold dots_before. cbn [mbind list_bind]. by rewrite app_nil_r.
  - rewrite IH. unfold dots_before. cbn [mbind list_bind]. by rewrite <- !app_assoc.
Qed.

Lemma split_label_ok l r : good_label l → r = [] ∨ head r = Some (CH ".") → split_label (l ++ r) = (l, r).
Proof.
  intros [_ Hl] Hr. induction Hl as [|c l [_ Hc] Hl IH].
  - destruct Hr as [->|Hr]; [done|]. destruct r as [|c r]; [done|]. cbn in *. simplify_eq. done.
  - cbn [app split_label]. destruct (Z.eqb_spec c (CH ".")); [done|]. by rewrite IH.
Qed.

Lemma skip_dots_label l r : good_label l → skip_dots (l ++ r) = l ++ r.
Proof.
  intros [Hn Hl]. destruct Hl as [|c l [_ Hc] _]; [cbn in Hn; lia|]. cbn [app skip_dots]. by destruct (Z.eqb_spec c (CH ".")).
Qed.

(** The loop on a rest of the name that is not empty. *)
Lemma encode_name_ok ls : ∀ fuel y x len l,
  (length ls < fuel)%nat → Forall good_label (l :: ls) → y ≠ [] → skip_dots y = l ++ dots_before ls →
  len + Z.of_nat (length (wire (l :: ls))) <= 254 →
  encode_name fuel y x len = Ok (Some (x ++ wire (l :: ls) ++ [0])).
Proof.
  induction ls as [|k ls IH]; intros fuel y x len l Hf Hg Hy Hs Hlen; (destruct fuel as [|fuel]; [lia|]); cbn [encode_name];
    (destruct y as [|c y]; [done|]); rewrite Hs; inversion Hg as [|? ? Hl Hg']; subst;
    (rewrite split_label_ok; [|done|first [left; done|right; done]]); destruct Hl as [Hl1 Hl2];
    cbn [wire mbind list_bind app length] in *; rewrite ?length_app in Hlen; cbn [length] in Hlen; do 3 cif.
  - by rewrite <- app_assoc, app_nil_r.
  - cbn [dots_before mbind list_bind]. cbn [app]. change (CH "." :: k ++ dots_before ls) with (CH "." :: (k ++ dots_before ls)).
    rewrite (IH fuel _ _ _ k); [|cbn in *; lia|done|done| |cbn [wire mbind list_bind app length] in *; rewrite ?length_app in *; cbn [length] in *; lia].
    + f_equal. f_equal. cbn [wire mbind list_bind app]. rewrite <- ?app_assoc. cbn [app]. by rewrite <- ?app_assoc.
    + inversion Hg'; subst. cbn [skip_dots]. rewrite Z.eqb_refl. by apply skip_dots_label.
Qed.

Lemma wire_cons l ls : wire (l :: ls) = (Z.of_nat (length l) :: l) ++ wire ls.
Proof. done. Qed.
Lemma wire_length l ls : Z.of_nat (length (wire (l :: ls))) = Z.of_nat (length l) + 1 + Z.of_nat (length (wire ls)).
Proof. rewrite wire_cons, length_app. cbn [length]. lia. Qed.

Lemma labels_wire w packet behind off ls : ∀ l tmp ok0 after0,
  Forall good_label (l :: ls) → bytes_at w tmp (wire (l :: ls) ++ [0]) →
  tmp + Z.of_nat (length (wire (l :: ls))) + 1 <= behind → after0 <= tmp →
  labels_at w packet behind off tmp ok0 after0 (l :: ls) true (tmp + Z.of_nat (length (wire (l :: ls))) + 1).
Proof.
  induction ls as [|k ls IH]; intros l tmp ok0 after0 Hg Hat Hlen Ha; inversion Hg as [|? ? [Hl1 Hl2] Hg']; subst;
    rewrite wire_length in *; rewrite wire_cons, <- app_assoc in Hat;
    apply bytes_at_app in Hat as [Hl Hr]; cbn [length] in Hr;
    replace (tmp + Z.of_nat (S (length l))) with (tmp + Z.of_nat (length l) + 1) in Hr by lia;
    (apply labels_cons; [lia|try rewrite wire_length in Hlen; lia|done|by eapply Forall_impl; [exact Hl2|intros ? []]|]);
    assert (∀ b r, bytes_at w (tmp + Z.of_nat (length l) + 1) (b :: r) → mem w !! (tmp + Z.of_nat (length l) + 1) = Some b) as Hhd
      by (intros b r Hb; by apply bytes_at_cons in Hb as [? _]).
  - apply Hhd in Hr. unfold step_after. rewrite bool_decide_eq_true_2 by done. cif.
    rewrite Z.add_assoc. rewrite Z.add_0_r, Z.add_assoc. by apply labels_end.
  - inversion Hg' as [|? ? [Hk1 _] _]; subst. pose proof (Hhd _ _ Hr) as H0.
    unfold step_after. rewrite H0, bool_decide_eq_false_2 by (intros [=]; lia). cif. rewrite !Z.add_assoc.
    apply IH; [done|done|lia|lia].
Qed.

(** C26: a query carries the name it is about: for every name of labels of 1 to 63
    bytes that fits, [res_mkquery] makes a packet with one question, whose name
    [__dns_decodename] decodes, wherever the packet is, to the name asked for. *)
Theorem query_roundtrip ls rnd recurse op class type buflen :
  ls ≠ [] → Forall good_label ls → Z.of_nat (length (wire ls)) <= 254 → Z.of_nat (length (wire ls)) + 17 <= buflen →
  ∃ packet, res_mkquery rnd recurse op (name_of ls true) class type buflen = Ok (Some packet) ∧
    take 2 packet = [u8 rnd; u8 (Z.shiftr rnd 8)] ∧
    drop (length (wire ls) + 13) packet = [0; u8 type; 0; u8 class] ∧
    ∀ w p dest maxlen, bytes_at w p (packet ++ [0]) → mapped w dest (maxlen + 1) →
      disjoint p (Z.of_nat (length packet) + 1) dest (maxlen + 1) → Z.of_nat (length (wire ls)) <= maxlen →
      ∃ w', __dns_decodename p 12 dest maxlen (p + Z.of_nat (length packet)) w =
          Ok (Z.of_nat (length (wire ls)) + 13, w') ∧
        bytes_at w' dest (name_of ls true ++ [0]) ∧ only_wrote dest maxlen w w'.
Proof.
  intros Hne Hg Hlen Hbuf. destruct ls as [|l ls]; [done|]. clear Hne. unfold res_mkquery.
  assert (good_label l) as Hl by (by inversion Hg).
  assert (length ls < S (length (name_of (l :: ls) true)))%nat as Hfuel.
  { rewrite name_of_cons, length_app. enough (length ls <= length (dots_before ls))%nat by lia.
    clear. induction ls as [|k ls IH]; [done|].
    change (dots_before (k :: ls)) with ((CH "." :: k) ++ dots_before ls). rewrite length_app. cbn [length]. lia. }
  rewrite (encode_name_ok ls _ _ [] 0 l); [|done|done| | |lia].
  2: { rewrite name_of_cons. destruct Hl as [Hl _]. destruct l; [cbn in Hl; lia|done]. }
  2: { rewrite name_of_cons. by apply skip_dots_label. }
  cbv zeta. set (hd := [u8 rnd; u8 (Z.shiftr rnd 8); _] ++ drop 3 dnspacket). set (packet := hd ++ _).
  assert (length hd = 12%nat) as Hhd by done.
  assert (length packet = length (wire (l :: ls)) + 17)%nat as Hpl.
  { unfold packet. rewrite !length_app. cbn [length]. lia. }
  replace (Z.of_nat (length packet) >? buflen) with false by lia. exists packet. split; [done|]. split; [done|]. split.
  { unfold packet. rewrite app_assoc, drop_app_length'; [done|]. rewrite !length_app. cbn [length]. lia. }
  intros w p dest maxlen Hat Hd Hdisj Hmax. pose proof (bytes_at_mapped _ _ _ Hat) as Hp.
  rewrite length_app, Nat2Z.inj_add in Hp. cbn [length] in Hp. change (Z.of_nat 1) with 1 in Hp.
  assert (bytes_at w (p + 12) (wire (l :: ls) ++ [0])) as Hw.
  { unfold packet in Hat. rewrite <- app_assoc in Hat. apply bytes_at_app in Hat as [_ Hat]. rewrite Hhd in Hat.
    cbn [app] in Hat. rewrite <- app_assoc in Hat. by apply bytes_at_app in Hat as [? _]. }
  pose proof (labels_wire w p (p + Z.of_nat (length packet)) 12 ls l (p + 12) false (p + 12) Hg Hw ltac:(lia) ltac:(lia)) as Hlab.
  assert (length (dotted (l :: ls)) = length (wire (l :: ls))) as Hdl.
  { clear. generalize (l :: ls). intros k. induction k as [|l' k IH]; [done|].
    rewrite dotted_cons, wire_cons, !length_app. cbn [length]. lia. }
  rewrite (decode_ok _ _ _ _ _ _ _ _ _ Hlab); [|lia|done|done|done|lia|unfold wire; rewrite wire_length in *; lia].
  eexists. split; [do 2 f_equal; lia|]. split; [apply write_bytes_at|].
  eapply only_wrote_trans; [apply only_wrote_write with (p := dest)|apply only_wrote_write]; rewrite ?length_app; cbn [length];
    unfold name_of; rewrite ?length_take; lia.
Qed.

Lemma query_roundtrip_witness :
  ∃ packet, res_mkquery 7 true 0 (STR "www.fefe.de") 1 28 512 = Ok (Some packet) ∧
    take 2 packet = [u8 7; u8 (Z.shiftr 7 8)] ∧ drop 25 packet = [0; u8 28; 0; u8 1] ∧
    ∀ w p dest maxlen, bytes_at w p (packet ++ [0]) → mapped w dest (maxlen + 1) →
      disjoint p (Z.of_nat (length packet) + 1) dest (maxlen + 1) → 12 <= maxlen →
      ∃ w', __dns_decodename p 12 dest maxlen (p + Z.of_nat (length packet)) w = Ok (25, w') ∧
        bytes_at w' dest (STR "www.fefe.de" ++ [0]) ∧ only_wrote dest maxlen w w'.
Proof.
  apply (query_roundtrip [STR "www"; STR "fefe"; STR "de"]); [done| |vm_compute; discriminate|vm_compute; discriminate].
  repeat constructor; unfold byte; cbn; lia || discriminate.
Defined.

(** ** What goes wrong *)

(** A name that fills [dest] and ends in a pointer to a zero byte is terminated one
    byte behind [dest]; [dn_skipname] takes a label of 12 bytes for a pointer;
    the empty name makes [res_mkquery] read a byte it has not written. *)
Lemma dns_flaws :
  (∃ w', __dns_decodename 1000 1 100 2 (1000 + 5) (decode_world [0; 1; CH "a"; 0xc0; 0]) = Ok (5, w') ∧
    mem w' !! 102 = Some 0) ∧
  (∃ w', dn_skipname 1000 1013 (decode_world (12 :: STR "twelve-bytes" ++ [0])) = Ok (2, w')) ∧
  (∀ rnd recurse op class type buflen, res_mkquery rnd recurse op [] class type buflen = Fault).
Proof. split_and!; [eexists; split; vm_compute; reflexivity|eexists; vm_compute; reflexivity|done]. Qed.
