(* ===== verification/Siphash.v ===== *)
(** * SipHash-2-4

    [lib/siphash24.c], on the list of the message's bytes, and its equality with
    the definition of the paper: the message is padded with zero bytes and the
    low byte of its length to a sequence of little-endian words, and every word is
    absorbed the same way. *)

From S2P Require Import Prelude Mem.

Definition ROTL64 (a b : Z) : Z := Z.lor (u64 (Z.shiftl a b)) (Z.shiftr a (64 - b)).

(** The variables [v0] to [v3]. *)
Record sip : Type := mk_sip { v0 : Z; v1 : Z; v2 : Z; v3 : Z }.

Definition U8TO64_LE (m : list Z) (i : nat) : Z := le_combine (take 8 (drop i m)).

Definition sipcompress (v : sip) : sip :=
  let '(mk_sip v0 v1 v2 v3) := v in
  let v0 := u64 (v0 + v1) in let v2 := u64 (v2 + v3) in
  let v1 := ROTL64 v1 13 in let v3 := ROTL64 v3 16 in
  let v1 := Z.lxor v1 v0 in let v3 := Z.lxor v3 v2 in
  let v0 := ROTL64 v0 32 in
  let v2 := u64 (v2 + v1) in let v0 := u64 (v0 + v3) in
  let v1 := ROTL64 v1 17 in let v3 := ROTL64 v3 21 in
  let v1 := Z.lxor v1 v2 in let v3 := Z.lxor v3 v0 in
  let v2 := ROTL64 v2 32 in
  mk_sip v0 v1 v2 v3.

(** [v3 ^= mi], two rounds, [v0 ^= mi]. *)
Definition absorb (v : sip) (mi : Z) : sip :=
  let v := mk_sip (v0 v) (v1 v) (v2 v) (Z.lxor (v3 v) mi) in
  let v := sipcompress (sipcompress v) in
  mk_sip (Z.lxor (v0 v) mi) (v1 v) (v2 v) (v3 v).

(** The loop over the blocks. *)
Fixpoint sip_blocks (fuel : nat) (m : list Z) (blocks i : nat) (v : sip) : option (nat * sip) :=
  match fuel with
  | O => None
  | S fuel => if (i <? blocks)%nat then sip_blocks fuel m blocks (i + 8) (absorb v (U8TO64_LE m i)) else Some (i, v)
  end.

(** The [switch], every case of which falls through: [last7 |= m[i + n] << 8 * n]
    for the cases from [len - blocks] down. *)
Fixpoint sip_last (cases : nat) (m : list Z) (i : nat) (last7 : Z) : Z :=
  match cases with
  | O => last7
  | S n => sip_last n m i (Z.lor last7 (Z.shiftl (nth (i + n) m 0) (8 * Z.of_nat n)))
  end.

Definition sip_init (key : list Z) : sip :=
  let k0 := U8TO64_LE key 0 in
  let k1 := U8TO64_LE key 8 in
  mk_sip (Z.lxor k0 0x736f6d6570736575) (Z.lxor k1 0x646f72616e646f6d)
    (Z.lxor k0 0x6c7967656e657261) (Z.lxor k1 0x7465646279746573).

(** After the last word. *)
Definition sip_finish (v : sip) : Z :=
  let v := mk_sip (v0 v) (v1 v) (Z.lxor (v2 v) 0xff) (v3 v) in
  let v := sipcompress (sipcompress (sipcompress (sipcompress v))) in
  Z.lxor (Z.lxor (Z.lxor (v0 v) (v1 v)) (v2 v)) (v3 v).

Definition siphash24 (key m : list Z) : option Z :=
  let len := length m in
  let last7 := Z.shiftl (Z.land (Z.of_nat len) 0xff) 56 in
  let blocks := (len - len mod 8)%nat in
  '(i, v) ← sip_blocks (S len) m blocks 0 (sip_init key);
  Some (sip_finish (absorb v (sip_last (len - blocks) m i last7))).

(** The first test vectors of the reference implementation. *)
Example siphash24_vectors :
  let key := seqZ 0 16 in
  siphash24 key [] = Some 0x726fdb47dd0e0e31 ∧ siphash24 key (seqZ 0 8) = Some 0x93f5f5799a932462 ∧
  siphash24 key (seqZ 0 15) = Some 0xa129ca6149be45e5.
Proof. vm_compute. auto. Qed.

(** ** The definition *)

Fixpoint words_of (n : nat) (l : list Z) : list Z :=
  match n with O => [] | S n => le_combine (take 8 l) :: words_of n (drop 8 l) end.

(** The message with its padding. *)
Definition padded (m : list Z) : list Z := m ++ replicate (7 - length m mod 8) 0 ++ [Z.of_nat (length m) mod 256].

Definition siphash_2_4 (key m : list Z) : Z :=
  sip_finish (foldl absorb (sip_init key) (words_of (S (length m / 8)) (padded m))).

Lemma words_of_app n k l : words_of (n + k) l = words_of n l ++ words_of k (drop (8 * n) l).
Proof.
  revert l. induction n as [|n IH]; intros l; [done|]. cbn [Nat.add words_of app]. f_equal.
  rewrite IH, drop_drop. do 3 f_equal. lia.
Qed.

Lemma words_of_prefix n l r : (8 * n <= length l)%nat → words_of n (l ++ r) = words_of n l.
Proof.
  revert l. induction n as [|n IH]; intros l Hl; [done|]. cbn [words_of]. rewrite take_app_le by lia. f_equal.
  rewrite drop_app_le by lia. apply IH. rewrite length_drop. lia.
Qed.

Lemma sip_blocks_ok m n k fuel v :
  (8 * k + 8 * n <= length m)%nat → (n < fuel)%nat →
  sip_blocks fuel m (8 * (k + n)) (8 * k) v = Some ((8 * (k + n))%nat, foldl absorb v (words_of n (drop (8 * k) m))).
Proof.
  revert k fuel v. induction n as [|n IH]; intros k fuel v Hm Hf; (destruct fuel as [|fuel]; [lia|]); cbn [sip_blocks].
  - rewrite Nat.add_0_r, (proj2 (Nat.ltb_ge _ _)) by lia. done.
  - rewrite (proj2 (Nat.ltb_lt _ _)) by lia. replace (8 * k + 8)%nat with (8 * S k)%nat by lia.
    replace (k + S n)%nat with (S k + n)%nat by lia. rewrite IH by lia. cbn [words_of foldl]. rewrite drop_drop.
    by replace (8 * k + 8)%nat with (8 * S k)%nat by lia.
Qed.

(** The remaining bytes, or-ed into the word of the length, are its low bytes. *)
Lemma sip_last_ok m i n x :
  (n <= length (drop i m))%nat → Forall byte m →
  sip_last n m i (x * 2 ^ (8 * Z.of_nat n)) = x * 2 ^ (8 * Z.of_nat n) + le_combine (take n (drop i m)).
Proof.
  revert x. induction n as [|n IH]; intros x Hn Hb; [symmetry; apply Z.add_0_r|]. cbn [sip_last].
  destruct (lookup_lt_is_Some_2 (drop i m) n) as [b Eb]; [lia|]. rewrite (take_S_r _ _ _ Eb), le_combine_app.
  rewrite length_take, Nat.min_l by lia. rewrite lookup_drop in Eb.
  rewrite (nth_lookup_Some m _ 0 b Eb).
  assert (byte b) as Hbb by (eapply Forall_lookup_1; done). unfold byte in Hbb.
  replace (8 * Z.of_nat (S n)) with (8 + 8 * Z.of_nat n) by lia. rewrite Z.pow_add_r, Z.mul_assoc by lia.
  rewrite <- (Z.shiftl_mul_pow2 (x * 2 ^ 8)), <- Z.shiftl_lor, lor_add, Z.shiftl_mul_pow2, IH by (done || lia).
  rewrite Z.shiftl_mul_pow2, pow_256 by lia. cbn [le_combine]. lia.
Qed.

Lemma words_of_length n l : length (words_of n l) = n.
Proof. revert l. induction n as [|n IH]; intros l; [done|]. cbn. by rewrite IH. Qed.

Lemma siphash24_spec key m : Forall byte m → siphash24 key m = Some (siphash_2_4 key m).
Proof.
  intros Hb. unfold siphash24, siphash_2_4. set (n := (length m / 8)%nat).
  pose proof (Nat.div_mod_eq (length m) 8) as Hdiv. fold n in Hdiv. pose proof (Nat.mod_upper_bound (length m) 8 ltac:(lia)) as Hmod.
  set (r := (length m mod 8)%nat) in *. replace (length m - r)%nat with (8 * (0 + n))%nat by lia.
  rewrite (sip_blocks_ok m n 0) by lia. cbn [option_bind mbind]. rewrite Nat.mul_0_r, drop_0, Nat.add_0_l.
  replace (length m - 8 * n)%nat with r by lia. replace (S n) with (n + 1)%nat by lia.
  rewrite words_of_app, foldl_app. unfold padded at 1. rewrite words_of_prefix by lia. do 2 f_equal. cbn [words_of foldl]. f_equal.
  set (rest := drop (8 * n) m). assert (length rest = r) as Hr by (unfold rest; rewrite length_drop; lia).
  assert (drop (8 * n) (padded m) = rest ++ replicate (7 - r) 0 ++ [Z.of_nat (length m) mod 256]) as ->.
  { unfold padded. rewrite drop_app_le by lia. done. }
  rewrite take_ge by (rewrite !length_app, length_replicate; cbn [length]; lia).
  rewrite !le_combine_app, length_replicate, Hr. change 0xff with (Z.ones 8). rewrite Z.land_ones, Z.shiftl_mul_pow2 by lia.
  replace 56 with (8 * Z.of_nat (7 - r) + 8 * Z.of_nat r) by lia. rewrite Z.pow_add_r, Z.mul_assoc by lia.
  rewrite sip_last_ok by (fold rest; lia || done). fold rest. rewrite take_ge by lia.
  assert (le_combine (replicate (7 - r) 0) = 0) as -> by (clear; induction (7 - r)%nat as [|k IH]; [done|cbn; lia]).
  rewrite !pow_256. cbn [le_combine]. change (2 ^ 8) with 256. lia.
Qed.

(** The variables stay 64-bit words. *)
Definition word64 (x : Z) : Prop := 0 <= x < 2 ^ 64.
Definition sip_words (v : sip) : Prop := word64 (v0 v) ∧ word64 (v1 v) ∧ word64 (v2 v) ∧ word64 (v3 v).

Lemma word64_u64 x : word64 (u64 x).
Proof. unfold word64. rewrite u64_mod. apply Z.mod_pos_bound. lia. Qed.

Lemma word64_ones x : word64 x ↔ Z.land x (Z.ones 64) = x.
Proof. unfold word64. rewrite Z.land_ones by lia. rewrite Z.mod_small_iff by lia. lia. Qed.

Lemma word64_lxor a b : word64 a → word64 b → word64 (Z.lxor a b).
Proof.
  rewrite !word64_ones. intros Ha Hb. rewrite <- Ha, <- Hb at 2. apply Z.bits_inj'. intros i _.
  rewrite !Z.land_spec, !Z.lxor_spec, !Z.land_spec. btauto.
Qed.

Lemma word64_ROTL64 a b : word64 a → 0 <= b <= 64 → word64 (ROTL64 a b).
Proof.
  intros Ha Hb. unfold ROTL64. assert (word64 (Z.shiftr a (64 - b))) as Hs.
  { unfold word64 in *. rewrite Z.shiftr_div_pow2 by lia. pose proof (Z.pow_pos_nonneg 2 (64 - b) ltac:(lia) ltac:(lia)).
    split; [apply Z.div_pos; lia|]. apply Z.div_lt_upper_bound; nia. }
  pose proof (word64_u64 (Z.shiftl a b)) as Hu. rewrite word64_ones in *. rewrite <- Hu, <- Hs at 2.
  apply Z.bits_inj'. intros i _. rewrite !Z.land_spec, !Z.lor_spec, !Z.land_spec. btauto.
Qed.

#[local] Hint Resolve word64_u64 word64_lxor word64_ROTL64 : core.

Lemma sipcompress_words v : sip_words v → sip_words (sipcompress v).
Proof.
  destruct v as [a b c d]. intros (Ha & Hb & Hc & Hd). cbn [v0 v1 v2 v3] in *. unfold sip_words. cbn [sipcompress v0 v1 v2 v3].
  split_and!; repeat first [apply word64_lxor|apply word64_u64|apply word64_ROTL64]; done || lia.
Qed.

Lemma sip_absorb_words v w : word64 w → sip_words v → sip_words (absorb v w).
Proof.
  intros Hw (? & ? & ? & ?). unfold absorb. set (v' := sipcompress _).
  assert (sip_words v') as (? & ? & ? & ?) by (do 2 apply sipcompress_words; split_and!; cbn [v0 v1 v2 v3]; auto).
  split_and!; cbn [v0 v1 v2 v3]; auto.
Qed.

Lemma sip_finish_word v : sip_words v → word64 (sip_finish v).
Proof.
  intros (? & ? & ? & ?). unfold sip_finish. set (v' := sipcompress (sipcompress _)).
  assert (sip_words v') as (? & ? & ? & ?); [|auto].
  do 4 apply sipcompress_words. split_and!; cbn [v0 v1 v2 v3]; auto. apply word64_lxor; [done|unfold word64; lia].
Qed.

Lemma le_combine_word l : Forall byte l → word64 (le_combine (take 8 l)).
Proof.
  intros Hl. pose proof (le_combine_range (take 8 l) ltac:(by apply Forall_take)) as Hr. unfold word64.
  enough (256 ^ Z.of_nat (length (take 8 l)) <= 256 ^ 8) by lia. apply Z.pow_le_mono_r; [lia|]. rewrite length_take. lia.
Qed.

Lemma words_of_words n l : Forall byte l → Forall word64 (words_of n l).
Proof.
  revert l. induction n as [|n IH]; intros l Hl; [constructor|]. cbn [words_of].
  constructor; [by apply le_combine_word|]. apply IH. by apply Forall_drop.
Qed.

Lemma padded_bytes m : Forall byte m → Forall byte (padded m).
Proof.
  intros Hm. unfold padded. rewrite !Forall_app. split_and!; [done|apply Forall_replicate; unfold byte; lia|].
  constructor; [|constructor]. unfold byte. apply Z.mod_pos_bound. lia.
Qed.

Lemma siphash_2_4_word key m : Forall byte key → Forall byte m → word64 (siphash_2_4 key m).
Proof.
  intros Hk Hm. apply sip_finish_word. pose proof (words_of_words (S (length m / 8)) _ (padded_bytes _ Hm)) as Hw.
  assert (sip_words (sip_init key)) as Hv.
  { assert (∀ i, word64 (U8TO64_LE key i)) by (intros; apply le_combine_word; by apply Forall_drop).
    unfold sip_init, sip_words. cbn [v0 v1 v2 v3]. split_and!; apply word64_lxor; try done; unfold word64; lia. }
  revert Hv. generalize (sip_init key). induction Hw as [|w ws Hw _ IH]; intros v Hv; [done|]. cbn [foldl].
  apply IH. by apply sip_absorb_words.
Qed.

(** C29: [siphash24] computes SipHash-2-4: for every message its loop ends, the
    blocks with the last word it assembles in a [switch] are the words of the
    padded message, and the result is a 64-bit number. *)
Theorem siphash24_correct key m : Forall byte key → Forall byte m →
  siphash24 key m = Some (siphash_2_4 key m) ∧ 0 <= siphash_2_4 key m < 2 ^ 64.
Proof. intros Hk Hm. split; [by apply siphash24_spec|by apply siphash_2_4_word]. Qed.

Lemma siphash24_correct_witness : siphash24 (seqZ 0 16) (STR "key") = Some (siphash_2_4 (seqZ 0 16) (STR "key")) ∧
  0 <= siphash_2_4 (seqZ 0 16) (STR "key") < 2 ^ 64.
Proof. apply siphash24_correct; repeat constructor; unfold byte; lia. Defined.
