(* ===== verification/Hsearch.v ===== *)
(** * Hash tables

    [lib/hsearch_r.c], [hcreate_r.c], [hdestroy_r.c] and [hcreate.c] over the hash
    function of [siphash24.c]: an array of chains of buckets that are linked in
    memory.  Buckets are a store from addresses; a [struct bucket**] is a place
    that holds a pointer, an element of the array or a [next] field.  The results
    of [malloc] and [calloc] are arguments.  A key is its string (two keys compare
    equal exactly when they are the same string, [StrcmpFacts]). *)

From S2P Require Import Prelude Mem Siphash.

Record ENTRY : Type := mk_entry { e_key : list Z; e_data : Z }.
Inductive ACTION : Type := FIND | ENTER.
Record bucket : Type := mk_bucket { bnext : Z; be : ENTRY; bhv : Z }.

(** [struct hsearch_data], the buckets in memory, what has been passed to [free]
    ([None] for a table) and [errno]. *)
Record hstate : Type := mk_h {
  table : list Z; hsize : nat; filled : Z; hkey : list Z;
  heap : gmap Z bucket; hfreed : list (option Z); herrno : Z
}.

Definition ESRCH : Z := 3.
Definition primes : list Z :=
  [67; 127; 257; 521; 1031; 2053; 4099; 8191; 16381; 32771; 65537; 131071; 262147; 524287; 1048583; 2097143].

Definition set_table (t : list Z) (n : nat) (s : hstate) : hstate :=
  mk_h t n (filled s) (hkey s) (heap s) (hfreed s) (herrno s).
Definition set_filled (n : Z) (s : hstate) : hstate := mk_h (table s) (hsize s) n (hkey s) (heap s) (hfreed s) (herrno s).
Definition set_heap (h : gmap Z bucket) (s : hstate) : hstate :=
  mk_h (table s) (hsize s) (filled s) (hkey s) h (hfreed s) (herrno s).
Definition set_herrno (e : Z) (s : hstate) : hstate := mk_h (table s) (hsize s) (filled s) (hkey s) (heap s) (hfreed s) e.
Definition add_freed (p : option Z) (s : hstate) : hstate :=
  mk_h (table s) (hsize s) (filled s) (hkey s) (heap s) (hfreed s ++ [p]) (herrno s).

Abbreviation H := (CM hstate).
Definition modify (f : hstate → hstate) : H unit := λ s, Ok (tt, f s).
Definition reads {A} (f : hstate → A) : H A := λ s, Ok (f s, s).

Definition get_bucket (p : Z) : H bucket := λ s, match heap s !! p with Some b => Ok (b, s) | None => Fault end.

(** ** Places *)

Inductive place : Type := Slot (i : nat) | Next_of (p : Z).

Definition read_place (l : place) : H Z :=
  match l with
  | Slot i => λ s, match table s !! i with Some p => Ok (p, s) | None => Fault end
  | Next_of p => b ← get_bucket p; mret (bnext b)
  end.
Definition set_next (q : Z) (b : bucket) : bucket := mk_bucket q (be b) (bhv b).
Definition write_place (l : place) (q : Z) : H unit :=
  match l with
  | Slot i => λ s, if (i <? length (table s))%nat then Ok (tt, set_table (<[i := q]> (table s)) (hsize s) s) else Fault
  | Next_of p => b ← get_bucket p; modify (λ s, set_heap (<[p := set_next q b]> (heap s)) s)
  end.

(** [hv % size]; a remainder by 0 is a fault. *)
Definition slot_of (hv : Z) (size : nat) : H nat :=
  if (size =? 0)%nat then fault else mret (Z.to_nat (hv mod Z.of_nat size)).

(** The loops over a chain have a round for every bucket there is. *)
Definition walk {A} (body : place → H (step place A)) (l : place) : H A := λ s,
  loop (S (size (heap s))) body l s.

(** [while ( *b) { if (...) return 1; b=&( *b)->next; }]: the bucket that has been
    found, or the place of the null pointer. *)
Definition find_body (hv : Z) (key : list Z) (b : place) : H (step place (Z + place)) :=
  p ← read_place b;
  if p =? 0 then mret (Done (inr b)) else
  c ← get_bucket p;
  if (bhv c =? hv) && bool_decide (e_key (be c) = key) then mret (Done (inl p))
  else mret (Next (Next_of p)).

(** [while ( *b) b=&( *b)->next;] *)
Definition end_body (b : place) : H (step place place) :=
  p ← read_place b; if p =? 0 then mret (Done b) else mret (Next (Next_of p)).

(** ** Resizing *)

(** One bucket; the state is [B] and the new table. *)
Definition rehash_body (i : nat) : Z * list Z → H (step (Z * list Z) (list Z)) := λ '(B, n),
  if B =? 0 then mret (Done n) else
  c ← get_bucket B;
  m ← slot_of (bhv c) i;
  match n !! m with
  | None => fault
  | Some first =>
      _ ← modify (λ s, set_heap (<[B := set_next first c]> (heap s)) s);
      mret (Next (bnext c, <[m := B]> n))
  end.
Definition rehash_chain (i : nat) (B : Z) (n : list Z) : H (list Z) := λ s,
  loop (S (size (heap s))) (rehash_body i) (B, n) s.
Fixpoint rehash (i : nat) (old n : list Z) : H (list Z) :=
  match old with
  | [] => mret n
  | B :: old => n ← rehash_chain i B n; rehash i old n
  end.

(** [for (i=0; i<nprimes; ++i) if (htab->size < primes[i]) break;] and [primes[i]] *)
Definition next_prime (size : nat) : H nat :=
  match list_find (λ p, Z.of_nat size < p) primes with Some (_, p) => mret (Z.to_nat p) | None => fault end.

(** [table_alloc]: whether [calloc] succeeds.  The place at the end of the chain. *)
Definition resize (table_alloc : bool) (hv : Z) (b : place) : H place :=
  size ← reads hsize;
  n ← reads filled;
  if (Z.of_nat size <? List.last primes 0) && (n + 1 >? Z.of_nat size) then
    i ← next_prime size;
    if table_alloc then
      old ← reads table;
      n ← rehash i old (replicate i 0);
      _ ← modify (add_freed None);
      _ ← modify (set_table n i);
      m ← slot_of hv i;
      walk end_body (Slot m)
    else mret b
  else mret b.

(** ** The operations *)

Definition hash_key (key : list Z) : H Z := λ s,
  match siphash24 (hkey s) key with Some hv => Ok (hv, s) | None => Hang end.

(** The result and [*retval] when it is set; [bucket_alloc] is what [malloc]
    returns. *)
Definition hsearch_r (table_alloc : bool) (bucket_alloc : Z) (item : ENTRY) (action : ACTION) : H (Z * option Z) :=
  hv ← hash_key (e_key item);
  size ← reads hsize;
  m ← slot_of hv size;
  r ← walk (find_body hv (e_key item)) (Slot m);
  match r, action with
  | inl p, _ => mret (1, Some p)
  | inr _, FIND => _ ← modify (set_herrno ESRCH); mret (0, None)
  | inr b, ENTER =>
      b ← resize table_alloc hv b;
      _ ← write_place b bucket_alloc;
      if bucket_alloc =? 0 then mret (0, None) else
      n ← reads filled;
      _ ← modify (set_filled (n + 1));
      _ ← modify (λ s, set_heap (<[bucket_alloc := mk_bucket 0 item hv]> (heap s)) s);
      mret (1, Some bucket_alloc)
  end.

(** [random] is the key: 16 bytes of [AT_RANDOM] or [getrandom]. *)
Definition hcreate_r (table_alloc : bool) (random : list Z) (count : nat) : H Z :=
  _ ← modify (λ s, set_filled 0 (set_table (if table_alloc then replicate count 0 else []) count s));
  if table_alloc then
    _ ← modify (λ s, mk_h (table s) (hsize s) (filled s) random (heap s) (hfreed s) (herrno s)); mret 1
  else mret 0.

Definition free_bucket (p : Z) : H unit := modify (λ s, add_freed (Some p) (set_heap (delete p (heap s)) s)).
Definition freelist_body (b : Z) : H (step Z unit) :=
  if b =? 0 then mret (Done tt) else
  c ← get_bucket b; _ ← free_bucket b; mret (Next (bnext c)).
Definition freelist (b : Z) : H unit := λ s, loop (S (size (heap s))) freelist_body b s.
Fixpoint destroy (n i : nat) : H unit :=
  match n with
  | O => mret tt
  | S n =>
      p ← read_place (Slot i);
      _ ← freelist p;
      _ ← write_place (Slot i) 0;
      destroy n (S i)
  end.
Definition hdestroy_r : H unit := n ← reads hsize; destroy n 0.

(** The functions without [_r] use one static table. *)
Definition hcreate := hcreate_r.
Definition hdestroy := hdestroy_r.
Definition hsearch (table_alloc : bool) (bucket_alloc : Z) (item : ENTRY) (action : ACTION) : H Z :=
  r ← hsearch_r table_alloc bucket_alloc item action;
  mret (match r with (0, _) => 0 | (_, Some p) => p | (_, None) => 0 end).

Definition hempty : hstate := mk_h [] 0 0 [] ∅ [] 0.
