(* ===== verification/HsearchFacts.v ===== *)
(** * A hash table is a map

    The chains of a table, the map it represents, and the refinement of the map by
    [hcreate_r], [hsearch_r] (with its resizing) and [hdestroy_r]. *)

From S2P Require Import Prelude Mem Siphash Hsearch.

(** ** Chains *)

Fixpoint chain (h : gmap Z bucket) (p : Z) (cs : list Z) : Prop :=
  match cs with
  | [] => p = 0
  | q :: cs => p = q ∧ q ≠ 0 ∧ ∃ b, h !! q = Some b ∧ chain h (bnext b) cs
  end.

Lemma chain_frame h q b p cs : q ∉ cs → chain h p cs → chain (<[q:=b]> h) p cs.
Proof.
  revert p. induction cs as [|r cs IH]; intros p Hq; [done|]. apply not_elem_of_cons in Hq as [Hne Hq].
  intros (-> & Hr & c & Hc & Hch). split_and!; [done|done|]. exists c. rewrite lookup_insert_ne by done. auto.
Qed.

Lemma chain_mapped h p cs q : chain h p cs → q ∈ cs → q ≠ 0 ∧ is_Some (h !! q).
Proof.
  revert p. induction cs as [|r cs IH]; intros p; [by intros _ ?%not_elem_of_nil|].
  intros (-> & Hr & c & Hc & Hch) [->|Hq]%elem_of_cons; [by eauto|by eapply IH].
Qed.

Lemma chain_length h p cs : chain h p cs → NoDup cs → (length cs <= size h)%nat.
Proof.
  intros Hc Hnd. rewrite <- (size_list_to_set (C := gset Z) cs Hnd), <- (size_dom (D := gset Z)).
  apply subseteq_size. intros q Hq%elem_of_list_to_set. apply elem_of_dom. by eapply chain_mapped in Hq as [_ ?].
Qed.

(** The place of the null pointer at the end of a chain. *)
Definition end_place (l : place) (cs : list Z) : place :=
  match last cs with None => l | Some q => Next_of q end.

Definition points (s : hstate) (l : place) (p : Z) : Prop := read_place l s = Ok (p, s).

Lemma get_bucket_ok s q b : heap s !! q = Some b → get_bucket q s = Ok (b, s).
Proof. intros Hq. unfold get_bucket. by rewrite Hq. Qed.

Lemma points_next s q b : heap s !! q = Some b → points s (Next_of q) (bnext b).
Proof. intros Hq. unfold points, read_place. by rewrite (bind_Ok _ _ _ _ _ (get_bucket_ok _ _ _ Hq)). Qed.

Lemma end_place_cons l q cs : end_place l (q :: cs) = end_place (Next_of q) cs.
Proof. unfold end_place. destruct cs as [|r cs]; [done|]. rewrite last_cons_cons. destruct (last (r :: cs)) eqn:E; [done|]. by apply last_None in E. Qed.

Lemma end_body_loop s cs : ∀ l p fuel, points s l p → chain (heap s) p cs → (length cs < fuel)%nat →
  loop fuel end_body l s = Ok (end_place l cs, s).
Proof.
  induction cs as [|q cs IH]; intros l p fuel Hl Hc Hf; (destruct fuel as [|fuel]; [cbn in Hf; lia|]).
  - apply loop_Done. unfold end_body. rewrite (bind_Ok _ _ _ _ _ Hl). by rewrite Hc.
  - destruct Hc as (-> & Hq & b & Hb & Hch). rewrite end_place_cons.
    rewrite (loop_Next _ _ _ _ (Next_of q) s); [|unfold end_body; rewrite (bind_Ok _ _ _ _ _ Hl); by rewrite (proj2 (Z.eqb_neq _ _) Hq)].
    eapply IH; [by apply points_next|done|cbn in Hf; lia].
Qed.

(** What [find_body] looks for. *)
Definition matches (h : gmap Z bucket) (hv : Z) (key : list Z) (q : Z) : bool :=
  match h !! q with Some b => (bhv b =? hv) && bool_decide (e_key (be b) = key) | None => false end.

Lemma find_body_loop s hv key cs : ∀ l p fuel, points s l p → chain (heap s) p cs → (length cs < fuel)%nat →
  loop fuel (find_body hv key) l s =
    Ok (match list_find (λ q, matches (heap s) hv key q = true) cs with Some (_, q) => inl q | None => inr (end_place l cs) end, s).
Proof.
  induction cs as [|q cs IH]; intros l p fuel Hl Hc Hf; (destruct fuel as [|fuel]; [cbn in Hf; lia|]).
  - apply loop_Done. unfold find_body. rewrite (bind_Ok _ _ _ _ _ Hl). by rewrite Hc.
  - destruct Hc as (-> & Hq & b & Hb & Hch).
    assert (find_body hv key l s = Ok (if matches (heap s) hv key q then Done (inl q) else Next (Next_of q), s)) as Hbody.
    { unfold find_body, matches. rewrite (bind_Ok _ _ _ _ _ Hl), (proj2 (Z.eqb_neq _ _) Hq).
      rewrite (bind_Ok _ _ _ _ _ (get_bucket_ok _ _ _ Hb)), Hb. by destruct (_ && _). }
    cbn [list_find]. destruct (matches (heap s) hv key q) eqn:E.
    + rewrite decide_True by done. by apply loop_Done.
    + rewrite decide_False by done. rewrite (loop_Next _ _ _ _ _ _ Hbody), end_place_cons.
      erewrite IH; [|by apply points_next|done|cbn in Hf; lia]. by destruct (list_find _ cs) as [[]|].
Qed.

(** ** Tables *)

(** A bucket without its link. *)
Definition info (h : gmap Z bucket) (q : Z) : option (ENTRY * Z) := (λ b, (be b, bhv b)) <$> h !! q.

(** The buckets are in the chain of their hash value, once, and no key occurs
    twice; [css] are the chains. *)
Record wf (s : hstate) (css : list (list Z)) : Prop := {
  wf_len : length (table s) = hsize s;
  wf_pos : (0 < hsize s)%nat;
  wf_chains : Forall2 (chain (heap s)) (table s) css;
  wf_nodup : NoDup (concat css);
  wf_hash j cs q : css !! j = Some cs → q ∈ cs → ∃ e hv, info (heap s) q = Some (e, hv) ∧
    hv = siphash_2_4 (hkey s) (e_key e) ∧ Z.to_nat (hv mod Z.of_nat (hsize s)) = j ∧ Forall byte (e_key e);
  wf_keys q q' e e' hv hv' : q ∈ concat css → q' ∈ concat css → info (heap s) q = Some (e, hv) →
    info (heap s) q' = Some (e', hv') → e_key e = e_key e' → q = q'
}.

(** The map from keys to the addresses and the data of their entries. *)
Definition content (s : hstate) (css : list (list Z)) (M : gmap (list Z) (Z * Z)) : Prop :=
  ∀ k p d, M !! k = Some (p, d) ↔ p ∈ concat css ∧ ∃ hv, info (heap s) p = Some (mk_entry k d, hv).
Definition represents (s : hstate) (M : gmap (list Z) (Z * Z)) : Prop := ∃ css, wf s css ∧ content s css M.

Lemma elem_of_concat {A} (x : A) (ls : list (list A)) : x ∈ concat ls ↔ ∃ j l, ls !! j = Some l ∧ x ∈ l.
Proof.
  induction ls as [|l ls IH]; cbn.
  - rewrite elem_of_nil. split; [done|]. by intros (j & l & ? & _).
  - rewrite elem_of_app, IH. split.
    + intros [Hx|(j & l' & Hj & Hx)]; [by exists 0%nat, l|by exists (S j), l'].
    + intros ([|j] & l' & Hj & Hx); [left; by injection Hj as ->|right; by exists j, l'].
Qed.

Lemma concat_insert_perm {A} (x : A) (ls : list (list A)) j l :
  ls !! j = Some l → concat (<[j := x :: l]> ls) ≡ₚ x :: concat ls.
Proof.
  intros Hj. rewrite <- (take_drop_middle _ _ _ Hj) at 2. rewrite insert_take_drop by (by eapply lookup_lt_Some).
  rewrite !concat_app. cbn. by rewrite <- !Permutation_middle.
Qed.

Lemma chain_in_bucket s css j cs p : wf s css → css !! j = Some cs → table s !! j = Some p → chain (heap s) p cs ∧ NoDup cs.
Proof.
  intros Hwf Hj Hp. split; [by eapply Forall2_lookup_lr; [apply Hwf|..]|].
  pose proof (wf_nodup _ _ Hwf) as Hnd. rewrite <- (take_drop_middle _ _ _ Hj), concat_app in Hnd. cbn in Hnd.
  apply NoDup_app in Hnd as (_ & _ & Hnd). by apply NoDup_app in Hnd as (? & _).
Qed.

(** The chain a key belongs to. *)
Lemma bucket_of s css hv : wf s css →
  let j := Z.to_nat (hv mod Z.of_nat (hsize s)) in
  slot_of hv (hsize s) s = Ok (j, s) ∧ ∃ cs p, css !! j = Some cs ∧ table s !! j = Some p ∧ points s (Slot j) p.
Proof.
  intros Hwf j. pose proof (wf_pos _ _ Hwf) as Hpos. split; [unfold slot_of; by rewrite (proj2 (Nat.eqb_neq _ _)) by lia|].
  pose proof (Z.mod_pos_bound hv (Z.of_nat (hsize s)) ltac:(lia)) as Hb. pose proof (wf_len _ _ Hwf) as Hlen.
  destruct (lookup_lt_is_Some_2 (table s) j) as [p Hp]; [unfold j; lia|].
  destruct (Forall2_lookup_l _ _ _ _ _ (wf_chains _ _ Hwf) Hp) as (cs & Hcs & _).
  exists cs, p. split_and!; [done|done|]. unfold points. cbn. by rewrite Hp.
Qed.

(** The loop finds the key exactly when the map has it. *)
Lemma find_ok s css M k : wf s css → content s css M → Forall byte k →
  let hv := siphash_2_4 (hkey s) k in
  let j := Z.to_nat (hv mod Z.of_nat (hsize s)) in
  ∃ cs, css !! j = Some cs ∧ walk (find_body hv k) (Slot j) s =
    Ok (match M !! k with Some (p, _) => inl p | None => inr (end_place (Slot j) cs) end, s).
Proof.
  intros Hwf HM Hk hv j. destruct (bucket_of s css hv Hwf) as (_ & cs & p & Hcs & Hp & Hpt). fold j in Hcs, Hp, Hpt.
  exists cs. split; [done|]. destruct (chain_in_bucket _ _ _ _ _ Hwf Hcs Hp) as [Hch Hnd].
  unfold walk. erewrite find_body_loop; [|done|done|apply chain_length in Hch; [lia|done]].
  destruct (list_find _ cs) as [[i q]|] eqn:E.
  - apply list_find_Some in E as (Hq & Hmatch & _). unfold matches in Hmatch. destruct (heap s !! q) as [b|] eqn:Hb; [|done].
    apply andb_true_iff in Hmatch as [_ Hkey%bool_decide_eq_true]. destruct b as [nx [k' d] hv']. cbn in Hkey. subst k'.
    assert (M !! k = Some (q, d)) as ->; [|done]. apply HM. split.
    + apply elem_of_concat. exists j, cs. split; [done|]. by eapply list_elem_of_lookup_2.
    + exists hv'. unfold info. by rewrite Hb.
  - destruct (M !! k) as [[q d]|] eqn:HMk; [|done]. exfalso. apply HM in HMk as [Hin (hv' & Hinfo)].
    apply elem_of_concat in Hin as (j' & cs' & Hj' & Hq). destruct (wf_hash _ _ Hwf _ _ _ Hj' Hq) as (e & hv'' & He & Hhv & Hslot & _).
    rewrite Hinfo in He. injection He as <- <-. cbn in Hhv. assert (j' = j) as -> by (unfold j, hv; congruence).
    rewrite Hcs in Hj'. injection Hj' as <-. apply list_find_None in E. rewrite Forall_forall in E. apply (E q Hq).
    unfold matches. unfold info in Hinfo. destruct (heap s !! q) as [b|]; [|done]. cbn in Hinfo. injection Hinfo as Hb1 Hb2.
    rewrite Hb1, Hb2, Hhv. cbn. rewrite Z.eqb_refl. by rewrite bool_decide_true.
Qed.

(** ** Rehashing *)

(** Every bucket of the chains is in the one its hash value says, for [i] chains. *)
Definition placed (i : nat) (h : gmap Z bucket) (css : list (list Z)) : Prop :=
  ∀ j cs q, css !! j = Some cs → q ∈ cs → ∃ e hv, info h q = Some (e, hv) ∧ Z.to_nat (hv mod Z.of_nat i) = j.

(** The buckets [qs] have moved from a heap [h] to the chains of the new table [n']. *)
Record moved (i : nat) (qs : list Z) (css : list (list Z)) (h h' : gmap Z bucket) (n' : list Z) (css' : list (list Z)) : Prop := {
  mv_chains : Forall2 (chain h') n' css';
  mv_placed : placed i h' css';
  mv_perm : concat css' ≡ₚ qs ++ concat css;
  mv_info q : info h' q = info h q;
  mv_frame q : q ∉ qs → h' !! q = h !! q
}.

Lemma info_set_next h q b p r : h !! q = Some b → info (<[q:=set_next p b]> h) r = info h r.
Proof.
  intros Hb. unfold info. destruct (decide (r = q)) as [->|Hne]; [|by rewrite lookup_insert_ne].
  by rewrite lookup_insert_eq, Hb.
Qed.

Lemma chain_ext h h' p cs : (∀ q, q ∈ cs → h' !! q = h !! q) → chain h p cs → chain h' p cs.
Proof.
  revert p. induction cs as [|q cs IH]; intros p Heq; [done|]. intros (-> & Hq & b & Hb & Hch).
  split_and!; [done|done|]. exists b. rewrite Heq by left. split; [done|]. apply IH; [|done]. intros r Hr. apply Heq. by right.
Qed.

Lemma chains_frame h q b n css : q ∉ concat css → Forall2 (chain h) n css → Forall2 (chain (<[q:=b]> h)) n css.
Proof.
  intros Hq Hc. induction Hc as [|p cs n css Hp _ IH]; [done|]. cbn in Hq. apply not_elem_of_app in Hq as [Hq Hqs].
  constructor; [by apply chain_frame|by apply IH].
Qed.

Lemma chains_ext h h' n css : (∀ q, q ∈ concat css → h' !! q = h !! q) → Forall2 (chain h) n css → Forall2 (chain h') n css.
Proof.
  intros Heq Hc. induction Hc as [|p cs n css Hp _ IH]; [done|]. constructor.
  - eapply chain_ext, Hp. intros q Hq. apply Heq, elem_of_app. by left.
  - apply IH. intros q Hq. apply Heq, elem_of_app. by right.
Qed.

Lemma info_placed i h h' css : (∀ q, info h' q = info h q) → placed i h css → placed i h' css.
Proof. intros Heq Hp j cs q Hj Hq. rewrite Heq. eauto. Qed.

(** One round of the inner loop. *)
Lemma rehash_step i q b h n css : q ≠ 0 → q ∉ concat css → h !! q = Some b → length n = i → (0 < i)%nat →
  Forall2 (chain h) n css → placed i h css →
  let m := Z.to_nat (bhv b mod Z.of_nat i) in
  ∃ first css', n !! m = Some first ∧ moved i [q] css h (<[q:=set_next first b]> h) (<[m:=q]> n) css'.
Proof.
  intros Hq Hnin Hb Hlen Hpos Hc Hpl m. assert (m < length n)%nat as Hm.
  { pose proof (Z.mod_pos_bound (bhv b) (Z.of_nat i) ltac:(lia)). unfold m. lia. }
  destruct (lookup_lt_is_Some_2 n m Hm) as [first Hf].
  destruct (Forall2_lookup_l _ _ _ _ _ Hc Hf) as (cs & Hcs & Hch).
  exists first, (<[m := q :: cs]> css). split; [done|].
  assert (q ∉ cs) as Hqcs by (intros ?; apply Hnin, elem_of_concat; by exists m, cs).
  split.
  - apply Forall2_insert; [by apply chains_frame|]. split_and!; [done|done|]. eexists. rewrite lookup_insert_eq.
    split; [done|]. by apply chain_frame.
  - apply (info_placed _ h); [by intros; apply info_set_next|]. intros j l r Hj Hr.
    destruct (decide (j = m)) as [->|Hne]; [|rewrite list_lookup_insert_ne in Hj by done; by eauto].
    rewrite list_lookup_insert_eq in Hj by (by apply Forall2_length in Hc; lia). injection Hj as <-.
    apply elem_of_cons in Hr as [->|Hr]; [|by eauto]. exists (be b), (bhv b). unfold info. by rewrite Hb.
  - by rewrite (concat_insert_perm _ _ _ _ Hcs).
  - intros r. by apply info_set_next.
  - intros r Hr%not_elem_of_cons. by rewrite lookup_insert_ne by (by destruct Hr).
Qed.

Lemma moved_trans i qs1 qs2 css0 css1 css2 h0 h1 h2 n1 n2 :
  moved i qs1 css0 h0 h1 n1 css1 → moved i qs2 css1 h1 h2 n2 css2 → moved i (qs2 ++ qs1) css0 h0 h2 n2 css2.
Proof.
  intros [_ _ Hp1 Hi1 Hf1] [Hc2 Hpl2 Hp2 Hi2 Hf2]. split; [done|done|..].
  - by rewrite Hp2, Hp1, app_assoc.
  - intros q. by rewrite Hi2.
  - intros q Hq%not_elem_of_app. rewrite Hf2 by (by destruct Hq). apply Hf1. by destruct Hq.
Qed.

Lemma moved_perm i qs qs' css h h' n' css' : qs ≡ₚ qs' → moved i qs css h h' n' css' → moved i qs' css h h' n' css'.
Proof.
  intros Hp []. split; [done|done|by rewrite <- Hp|done|]. intros q Hq. apply mv_frame0. by rewrite Hp.
Qed.

Lemma set_heap_heap h h' s : set_heap h (set_heap h' s) = set_heap h s. Proof. done. Qed.

(** The inner loop, and the outer one. *)
Lemma rehash_chain_loop i qs : ∀ B h n css s fuel, chain h B qs → NoDup (qs ++ concat css) → length n = i → (0 < i)%nat →
  Forall2 (chain h) n css → placed i h css → (length qs < fuel)%nat →
  ∃ h' n' css', loop fuel (rehash_body i) (B, n) (set_heap h s) = Ok (n', set_heap h' s) ∧ length n' = i ∧
    moved i qs css h h' n' css'.
Proof.
  induction qs as [|q qs IH]; intros B h n css s fuel Hch Hnd Hlen Hpos Hc Hpl Hf; (destruct fuel as [|fuel]; [cbn in Hf; lia|]).
  - exists h, n, css. split_and!; [by apply loop_Done; unfold rehash_body; rewrite Hch|done|by split].
  - destruct Hch as (-> & Hq & b & Hb & Hch). cbn in Hnd. apply NoDup_cons in Hnd as [Hnin Hnd]. apply not_elem_of_app in Hnin as [Hnq Hnin].
    destruct (rehash_step i q b h n css Hq Hnin Hb Hlen Hpos Hc Hpl) as (first & css1 & Hfirst & Hmv).
    set (h1 := <[q:=set_next first b]> h) in *. set (m := Z.to_nat (bhv b mod Z.of_nat i)) in *.
    assert (rehash_body i (q, n) (set_heap h s) = Ok (Next (bnext b, <[m:=q]> n), set_heap h1 s)) as Hbody.
    { unfold rehash_body. rewrite (proj2 (Z.eqb_neq _ _) Hq), (bind_Ok _ _ _ _ _ (get_bucket_ok (set_heap h s) q b Hb)).
      unfold slot_of. rewrite (proj2 (Nat.eqb_neq _ _)) by lia. erewrite bind_Ok by done. fold m. by rewrite Hfirst. }
    destruct (IH (bnext b) h1 (<[m:=q]> n) css1 s fuel) as (h' & n' & css' & Hrun & Hlen' & Hmv');
      [by apply chain_frame| |by rewrite length_insert|done|apply Hmv|apply Hmv|cbn in Hf; lia|].
    + rewrite (mv_perm _ _ _ _ _ _ _ Hmv), (Permutation_app_comm [q]), app_assoc, (Permutation_app_comm _ [q]). cbn.
      apply NoDup_cons. split; [by apply not_elem_of_app|done].
    + exists h', n', css'. split_and!; [by rewrite (loop_Next _ _ _ _ _ _ Hbody)|done|].
      eapply moved_perm, moved_trans; [|done|done]. by rewrite (Permutation_app_comm qs [q]).
Qed.

Lemma rehash_ok i old : ∀ qss h n css s, Forall2 (chain h) old qss → NoDup (concat qss ++ concat css) → length n = i → (0 < i)%nat →
  Forall2 (chain h) n css → placed i h css →
  ∃ h' n' css', rehash i old n (set_heap h s) = Ok (n', set_heap h' s) ∧ length n' = i ∧ moved i (concat qss) css h h' n' css'.
Proof.
  induction old as [|B old IH]; intros qss h n css s Hold Hnd Hlen Hpos Hc Hpl.
  { apply Forall2_nil_inv_l in Hold as ->. exists h, n, css. by split_and!. }
  apply Forall2_cons_inv_l in Hold as (qs & qss' & HB & Hold & ->). cbn in Hnd. rewrite <- app_assoc in Hnd.
  pose proof Hnd as (Hq & Hdisj & Hrest)%NoDup_app. pose proof Hrest as (Hqss & _ & Hcss)%NoDup_app.
  destruct (rehash_chain_loop i qs B h n css s (S (size h))) as (h1 & n1 & css1 & Hrun & Hlen1 & Hmv); [done| |done..|apply chain_length in HB; [lia|done]|].
  { apply NoDup_app. split_and!; [done| |done]. intros x Hx Hx'. eapply Hdisj; [done|]. apply elem_of_app. by right. }
  destruct (IH qss' h1 n1 css1 s) as (h2 & n2 & css2 & Hrun2 & Hlen2 & Hmv2); [| |done|done|apply Hmv|apply Hmv|].
  - eapply chains_ext, Hold. intros q Hqin. apply (mv_frame _ _ _ _ _ _ _ Hmv). intros Hin.
    eapply Hdisj; [done|]. apply elem_of_app. by left.
  - rewrite (mv_perm _ _ _ _ _ _ _ Hmv). by rewrite app_assoc, (Permutation_app_comm (concat qss')), <- app_assoc.
  - exists h2, n2, css2. split_and!; [|done|].
    + cbn [rehash]. unfold rehash_chain at 1. unfold mbind at 1, CM_bind at 1. cbn [heap set_heap]. rewrite Hrun. done.
    + cbn [concat]. eapply moved_perm, moved_trans; [apply Permutation_app_comm|done|done].
Qed.

Lemma next_prime_ok size s : Z.of_nat size < List.last primes 0 → ∃ p, next_prime size s = Ok (p, s) ∧ (0 < p)%nat.
Proof.
  intros Hs. unfold next_prime. destruct (list_find _ primes) as [[i p]|] eqn:E.
  - apply list_find_Some in E as (_ & Hp & _). exists (Z.to_nat p). split; [done|lia].
  - apply list_find_None in E. rewrite Forall_forall in E. exfalso. eapply E, Hs.
    apply list_elem_of_In. do 15 right. by left.
Qed.

(** Moving the buckets to a larger table keeps what the table represents. *)
Lemma wf_moved s css M i h' n' css' : wf s css → content s css M → length n' = i → (0 < i)%nat →
  moved i (concat css) (replicate i []) (heap s) h' n' css' →
  let s' := set_table n' i (add_freed None (set_heap h' s)) in wf s' css' ∧ content s' css' M.
Proof.
  intros Hwf HM Hlen Hpos [Hc Hpl Hp Hi _] s'.
  assert (concat css' ≡ₚ concat css) as Hcc.
  { rewrite Hp. replace (concat (replicate i [])) with (@nil Z); [by rewrite app_nil_r|]. clear. by induction i. }
  split; [split|].
  - done.
  - done.
  - done.
  - rewrite Hcc. apply Hwf.
  - intros j cs q Hj Hq. destruct (Hpl _ _ _ Hj Hq) as (e & hv & He & Hj'). exists e, hv. split; [done|].
    assert (q ∈ concat css) as (j0 & cs0 & Hj0 & Hq0)%elem_of_concat by (rewrite <- Hcc; apply elem_of_concat; by exists j, cs).
    destruct (wf_hash _ _ Hwf _ _ _ Hj0 Hq0) as (e' & hv' & He' & Hhv & _ & Hk). rewrite <- Hi, He in He'. by injection He' as -> ->.
  - intros q q' e e' hv hv'. rewrite !Hcc. cbn. rewrite !Hi. by eapply wf_keys.
  - intros k p d. rewrite Hcc. cbn. rewrite Hi. apply HM.
Qed.

Lemma get_bind {W A B} (m : CM W A) (k : A → CM W B) w a w' r : m w = Ok (a, w') → k a w' = r → (m ≫= k) w = r.
Proof. intros Hm <-. by apply bind_Ok. Qed.

(** What the operations on the table keep. *)
Definition keeps (s s' : hstate) : Prop :=
  hkey s' = hkey s ∧ herrno s' = herrno s ∧ filled s' = filled s ∧ (∀ q, info (heap s') q = info (heap s) q).

(** A table and the place where a new bucket with hash value [hv] goes. *)
Record ready (s : hstate) (M : gmap (list Z) (Z * Z)) (hv : Z) (b : place) (css : list (list Z)) (cs : list Z) : Prop := {
  rd_wf : wf s css;
  rd_content : content s css M;
  rd_chain : css !! Z.to_nat (hv mod Z.of_nat (hsize s)) = Some cs;
  rd_place : b = end_place (Slot (Z.to_nat (hv mod Z.of_nat (hsize s)))) cs
}.

Lemma resize_ok ta s M hv b css cs : ready s M hv b css cs →
  ∃ b' s' css' cs', resize ta hv b s = Ok (b', s') ∧ ready s' M hv b' css' cs' ∧ keeps s s'.
Proof.
  intros Hr. assert (∃ b' s' css' cs', Ok (b, s) = Ok (b', s') ∧ ready s' M hv b' css' cs' ∧ keeps s s') as Hsame
    by (exists b, s, css, cs; split_and!; [done|done|by split_and!]).
  unfold resize.
  destruct ((Z.of_nat (hsize s) <? List.last primes 0) && (filled s + 1 >? Z.of_nat (hsize s))) eqn:E.
  - apply andb_true_iff in E as [E1%Z.ltb_lt E2]. destruct (next_prime_ok (hsize s) s E1) as (i & Hi & Hpos).
    destruct ta.
    + destruct Hr as [Hwf HM Hcs ->].
      destruct (rehash_ok i (table s) css (heap s) (replicate i 0) (replicate i []) s) as (h' & n' & css' & Hrun & Hlen & Hmv);
        [apply Hwf| |by rewrite length_replicate|done|by apply Forall2_replicate|intros j l q Hj%lookup_replicate ?; destruct Hj as [-> _]; set_solver|].
      { replace (concat (replicate i [])) with (@nil Z) by (clear; by induction i). rewrite app_nil_r. apply Hwf. }
      replace (set_heap (heap s) s) with s in Hrun by (by destruct s).
      destruct (wf_moved _ _ _ _ _ _ _ Hwf HM Hlen Hpos Hmv) as [Hwf' HM'].
      set (s' := set_table n' i (add_freed None (set_heap h' s))) in *.
      destruct (bucket_of s' css' hv Hwf') as (Hslot & cs' & p & Hcs' & Hp & Hpt).
      set (m := Z.to_nat (hv mod Z.of_nat (hsize s'))) in *.
      destruct (chain_in_bucket _ _ _ _ _ Hwf' Hcs' Hp) as [Hch Hnd].
      exists (end_place (Slot m) cs'), s', css', cs'. split_and!; [|by split|split_and!; [done..|apply Hmv]].
      eapply get_bind; [done|]. eapply get_bind; [done|]. cbv beta iota.
      assert ((Z.of_nat (hsize s) <? List.last primes 0) && (filled s + 1 >? Z.of_nat (hsize s)) = true) as ->
        by (apply andb_true_iff; split; [by apply Z.ltb_lt|done]).
      eapply get_bind; [done|]. cbv beta iota. eapply get_bind; [done|]. eapply get_bind; [done|]. eapply get_bind; [done|].
      eapply get_bind; [done|]. eapply get_bind; [exact Hslot|]. unfold walk.
      eapply end_body_loop; [done|done|apply chain_length in Hch; [lia|done]].
    + destruct Hsame as (b' & s' & css' & cs' & [= <- <-] & Hr' & Hk). exists b, s, css', cs'. split_and!; [|done|done].
      eapply get_bind; [done|]. eapply get_bind; [done|]. cbv beta iota.
      rewrite (proj2 (Z.ltb_lt _ _) E1), E2. cbn [andb]. by eapply get_bind; [done|].
  - destruct Hsame as (b' & s' & css' & cs' & [= <- <-] & Hr' & Hk). exists b, s, css', cs'. split_and!; [|done|done].
    eapply get_bind; [done|]. eapply get_bind; [done|]. cbv beta iota. by rewrite E.
Qed.

(** ** Adding a bucket *)

Lemma chain_snoc h p cs q b nb e hv : chain h p (cs ++ [q]) → NoDup (cs ++ [q]) → nb ∉ cs ++ [q] → nb ≠ 0 → h !! q = Some b →
  chain (<[nb:=mk_bucket 0 e hv]> (<[q:=set_next nb b]> h)) p (cs ++ [q; nb]).
Proof.
  intros Hch Hnd Hnb Hnb0 Hb. revert p Hch Hnd Hnb. induction cs as [|r cs IH]; intros p Hch Hnd Hnb; cbn in *.
  - destruct Hch as (-> & Hq & _). assert (nb ≠ q) by set_solver. split_and!; [done|done|]. exists (set_next nb b).
    rewrite lookup_insert_ne, lookup_insert_eq by done. split_and!; [done|done|done|]. eexists. by rewrite lookup_insert_eq.
  - destruct Hch as (-> & Hr & c & Hc & Hch). apply NoDup_cons in Hnd as [Hrq Hnd]. split_and!; [done|done|]. exists c.
    rewrite !lookup_insert_ne by set_solver. split; [done|]. apply IH; [done|done|set_solver].
Qed.

(** The end of a chain holds a null pointer. *)
Lemma end_of_chain s css M hv b cs : ready s M hv b css cs →
  (cs = [] ∧ b = Slot (Z.to_nat (hv mod Z.of_nat (hsize s))) ∧ table s !! Z.to_nat (hv mod Z.of_nat (hsize s)) = Some 0) ∨
  (∃ cs0 q c p, cs = cs0 ++ [q] ∧ b = Next_of q ∧ heap s !! q = Some c ∧ bnext c = 0 ∧
     table s !! Z.to_nat (hv mod Z.of_nat (hsize s)) = Some p ∧ chain (heap s) p (cs0 ++ [q])).
Proof.
  intros [Hwf HM Hcs ->]. destruct (Forall2_lookup_r _ _ _ _ _ (wf_chains _ _ Hwf) Hcs) as (p & Hp & Hch).
  destruct cs as [|q cs0 _] using rev_ind; [left; split_and!; [done|done|]; by rewrite Hch in Hp|right].
  assert (∃ c, heap s !! q = Some c ∧ bnext c = 0) as (c & Hc & Hn).
  { clear Hcs Hp. revert p Hch. induction cs0 as [|r cs0 IH]; intros p; cbn.
    - intros (_ & _ & c & Hc & Hn). by exists c.
    - intros (_ & _ & c & _ & Hch). by eapply IH. }
  exists cs0, q, c, p. split_and!; try done. unfold end_place. by rewrite last_snoc.
Qed.

(** [*b=malloc(...)] that fails changes nothing. *)
Lemma write_null s css M hv b cs : ready s M hv b css cs → write_place b 0 s = Ok (tt, s).
Proof.
  intros Hr. destruct (end_of_chain _ _ _ _ _ _ Hr) as [(_ & -> & Ht)|(cs0 & q & c & p & _ & -> & Hc & Hn & _)]; unfold write_place.
  - rewrite (proj2 (Nat.ltb_lt _ _)) by (by eapply lookup_lt_Some). rewrite list_insert_id by done. by destruct s.
  - rewrite (bind_Ok _ _ _ _ _ (get_bucket_ok _ _ _ Hc)). unfold modify, set_next. rewrite <- Hn.
    replace (mk_bucket (bnext c) (be c) (bhv c)) with c by (by destruct c). rewrite insert_id by done. by destruct s.
Qed.

(** The assignments to the new bucket. *)
Definition add_bucket (nb : Z) (item : ENTRY) (hv : Z) : H unit :=
  n ← reads filled; _ ← modify (set_filled (n + 1)); modify (λ s, set_heap (<[nb := mk_bucket 0 item hv]> (heap s)) s).

Lemma info_insert_fresh h nb e hv q : q ≠ nb → info (<[nb:=mk_bucket 0 e hv]> h) q = info h q.
Proof. intros Hq. unfold info. by rewrite lookup_insert_ne. Qed.

(** The write and the assignments, on the chains. *)
Lemma write_bucket s css M hv b cs nb e : ready s M hv b css cs → nb ≠ 0 → heap s !! nb = None →
  ∃ s', (write_place b nb ≫= λ _, add_bucket nb e hv) s = Ok (tt, s') ∧
    Forall2 (chain (heap s')) (table s') (<[Z.to_nat (hv mod Z.of_nat (hsize s)) := cs ++ [nb]]> css) ∧
    info (heap s') nb = Some (e, hv) ∧ (∀ q, q ≠ nb → info (heap s') q = info (heap s) q) ∧
    length (table s') = length (table s) ∧ hsize s' = hsize s ∧ hkey s' = hkey s ∧ herrno s' = herrno s.
Proof.
  intros Hr Hnb Hfresh. pose proof Hr as [Hwf HM Hcs _]. pose proof (end_of_chain _ _ _ _ _ _ Hr) as Hend. set (m := Z.to_nat (hv mod Z.of_nat (hsize s))) in *.
  assert (∀ j l q, css !! j = Some l → q ∈ l → q ≠ nb) as Hne.
  { intros j l q Hj Hq ->. destruct (wf_hash _ _ Hwf _ _ _ Hj Hq) as (e' & hv' & He & _). unfold info in He. by rewrite Hfresh in He. }
  assert (nb ∉ concat css) as Hnin by (intros (j & l & Hj & Hq)%elem_of_concat; by eapply Hne).
  destruct Hend as [(-> & -> & Ht)|(cs0 & q & c & p & -> & -> & Hc & Hn & Hp & Hch)].
  - eexists. split; [unfold write_place; eapply get_bind; [by rewrite (proj2 (Nat.ltb_lt _ _)) by (by eapply lookup_lt_Some)|done]|].
    split_and!; [|by unfold info; cbn; rewrite lookup_insert_eq|intros; by apply info_insert_fresh|cbn; by rewrite length_insert|done..].
    apply Forall2_insert; [apply chains_frame; [done|apply Hwf]|]. split_and!; [done|done|]. eexists. by split; [apply lookup_insert_eq|].
  - assert (q ∈ cs0 ++ [q]) as Hq by set_solver. assert (q ≠ nb) as Hqnb by (by eapply Hne).
    eexists. split; [unfold write_place; eapply get_bind; [by rewrite (bind_Ok _ _ _ _ _ (get_bucket_ok _ _ _ Hc))|done]|].
    split_and!; [|by unfold info; cbn; rewrite lookup_insert_eq| |done..].
    + cbn [heap table set_heap set_filled]. destruct (chain_in_bucket _ _ _ _ _ Hwf Hcs Hp) as [_ Hnd].
      apply Forall2_same_length_lookup. split; [rewrite length_insert; apply (Forall2_length _ _ _ (wf_chains _ _ Hwf))|].
      intros j p' l Hp' Hl. destruct (decide (j = m)) as [->|Hj].
      * rewrite list_lookup_insert_eq in Hl by (by eapply lookup_lt_Some). injection Hl as <-. rewrite Hp in Hp'. injection Hp' as <-.
        rewrite <- app_assoc. apply chain_snoc; [done|done| |done|done]. intros Hin. by eapply Hne.
      * rewrite list_lookup_insert_ne in Hl by done. apply chain_frame; [intros Hin; by eapply Hne|].
        apply chain_frame; [|by eapply Forall2_lookup_lr; [apply Hwf|..]]. intros Hin. apply Hj.
        destruct (wf_hash _ _ Hwf _ _ _ Hl Hin) as (e1 & h1 & He1 & _ & H1 & _), (wf_hash _ _ Hwf _ _ _ Hcs Hq) as (e2 & h2 & He2 & _ & H2 & _).
        rewrite He1 in He2. injection He2 as -> ->. congruence.
    + intros r Hrne. cbn [heap set_heap set_filled]. rewrite info_insert_fresh by done. by apply info_set_next.
Qed.

Lemma concat_snoc_perm {A} (x : A) (ls : list (list A)) j l :
  ls !! j = Some l → concat (<[j := l ++ [x]]> ls) ≡ₚ x :: concat ls.
Proof.
  intros Hj. rewrite <- (concat_insert_perm x ls j l Hj).
  rewrite !insert_take_drop by (by eapply lookup_lt_Some). rewrite !concat_app. cbn [concat]. by rewrite <- (Permutation_cons_append l x).
Qed.

(** The table with the new bucket represents the map with the new entry. *)
Lemma wf_added s s' M hv b css cs nb k d : ready s M hv b css cs → hv = siphash_2_4 (hkey s) k → Forall byte k → M !! k = None →
  heap s !! nb = None →
  let css' := <[Z.to_nat (hv mod Z.of_nat (hsize s)) := cs ++ [nb]]> css in
  Forall2 (chain (heap s')) (table s') css' → info (heap s') nb = Some (mk_entry k d, hv) →
  (∀ q, q ≠ nb → info (heap s') q = info (heap s) q) → length (table s') = length (table s) → hsize s' = hsize s → hkey s' = hkey s →
  wf s' css' ∧ content s' css' (<[k:=(nb, d)]> M).
Proof.
  intros [Hwf HM Hcs _] Hhv Hk HMk Hfresh css' Hc Hnb Hinfo Hlen Hsize Hkey.
  assert (concat css' ≡ₚ nb :: concat css) as Hperm by (by apply concat_snoc_perm).
  assert (nb ∉ concat css) as Hnin.
  { intros (j & l & Hj & Hq)%elem_of_concat. destruct (wf_hash _ _ Hwf _ _ _ Hj Hq) as (e' & hv' & He & _).
    unfold info in He. by rewrite Hfresh in He. }
  assert (∀ q, q ∈ concat css → info (heap s') q = info (heap s) q) as Hold by (intros q Hq; apply Hinfo; by intros ->).
  assert (∀ q e hv', q ∈ concat css → info (heap s) q = Some (e, hv') → e_key e ≠ k) as Hkeys.
  { intros q [k' d'] hv' Hq He Heq. cbn in Heq. subst k'. enough (M !! k = Some (q, d')) by congruence. apply HM. by eauto. }
  split; [split|].
  - by rewrite Hlen, Hsize; apply Hwf.
  - rewrite Hsize. apply Hwf.
  - done.
  - rewrite Hperm. apply NoDup_cons. split; [done|apply Hwf].
  - intros j l q Hj Hq. rewrite Hkey, Hsize. destruct (decide (q = nb)) as [->|Hqn].
    + exists (mk_entry k d), hv. split_and!; [done|done| |done]. destruct (decide (j = Z.to_nat (hv mod Z.of_nat (hsize s)))) as [->|Hne]; [done|].
      exfalso. unfold css' in Hj. rewrite list_lookup_insert_ne in Hj by done. apply Hnin, elem_of_concat. by exists j, l.
    + rewrite Hinfo by done. unfold css' in Hj.
      destruct (decide (j = Z.to_nat (hv mod Z.of_nat (hsize s)))) as [->|Hne]; [|rewrite list_lookup_insert_ne in Hj by done; by eapply wf_hash].
      rewrite list_lookup_insert_eq in Hj by (by eapply lookup_lt_Some). injection Hj as <-.
      apply elem_of_app in Hq as [Hq|Hq%list_elem_of_singleton]; [by eapply wf_hash|done].
  - intros q q' e e' h1 h2. rewrite !Hperm, !elem_of_cons. intros [->|Hq] [->|Hq'] He He' Heq; [done|..].
    + rewrite Hnb in He. injection He as <- <-. rewrite Hold in He' by done. by edestruct (Hkeys q').
    + rewrite Hnb in He'. injection He' as <- <-. rewrite Hold in He by done. by edestruct (Hkeys q).
    + rewrite Hold in He, He' by done. by eapply (wf_keys _ _ Hwf).
  - intros k' p d'. rewrite Hperm, elem_of_cons. destruct (decide (k' = k)) as [->|Hne].
    + rewrite lookup_insert_eq. split.
      * intros [= <- <-]. split; [by left|eauto].
      * intros [[->|Hp] (hv' & He)]; [rewrite Hnb in He; by injection He as <- <-|].
        rewrite Hold in He by done. exfalso. by eapply (Hkeys p).
    + rewrite lookup_insert_ne by done. rewrite (HM k' p d'). split.
      * intros [Hp (hv' & He)]. split; [by right|]. exists hv'. by rewrite Hold.
      * intros [[->|Hp] (hv' & He)]; [rewrite Hnb in He; by injection He as ?|]. split; [done|]. exists hv'. by rewrite <- Hold.
Qed.

(** ** The refinement *)

(** What [hsearch_r] does to the map, with the address [malloc] returns. *)
Definition map_search (nb : Z) (item : ENTRY) (action : ACTION) (M : gmap (list Z) (Z * Z)) : (Z * option Z) * gmap (list Z) (Z * Z) :=
  match M !! e_key item, action with
  | Some (p, _), _ => ((1, Some p), M)
  | None, FIND => ((0, None), M)
  | None, ENTER => if nb =? 0 then ((0, None), M) else ((1, Some nb), <[e_key item := (nb, e_data item)]> M)
  end.

Lemma hash_key_ok k s : Forall byte k → hash_key k s = Ok (siphash_2_4 (hkey s) k, s).
Proof. intros Hk. unfold hash_key. by rewrite siphash24_spec. Qed.

(** What [hsearch_r] does when the key has not been found. *)
Lemma enter_ok ta nb k d s M hv b css cs : ready s M hv b css cs → hv = siphash_2_4 (hkey s) k → Forall byte k → M !! k = None →
  (nb ≠ 0 → heap s !! nb = None) →
  ∃ s', (b ← resize ta hv b; _ ← write_place b nb;
         if nb =? 0 then mret (0, None) else
         n ← reads filled; _ ← modify (set_filled (n + 1));
         _ ← modify (λ s, set_heap (<[nb := mk_bucket 0 (mk_entry k d) hv]> (heap s)) s);
         mret (1, Some nb)) s = Ok ((map_search nb (mk_entry k d) ENTER M).1, s') ∧
    represents s' (map_search nb (mk_entry k d) ENTER M).2 ∧ hkey s' = hkey s ∧ herrno s' = herrno s.
Proof.
  intros Hr Hhv Hk HMk Hfresh. unfold map_search. cbn [e_key e_data]. rewrite HMk.
  destruct (resize_ok ta s M hv b css cs Hr) as (b1 & s1 & css1 & cs1 & Hres & Hr1 & Hk1 & He1 & _ & Hi1).
  destruct (Z.eqb_spec nb 0) as [->|Hnb].
  - exists s1. split; [|split_and!; [exists css1; by destruct Hr1|done..]].
    eapply get_bind; [exact Hres|]. by eapply get_bind; [eapply write_null|].
  - assert (heap s1 !! nb = None) as Hfresh1.
    { specialize (Hi1 nb). unfold info in Hi1. rewrite (Hfresh Hnb) in Hi1. by destruct (heap s1 !! nb). }
    destruct (write_bucket s1 css1 M hv b1 cs1 nb (mk_entry k d) Hr1 Hnb Hfresh1) as (s2 & Hrun & Hc & Hn & Ho & Hl & Hs & Hk2 & He2).
    rewrite <- Hk1 in Hhv. destruct (wf_added s1 s2 M hv b1 css1 cs1 nb k d Hr1 Hhv Hk HMk Hfresh1 Hc Hn Ho Hl Hs Hk2) as [Hwf HM].
    exists s2. split; [|split_and!; [by eexists|congruence..]]. eapply get_bind; [exact Hres|].
    apply bind_inv in Hrun as ([] & s3 & Hw & Hadd). eapply get_bind; [exact Hw|].
    unfold add_bucket in Hadd. cbv [reads modify mbind CM_bind] in *. cbn in *. by injection Hadd as <-.
Qed.

(** C28: [hsearch_r] implements a finite map, whatever the lengths of the chains are
    and whether the table is resized or not (a resize can also fail for want of
    memory).  If the key is in the map, its entry is returned, also for [ENTER],
    which keeps the old data; [FIND] of another key fails with [ESRCH]; [ENTER] of
    another key adds a bucket, or fails and changes nothing when [malloc] returns
    null. *)
Theorem hsearch_r_refines ta nb k d act s M :
  represents s M → Forall byte k → (nb ≠ 0 → heap s !! nb = None) →
  ∃ s', hsearch_r ta nb (mk_entry k d) act s = Ok ((map_search nb (mk_entry k d) act M).1, s') ∧
    represents s' (map_search nb (mk_entry k d) act M).2 ∧ hkey s' = hkey s ∧
    herrno s' = match M !! k, act with None, FIND => ESRCH | _, _ => herrno s end.
Proof.
  intros (css & Hwf & HM) Hk Hfresh. set (hv := siphash_2_4 (hkey s) k).
  destruct (find_ok s css M k Hwf HM Hk) as (cs & Hcs & Hfind). fold hv in Hcs, Hfind.
  destruct (bucket_of s css hv Hwf) as (Hslot & _).
  assert (∀ (K : Z → H (Z * option Z)) r, K hv s = r → (hash_key k ≫= K) s = r) as Hhash by (intros; by eapply get_bind; [apply hash_key_ok|]).
  unfold hsearch_r. cbn [e_key]. destruct (M !! k) as [[p d0]|] eqn:HMk.
  - exists s. unfold map_search. cbn [e_key]. rewrite HMk. split; [|split_and!; [by exists css|done..]].
    apply Hhash. eapply get_bind; [done|]. eapply get_bind; [exact Hslot|]. by eapply get_bind; [exact Hfind|].
  - destruct act.
    + exists (set_herrno ESRCH s). unfold map_search. cbn [e_key]. rewrite HMk.
      split; [|split_and!; [|done..]; exists css; by split; [destruct Hwf; split|]].
      apply Hhash. eapply get_bind; [done|]. eapply get_bind; [exact Hslot|]. by eapply get_bind; [exact Hfind|].
    + destruct (enter_ok ta nb k d s M hv _ css cs (Build_ready _ _ _ _ _ _ Hwf HM Hcs eq_refl) eq_refl Hk HMk Hfresh) as (s' & Hrun & Hrep & ? & ?).
      exists s'. split_and!; [|done..]. apply Hhash. eapply get_bind; [done|]. eapply get_bind; [exact Hslot|]. eapply get_bind; [exact Hfind|exact Hrun].
Qed.

(** Storing, finding and resizing on a table of one chain, with addresses 16, 32... *)
Definition demo_state : hstate := mk_h [0] 1 0 (seqZ 0 16) ∅ [] 0.

Lemma demo_represents : represents demo_state ∅.
Proof.
  exists [[]]. split; [split|]; cbn.
  - done.
  - lia.
  - by constructor.
  - constructor.
  - intros [|[|j]] cs q Hj Hq; try done. injection Hj as <-. set_solver.
  - set_solver.
  - intros k p d. rewrite lookup_empty. set_solver.
Qed.

Lemma hsearch_r_refines_witness :
  ∃ s', hsearch_r true 16 (mk_entry (STR "key") 7) ENTER demo_state = Ok ((1, Some 16), s') ∧
    represents s' (<[STR "key" := (16, 7)]> ∅) ∧ hkey s' = seqZ 0 16 ∧ herrno s' = 0.
Proof.
  pose proof (hsearch_r_refines true 16 (STR "key") 7 ENTER demo_state ∅ demo_represents) as Hr.
  unfold map_search in Hr. cbn [e_key e_data] in Hr. rewrite lookup_empty in Hr.
  apply Hr; [repeat constructor; unfold byte; lia|done].
Defined.

(** A run that resizes: the second key makes [filled + 1] exceed the size 1. *)
Example hsearch_r_run :
  match (_ ← hsearch_r true 16 (mk_entry (STR "a") 1) ENTER;
         _ ← hsearch_r true 32 (mk_entry (STR "b") 2) ENTER;
         x ← hsearch_r true 48 (mk_entry (STR "a") 3) ENTER;
         y ← hsearch_r true 48 (mk_entry (STR "b") 0) FIND;
         z ← hsearch_r true 48 (mk_entry (STR "c") 0) FIND;
         mret (x, y, z)) demo_state with
  | Ok (r, s) => r = ((1, Some 16), (1, Some 32), (0, None)) ∧ hsize s = 67%nat ∧ herrno s = ESRCH ∧ hfreed s = [None]
  | _ => False
  end.
Proof. vm_compute. auto. Qed.

(** ** Creating and destroying *)

Lemma hcreate_r_ok random n s : (0 < n)%nat →
  ∃ s', hcreate_r true random n s = Ok (1, s') ∧ represents s' ∅ ∧ hsize s' = n ∧ hkey s' = random.
Proof.
  intros Hn. eexists. split; [done|]. split_and!; [|done..]. exists (replicate n []).
  assert (concat (replicate n []) = @nil Z) as Hnil by (clear; by induction n).
  assert (∀ j cs (q : Z), replicate n [] !! j = Some cs → q ∈ cs → False) as Hrep
    by (intros j cs q Hj%lookup_replicate; destruct Hj as [-> _]; set_solver).
  split; [split|]; cbn.
  - apply length_replicate.
  - done.
  - by apply Forall2_replicate.
  - rewrite Hnil. constructor.
  - intros j cs q Hj Hq. by destruct (Hrep _ _ _ Hj Hq).
  - rewrite Hnil. set_solver.
  - intros k p d. rewrite lookup_empty, Hnil. set_solver.
Qed.

(** The part of the state that freeing buckets keeps. *)
Definition after_free (cs : list Z) (s s' : hstate) : Prop :=
  (∀ q, heap s' !! q = if decide (q ∈ cs) then None else heap s !! q) ∧ hfreed s' = hfreed s ++ (Some <$> cs) ∧
  hsize s' = hsize s ∧ filled s' = filled s ∧ hkey s' = hkey s ∧ herrno s' = herrno s.

Lemma after_free_trans cs cs' s s' s'' : after_free cs s s' → after_free cs' s' s'' → after_free (cs ++ cs') s s''.
Proof.
  intros (H1 & F1 & ?) (H2 & F2 & ?). split_and!; [|by rewrite F2, F1, fmap_app, app_assoc|intuition congruence..].
  intros q. rewrite H2. destruct (decide (q ∈ cs')), (decide (q ∈ cs ++ cs')); [done|set_solver|rewrite H1; case_decide; [done|set_solver]|].
  rewrite H1. case_decide; [set_solver|done].
Qed.

Lemma freelist_loop cs : ∀ p s fuel, chain (heap s) p cs → NoDup cs → (length cs < fuel)%nat →
  ∃ s', loop fuel freelist_body p s = Ok (tt, s') ∧ table s' = table s ∧ after_free cs s s'.
Proof.
  induction cs as [|q cs IH]; intros p s fuel Hch Hnd Hf; (destruct fuel as [|fuel]; [cbn in Hf; lia|]).
  - exists s. split_and!; [by apply loop_Done; unfold freelist_body; rewrite Hch|done|]. split_and!; [|by rewrite app_nil_r|done..].
    intros r. by rewrite decide_False by (by apply not_elem_of_nil).
  - destruct Hch as (-> & Hq & b & Hb & Hch). apply NoDup_cons in Hnd as [Hqcs Hnd].
    set (s1 := add_freed (Some q) (set_heap (delete q (heap s)) s)).
    destruct (IH (bnext b) s1 fuel) as (s' & Hrun & Ht & Ha); [|done|cbn in Hf; lia|].
    { eapply chain_ext, Hch. intros r Hr. cbn. by rewrite lookup_delete_ne by (by intros ->). }
    exists s'. split_and!; [|done|].
    + rewrite (loop_Next _ _ _ _ (bnext b) s1); [done|]. unfold freelist_body. rewrite (proj2 (Z.eqb_neq _ _) Hq).
      by eapply get_bind; [by apply get_bucket_ok|].
    + apply (after_free_trans [q] cs s s1); [|done]. split_and!; try done. intros r. cbn. destruct (decide (r ∈ [q])) as [->%list_elem_of_singleton|Hr].
      * apply lookup_delete_eq.
      * apply lookup_delete_ne. set_solver.
Qed.

Lemma destroy_ok css : ∀ done_ rest s, table s = replicate done_ 0 ++ rest → Forall2 (chain (heap s)) rest css → NoDup (concat css) →
  ∃ s', destroy (length rest) done_ s = Ok (tt, s') ∧ table s' = replicate (done_ + length rest) 0 ∧ after_free (concat css) s s'.
Proof.
  induction css as [|cs css IH]; intros i rest s Ht Hc Hnd.
  { apply Forall2_nil_inv_r in Hc as ->. exists s. rewrite Nat.add_0_r. rewrite app_nil_r in Ht. split_and!; [done|done|].
    split_and!; [|by rewrite app_nil_r|done..]. intros r. by rewrite decide_False by (by apply not_elem_of_nil). }
  apply Forall2_cons_inv_r in Hc as (p & rest' & Hp & Hc & ->). cbn in Hnd. apply NoDup_app in Hnd as (Hcs & Hdisj & Hnd).
  destruct (freelist_loop cs p s (S (size (heap s)))) as (s1 & Hfree & Ht1 & Ha1); [done..|apply chain_length in Hp; [lia|done]|].
  assert (table s !! i = Some p) as Hi by (rewrite Ht, lookup_app_r; rewrite length_replicate; [by rewrite Nat.sub_diag|lia]).
  set (s2 := set_table (<[i:=0]> (table s1)) (hsize s1) s1).
  destruct (IH (S i) rest' s2) as (s' & Hrun & Ht' & Ha); [| |done|].
  { cbn [table set_table s2]. rewrite Ht1, Ht, insert_app_r_alt by (rewrite length_replicate; lia). rewrite length_replicate, Nat.sub_diag.
    by rewrite replicate_S_end, <- app_assoc. }
  { eapply chains_ext, Hc. intros q Hq. destruct Ha1 as [Hh _]. cbn. rewrite Hh. apply decide_False. intros ?. by eapply Hdisj. }
  exists s'. split_and!; [|rewrite Ht'; f_equal; cbn [length]; lia|].
  - cbn [length destroy]. eapply get_bind; [unfold read_place; by rewrite Hi|]. eapply get_bind; [exact Hfree|].
    eapply get_bind; [unfold write_place; by rewrite (proj2 (Nat.ltb_lt _ _)) by (rewrite Ht1; by eapply lookup_lt_Some)|exact Hrun].
  - cbn [concat]. apply (after_free_trans cs (concat css) s s2); [|done]. exact Ha1.
Qed.

(** [hdestroy_r] frees every bucket of the table exactly once and leaves a table
    that represents the empty map.  (The array itself is not freed and [filled]
    keeps its value.) *)
Theorem hdestroy_r_empties s M : represents s M →
  ∃ s' ps, hdestroy_r s = Ok (tt, s') ∧ represents s' ∅ ∧ hfreed s' = hfreed s ++ (Some <$> ps) ∧ NoDup ps ∧
    (∀ p, p ∈ ps ↔ ∃ k d, M !! k = Some (p, d)) ∧ (∀ p, p ∈ ps → heap s' !! p = None) ∧
    length (table s') = length (table s) ∧ filled s' = filled s.
Proof.
  intros (css & Hwf & HM). destruct (destroy_ok css 0 (table s) s eq_refl (wf_chains _ _ Hwf) (wf_nodup _ _ Hwf)) as (s' & Hrun & Ht & Ha).
  pose proof Ha as (Hh & Hf & Hs & Hfi & Hk & _). cbn [Nat.add] in Ht. pose proof (wf_len _ _ Hwf) as Hlen.
  assert (concat (replicate (hsize s) []) = @nil Z) as Hnil by (clear; by induction (hsize s)).
  exists s', (concat css). split_and!; [| |done|apply Hwf| | |by rewrite Ht, length_replicate|done].
  - unfold hdestroy_r. eapply get_bind; [done|]. by rewrite <- Hlen.
  - exists (replicate (hsize s) []). rewrite Hlen in Ht. split; [split|].
    + by rewrite Ht, length_replicate.
    + rewrite Hs. apply Hwf.
    + rewrite Ht. by apply Forall2_replicate.
    + rewrite Hnil. constructor.
    + intros j cs q Hj%lookup_replicate Hq. destruct Hj as [-> _]. set_solver.
    + rewrite Hnil. set_solver.
    + intros k p d. rewrite lookup_empty, Hnil. set_solver.
  - intros p. split.
    + intros Hp. pose proof Hp as (j & cs & Hj & Hq)%elem_of_concat. destruct (wf_hash _ _ Hwf _ _ _ Hj Hq) as ([k d] & hv & He & _).
      exists k, d. apply HM. by eauto.
    + intros (k & d & HMk). apply HM in HMk. by destruct HMk.
  - intros p Hp. rewrite Hh. by apply decide_True.
Qed.

Lemma hdestroy_r_empties_witness : ∃ s' ps, hdestroy_r demo_state = Ok (tt, s') ∧ represents s' ∅ ∧
  hfreed s' = [] ++ (Some <$> ps) ∧ NoDup ps ∧ (∀ p, p ∈ ps ↔ ∃ k d, (∅ : gmap (list Z) (Z * Z)) !! k = Some (p, d)) ∧
  (∀ p, p ∈ ps → heap s' !! p = None) ∧ length (table s') = 1%nat ∧ filled s' = 0.
Proof. apply (hdestroy_r_empties demo_state ∅). apply demo_represents. Defined.

(** A table of size 0, which [hcreate_r] makes without an error, cannot be searched:
    the remainder by the size faults. *)
Theorem hcreate_zero random key d act nb s : Forall byte key →
  (hcreate_r true random 0 ≫= λ _, hsearch_r true nb (mk_entry key d) act) s = Fault.
Proof.
  intros Hk. eapply get_bind; [done|]. unfold hsearch_r. eapply get_bind; [by apply hash_key_ok|]. by eapply get_bind; [done|].
Qed.
