(* ===== verification/Threads.v ===== *)
(** * Mutexes and condition variables

    [lib/mtx_trylock.c], [mtx_timedlock.c], [mtx_lock.c], [mtx_unlock.c],
    [cnd_timedwait.c], [cnd_wait.c], [cnd_signal.c] and [cnd_broadcast.c] of the C11
    threads: one mutex and one condition variable that any number of threads use.

    A function is a tree of atomic operations on the fields ([prog]), which run
    interleaved and in one order for all threads: the [__sync] functions, loads,
    stores and the two [futex] calls.  The kernel's part is the documented behaviour
    of [futex]: [FUTEX_WAIT] compares and goes to sleep in one step, [FUTEX_WAKE]
    wakes sleeping threads; when and how else a sleep ends ([EINTR], [ETIMEDOUT], a
    spurious wake-up) is the parameter [sleep_may_end].  The addresses of the threads
    are not null ([thrd_current] in a program that has created a thread).  *)

From stdpp Require Export relations functions.
From S2P Require Import Prelude.

(** ** Fields and results *)

Inductive fld : Type := LOCK | TYPE | OWNER | SEM.
#[global] Instance fld_eq_dec : EqDecision fld.
Proof. solve_decision. Defined.

(** [mtx_t] with the [sem] of the [cnd_t]. *)
Record mtx : Type := mk_mtx { mlock : Z; mtype : Z; mowner : Z; csem : Z }.

Definition thrd_success : Z := 0.
Definition thrd_timedout : Z := 1.
Definition thrd_busy : Z := 2.
Definition thrd_nomem : Z := 3.
Definition thrd_error : Z := 4.
Definition mtx_recursive : Z := 2.
Definition EWOULDBLOCK : Z := 11.
Definition ETIMEDOUT : Z := 110.

Definition get_fld (o : mtx) (f : fld) : Z :=
  match f with LOCK => mlock o | TYPE => mtype o | OWNER => mowner o | SEM => csem o end.
Definition set_fld (o : mtx) (f : fld) (v : Z) : mtx :=
  match f with
  | LOCK => mk_mtx v (mtype o) (mowner o) (csem o)
  | TYPE => mk_mtx (mlock o) v (mowner o) (csem o)
  | OWNER => mk_mtx (mlock o) (mtype o) v (csem o)
  | SEM => mk_mtx (mlock o) (mtype o) (mowner o) v
  end.

Definition mtx_init (type : Z) (o : mtx) : mtx * Z := (set_fld (set_fld o LOCK 0) TYPE type, thrd_success).
Definition cnd_init (o : mtx) : mtx * Z := (set_fld o SEM 0, thrd_success).

(** ** Programs *)

(** The heads of the loops. *)
Inductive label : Type := L_lock (timed : bool) | L_wait (timed : bool) (i : Z).

(** [Cas] yields the old value, [Add] the new one; [Wait] yields 0 or the error
    number of a failed [FUTEX_WAIT]. *)
Inductive prog : Type :=
| Ret (r : Z)
| Get (f : fld) (k : Z → prog)
| Put (f : fld) (v : Z) (k : prog)
| Cas (f : fld) (old new : Z) (k : Z → prog)
| Add (f : fld) (d : Z) (k : Z → prog)
| Wait (f : fld) (v : Z) (timed : bool) (k : Z → prog)
| Wake (f : fld) (n : Z) (k : prog)
| Goto (l : label).

(** *** mtx_trylock.c *)

(** [if (__sync_add_and_fetch(&lock,1)>1000) { ... }] *)
Definition trylock_count (k : Z → Z → prog) (i : Z) : prog :=
  Add LOCK 1 (λ n, if n >? 1000 then Add LOCK (-1) (λ _, k thrd_error i) else k thrd_success i).

Definition trylock_owner (me : Z) (k : Z → Z → prog) (i : Z) : prog :=
  Get OWNER (λ o, if o =? me then trylock_count k i else k thrd_busy i).

(** [if ((type&mtx_recursive) && owner==me) ...] *)
Definition trylock_held (me : Z) (k : Z → Z → prog) (i : Z) : prog :=
  Get TYPE (λ ty, if Z.land ty mtx_recursive =? 0 then k thrd_busy i else trylock_owner me k i).

(** [k] gets the result and [*lockval]. *)
Definition __mtx_trylock (me : Z) (k : Z → Z → prog) : prog :=
  Cas LOCK 0 1 (λ i, if i =? 0 then Put OWNER me (k thrd_success i) else trylock_held me k i).

Definition mtx_trylock (me : Z) : prog := __mtx_trylock me (λ r _, Ret r).

(** *** mtx_timedlock.c *)

(** After the call of [__mtx_trylock]. *)
Definition lock_tried (timed : bool) (r i : Z) : prog := if r =? thrd_busy then Goto (L_wait timed i) else Ret r.
Definition lock_loop (me : Z) (timed : bool) : prog := __mtx_trylock me (lock_tried timed).

(** The inner loop: any error but [EWOULDBLOCK] and [ETIMEDOUT] repeats the call. *)
Definition lock_waited (timed : bool) (i e : Z) : prog :=
  if e =? 0 then Goto (L_lock timed)
  else if e =? EWOULDBLOCK then Goto (L_lock timed)
  else if e =? ETIMEDOUT then Ret thrd_timedout
  else Goto (L_wait timed i).
Definition wait_loop (timed : bool) (i : Z) : prog := Wait LOCK i timed (lock_waited timed i).

Definition mtx_timedlock (timed : bool) : prog := Goto (L_lock timed).
Definition mtx_lock : prog := mtx_timedlock false.

Definition at_label (me : Z) (l : label) : prog :=
  match l with L_lock timed => lock_loop me timed | L_wait timed i => wait_loop timed i end.

(** *** mtx_unlock.c *)

Definition unlock_wake : prog := Wake LOCK 1 (Ret thrd_success).
Definition unlock_plain : prog := Cas LOCK 1 0 (λ i, if i =? 1 then unlock_wake else Ret thrd_success).
Definition unlock_clear : prog := Put OWNER 0 unlock_wake.
Definition unlock_count : prog := Add LOCK (-1) (λ n, if n =? 0 then unlock_clear else Ret thrd_success).
Definition unlock_owner (me : Z) : prog := Get OWNER (λ o, if o =? me then unlock_count else unlock_plain).
Definition unlock_held (me : Z) : prog :=
  Get TYPE (λ ty, if Z.land ty mtx_recursive =? 0 then unlock_plain else unlock_owner me).
Definition mtx_unlock (me : Z) : prog := Get LOCK (λ l, if l =? 0 then Ret thrd_error else unlock_held me).

(** *** cnd_timedwait.c, cnd_signal.c, cnd_broadcast.c *)

(** Whatever [FUTEX_WAIT] returns, the loop ends: [continue] goes to its condition
    [r==0], which is false for -1. *)
Definition cnd_waited (timed : bool) : prog := Put SEM 0 (mtx_timedlock timed).
Definition cnd_timedwait (timed : bool) : prog := Wait SEM 0 timed (λ _, cnd_waited timed).
Definition cnd_wait : prog := cnd_timedwait false.
Definition cnd_signal : prog := Put SEM 1 (Wake SEM 1 (Ret thrd_success)).
Definition cnd_broadcast : prog := Put SEM 1 (Wake SEM 0x7fffffff (Ret thrd_success)).

(** ** Threads *)

Inductive call : Type := Trylock | Lock | Timedlock | Unlock | Cnd_wait | Cnd_timedwait | Cnd_signal | Cnd_broadcast.
Definition body (me : Z) (c : call) : prog :=
  match c with
  | Trylock => mtx_trylock me | Lock => mtx_lock | Timedlock => mtx_timedlock true | Unlock => mtx_unlock me
  | Cnd_wait => cnd_wait | Cnd_timedwait => cnd_timedwait true | Cnd_signal => cnd_signal | Cnd_broadcast => cnd_broadcast
  end.

Inductive tstate : Type := Outside | Running (c : call) (p : prog) | Asleep (c : call) (f : fld) (timed : bool) (k : Z → prog).

(** [depth] counts what the calls of the thread have told it: the locks it holds. *)
Record thread : Type := mk_thread { st : tstate; depth : Z }.
Record state : Type := mk_state { obj : mtx; thr : Z → thread }.

Definition upd (s : state) (t : Z) (o : mtx) (ts : tstate) : state := mk_state o (<[t := mk_thread ts (depth (thr s t))]> (thr s)).

(** An operation on the fields, or a jump. *)
Definition exec (me : Z) (o : mtx) (p : prog) : option (mtx * prog) :=
  match p with
  | Get f k => Some (o, k (get_fld o f))
  | Put f v k => Some (set_fld o f v, k)
  | Cas f old new k => Some (if get_fld o f =? old then set_fld o f new else o, k (get_fld o f))
  | Add f d k => let n := s32 (get_fld o f + d) in Some (set_fld o f n, k n)
  | Goto l => Some (o, at_label me l)
  | _ => None
  end.

Definition asleep_on (f : fld) (ts : tstate) : Prop := match ts with Asleep _ g _ _ => g = f | _ => False end.

(** The locks a thread holds when it calls [Unlock], and after a call has returned. *)
Definition depth_called (c : call) (d : Z) : Z := match c with Unlock => d - 1 | _ => d end.
Definition depth_returned (c : call) (r d : Z) : Z :=
  match c with Trylock | Lock | Timedlock => if r =? thrd_success then d + 1 else d | _ => d end.
(** A thread unlocks, or waits for the condition, only when it holds the mutex. *)
Definition allowed (c : call) (d : Z) : Prop := match c with Unlock | Cnd_wait | Cnd_timedwait => 0 < d | _ => True end.

Section steps.
Context (sleep_may_end : bool → Z → Prop).

(** Steps of calls that run. *)
Inductive istep (s : state) : state → Prop :=
| i_return t c r : st (thr s t) = Running c (Ret r) →
    istep s (mk_state (obj s) (<[t := mk_thread Outside (depth_returned c r (depth (thr s t)))]> (thr s)))
| i_exec t c p o p' : st (thr s t) = Running c p → exec t (obj s) p = Some (o, p') → istep s (upd s t o (Running c p'))
| i_differs t c f v timed k : st (thr s t) = Running c (Wait f v timed k) → get_fld (obj s) f ≠ v →
    istep s (upd s t (obj s) (Running c (k EWOULDBLOCK)))
| i_sleeps t c f v timed k : st (thr s t) = Running c (Wait f v timed k) → get_fld (obj s) f = v →
    istep s (upd s t (obj s) (Asleep c f timed k))
| i_ends t c f timed k e : st (thr s t) = Asleep c f timed k → sleep_may_end timed e →
    istep s (upd s t (obj s) (Running c (k e)))
| i_wakes t c f n k u c' timed k' : st (thr s t) = Running c (Wake f n k) → 0 < n → st (thr s u) = Asleep c' f timed k' →
    istep s (upd (upd s t (obj s) (Running c (Wake f (n - 1) k))) u (obj s) (Running c' (k' 0)))
| i_woken t c f n k : st (thr s t) = Running c (Wake f n k) → n <= 0 ∨ (∀ u, ¬ asleep_on f (st (thr s u))) →
    istep s (upd s t (obj s) (Running c k)).

Inductive step (s : state) : state → Prop :=
| s_internal s' : istep s s' → step s s'
| s_call t c : t ≠ 0 → st (thr s t) = Outside → allowed c (depth (thr s t)) →
    step s (mk_state (obj s) (<[t := mk_thread (Running c (body t c)) (depth_called c (depth (thr s t)))]> (thr s))).

(** After [mtx_init] of zeroed memory, nobody has called anything yet. *)
Definition initial (s : state) : Prop :=
  (∃ type o, obj s = (mtx_init type o).1 ∧ mowner o = 0) ∧ ∀ t, thr s t = mk_thread Outside 0.
Definition reachable (s : state) : Prop := ∃ s0, initial s0 ∧ rtc step s0 s.
End steps.
