(* ===== verification/ThreadsFacts.v ===== *)
(** * Mutexes exclude, and do not lose wake-ups

    An invariant of every interleaving of the calls of [Threads]: who holds the
    mutex, how often, and which threads will still try for it or wake a sleeper. *)

From S2P Require Import Prelude Threads.
#[local] Open Scope Z_scope.

(** ** Where a thread can be *)

(** What follows [__mtx_trylock]; a blocking call tries again. *)
Inductive cont : (Z → Z → prog) → bool → Prop :=
| c_try : cont (λ r _, Ret r) false
| c_lock timed : cont (lock_tried timed) true.

Definition locks (c : call) : bool := match c with Unlock | Cnd_signal | Cnd_broadcast => false | _ => true end.

(** The points of the code of a thread [me]: with the holder [h] of a mutex that is
    recursive or not and whose owner field is [ow].  The last two arguments are the
    locks the call has taken and not yet given to the caller, or promised to
    release, and whether the call will try for the mutex or wake somebody. *)
Inductive at_point (h : option Z) (rec : bool) (ow me : Z) : tstate → Z → bool → Prop :=
| p_outside : at_point h rec ow me Outside 0 false
| p_try c k a : locks c → cont k a → at_point h rec ow me (Running c (__mtx_trylock me k)) 0 a
| p_owner c k a i : locks c → cont k a → at_point h rec ow me (Running c (Put OWNER me (k thrd_success i))) 1 false
| p_held c k a i : locks c → cont k a → i ≠ 0 → at_point h rec ow me (Running c (trylock_held me k i)) 0 a
| p_who c k a i : locks c → cont k a → i ≠ 0 → rec → at_point h rec ow me (Running c (trylock_owner me k i)) 0 a
| p_count c k a i : locks c → cont k a → i ≠ 0 → h = Some me → at_point h rec ow me (Running c (trylock_count k i)) 0 a
| p_undo c k a i : locks c → cont k a → at_point h rec ow me (Running c (Add LOCK (-1) (λ _, k thrd_error i))) 1 false
| p_ret c r : locks c → at_point h rec ow me (Running c (Ret r)) (if r =? thrd_success then 1 else 0) false
| p_lock c timed : locks c → at_point h rec ow me (Running c (Goto (L_lock timed))) 0 true
| p_again c timed i : locks c → i ≠ 0 → at_point h rec ow me (Running c (Goto (L_wait timed i))) 0 true
| p_wait c timed i : locks c → i ≠ 0 → at_point h rec ow me (Running c (wait_loop timed i)) 0 true
| p_asleep c timed i : locks c → i ≠ 0 → at_point h rec ow me (Asleep c LOCK timed (lock_waited timed i)) 0 false
| u_start : at_point h rec ow me (Running Unlock (mtx_unlock me)) 1 false
| u_held : at_point h rec ow me (Running Unlock (unlock_held me)) 1 false
| u_owner : rec → at_point h rec ow me (Running Unlock (unlock_owner me)) 1 false
| u_count : at_point h rec ow me (Running Unlock unlock_count) 1 false
| u_plain : (rec → ow ≠ me) → at_point h rec ow me (Running Unlock unlock_plain) 1 false
| u_clear : at_point h rec ow me (Running Unlock unlock_clear) 0 true
| u_wake : at_point h rec ow me (Running Unlock unlock_wake) 0 true
| u_woken n : n <= 0 → at_point h rec ow me (Running Unlock (Wake LOCK n (Ret thrd_success))) 0 false
| u_ret c r : locks c = false → at_point h rec ow me (Running c (Ret r)) 0 false
| n_wait c timed : locks c → at_point h rec ow me (Running c (cnd_timedwait timed)) 0 false
| n_asleep c timed : locks c → at_point h rec ow me (Asleep c SEM timed (λ _, cnd_waited timed)) 0 false
| n_set c timed : locks c → at_point h rec ow me (Running c (cnd_waited timed)) 0 false
| g_signal c n : locks c = false → at_point h rec ow me (Running c (Put SEM 1 (Wake SEM n (Ret thrd_success)))) 0 false
| g_wake c n : locks c = false → at_point h rec ow me (Running c (Wake SEM n (Ret thrd_success))) 0 false.

Definition recursive (s : state) : bool := negb (Z.land (mtype (obj s)) mtx_recursive =? 0).

(** What holds of a thread: its own locks are among the mutex's. *)
Definition thread_ok (s : state) (h : option Z) (t : Z) (a : bool) : Prop := ∃ w,
  at_point h (recursive s) (mowner (obj s)) t (st (thr s t)) w a ∧
  0 <= depth (thr s t) ∧ depth (thr s t) + w <= mlock (obj s) ∧ (0 < depth (thr s t) + w → h = Some t).

Definition undoing (ts : tstate) : Prop := ∃ c (k : Z → Z → prog) i,
  locks c ∧ ts = Running c (Add LOCK (-1) (λ _, k thrd_error i)).

Record inv (s : state) (h : option Z) : Prop := {
  v_lock : 0 <= mlock (obj s) <= 1001;
  v_free : mlock (obj s) = 0 ↔ h = None;
  v_full : mlock (obj s) = 1001 → ∃ t, h = Some t ∧ undoing (st (thr s t));
  v_undo t : undoing (st (thr s t)) → mlock (obj s) = 1001;
  v_threads t : ∃ a, thread_ok s h t a;
  v_owner : recursive s → mowner (obj s) ≠ 0 →
    h = Some (mowner (obj s)) ∨ st (thr s (mowner (obj s))) = Running Unlock unlock_clear;
  v_zero : st (thr s 0) = Outside
}.

(** The other threads only depend on the holder, the owner and the count. *)
Lemma at_point_pending h rec ow me ts w a : at_point h rec ow me ts w a → 0 <= w.
Proof. destruct 1; try lia. by destruct (_ =? _). Qed.

Lemma at_point_change h h' rec ow ow' me ts w a : at_point h rec ow me ts w a →
  (h = Some me → h' = Some me) → (ow ≠ me → ow' ≠ me) → at_point h' rec ow' me ts w a.
Proof. destruct 1; intros Hh Ho; try (by econstructor; eauto). Qed.

Lemma at_point_undoing h rec ow me ts w a : at_point h rec ow me ts w a → undoing ts → w = 1.
Proof. destruct 1; intros (c' & k' & i' & Hc & [=]); by subst. Qed.

(** A step of thread [t], which either leaves holder and count alone or finds the
    mutex free or its own. *)
Lemma inv_update s h h' t o ts d a :
  inv s h → t ≠ 0 → mtype o = mtype (obj s) →
  (h' = h ∧ mlock o = mlock (obj s) ∨ h = None ∨ h = Some t) → (h' = h ∨ h' = Some t ∨ h' = None) →
  (mowner o = mowner (obj s) ∨ mowner o = t ∨ mowner o = 0) →
  0 <= mlock o <= 1001 → (mlock o = 0 ↔ h' = None) →
  let s' := mk_state o (<[t := mk_thread ts d]> (thr s)) in
  (mlock o = 1001 → ∃ u, h' = Some u ∧ undoing (st (thr s' u))) →
  (undoing ts → mlock o = 1001) → thread_ok s' h' t a →
  (recursive s → mowner o ≠ 0 → h' = Some (mowner o) ∨ st (thr s' (mowner o)) = Running Unlock unlock_clear) →
  inv s' h'.
Proof.
  intros Hinv Ht Hty Hcase Hh' How Hl Hfree s' Hfull Hundo Hok Hown. assert (recursive s' = recursive s) as Hrec by (unfold recursive; by rewrite <- Hty).
  rewrite <- Hrec in Hown. split; [done|done|done| | |exact Hown|]; [| |by unfold s'; cbn; rewrite fn_lookup_insert_ne by done; apply Hinv].
  { intros u. unfold s'. cbn [obj thr]. destruct (decide (u = t)) as [->|Hne]; [by rewrite fn_lookup_insert|].
    rewrite fn_lookup_insert_ne by done. intros Hu. pose proof (v_undo _ _ Hinv u Hu) as Hu1.
    destruct Hcase as [[_ ->]|Hc]; [done|]. destruct (v_full _ _ Hinv Hu1) as (v & Hv & Hvu).
    enough (h = Some u) by (destruct Hc; congruence). destruct (v_threads _ _ Hinv u) as (b & w & Hat & Hd & _ & Hh). apply Hh.
    apply at_point_undoing in Hat as ->; [lia|done]. }
  intros u. destruct (decide (u = t)) as [->|Hne]; [by exists a|].
  destruct (v_threads _ _ Hinv u) as (b & w & Hat & Hd & Hw & Hholds). exists b, w.
  rewrite Hrec. unfold s'. cbn [obj thr]. rewrite fn_lookup_insert_ne by done.
  pose proof (at_point_pending _ _ _ _ _ _ _ Hat).
  assert (h' = h ∧ mlock o = mlock (obj s) ∨ depth (thr s u) + w = 0) as Hsum.
  { destruct Hcase as [?|Hc]; [by left|right]. enough (¬ 0 < depth (thr s u) + w) by lia. intros ?%Hholds. destruct Hc; congruence. }
  split.
  - destruct (decide (u = 0)) as [->|Hu]; [rewrite (v_zero _ _ Hinv) in Hat |- *; inv Hat; constructor|].
    eapply at_point_change; [exact Hat|..].
    + intros ->. destruct Hcase as [[-> _]|[?|?]]; [done|done|congruence].
    + destruct How as [->|[->| ->]]; done.
  - split_and!; [done|destruct Hsum; lia|]. destruct Hsum as [[-> _]|?]; [done|lia].
Qed.

(** A step that changes neither holder nor count. *)
Lemma inv_quiet s h t o ts d w' a : inv s h → t ≠ 0 →
  mtype o = mtype (obj s) → mlock o = mlock (obj s) → mowner o = mowner (obj s) →
  ¬ undoing (st (thr s t)) → ¬ undoing ts → st (thr s t) ≠ Running Unlock unlock_clear →
  at_point h (recursive s) (mowner (obj s)) t ts w' a →
  0 <= d → d + w' <= mlock (obj s) → (0 < d + w' → h = Some t) →
  inv (mk_state o (<[t := mk_thread ts d]> (thr s))) h.
Proof.
  intros Hinv Ht Hty Hl How Hu Hu' Hc Hat Hd Hw Hh.
  assert (∀ u, (st (thr s u) ≠ st (thr s t)) → thr (mk_state o (<[t := mk_thread ts d]> (thr s))) u = thr s u) as Hother
    by (intros u Hne; cbn; apply fn_lookup_insert_ne; by intros ->).
  eapply (inv_update s h h t o ts d a); rewrite ?Hl, ?How; [done..|by left|by left|by left|apply Hinv|apply Hinv| |done| |].
  - intros Hf. destruct (v_full _ _ Hinv Hf) as (u & Hsu & Hun). exists u. split; [done|]. rewrite Hother; [done|congruence].
  - exists w'. unfold recursive. cbn [obj thr]. rewrite Hty, How, Hl, fn_lookup_insert. by split_and!.
  - intros Hr H0. destruct (v_owner _ _ Hinv Hr H0) as [->|Hcl]; [by left|right]. rewrite Hother; [done|congruence].
Qed.

Lemma cont_busy k a h rec ow me c i : cont k a → locks c → i ≠ 0 →
  at_point h rec ow me (Running c (k thrd_busy i)) 0 a.
Proof. intros [|timed] Hc Hi; [apply (p_ret _ _ _ _ c thrd_busy Hc)|by apply p_again]. Qed.

Lemma cont_done k a h rec ow me c r i : cont k a → locks c → r = thrd_success ∨ r = thrd_error →
  at_point h rec ow me (Running c (k r i)) (if r =? thrd_success then 1 else 0) false.
Proof. intros [|timed] Hc [->| ->]; cbn; by apply p_ret. Qed.

(** What is known of the thread that makes a step. *)
Lemma inv_thread s h t : inv s h → st (thr s t) ≠ Outside → t ≠ 0 ∧ ∃ w a,
  at_point h (recursive s) (mowner (obj s)) t (st (thr s t)) w a ∧
  0 <= depth (thr s t) ∧ depth (thr s t) + w <= mlock (obj s) ∧ (0 < depth (thr s t) + w → h = Some t).
Proof.
  intros Hinv Hst. split; [intros ->; by rewrite (v_zero _ _ Hinv) in Hst|]. destruct (v_threads _ _ Hinv t) as (a & w & Hok). by exists w, a.
Qed.

Lemma s32_small x : 0 <= x < 2000 → s32 x = x.
Proof. intros. int_lia. Qed.

Lemma cont_undoing k a c r i : cont k a → ¬ undoing (Running c (k r i)).
Proof. intros [|timed] (c' & k' & i' & Hc & Heq); [done|]. unfold lock_tried in Heq. by destruct (_ =? _). Qed.

(** Reduces the accesses to fields, and nothing else. *)
Tactic Notation "fields" := cbn [obj thr st depth set_fld get_fld mlock mtype mowner csem upd].
Tactic Notation "fields" "in" "*" := cbn [obj thr st depth set_fld get_fld mlock mtype mowner csem upd] in *.
Tactic Notation "fields" "in" hyp(H) := cbn [obj thr st depth set_fld get_fld mlock mtype mowner csem upd] in H.
Tactic Notation "fields" "in" hyp(H) "|-" "*" := cbn [obj thr st depth set_fld get_fld mlock mtype mowner csem upd] in H |- *.

(** *** The steps that matter *)
Section exec.
Context (s : state) (h : option Z) (t : Z).
Hypothesis Hinv : inv s h.
Hypothesis Ht : t ≠ 0.

(** Taking a free mutex. *)
Lemma inv_take c k a : locks c → cont k a → st (thr s t) = Running c (__mtx_trylock t k) → mlock (obj s) = 0 →
  0 <= depth (thr s t) <= mlock (obj s) →
  inv (upd s t (set_fld (obj s) LOCK 1) (Running c (Put OWNER t (k thrd_success 0)))) (Some t).
Proof.
  intros Hc Hk Hst H0 Hd. apply (v_free _ _ Hinv) in H0 as Hh. eapply (inv_update s h (Some t) t _ _ _ false); [done|done|done|by right; left|by right; left|by left|fields; lia|by split|fields; lia|..].
  - intros Hun. exfalso. by destruct Hun as (? & ? & ? & ? & ?).
  - exists 1. fields. rewrite fn_lookup_insert. fields. split_and!; [by eapply p_owner|lia|fields; lia|done].
  - intros Hr Ho. fields in *. destruct (v_owner _ _ Hinv Hr Ho) as [Hh'|Hcl]; [congruence|right].
    rewrite fn_lookup_insert_ne by (intros He; rewrite <- He, Hst in Hcl; by injection Hcl). done.
Qed.

(** Setting the owner field to the holder. *)
Lemma inv_owner c k a i : locks c → cont k a → st (thr s t) = Running c (Put OWNER t (k thrd_success i)) →
  0 <= depth (thr s t) → depth (thr s t) + 1 <= mlock (obj s) → h = Some t →
  inv (upd s t (set_fld (obj s) OWNER t) (Running c (k thrd_success i))) h.
Proof.
  intros Hc Hk Hst Hd Hw Hh. eapply (inv_update s h h t _ _ _ false); [done|done|done|by left|by left|by right; left|apply Hinv|apply Hinv|..].
  - intros Hf. fields in Hf. destruct (v_full _ _ Hinv Hf) as (u & Hu & Hun). exists u. split; [done|].
    rewrite Hh in Hu. injection Hu as <-. rewrite Hst in Hun. by destruct Hun as (? & ? & ? & ? & ?).
  - intros Hun. exfalso. by eapply cont_undoing.
  - exists 1. fields. rewrite fn_lookup_insert. fields. split_and!; [|done|done|done]. by apply (cont_done k a _ _ _ _ c thrd_success i Hk Hc); left.
  - intros _ _. by left.
Qed.

(** Counting up and back. *)
Lemma inv_count c k a i : locks c → cont k a → st (thr s t) = Running c (trylock_count k i) →
  0 <= depth (thr s t) <= mlock (obj s) → h = Some t →
  let n := mlock (obj s) + 1 in
  inv (upd s t (set_fld (obj s) LOCK n) (Running c (if n >? 1000 then Add LOCK (-1) (λ _, k thrd_error i) else k thrd_success i))) h.
Proof.
  intros Hc Hk Hst Hd Hh n. pose proof (v_lock _ _ Hinv) as Hl.
  assert (mlock (obj s) ≠ 1001) as Hl1.
  { intros Hf. destruct (v_full _ _ Hinv Hf) as (u & Hu & Hun). rewrite Hh in Hu. injection Hu as <-. rewrite Hst in Hun.
    by destruct Hun as (? & ? & ? & ? & ?). }
  assert (mlock (obj s) ≠ 0) as Hl0 by (rewrite (v_free _ _ Hinv), Hh; done).
  eapply (inv_update s h h t _ _ _ false); [done|done|done|by right; right|by left|by left|fields; lia|fields; rewrite Hh; split; [unfold n; lia|done]|..].
  - intros Hf. exists t. split; [done|]. fields in Hf |- *. rewrite fn_lookup_insert, Hf. fields. by exists c, k, i.
  - intros Hun. fields. destruct (Z.gtb_spec n 1000); [unfold n in *; lia|exfalso; by eapply cont_undoing].
  - exists 1. fields. rewrite fn_lookup_insert. fields. split_and!; [|lia|fields; lia|done]. destruct (n >? 1000); [by eapply p_undo|].
    by apply (cont_done k a _ _ _ _ c thrd_success i Hk Hc); left.
  - intros Hr Ho. fields in *. destruct (v_owner _ _ Hinv Hr Ho) as [Hh'|Hcl]; [by left|right].
    rewrite fn_lookup_insert_ne by (intros He; rewrite <- He, Hst in Hcl; by injection Hcl). done.
Qed.

Lemma inv_undo c k a i : locks c → cont k a → st (thr s t) = Running c (Add LOCK (-1) (λ _, k thrd_error i)) →
  0 <= depth (thr s t) → depth (thr s t) + 1 <= mlock (obj s) → h = Some t →
  (mlock (obj s) ≠ 1) →
  inv (upd s t (set_fld (obj s) LOCK (mlock (obj s) - 1)) (Running c (k thrd_error i))) h.
Proof.
  intros Hc Hk Hst Hd Hw Hh H1. pose proof (v_lock _ _ Hinv) as Hl.
  eapply (inv_update s h h t _ _ _ false); [done|done|done|by right; right|by left|by left|fields; lia|fields; rewrite Hh; split; [lia|done]|fields; lia|..].
  - intros Hun. exfalso. by eapply cont_undoing.
  - exists 0. fields. rewrite fn_lookup_insert. fields. split_and!; [|lia|fields; lia|done].
    by apply (cont_done k a _ _ _ _ c thrd_error i Hk Hc); right.
  - intros Hr Ho. fields in *. destruct (v_owner _ _ Hinv Hr Ho) as [Hh'|Hcl]; [by left|right].
    rewrite fn_lookup_insert_ne by (intros He; rewrite <- He, Hst in Hcl; by injection Hcl). done.
Qed.

(** Giving the mutex back. *)
Lemma inv_down : st (thr s t) = Running Unlock unlock_count → 0 <= depth (thr s t) → depth (thr s t) + 1 <= mlock (obj s) → h = Some t →
  let n := mlock (obj s) - 1 in
  inv (upd s t (set_fld (obj s) LOCK n) (Running Unlock (if n =? 0 then unlock_clear else Ret thrd_success))) (if n =? 0 then None else h).
Proof.
  intros Hst Hd Hw Hh n. pose proof (v_lock _ _ Hinv) as Hl.
  eapply (inv_update s h _ t _ _ _ (n =? 0)); [done|done|done|by right; right|destruct (n =? 0); auto|by left|fields; lia|..].
  - fields. destruct (Z.eqb_spec n 0); rewrite ?Hh; by split.
  - fields. lia.
  - intros (? & ? & ? & ? & Heq). exfalso. by destruct (n =? 0); injection Heq as <-.
  - exists 0. fields. rewrite fn_lookup_insert. fields. destruct (Z.eqb_spec n 0).
    + split_and!; [constructor|done|lia|lia].
    + split_and!; [by constructor|lia|lia|done].
  - intros Hr Ho. fields in *. destruct (decide (mowner (obj s) = t)) as [->|Hne].
    + rewrite fn_lookup_insert. fields. destruct (n =? 0); [by right|by left].
    + right. destruct (v_owner _ _ Hinv Hr Ho) as [Hh'|Hcl]; [congruence|]. by rewrite fn_lookup_insert_ne.
Qed.

Lemma inv_plain : st (thr s t) = Running Unlock unlock_plain → (recursive s → mowner (obj s) ≠ t) → mlock (obj s) = 1 →
  depth (thr s t) = 0 → h = Some t →
  inv (upd s t (set_fld (obj s) LOCK 0) (Running Unlock unlock_wake)) None.
Proof.
  intros Hst Hno H1 Hd Hh.
  eapply (inv_update s h None t _ _ _ true); [done|done|done|by right; right|by right; right|by left|fields; lia|done|fields; lia|..].
  - intros Hun. exfalso. by destruct Hun as (? & ? & ? & ? & ?).
  - exists 0. fields. rewrite fn_lookup_insert. fields. rewrite Hd. split_and!; [constructor|done|done|lia].
  - intros Hr Ho. fields in *. specialize (Hno Hr). right. destruct (v_owner _ _ Hinv Hr Ho) as [Hh'|Hcl]; [congruence|].
    by rewrite fn_lookup_insert_ne.
Qed.

Lemma inv_clear : st (thr s t) = Running Unlock unlock_clear → 0 <= depth (thr s t) <= mlock (obj s) → (0 < depth (thr s t) → h = Some t) →
  inv (upd s t (set_fld (obj s) OWNER 0) (Running Unlock unlock_wake)) h.
Proof.
  intros Hst Hd Hh. eapply (inv_update s h h t _ _ _ true); [done|done|done|by left|by left|by right; right|apply Hinv|apply Hinv|..].
  - intros Hf. fields in Hf. destruct (v_full _ _ Hinv Hf) as (u & Hu & Hun). exists u. split; [done|]. fields.
    rewrite fn_lookup_insert_ne; [done|]. intros <-. rewrite Hst in Hun. by destruct Hun as (? & ? & ? & ? & ?).
  - intros Hun. exfalso. by destruct Hun as (? & ? & ? & ? & ?).
  - exists 0. fields. rewrite fn_lookup_insert. fields. rewrite Z.add_0_r. split_and!; [constructor|lia|lia|done].
  - intros _ Ho. done.
Qed.
End exec.

Lemma Running_inj c c' p p' : Running c p = Running c' p' → c = c' ∧ p = p'.
Proof. by injection 1. Qed.

Ltac quiet Hst w :=
  eapply (inv_quiet _ _ _ _ _ _ w); [done|done|reflexivity|reflexivity|reflexivity
    |rewrite Hst; intros (? & ? & ? & ? & [=])|first [intros (? & ? & ? & ? & [=]); by subst|by eapply cont_undoing|idtac]|rewrite Hst; intros [=]| |lia|lia|first [done|lia|intros; match goal with H : _ → _ = Some _ |- _ => apply H; lia end]].

(** Every operation keeps the invariant. *)
Lemma exec_inv s h t c p o p' : inv s h → st (thr s t) = Running c p → exec t (obj s) p = Some (o, p') →
  ∃ h', inv (upd s t o (Running c p')) h'.
Proof.
  intros Hinv Hst Hexec. destruct (inv_thread s h t Hinv) as (Ht & w & a & Hat & Hd & Hw & Hh); [by rewrite Hst|].
  rewrite Hst in Hat. pose proof (v_lock _ _ Hinv) as Hl. inversion Hat; subst; cbn [exec] in Hexec.
  - injection Hexec as <- <-. fields. destruct (Z.eqb_spec (mlock (obj s)) 0) as [E|E].
    + exists (Some t). rewrite E. eapply inv_take; [done|done|done|done|done|done|lia].
    + exists h. quiet Hst 0. by apply p_held.
  - injection Hexec as <- <-. exists h. eapply inv_owner; [done|done|done|done|done|done|done|]. apply Hh. lia.
  - injection Hexec as <- <-. exists h. fields. destruct (Z.eqb_spec (Z.land (mtype (obj s)) mtx_recursive) 0) as [E|E]; quiet Hst 0.
    + by apply cont_busy.
    + apply p_who; try done. unfold recursive. by rewrite (proj2 (Z.eqb_neq _ _) E).
  - injection Hexec as <- <-. exists h. fields. destruct (Z.eqb_spec (mowner (obj s)) t) as [E|E]; quiet Hst 0.
    + apply p_count; try done. destruct (v_owner _ _ Hinv) as [?|Hcl]; [done|congruence|congruence|].
      rewrite E, Hst in Hcl. by injection Hcl.
    + by apply cont_busy.
  - injection Hexec as <- <-. exists (Some t). fields. rewrite s32_small by lia. eapply inv_count; [done|done|done|done|done|lia|done].
  - assert (mlock (obj s) = 1001) as Hf by (apply (v_undo _ _ Hinv t); rewrite Hst; by exists c, k, i).
    injection Hexec as <- <-. exists h. fields. rewrite s32_small by lia. eapply inv_undo; [done|done|done|done|done|lia|lia|apply Hh; lia|lia].
  - done.
  - injection Hexec as <- <-. exists h. quiet Hst 0. by apply p_try, c_lock.
  - injection Hexec as <- <-. exists h. quiet Hst 0. by apply p_wait.
  - done.
  - injection Hexec as <- <-. exists h. fields. rewrite (proj2 (Z.eqb_neq _ _)) by lia. quiet Hst 1. constructor.
  - injection Hexec as <- <-. exists h. fields. destruct (Z.eqb_spec (Z.land (mtype (obj s)) mtx_recursive) 0) as [E|E]; quiet Hst 1.
    + constructor. unfold recursive. by rewrite E.
    + constructor. unfold recursive. by rewrite (proj2 (Z.eqb_neq _ _) E).
  - injection Hexec as <- <-. exists h. fields. destruct (Z.eqb_spec (mowner (obj s)) t) as [E|E]; quiet Hst 1; [apply u_count|by apply u_plain].
  - injection Hexec as <- <-. fields. rewrite s32_small by lia. eexists. eapply inv_down; [done|done|done|done|lia|]. apply Hh. lia.
  - injection Hexec as <- <-. fields. destruct (Z.eqb_spec (mlock (obj s)) 1) as [E|E].
    + exists None. eapply inv_plain; [done|done|done|done|done|lia|]. apply Hh. lia.
    + exists h. quiet Hst 0. by apply u_ret.
  - injection Hexec as <- <-. exists h. rewrite Z.add_0_r in *. eapply inv_clear; [done|done|done|lia|done].
  - done.
  - done.
  - done.
  - done.
  - injection Hexec as <- <-. exists h. quiet Hst 0. by constructor.
  - injection Hexec as <- <-. exists h. quiet Hst 0. by constructor.
  - done.
Qed.

Section reach.
Context (sleep_may_end : bool → Z → Prop).

Lemma waited_point h rec ow me c timed i e : locks c → i ≠ 0 → ∃ a, at_point h rec ow me (Running c (lock_waited timed i e)) 0 a.
Proof.
  intros Hc Hi. unfold lock_waited. destruct (e =? 0); [eexists; by apply p_lock|]. destruct (e =? EWOULDBLOCK); [eexists; by apply p_lock|].
  destruct (e =? ETIMEDOUT); [exists false; apply (p_ret _ _ _ _ c thrd_timedout Hc)|eexists; by apply p_again].
Qed.

(** Waking a sleeping thread changes only that thread. *)
Lemma wake_inv s h u c f timed k e : inv s h → st (thr s u) = Asleep c f timed k → inv (upd s u (obj s) (Running c (k e))) h.
Proof.
  intros Hinv Hst. destruct (inv_thread s h u Hinv) as (Hu & w & a & Hat & Hd & Hw & Hh); [by rewrite Hst|].
  rewrite Hst in Hat. inversion Hat; subst.
  - destruct (waited_point h (recursive s) (mowner (obj s)) u c timed i e) as [a Ha]; [done..|].
    eapply (inv_quiet _ _ _ _ _ _ 0); [done|done|reflexivity|reflexivity|reflexivity|rewrite Hst; by intros (? & ? & ? & ? & ?)| |by rewrite Hst|done|lia|lia|done].
    intros Hun. by apply (at_point_undoing _ _ _ _ _ _ _ Ha) in Hun.
  - quiet Hst 0. by apply n_set.
Qed.

Lemma istep_inv s s' h : inv s h → istep sleep_may_end s s' → ∃ h', inv s' h'.
Proof.
  intros Hinv Hstep. inversion Hstep as [t c r Hst|t c p o p' Hst He|t c f v timed k Hst Hne|t c f v timed k Hst Heq|t c f timed k e Hst Hm|t c f n k u c' timed k' Hst Hn Hsu|t c f n k Hst Hn]; subst;
    try (destruct (inv_thread s h t Hinv) as (Ht & w & a & Hat & Hd & Hw & Hh); [by rewrite Hst|]; rewrite Hst in Hat).
  - exists h. inversion Hat; subst.
    + assert (depth_returned c r (depth (thr s t)) = depth (thr s t) ∨ r = thrd_success ∧ depth_returned c r (depth (thr s t)) = depth (thr s t) + 1) as Hdr
        by (destruct c; cbn; try (by left); destruct (Z.eqb_spec r thrd_success); auto).
      destruct Hdr as [->|[-> ->]]; [destruct (r =? thrd_success)|]; cbn in Hw, Hh; quiet Hst 0; constructor.
    + assert (depth_returned c r (depth (thr s t)) = depth (thr s t)) as -> by (by destruct c). quiet Hst 0. constructor.
  - by eapply exec_inv.
  - exists h. inversion Hat; subst; quiet Hst 0; [by apply p_lock|by apply n_set].
  - exists h. inversion Hat; subst; quiet Hst 0; [|by apply n_asleep]. apply p_asleep; done.
  - exists h. by eapply wake_inv.
  - assert (t ≠ u) as Htu by (intros ->; congruence). exists h.
    assert (inv (upd s t (obj s) (Running c (Wake f (n - 1) k))) h) as Hinv1.
    { inversion Hat; subst; try lia; quiet Hst 0; [apply u_woken; lia|by apply g_wake]. }
    apply (wake_inv _ h u c' f timed k' 0 Hinv1). fields. by rewrite fn_lookup_insert_ne.
  - exists h. inversion Hat; subst; quiet Hst 0; by apply u_ret.
Qed.

Lemma call_inv s t c h : inv s h → t ≠ 0 → st (thr s t) = Outside → allowed c (depth (thr s t)) →
  inv (mk_state (obj s) (<[t := mk_thread (Running c (body t c)) (depth_called c (depth (thr s t)))]> (thr s))) h.
Proof.
  intros Hinv Ht Hst Ha. destruct (v_threads _ _ Hinv t) as (a & w & Hat & Hd & Hw & Hh). rewrite Hst in Hat. inv Hat.
  rewrite Z.add_0_r in Hw, Hh. destruct c; cbn in Ha |- *; [..|quiet Hst 1; [constructor]| | | | ]; quiet Hst 0.
  - by apply p_try, c_try.
  - by apply p_lock.
  - by apply p_lock.
  - by apply n_wait.
  - by apply n_wait.
  - by apply g_signal.
  - by apply g_signal.
Qed.

Lemma step_inv s s' h : inv s h → step sleep_may_end s s' → ∃ h', inv s' h'.
Proof. intros Hinv [s1 Hi|t c Ht Hst Ha]; [by eapply istep_inv|exists h; by apply call_inv]. Qed.

Lemma reachable_inv s : reachable sleep_may_end s → ∃ h, inv s h.
Proof.
  intros (s0 & [(ty & o & Ho & Hown) Hthr] & Hrtc). assert (∃ h, inv s0 h) as Hinv.
  { exists None. split.
    - by rewrite Ho.
    - by rewrite Ho.
    - by rewrite Ho.
    - intros t (? & ? & ? & ? & Hu). by rewrite Hthr in Hu.
    - intros t. exists false, 0. rewrite Hthr, Ho. fields. split_and!; [constructor|done..].
    - intros _ H0. exfalso. apply H0. by rewrite Ho.
    - by rewrite Hthr. }
  clear -Hinv Hrtc. induction Hrtc as [|s s1 s' Hs _ IH]; [done|]. apply IH. destruct Hinv as [h Hinv]. by eapply step_inv.
Qed.

(** C7: Whatever the threads do (any number of them, blocking, timed and trying
    calls, recursive or not, signals to the condition variable and interrupted or
    spurious returns of [futex] included), at most one of them holds the mutex, as
    long as each unlocks only what it holds; and the count never overflows. *)
Theorem mutual_exclusion s t u : reachable sleep_may_end s → 0 < depth (thr s t) → 0 < depth (thr s u) →
  t = u ∧ 0 < mlock (obj s) <= 1001.
Proof.
  intros (h & Hinv)%reachable_inv Ht Hu. pose proof (v_lock _ _ Hinv).
  destruct (v_threads _ _ Hinv t) as (a & w & Hat & _ & Hw & Hh), (v_threads _ _ Hinv u) as (b & x & Hbt & _ & Hx & Hg).
  apply at_point_pending in Hat, Hbt. assert (h = Some t) by (apply Hh; lia). assert (h = Some u) by (apply Hg; lia).
  split; [congruence|lia].
Qed.
End reach.

(** ** No wake-up is lost *)

(** The threads that will try for the mutex again, or wake a thread that does. *)
Inductive active (me : Z) : tstate → Prop :=
| a_lock c timed : locks c → active me (Running c (Goto (L_lock timed)))
| a_try c timed : locks c → active me (Running c (lock_loop me timed))
| a_held c timed i : locks c → i ≠ 0 → active me (Running c (trylock_held me (lock_tried timed) i))
| a_who c timed i : locks c → i ≠ 0 → active me (Running c (trylock_owner me (lock_tried timed) i))
| a_again c timed i : locks c → i ≠ 0 → active me (Running c (Goto (L_wait timed i)))
| a_wait c timed i : locks c → i ≠ 0 → active me (Running c (wait_loop timed i))
| a_clear : active me (Running Unlock unlock_clear)
| a_wake : active me (Running Unlock unlock_wake).

(** When a thread sleeps, the mutex is held or somebody is active. *)
Definition no_lost_wakeup (s : state) : Prop :=
  (∃ t, asleep_on LOCK (st (thr s t))) → 0 < mlock (obj s) ∨ ∃ t, active t (st (thr s t)).

Lemma wakeup_update s t o ts d : no_lost_wakeup s →
  (mlock o = mlock (obj s) ∨ 0 < mlock o ∨ active t ts) →
  (active t (st (thr s t)) → 0 < mlock o ∨ active t ts) →
  (asleep_on LOCK ts → 0 < mlock o) →
  no_lost_wakeup (mk_state o (<[t := mk_thread ts d]> (thr s))).
Proof.
  intros HJ Hl Hact Hsleep (v & Hv). fields in *.
  assert (active t ts → ∃ u, active u (st (<[t := mk_thread ts d]> (thr s) u))) as Hself by (intros; exists t; by rewrite fn_lookup_insert).
  destruct (decide (v = t)) as [->|Hvt]; [rewrite fn_lookup_insert in Hv; by left; apply Hsleep|].
  rewrite fn_lookup_insert_ne in Hv by done. destruct HJ as [Hpos|(u & Hu)]; [by exists v|..].
  - destruct Hl as [->|[?|?]]; auto.
  - destruct (decide (u = t)) as [->|Hut]; [destruct (Hact Hu); auto|]. right. exists u. by rewrite fn_lookup_insert_ne.
Qed.

(** Of the calls that have seen the mutex taken, only the blocking ones are active. *)
Lemma active_blocking k a me c i : cont k a →
  active me (Running c (trylock_held me k i)) ∨ active me (Running c (trylock_owner me k i)) → ∃ timed, k = lock_tried timed.
Proof.
  intros Hk Hact. destruct Hk as [|timed]; [exfalso|by exists timed].
  destruct Hact as [H|H]; inversion H; match goal with E : (λ _, _) = _ |- _ => rename E into Heq end.
  - by apply (f_equal (λ f, f 0)) in Heq.
  - apply (f_equal (λ f, f (me + 1))) in Heq. by rewrite (proj2 (Z.eqb_neq (me + 1) me)) in Heq by lia.
Qed.

Ltac inactive := intros Hact; inversion Hact; subst; done.

Lemma exec_wakeup s h t c p o p' : inv s h → no_lost_wakeup s → st (thr s t) = Running c p → exec t (obj s) p = Some (o, p') →
  no_lost_wakeup (upd s t o (Running c p')).
Proof.
  intros Hinv HJ Hst Hexec. destruct (inv_thread s h t Hinv) as (Ht & w & a & Hat & Hd & Hw & Hh); [by rewrite Hst|].
  rewrite Hst in Hat. pose proof (v_lock _ _ Hinv) as Hl. inversion Hat; subst; cbn [exec] in Hexec;
    try (injection Hexec as <- <-); fields; try done; rewrite ?s32_small by lia;
    apply wakeup_update; rewrite ?Hst; try done; fields; try (by left); try inactive.
  - destruct (Z.eqb_spec (mlock (obj s)) 0); fields; [right; left; lia|by left].
  - intros _. left. destruct (Z.eqb_spec (mlock (obj s)) 0); fields; lia.
  - intros Hact. right. destruct (active_blocking k a t c i) as [timed ->]; [done|by left|].
    destruct (_ =? 0); [by apply a_again|by apply a_who].
  - intros Hact. destruct (active_blocking k a t c i) as [timed ->]; [done|by right|].
    destruct (Z.eqb_spec (mowner (obj s)) t) as [E|E]; [left|right; by apply a_again].
    assert (h = Some t) as ->; [|assert (mlock (obj s) ≠ 0) by (by rewrite (v_free _ _ Hinv)); lia].
    destruct (v_owner _ _ Hinv) as [?|Hcl]; [done|congruence|congruence|]. rewrite E, Hst in Hcl. by injection Hcl.
  - right. left. lia.
  - right. left. assert (mlock (obj s) = 1001); [|lia]. apply (v_undo _ _ Hinv t). rewrite Hst. by exists c, k, i.
  - intros _. right. by apply a_try.
  - intros _. right. by apply a_wait.
  - destruct (Z.eqb_spec (mlock (obj s) + -1) 0) as [->|]; [right; right; apply a_clear|right; left; lia].
  - destruct (Z.eqb_spec (mlock (obj s)) 1) as [->|]; [right; right; apply a_wake|by left].
  - intros _. right. apply a_wake.
Qed.

Section liveness.
Context (sleep_may_end : bool → Z → Prop).

Lemma no_sleeper_wakeup s s' : (∀ u, asleep_on LOCK (st (thr s' u)) → asleep_on LOCK (st (thr s u))) →
  (∀ u, ¬ asleep_on LOCK (st (thr s u))) → no_lost_wakeup s'.
Proof. intros H1 H2 (u & Hu). exfalso. by eapply H2, H1. Qed.

Lemma step_wakeup s s' h : inv s h → no_lost_wakeup s → step sleep_may_end s s' → no_lost_wakeup s'.
Proof.
  intros Hinv HJ [s1 Hstep|t c Ht Hst Ha]; [|by apply wakeup_update; [done|by left|rewrite Hst; inactive|]].
  pose proof (v_lock _ _ Hinv) as Hl.
  inversion Hstep as [t c r Hst|t c p o p' Hst He|t c f v timed k Hst Hne|t c f v timed k Hst Heq|t c f timed k e Hst Hm|t c f n k u c' timed k' Hst Hn Hsu|t c f n k Hst Hn]; subst;
    try (destruct (inv_thread s h t Hinv) as (Ht & w & a & Hat & Hd & Hw & Hh); [by rewrite Hst|]; rewrite Hst in Hat).
  - by apply wakeup_update; [done|by left|rewrite Hst; inactive|].
  - by eapply exec_wakeup.
  - inversion Hat; subst; apply wakeup_update; rewrite ?Hst; try done; try (by left); [|inactive]. intros _. right. by apply a_lock.
  - inversion Hat; subst; apply wakeup_update; rewrite ?Hst; try done; try (by left); [| |inactive]; fields in *; [left; lia|lia].
  - apply wakeup_update; [done|by left|rewrite Hst; inactive|done].
  - assert (t ≠ u) as Htu by (intros ->; congruence). destruct (inv_thread s h u Hinv) as (Hu & x & b & Hbt & _); [by rewrite Hsu|].
    rewrite Hsu in Hbt. inversion Hbt; subst.
    + intros _. right. exists u. fields. rewrite fn_lookup_insert. by apply a_lock.
    + apply wakeup_update; [|by left|fields; rewrite fn_lookup_insert_ne, Hsu by done; inactive|done].
      inversion Hat; subst. apply wakeup_update; [done|by left|rewrite Hst; inactive|done].
  - destruct Hn as [Hn|Hn].
    + apply wakeup_update; [done|by left|rewrite Hst|by inversion Hat; subst]. intros Hact. inversion Hact; subst. lia.
    + inversion Hat; subst; try (by apply wakeup_update; [done|by left|rewrite Hst; inactive|]).
      eapply (no_sleeper_wakeup s); [|done]. intros u. fields. destruct (decide (u = t)) as [->|Hut]; [by rewrite fn_lookup_insert|by rewrite fn_lookup_insert_ne].
Qed.

Lemma reachable_wakeup s : reachable sleep_may_end s → (∃ h, inv s h) ∧ no_lost_wakeup s.
Proof.
  intros Hr. split; [by eapply reachable_inv|]. destruct Hr as (s0 & Hi & Hrtc).
  assert (no_lost_wakeup s0) as HJ by (intros (t & Ht); destruct Hi as [_ Hthr]; by rewrite Hthr in Ht).
  assert (∃ h, inv s0 h) as Hinv by (apply (reachable_inv sleep_may_end); by exists s0).
  clear Hi. induction Hrtc as [|s s1 s' Hs _ IH]; [done|]. destruct Hinv as [h Hinv]. apply IH; [by eapply step_wakeup|by eapply step_inv].
Qed.
(** From [s] on, running calls alone can bring a blocking call to take the mutex. *)
Definition gets_mutex (s : state) : Prop := ∃ s' t c, rtc (istep sleep_may_end) s s' ∧ locks c ∧
  st (thr s' t) = Running c (Ret thrd_success) ∧ mlock (obj s') = 1 ∧ mowner (obj s') = t.

Lemma gets_step s s1 : istep sleep_may_end s s1 → gets_mutex s1 → gets_mutex s.
Proof. intros Hs (s' & t & c & Hrtc & H). exists s', t, c. split; [by eapply rtc_l|done]. Qed.

Lemma gets_exec s t c p o p' : st (thr s t) = Running c p → exec t (obj s) p = Some (o, p') →
  gets_mutex (upd s t o (Running c p')) → gets_mutex s.
Proof. intros. eapply gets_step; [by eapply i_exec|done]. Qed.

Lemma upd_self s t o ts : st (thr (upd s t o ts) t) = ts.
Proof. fields. by rewrite fn_lookup_insert. Qed.

Section free.
Context (s : state) (t : Z) (c : call) (timed : bool) (i : Z).
Hypothesis Hfree : mlock (obj s) = 0.
Hypothesis Hc : locks c.

Lemma gets_try : st (thr s t) = Running c (lock_loop t timed) → gets_mutex s.
Proof.
  intros Hst. eapply gets_exec; [done|reflexivity|]. cbv beta. fields. rewrite Hfree, Z.eqb_refl.
  eapply gets_exec; [by rewrite upd_self|done|]. eexists _, t, c. split; [apply rtc_refl|]. by rewrite upd_self.
Qed.
End free.

Lemma gets_lock s t c timed : mlock (obj s) = 0 → locks c → st (thr s t) = Running c (Goto (L_lock timed)) → gets_mutex s.
Proof. intros H0 Hc Hst. eapply gets_exec; [done|done|]. eapply gets_try; [done|done|by rewrite upd_self]. Qed.

Lemma gets_wait s t c timed i : mlock (obj s) = 0 → locks c → i ≠ 0 → st (thr s t) = Running c (wait_loop timed i) → gets_mutex s.
Proof.
  intros H0 Hc Hi Hst. eapply gets_step; [eapply i_differs; [exact Hst|fields; congruence]|].
  eapply gets_lock; [done|done|by rewrite upd_self].
Qed.

Lemma gets_again s t c timed i : mlock (obj s) = 0 → locks c → i ≠ 0 → st (thr s t) = Running c (Goto (L_wait timed i)) → gets_mutex s.
Proof. intros H0 Hc Hi Hst. eapply gets_exec; [done|done|]. eapply gets_wait; [done|done|done|by rewrite upd_self]. Qed.

Lemma gets_wake s t h v : inv s h → mlock (obj s) = 0 → st (thr s t) = Running Unlock unlock_wake → asleep_on LOCK (st (thr s v)) → gets_mutex s.
Proof.
  intros Hinv H0 Hst Hv. destruct (st (thr s v)) as [| |c f timed k] eqn:Hsv; try done. cbn in Hv. subst f.
  destruct (inv_thread s h v Hinv) as (Hv & w & a & Hat & _); [by rewrite Hsv|]. rewrite Hsv in Hat. inversion Hat; subst.
  eapply gets_step; [by eapply i_wakes|]. eapply gets_lock; [done|done|by rewrite upd_self].
Qed.

Lemma not_owner s h t : inv s h → mlock (obj s) = 0 → t ≠ 0 → recursive s → st (thr s t) ≠ Running Unlock unlock_clear → mowner (obj s) ≠ t.
Proof.
  intros Hinv H0 Ht Hr Hst <-. apply (v_free _ _ Hinv) in H0. destruct (v_owner _ _ Hinv Hr Ht); [congruence|done].
Qed.

Lemma gets_who s t c timed i : mlock (obj s) = 0 → locks c → i ≠ 0 → mowner (obj s) ≠ t →
  st (thr s t) = Running c (trylock_owner t (lock_tried timed) i) → gets_mutex s.
Proof.
  intros H0 Hc Hi Ho Hst. eapply gets_exec; [done|reflexivity|]. cbv beta. fields. rewrite (proj2 (Z.eqb_neq _ _) Ho).
  by eapply gets_again; [| | |by rewrite upd_self].
Qed.

Lemma gets_held s t c timed i : mlock (obj s) = 0 → locks c → i ≠ 0 → (recursive s → mowner (obj s) ≠ t) →
  st (thr s t) = Running c (trylock_held t (lock_tried timed) i) → gets_mutex s.
Proof.
  intros H0 Hc Hi Ho Hst. eapply gets_exec; [done|reflexivity|]. cbv beta. fields. destruct (Z.land (mtype (obj s)) mtx_recursive =? 0) eqn:E.
  - by eapply gets_again; [| | |by rewrite upd_self].
  - eapply gets_who; [done|done|done| |by rewrite upd_self]. apply Ho. unfold recursive. by rewrite E.
Qed.

(** C8: No wake-up is lost: whenever the mutex is free while a thread sleeps waiting
    for it, the calls that are running can go on, without any new call, until a
    blocking call has taken the mutex. *)
Theorem no_thread_sleeps_forever s v : reachable sleep_may_end s → mlock (obj s) = 0 → asleep_on LOCK (st (thr s v)) →
  gets_mutex s.
Proof.
  intros [[h Hinv] HJ]%reachable_wakeup H0 Hv. destruct HJ as [?|(t & Hact)]; [by exists v|lia|].
  destruct (inv_thread s h t Hinv) as (Ht & w & a & Hat & _); [by inversion Hact|].
  inversion Hact as [c timed Hc Hst|c timed Hc Hst|c timed i Hc Hi Hst|c timed i Hc Hi Hst|c timed i Hc Hi Hst|c timed i Hc Hi Hst|Hst|Hst]; symmetry in Hst.
  - by eapply gets_lock.
  - by eapply gets_try.
  - eapply gets_held; [done..| |done]. intros Hr. by eapply not_owner; [..|rewrite Hst].
  - eapply gets_who; [done..| |done]. eapply not_owner; [done..| |by rewrite Hst]. rewrite Hst in Hat. by inversion Hat; subst.
  - by eapply gets_again.
  - by eapply gets_wait.
  - eapply gets_exec; [done|reflexivity|]. assert (v ≠ t) by (intros ->; by rewrite Hst in Hv).
    destruct (exec_inv s h t Unlock unlock_clear _ _ Hinv Hst eq_refl) as [h' Hinv'].
    eapply (gets_wake _ t h' v); [done|done|by rewrite upd_self|]. fields. by rewrite fn_lookup_insert_ne.
  - by eapply gets_wake.
Qed.
End liveness.

(** ** Runs *)

Section runs.
Context (sleep_may_end : bool → Z → Prop).

Lemma exec_type s h t c p o p' : inv s h → st (thr s t) = Running c p → exec t (obj s) p = Some (o, p') → mtype o = mtype (obj s).
Proof.
  intros Hinv Hst Hexec. destruct (inv_thread s h t Hinv) as (Ht & w & a & Hat & _); [by rewrite Hst|].
  rewrite Hst in Hat. inversion Hat; subst; cbn [exec] in Hexec; try done; injection Hexec as <- <-; try done; by destruct (_ =? _).
Qed.

Lemma step_type s s' h : inv s h → step sleep_may_end s s' → recursive s' = recursive s.
Proof.
  intros Hinv [s1 Hi|t c Ht Hst Ha]; [|done]. inversion Hi; subst; try done. unfold recursive. fields. by erewrite exec_type.
Qed.

(** *** Waiting for the condition does not release the mutex *)

(** The points of a call of [cnd_wait] by a thread that holds a plain mutex. *)
Inductive in_cnd_wait (me : Z) : tstate → Prop :=
| w_start : in_cnd_wait me (Running Cnd_wait cnd_wait)
| w_asleep : in_cnd_wait me (Asleep Cnd_wait SEM false (λ _, cnd_waited false))
| w_set : in_cnd_wait me (Running Cnd_wait (cnd_waited false))
| w_lock : in_cnd_wait me (Running Cnd_wait (Goto (L_lock false)))
| w_try : in_cnd_wait me (Running Cnd_wait (lock_loop me false))
| w_held i : in_cnd_wait me (Running Cnd_wait (trylock_held me (lock_tried false) i))
| w_again i : in_cnd_wait me (Running Cnd_wait (Goto (L_wait false i)))
| w_wait i : in_cnd_wait me (Running Cnd_wait (wait_loop false i))
| w_sleep i : in_cnd_wait me (Asleep Cnd_wait LOCK false (lock_waited false i)).

Lemma waited_in_cnd_wait me i e : e ≠ ETIMEDOUT → in_cnd_wait me (Running Cnd_wait (lock_waited false i e)).
Proof.
  intros He. unfold lock_waited. destruct (e =? 0); [constructor|]. destruct (e =? EWOULDBLOCK); [constructor|].
  rewrite (proj2 (Z.eqb_neq _ _) He). constructor.
Qed.

Hypothesis no_timeout : ∀ e, sleep_may_end false e → e ≠ ETIMEDOUT.

Lemma cnd_wait_step s s' h t : inv s h → recursive s = false → 0 < depth (thr s t) → in_cnd_wait t (st (thr s t)) → step sleep_may_end s s' →
  depth (thr s' t) = depth (thr s t) ∧ in_cnd_wait t (st (thr s' t)).
Proof.
  intros Hinv Hrec Hd Hin Hstep.
  assert (mlock (obj s) ≠ 0) as Hl.
  { destruct (v_threads _ _ Hinv t) as (a & w & Hat & _ & Hw & _). apply at_point_pending in Hat. lia. }
  assert (∀ u o x, t ≠ u → thr (mk_state o (<[u:=x]> (thr s))) t = thr s t) as Hother by (intros; fields; by rewrite fn_lookup_insert_ne).
  destruct Hstep as [s1 Hi|u c Hu Hst Ha]; [|rewrite Hother; [done|]; intros ->; rewrite Hst in Hin; inv Hin].
  inversion Hi as [u c r Hst|u c p o p' Hst He|u c f v timed k Hst Hne|u c f v timed k Hst Heq|u c f timed k e Hst Hm|u c f n k v c' timed k' Hst Hn Hsv|u c f n k Hst Hn]; subst;
    unfold upd; try (destruct (decide (t = u)) as [->|Hne']; [rewrite Hst in Hin; first [by inv Hin|fields; rewrite fn_lookup_insert; fields; split; [done|]]|by rewrite Hother]).
  - inversion Hin; subst; cbn [exec] in He; try done; injection He as <- <-; try constructor.
    + rewrite (proj2 (Z.eqb_neq _ _) Hl). constructor.
    + unfold recursive in Hrec. apply negb_false_iff in Hrec. fields. rewrite Hrec. constructor.
  - inversion Hin; subst; [constructor|]. apply waited_in_cnd_wait. done.
  - inversion Hin; subst; constructor.
  - inversion Hin; subst; [constructor|]. apply waited_in_cnd_wait. by apply no_timeout.
  - assert (u ≠ v) as Huv by (intros ->; congruence). destruct (decide (t = u)) as [->|Htu]; [rewrite Hst in Hin; inv Hin|].
    fields. destruct (decide (t = v)) as [->|Htv]; [|by rewrite !fn_lookup_insert_ne].
    rewrite fn_lookup_insert. fields. rewrite fn_lookup_insert_ne by done. split; [done|]. rewrite Hsv in Hin.
    inversion Hin; subst; [constructor|]. by apply waited_in_cnd_wait.
Qed.

End runs.

(** ** Schedules *)

(** A thread calls a function, or goes on with the call that runs. *)
Definition allowedb (c : call) (d : Z) : bool := match c with Unlock | Cnd_wait | Cnd_timedwait => 0 <? d | _ => true end.
Definition move (t : Z) (m : option call) (s : state) : option state :=
  match m, st (thr s t) with
  | Some c, Outside =>
      if (t =? 0) || negb (allowedb c (depth (thr s t))) then None else
      Some (mk_state (obj s) (<[t := mk_thread (Running c (body t c)) (depth_called c (depth (thr s t)))]> (thr s)))
  | None, Running c (Ret r) => Some (mk_state (obj s) (<[t := mk_thread Outside (depth_returned c r (depth (thr s t)))]> (thr s)))
  | None, Running c (Wait f v timed k) =>
      Some (if get_fld (obj s) f =? v then upd s t (obj s) (Asleep c f timed k) else upd s t (obj s) (Running c (k EWOULDBLOCK)))
  | None, Running c p => '(o, p') ← exec t (obj s) p; Some (upd s t o (Running c p'))
  | _, _ => None
  end.
Fixpoint run (ms : list (Z * option call)) (s : state) : option state :=
  match ms with [] => Some s | (t, m) :: ms => s ← move t m s; run ms s end.

Section schedules.
Context (sleep_may_end : bool → Z → Prop).

Lemma move_step t m s s' : move t m s = Some s' → step sleep_may_end s s'.
Proof.
  unfold move. destruct m as [c|].
  - destruct (st (thr s t)) eqn:Hst; [|done..]. destruct (Z.eqb_spec t 0); [done|]. destruct (allowedb c (depth (thr s t))) eqn:Ha; [|done].
    intros [= <-]. apply s_call; [done|done|]. destruct c; cbn in Ha |- *; lia || done.
  - destruct (st (thr s t)) as [|c p|] eqn:Hst; [done| |done].
    destruct p; try (intros [= <-]; apply s_internal; by (eapply i_return || eapply i_exec)).
    + destruct (Z.eqb_spec (get_fld (obj s) f) v); intros [= <-]; apply s_internal; [by eapply i_sleeps|by eapply i_differs].
Qed.

Lemma run_reachable ms s s' : reachable sleep_may_end s → run ms s = Some s' → reachable sleep_may_end s'.
Proof.
  revert s. induction ms as [|[t m] ms IH]; intros s Hr; cbn; [by intros [= <-]|]. intros (s1 & Hm & Hrun)%bind_Some.
  eapply IH, Hrun. destruct Hr as (s0 & Hi & Hrtc). exists s0. split; [done|]. eapply rtc_r; [done|by eapply move_step].
Qed.
End schedules.

Definition start (type : Z) : state := mk_state (mtx_init type (mk_mtx 0 0 0 0)).1 (λ _, mk_thread Outside 0).
Lemma start_reachable sl type : reachable sl (start type).
Proof. exists (start type). split; [|apply rtc_refl]. split; [|done]. by exists type, (mk_mtx 0 0 0 0). Qed.

Definition go (t : Z) (n : nat) : list (Z * option call) := replicate n (t, None).
Definition run_from (type : Z) (ms : list (Z * option call)) : state := default (start type) (run ms (start type)).

Lemma run_from_reachable sl type ms : is_Some (run ms (start type)) → reachable sl (run_from type ms).
Proof. intros [s Hs]. unfold run_from. rewrite Hs. eapply run_reachable, Hs. apply start_reachable. Qed.

(** Thread 1 takes a plain mutex. *)
Definition locked : list (Z * option call) := (1, Some Lock) :: go 1 4.

Lemma mutual_exclusion_witness : 1 = 1 ∧ 0 < mlock (obj (run_from 0 locked)) <= 1001.
Proof.
  apply (mutual_exclusion (λ _ _, True) (run_from 0 locked) 1 1);
    [apply run_from_reachable; vm_compute; by eexists|by vm_compute..].
Defined.

(** Thread 2 sleeps, then thread 1 unlocks: it is about to wake thread 2. *)
Definition contended : list (Z * option call) := locked ++ [(2, Some Lock)] ++ go 2 5 ++ [(1, Some Unlock)] ++ go 1 3.

Lemma no_thread_sleeps_forever_witness : gets_mutex (λ _ _, True) (run_from 0 contended).
Proof.
  apply (no_thread_sleeps_forever (λ _ _, True) (run_from 0 contended) 2);
    [apply run_from_reachable; vm_compute; by eexists|by vm_compute..].
Defined.

(** Thread 1 waits for the condition; a kernel that only ends sleeps spuriously. *)
Definition waiting : list (Z * option call) := locked ++ [(1, Some Cnd_wait)].


(** *** The store after the last unlock

    [mtx_unlock] of a recursive mutex clears the owner after the count has become 0,
    "cosmetic; not really needed".  Thread 2 takes the mutex in between; the store
    erases it as owner, and when it locks the mutex it holds again, it sleeps,
    waiting for itself. *)
Definition owner_race : list (Z * option call) :=
  locked ++ [(1, Some Unlock)] ++ go 1 4 ++ [(2, Some Lock)] ++ go 2 4 ++ go 1 1 ++ [(2, Some Lock)] ++ go 2 6.

Theorem recursive_owner_lost sl : let s := run_from mtx_recursive owner_race in
  reachable sl s ∧ recursive s ∧ depth (thr s 2) = 1 ∧ mlock (obj s) = 1 ∧ mowner (obj s) = 0 ∧ asleep_on LOCK (st (thr s 2)).
Proof. split; [apply run_from_reachable; vm_compute; by eexists|by vm_compute]. Qed.

(** ... and when it has locked twice before the store, its two unlocks leave the
    mutex locked for ever. *)
Definition owner_race_twice : list (Z * option call) :=
  locked ++ [(1, Some Unlock)] ++ go 1 4 ++ [(2, Some Lock)] ++ go 2 4 ++ [(2, Some Lock)] ++ go 2 6 ++ go 1 1 ++
  [(2, Some Unlock)] ++ go 2 5 ++ [(2, Some Unlock)] ++ go 2 5.

Theorem recursive_stays_locked sl : let s := run_from mtx_recursive owner_race_twice in
  reachable sl s ∧ st (thr s 2) = Outside ∧ depth (thr s 2) = 0 ∧ depth (thr s 1) = 0 ∧ mlock (obj s) = 2.
Proof. split; [apply run_from_reachable; vm_compute; by eexists|by vm_compute]. Qed.
