(* ===== verification/Stdio.v ===== *)
(** * Buffered streams

    [dietstdio.h] and the files of [libstdio]: a [FILE] holds one buffer that is
    used for input or for output, whichever the stream did last.  The state of a
    program is its [FILE]s by address, the list of the open ones, the static
    variables and the state of the kernel.  The buffer is part of its [FILE] as
    the list of its bytes, an access outside it is a fault; the caller's buffers
    are lists. *)

From S2P Require Import Prelude.

(** ** The kernel

    The system calls the streams use, on the state [K] of the kernel: [None] for
    -1 where a call returns data or a count. *)
Class Syscalls (K : Type) : Type := {
  sys_read : Z → Z → K → option (list Z) * K;
  sys_write : Z → list Z → K → Z * K;
  sys_eintr : K → bool (** [errno == EINTR] after a call that failed *);
  sys_lseek : Z → Z → Z → K → Z * K;
  sys_open : list Z → Z → K → Z * K;
  sys_close : Z → K → Z * K;
  sys_isatty : Z → K → bool;
  sys_isfifo : Z → K → bool (** [S_ISFIFO] of the mode [fstat] reports *)
}.

Definition SEEK_SET : Z := 0.
Definition SEEK_CUR : Z := 1.
Definition SEEK_END : Z := 2.
Definition EOF : Z := -1.

(** ** Streams *)

Definition BUFSIZE : Z := 2048.

Definition ERRORINDICATOR : Z := 1.
Definition EOFINDICATOR : Z := 2.
Definition BUFINPUT : Z := 4.
Definition BUFLINEWISE : Z := 8.
Definition NOBUF : Z := 16.
Definition STATICBUF : Z := 32.
Definition FDPIPE : Z := 64.
Definition CANREAD : Z := 128.
Definition CANWRITE : Z := 256.
Definition CHECKLINEWISE : Z := 512.

(** [buf] is the contents of the buffer and [bufp] its address. *)
Record FILE : Type := mk_FILE {
  fd : Z; flags : Z; bs : Z; bm : Z; buflen : Z; bufp : Z; buf : list Z; next : Z; ungetbuf : Z; ungotten : bool
}.

Definition set_fd x s := mk_FILE x (flags s) (bs s) (bm s) (buflen s) (bufp s) (buf s) (next s) (ungetbuf s) (ungotten s).
Definition set_flags x s := mk_FILE (fd s) x (bs s) (bm s) (buflen s) (bufp s) (buf s) (next s) (ungetbuf s) (ungotten s).
Definition set_bs x s := mk_FILE (fd s) (flags s) (u32 x) (bm s) (buflen s) (bufp s) (buf s) (next s) (ungetbuf s) (ungotten s).
Definition set_bm x s := mk_FILE (fd s) (flags s) (bs s) (u32 x) (buflen s) (bufp s) (buf s) (next s) (ungetbuf s) (ungotten s).
Definition set_buffer p l n s := mk_FILE (fd s) (flags s) (bs s) (bm s) (u32 n) p l (next s) (ungetbuf s) (ungotten s).
Definition set_buf l s := mk_FILE (fd s) (flags s) (bs s) (bm s) (buflen s) (bufp s) l (next s) (ungetbuf s) (ungotten s).
Definition set_next x s := mk_FILE (fd s) (flags s) (bs s) (bm s) (buflen s) (bufp s) (buf s) x (ungetbuf s) (ungotten s).
Definition set_unget c b s := mk_FILE (fd s) (flags s) (bs s) (bm s) (buflen s) (bufp s) (buf s) (next s) c b.

(** [stream->flags & F], [stream->flags |= F] and [stream->flags &= ~F]. *)
Definition flagged (s : FILE) (F : Z) : bool := negb (Z.land (flags s) F =? 0).
Definition raise (F : Z) (s : FILE) : FILE := set_flags (Z.lor (flags s) F) s.
Definition lower (F : Z) (s : FILE) : FILE := set_flags (Z.land (flags s) (Z.lnot F)) s.

(** The streams by address, [__stdio_root], [__stdio_atexit], the static variable
    of [__stdin_is_tty], the pointers passed to [free] and the kernel. *)
Record stdio (K : Type) : Type := mk_stdio {
  files : gmap Z FILE; __stdio_root : Z; __stdio_atexit : bool; iknow : Z; freed : list Z; kern : K
}.
Arguments mk_stdio {K}.
Arguments files {K}.
Arguments __stdio_root {K}.
Arguments __stdio_atexit {K}.
Arguments iknow {K}.
Arguments freed {K}.
Arguments kern {K}.

(** The addresses of the static [FILE]s. *)
Definition stdin : Z := 1.
Definition stdout : Z := 2.
Definition stderr : Z := 3.
Definition __stdin (b : list Z) : FILE := mk_FILE 0 (Z.lor BUFINPUT (Z.lor BUFLINEWISE (Z.lor STATICBUF CANREAD))) 0 0 BUFSIZE 101 b 0 0 false.
Definition __stdout (b : list Z) : FILE := mk_FILE 1 (Z.lor BUFLINEWISE (Z.lor STATICBUF (Z.lor CANWRITE CHECKLINEWISE))) 0 0 BUFSIZE 102 b 0 0 false.
Definition __stderr : FILE := mk_FILE 2 (Z.lor NOBUF CANWRITE) 0 0 0 0 [] 0 0 false.

(** The state a program starts in: static storage is zero. *)
Definition stdio_init {K} (k : K) : stdio K :=
  mk_stdio (<[stdin := __stdin (replicate 2048 0)]> (<[stdout := __stdout (replicate 2048 0)]> (<[stderr := __stderr]> ∅))) 0 false 0 [] k.

Section streams.
Context {K : Type} `{Syscalls K}.
Notation S := (CM (stdio K)) (only parsing).

Definition get (f : Z) : S FILE := λ w, match files w !! f with Some s => Ok (s, w) | None => Fault end.
Definition with_files (g : gmap Z FILE → gmap Z FILE) (w : stdio K) : stdio K :=
  mk_stdio (g (files w)) (__stdio_root w) (__stdio_atexit w) (iknow w) (freed w) (kern w).
Definition put (f : Z) (s : FILE) : S unit := λ w, Ok (tt, with_files <[f := s]> w).
Definition upd (f : Z) (g : FILE → FILE) : S unit := s ← get f; put f (g s).
Definition sys {A} (call : K → A * K) : S A := λ w,
  let '(a, k) := call (kern w) in
  Ok (a, mk_stdio (files w) (__stdio_root w) (__stdio_atexit w) (iknow w) (freed w) k).
Definition ask {A} (q : K → A) : S A := λ w, Ok (q (kern w), w).

(** [stream->buf[i] = v], [memcpy] to and from the buffer, and [n] bytes of the
    caller's buffer. *)
Definition buf_store (f i v : Z) : S unit :=
  s ← get f;
  if (0 <=? i) && (i <? Z.of_nat (length (buf s))) then put f (set_buf (<[Z.to_nat i := u8 v]> (buf s)) s) else fault.
Definition splice (i : nat) (l b : list Z) : list Z := take i b ++ l ++ drop (i + length l) b.
Definition buf_write (f i : Z) (l : list Z) : S unit :=
  s ← get f;
  if (0 <=? i) && (i + Z.of_nat (length l) <=? Z.of_nat (length (buf s))) then put f (set_buf (splice (Z.to_nat i) l (buf s)) s) else fault.
Definition buf_read (s : FILE) (i n : Z) : S (list Z) :=
  if (0 <=? i) && (i + n <=? Z.of_nat (length (buf s))) then mret (take (Z.to_nat n) (drop (Z.to_nat i) (buf s))) else fault.
Definition buf_load (s : FILE) (i : Z) : S Z :=
  if 0 <=? i then match buf s !! Z.to_nat i with Some c => mret c | None => fault end else fault.
Definition user_bytes (n : Z) (ptr : list Z) : S (list Z) :=
  if n <=? Z.of_nat (length ptr) then mret (take (Z.to_nat n) ptr) else fault.

(** ** Flushing *)

(** [fflush_unlocked] of a stream. *)
Definition fflush_stream (f : Z) : S Z :=
  s ← get f;
  if flagged s BUFINPUT then
    let tmp := s32 (bm s - bs s) in
    _ ← (if negb (tmp =? 0) then
           let tmp := if ungotten s then tmp - 1 else tmp in
           _ ← sys (sys_lseek (fd s) tmp SEEK_CUR); mret tt
         else mret tt);
    _ ← upd f (λ s, set_unget (ungetbuf s) false (set_bs 0 (set_bm 0 s)));
    mret 0
  else
    let ok := upd f (λ s, set_unget (ungetbuf s) false (set_bm 0 s)) in
    if bm s =? 0 then _ ← ok; mret 0 else
    out ← buf_read s 0 (bm s);
    r ← sys (sys_write (fd s) out);
    if negb (r =? bm s) then _ ← upd f (raise ERRORINDICATOR); mret (-1)
    else _ ← ok; mret 0.

Definition __fflush_stdout : S Z := fflush_stream stdout.
Definition __fflush_stderr : S Z := fflush_stream stderr.
Definition __fflush_stdin : S Z := fflush_stream stdin.

(** The walk over the list has a round for every open stream. *)
Fixpoint flush_list (fuel : nat) (f res : Z) : S Z :=
  match fuel with
  | O => λ _, Hang
  | Datatypes.S fuel =>
      if f =? 0 then mret res else
      r ← fflush_stream f;
      s ← get f;
      flush_list fuel (next s) (if negb (r =? 0) then -1 else res)
  end.

Definition flush_open : S Z := λ w, flush_list (Datatypes.S (size (files w))) (__stdio_root w) 0 w.

Definition fflush_unlocked (f : Z) : S Z :=
  if f =? 0 then _ ← __fflush_stdout; _ ← __fflush_stderr; flush_open
  else fflush_stream f.

Definition __stdio_flushall : S unit := _ ← fflush_unlocked 0; mret tt.

Definition set_atexit : S unit := λ w, Ok (tt, mk_stdio (files w) (__stdio_root w) true (iknow w) (freed w) (kern w)).

Definition __stdin_is_tty : S bool := λ w,
  let known := if iknow w =? 0 then b2z (sys_isatty 0 (kern w)) + 1 else iknow w in
  Ok (negb (known - 1 =? 0), mk_stdio (files w) (__stdio_root w) (__stdio_atexit w) known (freed w) (kern w)).

(** The change between input and output; [next] is [BUFINPUT] or 0. *)
Definition __fflush4 (f next : Z) : S Z :=
  _ ← set_atexit;
  s ← get f;
  if negb (Z.land (flags s) BUFINPUT =? next) then
    res ← fflush_unlocked f;
    _ ← upd f (λ s, set_flags (Z.lor (Z.land (flags s) (Z.lnot BUFINPUT)) next) s);
    mret res
  else
    _ ← (if fd s =? 0 then tty ← __stdin_is_tty; if (tty : bool) then _ ← __fflush_stdout; mret tt else mret tt else mret tt);
    mret 0.

(** ** Characters *)

Definition feof_unlocked (f : Z) : S bool :=
  s ← get f; mret (if ungotten s then false else flagged s EOFINDICATOR).
Definition ferror_unlocked (f : Z) : S bool := s ← get f; mret (flagged s ERRORINDICATOR).
Definition clearerr_unlocked (f : Z) : S unit := upd f (lower (Z.lor ERRORINDICATOR EOFINDICATOR)).
Definition fileno_unlocked (f : Z) : S Z := s ← get f; mret (fd s).

Definition fgetc_unlocked (f : Z) : S Z :=
  let kaputt := _ ← upd f (raise ERRORINDICATOR); mret EOF in
  s ← get f;
  if negb (flagged s CANREAD) then kaputt else
  if ungotten s then _ ← upd f (set_unget (ungetbuf s) false); mret (ungetbuf s) else
  if bm s <? bs s then c ← buf_load s (bm s); _ ← upd f (set_bm (bm s + 1)); mret c else
  eof ← feof_unlocked f;
  if (eof : bool) then mret EOF else
  r ← __fflush4 f BUFINPUT;
  if negb (r =? 0) then mret EOF else
  let next_byte := s ← get f; c ← buf_load s (bm s); _ ← upd f (set_bm (bm s + 1)); mret c in
  s ← get f;
  if bm s >=? bs s then
    d ← sys (sys_read (fd s) (buflen s));
    match d with
    | Some [] => _ ← upd f (raise EOFINDICATOR); mret EOF
    | None => kaputt
    | Some d =>
        _ ← buf_write f 0 d;
        _ ← upd f (λ s, set_bs (Z.of_nat (length d)) (set_bm 0 s));
        next_byte
    end
  else next_byte.

Definition fputc_unlocked (c f : Z) : S Z :=
  let kaputt := _ ← upd f (raise ERRORINDICATOR); mret EOF in
  s ← get f;
  if negb (flagged s CANWRITE) then kaputt else
  r ← __fflush4 f 0;
  if negb (r =? 0) then kaputt else
  s ← get f;
  r ← (if bm s >=? u32 (buflen s - 1) then fflush_unlocked f else mret 0);
  if negb (r =? 0) then kaputt else
  s ← get f;
  if flagged s NOBUF then
    n ← sys (sys_write (fd s) [u8 c]);
    if negb (n =? 1) then kaputt else mret (u8 c)
  else
    _ ← buf_store f (bm s) c;
    _ ← upd f (set_bm (bm s + 1));
    r ← (if (flagged s BUFLINEWISE && (c =? CH "010")) || flagged s NOBUF then fflush_unlocked f else mret 0);
    if negb (r =? 0) then kaputt else mret (u8 c).

Definition putchar (c : Z) : S Z := fputc_unlocked c stdout.

(** The buffer is of plain [char]s. *)
Definition ungetc_unlocked (c f : Z) : S Z :=
  s ← get f;
  if ungotten s || (c <? 0) || (c >? 255) then mret EOF else
  back ← (if bm s =? 0 then mret false else b ← buf_load s (bm s - 1); mret (s8 b =? c));
  _ ← upd f (if (back : bool) then set_bm (bm s - 1) else set_unget c true);
  _ ← upd f (lower (Z.lor ERRORINDICATOR EOFINDICATOR));
  mret c.

(** ** Blocks

    [fread_unlocked] returns its result and the bytes it stores from [ptr] on;
    [WANT_FREAD_OPTIMIZATION] is defined. *)

(** [goto exit] for the end of the input or an error *)
Definition read_end (f : Z) (d : option (list Z)) : S unit :=
  upd f (raise (match d with None => ERRORINDICATOR | Some _ => EOFINDICATOR end)).

(** The loop that reads directly; the state is what has been read. *)
Definition read_direct (f j : Z) (out : list Z) : S (step (list Z) (bool * list Z)) :=
  s ← get f;
  let tmp := j - Z.of_nat (length out) in
  d ← sys (sys_read (fd s) tmp);
  match d with
  | None | Some [] => _ ← read_end f d; mret (Done (false, out))
  | Some d => mret (if Z.of_nat (length d) <? tmp then Next (out ++ d) else Done (true, out ++ d))
  end.

(** The loop over [fgetc_unlocked]. *)
Definition read_chars (f j : Z) (out : list Z) : S (step (list Z) (bool * list Z)) :=
  if Z.of_nat (length out) <? j then
    res ← fgetc_unlocked f;
    if res =? EOF then mret (Done (false, out)) else mret (Next (out ++ [u8 res]))
  else mret (Done (true, out)).

(** [inbuf] bytes are in the buffer, [out] has been stored. *)
Definition read_rest (f size nmemb j inbuf : Z) (out : list Z) : S (Z * list Z) :=
  let result '(complete, out) := mret (if (complete : bool) then nmemb else Z.of_nat (length out) / size, out) in
  s ← get f;
  let tocopy := Z.min j inbuf in
  l ← buf_read s (bm s) tocopy;
  let out := out ++ l in
  _ ← upd f (set_bm (bm s + tocopy));
  s ← get f;
  _ ← (if bm s =? bs s then upd f (λ s, set_bm 0 (set_bs 0 s)) else mret tt);
  if Z.of_nat (length out) =? j then mret (nmemb, out) else
  s ← get f;
  if negb (flagged s FDPIPE) && (j >? buflen s) then
    r ← loop (Datatypes.S (Z.to_nat j)) (read_direct f j) out; result r
  else
    r ← loop (Datatypes.S (Z.to_nat j)) (read_chars f j) out; result r.

Definition fread_unlocked (size nmemb f : Z) : S (Z * list Z) :=
  let j := u64 (size * nmemb) in
  s ← get f;
  if negb (flagged s CANREAD) then _ ← upd f (raise ERRORINDICATOR); mret (0, []) else
  if (j =? 0) || negb (j / nmemb =? size) then mret (0, []) else
  let out := if ungotten s then [ungetbuf s] else [] in
  _ ← upd f (set_unget (ungetbuf s) false);
  if ungotten s && (j =? 1) then mret (1, out) else
  let inbuf := u32 (bs s - bm s) in
  if inbuf =? 0 then
    _ ← upd f (set_bm 0);
    d ← sys (sys_read (fd s) (buflen s));
    match d with
    | None | Some [] => _ ← read_end f d; mret (Z.of_nat (length out) / size, out)
    | Some d =>
        _ ← buf_write f 0 d;
        _ ← upd f (set_bs (Z.of_nat (length d)));
        read_rest f size nmemb j (Z.of_nat (length d)) out
    end
  else read_rest f size nmemb j inbuf out.

(** [res / size] at the label [abort]. *)
Definition items (size res : Z) : Z := if size =? 0 then 0 else res / size.

(** A line-buffered stream: [i] bytes of [l] have been stored; [false] for
    [goto kaputt]. *)
Fixpoint write_lines (f : Z) (l : list Z) : S bool :=
  match l with
  | [] => mret true
  | c :: l =>
      s ← get f;
      _ ← upd f (set_bm (bm s + 1));
      _ ← buf_store f (bm s) c;
      r ← (if c =? CH "010" then fflush_unlocked f else mret 0);
      if negb (r =? 0) then mret false else write_lines f l
  end.

(** The loop over [fputc_unlocked] from [done] on; the number of the bytes that
    are left when it fails, or [len]. *)
Fixpoint write_chars (f len : Z) (l : list Z) : S Z :=
  match l with
  | [] => mret len
  | c :: t =>
      r ← fputc_unlocked (s8 c) f;
      if r =? EOF then mret (Z.of_nat (length l)) else write_chars f len t
  end.

(** Whether the stream is line-buffered: the first time, [isatty] decides. *)
Definition linewise (f : Z) : S bool :=
  s ← get f;
  if negb (flagged s BUFLINEWISE) then mret false else
  if flagged s CHECKLINEWISE then
    _ ← upd f (lower CHECKLINEWISE);
    tty ← ask (sys_isatty (fd s));
    if (tty : bool) then mret true else _ ← upd f (lower BUFLINEWISE); mret false
  else mret true.

(** From the label [again] on; the state is [ptr] and [len]. *)
Definition write_again (f size nmemb : Z) : list Z → S (step (list Z) Z) := λ ptr,
  let len := Z.of_nat (length ptr) in
  s ← get f;
  let todo := Z.min (u32 (buflen s - bm s)) len in
  let now := take (Z.to_nat todo) ptr in
  let later := drop (Z.to_nat todo) ptr in
  if todo =? 0 then res ← write_chars f len ptr; mret (Done (items size res)) else
  lw ← linewise f;
  if (lw : bool) then
    ok ← write_lines f now;
    if (ok : bool) then res ← write_chars f len later; mret (Done (items size res))
    else _ ← upd f (raise ERRORINDICATOR); mret (Done 0)
  else
    _ ← buf_write f (bm s) now;
    _ ← upd f (set_bm (bm s + todo));
    s ← get f;
    if bm s =? buflen s then
      r ← fflush_unlocked f;
      if negb (r =? 0) then mret (Done 0) else
      if len - todo =? 0 then mret (Done nmemb) else mret (Next later)
    else mret (Done nmemb).

(** [do ... while (res == -1 && errno == EINTR)]: the code retries without a
    bound, the model [retries] times. *)
Definition write_retry (fd : Z) (l : list Z) (_ : unit) : S (step unit Z) :=
  res ← sys (sys_write fd l);
  eintr ← ask sys_eintr;
  mret (if (res =? -1) && eintr then Next tt else Done res).

Definition fwrite_unlocked (retries : nat) (ptr : list Z) (size nmemb f : Z) : S Z :=
  let kaputt := _ ← upd f (raise ERRORINDICATOR); mret 0 in
  let len := u64 (size * nmemb) in
  s ← get f;
  if negb (flagged s CANWRITE) then kaputt else
  r ← __fflush4 f 0;
  if negb (r =? 0) then kaputt else
  if (nmemb =? 0) || negb (len / nmemb =? size) then mret 0 else
  ptr ← user_bytes len ptr;
  s ← get f;
  if (len >? buflen s) || flagged s NOBUF then
    r ← fflush_unlocked f;
    if negb (r =? 0) then mret 0 else
    res ← loop (Datatypes.S retries) (write_retry (fd s) ptr) tt;
    if res <? 0 then kaputt else mret (items size res)
  else loop (Datatypes.S (Z.to_nat len)) (write_again f size nmemb) ptr.

(** ** Strings *)

(** The bytes stored in [s], or [None] for a null pointer. *)
Definition fgets_body (f size : Z) (l : list Z) : S (step (list Z) (option (list Z))) :=
  if Z.of_nat (length l) + 1 <? size then
    s ← get f;
    c ← (if negb (Z.of_nat (length l) =? 0) && (bm s <? bs s)
         then c ← buf_load s (bm s); _ ← upd f (set_bm (bm s + 1)); mret c
         else fgetc_unlocked f);
    if c =? EOF then mret (Done (if Z.of_nat (length l) =? 0 then None else Some (l ++ [0])))
    else if c =? CH "010" then mret (Done (Some (l ++ [c; 0])))
    else mret (Next (l ++ [c]))
  else mret (Done (Some (l ++ [0]))).
Definition fgets_unlocked (size f : Z) : S (option (list Z)) :=
  if size <=? 0 then mret None else loop (Datatypes.S (Z.to_nat size)) (fgets_body f size) [].

(** A string is the list of its bytes. *)
Definition fputs_unlocked (retries : nat) (s : list Z) (f : Z) : S Z :=
  fwrite_unlocked retries s (Z.of_nat (length s)) 1 f.
Definition __stdio_outs (retries : nat) (s : list Z) : S bool :=
  n ← fwrite_unlocked retries s 1 (Z.of_nat (length s)) stdout; mret (n =? Z.of_nat (length s)).
Definition puts (retries : nat) (s : list Z) : S Z :=
  a ← __stdio_outs retries s;
  if (a : bool) then b ← __stdio_outs retries [CH "010"]; mret (if (b : bool) then 0 else -1) else mret (-1).

(** ** Positions *)

Definition fseek_unlocked (f offset whence : Z) : S Z :=
  _ ← fflush_unlocked f;
  _ ← upd f (set_bm 0); _ ← upd f (set_bs 0);
  _ ← upd f (lower (Z.lor ERRORINDICATOR EOFINDICATOR));
  _ ← upd f (λ s, set_unget (ungetbuf s) false s);
  s ← get f;
  r ← sys (sys_lseek (fd s) offset whence);
  mret (if r =? -1 then -1 else 0).
Definition fseeko_unlocked := fseek_unlocked.
Definition rewind (f : Z) : S unit := _ ← fseek_unlocked f 0 SEEK_SET; mret tt.

Definition ftell_unlocked (f : Z) : S Z :=
  s ← get f;
  if negb (Z.land (flags s) 1 =? 0) then mret (-1) else
  l ← sys (sys_lseek (fd s) 0 SEEK_CUR);
  if l =? -1 then mret (-1) else
  s ← get f;
  if flagged s BUFINPUT then mret (l - u32 (bs s - bm s) - b2z (ungotten s)) else mret (l + bm s).
Definition ftello_unlocked (f : Z) : S Z :=
  r ← fflush_unlocked f;
  if negb (r =? 0) then mret (-1) else
  s ← get f;
  l ← sys (sys_lseek (fd s) 0 SEEK_CUR);
  if l =? -1 then mret (-1) else s ← get f; mret (l - b2z (ungotten s)).
(** The result and [*pos]. *)
Definition fgetpos (f : Z) : S (Z * option Z) :=
  l ← ftell_unlocked f; mret (if l =? -1 then (-1, None) else (0, Some l)).
Definition fsetpos (f pos : Z) : S Z :=
  r ← fseek_unlocked f pos SEEK_SET; mret (if r =? -1 then -1 else 0).

(** ** Opening and closing

    [alloc] is the [FILE] and the buffer that [malloc] returns, as addresses and
    contents, [None] for a null pointer. *)

Definition O_RDONLY : Z := 0.
Definition O_WRONLY : Z := 1.
Definition O_RDWR : Z := 2.
Definition O_CREAT : Z := 0x40.
Definition O_TRUNC : Z := 0x200.
Definition O_APPEND : Z := 0x400.

Definition parse_mode_char (f c : Z) : Z :=
  if c =? CH "r" then Z.lor f O_RDONLY
  else if c =? CH "w" then Z.lor f (Z.lor O_WRONLY (Z.lor O_CREAT O_TRUNC))
  else if c =? CH "a" then Z.lor f (Z.lor O_WRONLY (Z.lor O_CREAT O_APPEND))
  else if c =? CH "+" then Z.lor (Z.land f (Z.lnot O_WRONLY)) O_RDWR
  else f.
Definition __stdio_parse_mode (mode : list Z) : Z := foldl parse_mode_char 0 mode.

Definition get_root : S Z := λ w, Ok (__stdio_root w, w).
Definition set_root (f : Z) : S unit := λ w, Ok (tt, mk_stdio (files w) f (__stdio_atexit w) (iknow w) (freed w) (kern w)).
Definition free_ (p : Z) : S unit := λ w,
  Ok (tt, mk_stdio (files w) (__stdio_root w) (__stdio_atexit w) (iknow w) (freed w ++ [p]) (kern w)).

(** The flags of a new stream. *)
Definition mode_flags (fifo : bool) (mode input : Z) : Z :=
  let pipe := if fifo then FDPIPE else 0 in
  if Z.land mode 3 =? O_RDWR then Z.lor pipe (Z.lor CANWRITE (Z.lor CANREAD input))
  else if Z.land mode 3 =? O_RDONLY then Z.lor pipe (Z.lor CANREAD input)
  else if Z.land mode 3 =? O_WRONLY then Z.lor pipe CANWRITE
  else pipe.

Definition __stdio_init_file (alloc : option (Z * FILE * option (Z * list Z))) (fd_ : Z) (closeonerror : bool) (mode : Z) : S Z :=
  let err_out := _ ← (if closeonerror then _ ← sys (sys_close fd_); mret tt else mret tt); mret 0 in
  match alloc with
  | None => err_out
  | Some (p, _, None) => _ ← free_ p; err_out
  | Some (p, t, Some (bp, b)) =>
      fifo ← ask (sys_isfifo fd_);
      _ ← set_atexit;
      root ← get_root;
      _ ← put p (mk_FILE fd_ (mode_flags fifo mode BUFINPUT) 0 0 BUFSIZE bp b root (ungetbuf t) false);
      _ ← set_root p;
      mret p
  end.

Definition fopen_unlocked alloc (path mode : list Z) : S Z :=
  let f := __stdio_parse_mode mode in
  fd ← sys (sys_open path f);
  if fd <? 0 then mret 0 else __stdio_init_file alloc fd true f.
Definition fdopen_unlocked alloc (filedes : Z) (mode : list Z) : S Z :=
  let f := __stdio_parse_mode mode in
  if filedes <? 0 then mret 0 else __stdio_init_file alloc filedes false f.

Definition freopen_unlocked (path mode : list Z) (stream : Z) : S Z :=
  if stream =? 0 then mret stream else
  let f := __stdio_parse_mode mode in
  _ ← fflush_unlocked stream;
  s ← get stream;
  _ ← sys (sys_close (fd s));
  fd ← sys (sys_open path f);
  _ ← upd stream (set_fd fd);
  _ ← (if fd =? -1 then mret tt else
         fifo ← ask (sys_isfifo fd);
         upd stream (set_flags (mode_flags fifo f 0)));
  mret stream.

(** The walk that takes the stream out of the list; [fl] is the one before. *)
Fixpoint unlink_file (fuel : nat) (stream fl f : Z) : S unit :=
  match fuel with
  | O => λ _, Hang
  | Datatypes.S fuel =>
      if f =? 0 then mret tt else
      s ← get f;
      if f =? stream then
        if fl =? 0 then set_root (next s) else upd fl (set_next (next s))
      else unlink_file fuel stream f (next s)
  end.
Definition unlink_open (stream : Z) : S unit := λ w,
  unlink_file (Datatypes.S (size (files w))) stream 0 (__stdio_root w) w.

Definition drop_file (f : Z) : S unit := λ w, Ok (tt, with_files (delete f) w).

Definition fclose_unlocked (stream : Z) : S Z :=
  res ← fflush_unlocked stream;
  s ← get stream;
  r ← sys (sys_close (fd s));
  _ ← unlink_open stream;
  s ← get stream;
  _ ← (if negb (flagged s STATICBUF) && negb (bufp s =? 0) then free_ (bufp s) else mret tt);
  _ ← free_ stream;
  _ ← drop_file stream;
  mret (Z.lor res r).

(** ** Buffers *)

Definition _IONBF : Z := 0.
Definition _IOLBF : Z := 1.
Definition _IOFBF : Z := 2.

Definition set_buf_mode (f mode : Z) : S Z :=
  if mode =? _IONBF then _ ← upd f (λ s, raise NOBUF (lower BUFLINEWISE s)); mret 0
  else if mode =? _IOLBF then _ ← upd f (λ s, raise BUFLINEWISE (lower NOBUF s)); mret 0
  else if mode =? _IOFBF then _ ← upd f (lower (Z.lor NOBUF BUFLINEWISE)); mret 0
  else mret (-1).

(** [user] is the caller's buffer and [alloc] the result of [malloc(size)]. *)
Definition setvbuf_unlocked (user alloc : option (Z * list Z)) (f mode size : Z) : S Z :=
  s ← get f;
  let replace p b :=
    _ ← (if negb (flagged s STATICBUF) then free_ (bufp s) else mret tt);
    _ ← upd f (λ s, set_bm 0 (set_bs 0 (set_buffer p b size (lower STATICBUF s))));
    set_buf_mode f mode in
  match user with
  | Some (p, b) => replace p b
  | None =>
      if size =? 0 then set_buf_mode f mode else
      match alloc with None => mret (-1) | Some (p, b) => replace p b end
  end.

Definition __fpurge (f : Z) : S unit := upd f (λ s, set_bm 0 (set_bs 0 (set_unget (ungetbuf s) false s))).
Definition __fpending (f : Z) : S Z := s ← get f; mret (bm s).
Definition __freadable (f : Z) : S bool := s ← get f; mret (flagged s CANREAD).
Definition __freading (f : Z) : S bool := s ← get f; mret (negb (flagged s CANWRITE)).
Definition __fwritable (f : Z) : S bool := s ← get f; mret (flagged s CANWRITE).
Definition __flbf (f : Z) : S bool := s ← get f; mret (flagged s BUFLINEWISE).
Definition __fbufsize (f : Z) : S Z := s ← get f; mret (buflen s).
End streams.
