(* ===== verification/StdioLogic.v ===== *)
(** * Reasoning about one stream

    The laws of a kernel with regular files, a weakest precondition for programs
    that work on one stream, and the facts about flags, buffers and overwritten
    files that the theorems on streams share. *)

From S2P Require Import Prelude Stdio.

(** ** Regular files *)

(** [l] written to a file of contents [C] at [p]; a gap reads as zeroes. *)
Definition overwrite (C : list Z) (p : nat) (l : list Z) : list Z :=
  match l with
  | [] => C
  | _ => take p C ++ replicate (p - length C) 0 ++ l ++ drop (p + length l) C
  end.

(** What [read], [write] and [lseek] do to an open regular file, that is to its
    contents and its offset: [read] may return less than it was asked for, but
    nothing only at the end of the file. *)
Class RegularFiles (K : Type) `{Syscalls K} : Type := {
  file_at : K → Z → option (list Z * Z);
  read_law k d n C p : file_at k d = Some (C, p) → 0 <= p → 0 < n →
    ∃ l k', sys_read d n k = (Some l, k') ∧ Z.of_nat (length l) <= n ∧ l = take (length l) (drop (Z.to_nat p) C) ∧
      (l = [] → Z.of_nat (length C) <= p) ∧ file_at k' d = Some (C, p + Z.of_nat (length l));
  write_law k d l C p : file_at k d = Some (C, p) →
    ∃ k', sys_write d l k = (Z.of_nat (length l), k') ∧
      file_at k' d = Some (overwrite C (Z.to_nat p) l, p + Z.of_nat (length l));
  lseek_law k d off whence C p : file_at k d = Some (C, p) →
    let target := off + (if whence =? SEEK_SET then 0 else if whence =? SEEK_CUR then p else Z.of_nat (length C)) in
    ∃ k', sys_lseek d off whence k = (if target <? 0 then -1 else target, k') ∧
      file_at k' d = Some (C, if target <? 0 then p else target)
}.

Lemma overwrite_lookup C p l i : l ≠ [] →
  overwrite C p l !! i =
    if decide (i < p)%nat then (if decide (i < length C)%nat then C !! i else Some 0)
    else if decide (i < p + length l)%nat then l !! (i - p)%nat else C !! i.
Proof.
  intros Hl. unfold overwrite. destruct l as [|b l]; [done|]. set (k := b :: l). clearbody k. clear.
  destruct (decide (i < p)%nat).
  - destruct (decide (i < length C)%nat).
    + rewrite lookup_app_l by (rewrite length_take; lia). by rewrite lookup_take_lt by lia.
    + rewrite lookup_app_r by (rewrite length_take; lia). rewrite length_take.
      rewrite lookup_app_l by (rewrite length_replicate; lia). apply lookup_replicate_2. lia.
  - rewrite lookup_app_r by (rewrite length_take; lia). rewrite length_take.
    rewrite lookup_app_r by (rewrite length_replicate; lia). rewrite length_replicate.
    replace (i - p `min` length C - (p - length C))%nat with (i - p)%nat by lia.
    destruct (decide (i < p + length k)%nat).
    + by rewrite lookup_app_l by lia.
    + rewrite lookup_app_r by lia. rewrite lookup_drop. f_equal. lia.
Qed.

Lemma overwrite_length C p l :
  length (overwrite C p l) = if decide (l = []) then length C else Nat.max (length C) (p + length l).
Proof.
  unfold overwrite. destruct l as [|b l]; [done|]. destruct (decide _); [done|].
  rewrite !length_app, length_take, length_replicate, length_drop. lia.
Qed.

Lemma overwrite_app C p l1 l2 :
  overwrite (overwrite C p l1) (p + length l1) l2 = overwrite C p (l1 ++ l2).
Proof.
  destruct (decide (l1 = [])) as [->|H1]; [cbn [length app]; by rewrite Nat.add_0_r|].
  destruct (decide (l2 = [])) as [->|H2]; [by rewrite app_nil_r|].
  apply list_eq. intros i. rewrite !overwrite_lookup by (done || by destruct l1).
  rewrite overwrite_length, length_app. destruct (decide (l1 = [])); [done|].
  repeat destruct (decide _); try lia; try done.
  - by rewrite lookup_app_l by lia.
  - rewrite lookup_app_r by lia. f_equal. lia.
Qed.

Lemma overwrite_byte C p l : Forall byte C → Forall byte l → Forall byte (overwrite C p l).
Proof.
  intros HC Hl. unfold overwrite. destruct l as [|b l]; [done|].
  repeat apply Forall_app_2; try done; [by apply Forall_take| |by apply Forall_drop].
  apply Forall_replicate. unfold byte. lia.
Qed.

(** ** Flags *)

Lemma bit_of s F j : F = 2 ^ j → 0 <= j → flagged s F = Z.testbit (flags s) j.
Proof.
  intros -> Hj. unfold flagged. destruct (Z.testbit (flags s) j) eqn:E.
  - destruct (Z.eqb_spec (Z.land (flags s) (2 ^ j)) 0) as [H0|]; [|done].
    assert (Z.testbit (Z.land (flags s) (2 ^ j)) j = false) as H by (rewrite H0; apply Z.bits_0).
    rewrite Z.land_spec, E, Z.pow2_bits_true in H by lia. done.
  - replace (Z.land (flags s) (2 ^ j)) with 0; [done|]. symmetry. apply Z.bits_inj'. intros i Hi.
    rewrite Z.land_spec, Z.bits_0, Z.pow2_bits_eqb by lia. destruct (Z.eqb_spec j i) as [->|]; [by rewrite E|apply andb_false_r].
Qed.

Lemma bit_ERR s : flagged s ERRORINDICATOR = Z.testbit (flags s) 0. Proof. by apply bit_of. Qed.
Lemma bit_EOF s : flagged s EOFINDICATOR = Z.testbit (flags s) 1. Proof. by apply bit_of. Qed.
Lemma bit_INPUT s : flagged s BUFINPUT = Z.testbit (flags s) 2. Proof. by apply bit_of. Qed.
Lemma bit_LINE s : flagged s BUFLINEWISE = Z.testbit (flags s) 3. Proof. by apply bit_of. Qed.
Lemma bit_NOBUF s : flagged s NOBUF = Z.testbit (flags s) 4. Proof. by apply bit_of. Qed.
Lemma bit_STATIC s : flagged s STATICBUF = Z.testbit (flags s) 5. Proof. by apply bit_of. Qed.
Lemma bit_PIPE s : flagged s FDPIPE = Z.testbit (flags s) 6. Proof. by apply bit_of. Qed.
Lemma bit_READ s : flagged s CANREAD = Z.testbit (flags s) 7. Proof. by apply bit_of. Qed.
Lemma bit_WRITE s : flagged s CANWRITE = Z.testbit (flags s) 8. Proof. by apply bit_of. Qed.
Lemma bit_CHECK s : flagged s CHECKLINEWISE = Z.testbit (flags s) 9. Proof. by apply bit_of. Qed.

#[global] Create Rewrite HintDb flags.
#[export] Hint Rewrite bit_ERR bit_EOF bit_INPUT bit_LINE bit_NOBUF bit_STATIC bit_PIPE bit_READ bit_WRITE bit_CHECK : flags.
#[export] Hint Rewrite Z.lor_spec Z.land_spec : flags.
#[export] Hint Rewrite Z.lnot_spec using (apply Z.leb_le; reflexivity) : flags.

Lemma input_eqb x : (Z.land x BUFINPUT =? BUFINPUT) = Z.testbit x 2 ∧ (Z.land x BUFINPUT =? 0) = negb (Z.testbit x 2).
Proof.
  pose proof (bit_INPUT (mk_FILE 0 x 0 0 0 0 [] 0 0 false)) as H. unfold flagged in H. cbn [flags] in H.
  assert (Z.land x BUFINPUT = 0 ∨ Z.land x BUFINPUT = BUFINPUT) as [E|E].
  { destruct (Z.testbit x 2) eqn:E; [right|left]; apply Z.bits_inj'; intros i Hi; rewrite Z.land_spec.
    - change BUFINPUT with (2 ^ 2). rewrite Z.pow2_bits_eqb by lia. destruct (Z.eqb_spec 2 i) as [<-|]; [by rewrite E|apply andb_false_r].
    - change BUFINPUT with (2 ^ 2). rewrite Z.bits_0, Z.pow2_bits_eqb by lia. destruct (Z.eqb_spec 2 i) as [<-|]; [by rewrite E|apply andb_false_r]. }
  all: rewrite E in *; cbn in H |- *; rewrite <- H; done.
Qed.

(** [flag_simpl] evaluates the flags in the goal of a stream whose fields have
    been set. *)
Ltac flag_simpl :=
  unfold raise, lower; autorewrite with flags;
  cbn [flags set_fd set_flags set_bs set_bm set_buffer set_buf set_next set_unget];
  autorewrite with flags;
  repeat match goal with
  | |- context [Z.testbit ?c ?i] =>
      let v := eval vm_compute in (Z.testbit c i) in
      lazymatch v with true => idtac | false => idtac end; change (Z.testbit c i) with v
  end;
  cbn [negb]; rewrite ?orb_false_r, ?orb_true_r, ?andb_false_r, ?andb_true_r.

(** ** Buffers *)

Lemma splice_length i l b : (i + length l <= length b)%nat → length (splice i l b) = length b.
Proof. intros. unfold splice. rewrite !length_app, length_take, length_drop. lia. Qed.

Lemma splice_take i l b : (i + length l <= length b)%nat → take (i + length l) (splice i l b) = take i b ++ l.
Proof.
  intros. unfold splice. rewrite app_assoc. apply take_app_length'. rewrite length_app, length_take. lia.
Qed.

Lemma splice_byte i l b : Forall byte l → Forall byte b → Forall byte (splice i l b).
Proof. intros Hl Hb. unfold splice. repeat apply Forall_app_2; [by apply Forall_take|done|by apply Forall_drop]. Qed.

Lemma insert_splice i c b : (i < length b)%nat → <[i := c]> b = splice i [c] b.
Proof.
  intros H. apply list_eq. intros j. unfold splice. cbn [length]. destruct (lt_eq_lt_dec j i) as [[Hj| ->]|Hj].
  - rewrite list_lookup_insert_ne by lia. by rewrite lookup_app_l, lookup_take_lt by (rewrite ?length_take; lia).
  - rewrite list_lookup_insert_eq by lia. rewrite lookup_app_r by (rewrite length_take; lia).
    by rewrite length_take, Nat.min_l, Nat.sub_diag by lia.
  - rewrite list_lookup_insert_ne by lia. rewrite app_assoc, lookup_app_r by (rewrite length_app, length_take; cbn [length]; lia).
    rewrite length_app, length_take, lookup_drop. cbn [length]. f_equal. lia.
Qed.

(** ** A program logic for one stream

    [wp f m s k Q]: started where the stream [f] is [s] and the kernel [k], the
    program [m] ends, in a stream, a kernel and a value that [Q] holds of; the
    list of the open streams begins with the same one. *)
Section wp.
Context {K : Type} `{Syscalls K} (f : Z).
Abbreviation SM := (CM (stdio K)).

Definition state (w : stdio K) (s : FILE) (k : K) : Prop := files w !! f = Some s ∧ kern w = k.

Definition wp {A} (m : SM A) (s : FILE) (k : K) (Q : A → FILE → K → Prop) : Prop :=
  ∀ w, state w s k → ∃ a w' s' k', m w = Ok (a, w') ∧ state w' s' k' ∧ __stdio_root w' = __stdio_root w ∧ Q a s' k'.

Lemma wp_ret {A} (a : A) s k (Q : A → FILE → K → Prop) : Q a s k → wp (mret a) s k Q.
Proof. intros HQ w Hw. exists a, w, s, k. auto. Qed.

Lemma wp_bind {A B} (m : SM A) (g : A → SM B) s k Q :
  wp m s k (λ a s' k', wp (g a) s' k' Q) → wp (m ≫= g) s k Q.
Proof.
  intros Hm w Hw. destruct (Hm w Hw) as (a & w' & s' & k' & E & Hw' & Hr & Hg).
  destruct (Hg w' Hw') as (b & w'' & s'' & k'' & E' & Hw'' & Hr' & HQ).
  exists b, w'', s'', k''. rewrite (bind_Ok _ _ _ _ _ E). split_and!; [done|apply Hw''..|congruence|done].
Qed.

Lemma wp_mono {A} (m : SM A) s k (P Q : A → FILE → K → Prop) :
  wp m s k P → (∀ a s' k', P a s' k' → Q a s' k') → wp m s k Q.
Proof. intros Hm HPQ w Hw. destruct (Hm w Hw) as (a & w' & s' & k' & ? & ? & ? & ?). exists a, w', s', k'. auto. Qed.

Lemma wp_get s k (Q : FILE → FILE → K → Prop) : Q s s k → wp (get f) s k Q.
Proof. intros HQ w Hw. exists s, w, s, k. unfold get. destruct Hw as [E ?]. rewrite E. repeat split; done. Qed.

Lemma wp_put s0 s k (Q : () → FILE → K → Prop) : Q tt s0 k → wp (put f s0) s k Q.
Proof.
  intros HQ w [_ Hk]. eexists tt, _, s0, k. split; [done|]. split; [|done]. split; [apply lookup_insert_eq|done].
Qed.

Lemma wp_upd g s k (Q : () → FILE → K → Prop) : Q tt (g s) k → wp (upd f g) s k Q.
Proof. intros HQ. unfold upd. apply wp_bind, wp_get. by apply wp_put. Qed.

Lemma wp_sys {A} (call : K → A * K) s k a k' (Q : A → FILE → K → Prop) :
  call k = (a, k') → Q a s k' → wp (sys call) s k Q.
Proof.
  intros E HQ w [Hw Hk]. eexists a, _, s, k'. unfold sys. rewrite Hk, E. split; [done|]. by split.
Qed.

Lemma wp_ask {A} (q : K → A) s k (Q : A → FILE → K → Prop) : Q (q k) s k → wp (ask q) s k Q.
Proof. intros HQ w [Hw Hk]. eexists _, w, s, k. unfold ask. rewrite Hk. repeat split; done. Qed.

Lemma wp_atexit s k (Q : () → FILE → K → Prop) : Q tt s k → wp set_atexit s k Q.
Proof. intros HQ w [Hw Hk]. eexists tt, _, s, k. split; [done|]. by split. Qed.

Lemma wp_buf_load s k i c (Q : Z → FILE → K → Prop) :
  0 <= i → buf s !! Z.to_nat i = Some c → Q c s k → wp (buf_load s i) s k Q.
Proof. intros Hi Hc HQ. unfold buf_load. cif. rewrite Hc. by apply wp_ret. Qed.

Lemma wp_buf_read s k i n (Q : list Z → FILE → K → Prop) :
  0 <= i → i + n <= Z.of_nat (length (buf s)) →
  Q (take (Z.to_nat n) (drop (Z.to_nat i) (buf s))) s k → wp (buf_read s i n) s k Q.
Proof. intros Hi Hn HQ. unfold buf_read. cif. by apply wp_ret. Qed.

Lemma wp_buf_write s k i l (Q : () → FILE → K → Prop) :
  0 <= i → i + Z.of_nat (length l) <= Z.of_nat (length (buf s)) →
  Q tt (set_buf (splice (Z.to_nat i) l (buf s)) s) k → wp (buf_write f i l) s k Q.
Proof. intros Hi Hn HQ. unfold buf_write. apply wp_bind, wp_get. cif. by apply wp_put. Qed.

Lemma wp_buf_store s k i v (Q : () → FILE → K → Prop) :
  0 <= i < Z.of_nat (length (buf s)) →
  Q tt (set_buf (splice (Z.to_nat i) [u8 v] (buf s)) s) k → wp (buf_store f i v) s k Q.
Proof. intros Hi HQ. unfold buf_store. apply wp_bind, wp_get. cif. rewrite insert_splice by lia. by apply wp_put. Qed.

(** Total correctness of a loop, with an invariant and a variant. *)
Lemma wp_loop {A B} (body : A → SM (step A B)) (I : nat → A → FILE → K → Prop) (Q : B → FILE → K → Prop) :
  (∀ n x s k, I n x s k → wp (body x) s k (λ r s' k',
     match r with Done b => Q b s' k' | Next x' => ∃ n', (n' < n)%nat ∧ I n' x' s' k' end)) →
  ∀ n x s k fuel, I n x s k → (n < fuel)%nat → wp (loop fuel body x) s k Q.
Proof.
  intros Hbody n x s k fuel. revert n x s k. induction fuel as [|fuel IH]; intros n x s k HI Hn; [lia|].
  cbn [loop]. apply wp_bind. eapply wp_mono; [by apply Hbody|]. intros [x'|b] s' k'.
  - intros (n' & Hlt & HI'). apply (IH n'); [done|lia].
  - by apply wp_ret.
Qed.
End wp.

(** [wp_step] takes the first primitive of a program; [wp_steps] as many as there
    are. *)
Ltac wp_step :=
  lazymatch goal with
  | |- wp _ (mbind _ _) _ _ _ => apply wp_bind
  | |- wp _ (mret _) _ _ _ => apply wp_ret
  | |- wp _ (get _) _ _ _ => apply wp_get
  | |- wp _ (put _ _) _ _ _ => apply wp_put
  | |- wp _ (upd _ _) _ _ _ => apply wp_upd
  | |- wp _ (ask _) _ _ _ => apply wp_ask
  | |- wp _ set_atexit _ _ _ => apply wp_atexit
  | |- wp _ (feof_unlocked _) _ _ _ => unfold feof_unlocked
  | |- wp _ (let x := _ in _) _ _ _ => idtac
  end; cbv beta zeta.
Ltac wp_steps := repeat wp_step.
