(* ===== verification/StdioFacts.v ===== *)
(** * Streams are files

    The abstract file of a stream: contents, one position, the indicators and a
    character that has been pushed back.  Every operation on a stream over a
    regular file does to the abstract file what the C standard says, whatever
    the sizes of the buffer and of the pieces that the kernel reads; closing or
    flushing makes the kernel's file the abstract one. *)

From S2P Require Import Prelude Stdio StdioLogic.

(** ** The abstract file *)

Record afile : Type := mk_afile {
  a_data : list Z; a_pos : Z; a_eof : bool; a_err : bool; a_push : option Z;
  a_out : bool (** whether the stream was last used for output *); a_rd : bool; a_wr : bool;
  a_stale : bool (** whether [fread] has found the end of the file *)
}.

Definition a_set_err (a : afile) := mk_afile (a_data a) (a_pos a) (a_eof a) true (a_push a) (a_out a) (a_rd a) (a_wr a) (a_stale a).
Definition a_set_eof (a : afile) := mk_afile (a_data a) (a_pos a) true (a_err a) (a_push a) (a_out a) (a_rd a) (a_wr a) (a_stale a).
Definition a_clear (a : afile) := mk_afile (a_data a) (a_pos a) false false (a_push a) (a_out a) (a_rd a) (a_wr a) (a_stale a).
Definition a_set_push (c : option Z) (a : afile) := mk_afile (a_data a) (a_pos a) (a_eof a) (a_err a) c (a_out a) (a_rd a) (a_wr a) (a_stale a).
Definition a_set_out (o : bool) (a : afile) := mk_afile (a_data a) (a_pos a) (a_eof a) (a_err a) (a_push a) o (a_rd a) (a_wr a) (a_stale a).
Definition a_set_pos (p : Z) (a : afile) := mk_afile (a_data a) p (a_eof a) (a_err a) (a_push a) (a_out a) (a_rd a) (a_wr a) (a_stale a).
Definition a_set_stale (b : bool) (a : afile) := mk_afile (a_data a) (a_pos a) (a_eof a) (a_err a) (a_push a) (a_out a) (a_rd a) (a_wr a) b.
(** [l] written at the position. *)
Definition a_wrote (l : list Z) (a : afile) :=
  mk_afile (overwrite (a_data a) (Z.to_nat (a_pos a)) l) (a_pos a + Z.of_nat (length l)) (a_eof a) (a_err a) (a_push a) (a_out a) (a_rd a) (a_wr a) (a_stale a).

Definition a_getc (a : afile) : Z * afile :=
  if negb (a_rd a) then (EOF, a_set_err a) else
  match a_push a with
  | Some c => (c, a_set_push None a)
  | None =>
      if a_eof a then (EOF, a) else
      match a_data a !! Z.to_nat (a_pos a) with
      | Some c => (c, a_set_out false (a_set_pos (a_pos a + 1) a))
      | None => (EOF, a_set_out false (a_set_eof a))
      end
  end.

Definition a_putc (c : Z) (a : afile) : Z * afile :=
  if negb (a_wr a) then (EOF, a_set_err a) else (u8 c, a_set_out true (a_wrote [u8 c] a)).

Definition a_ungetc (c : Z) (a : afile) : Z * afile :=
  if (c <? 0) || (c >? 255) then (EOF, a) else (c, a_clear (a_set_push (Some c) a)).

Definition a_fread (size nmemb : Z) (a : afile) : (Z * list Z) * afile :=
  if negb (a_rd a) then ((0, []), a_set_err a) else
  let j := Z.to_nat (size * nmemb) in
  let got := take j (drop (Z.to_nat (a_pos a)) (a_data a)) in
  let a' := a_set_pos (a_pos a + Z.of_nat (length got)) a in
  if (j =? 0)%nat then ((0, []), a) else
  if (length got =? 0)%nat then ((0, []), a_set_stale true (a_set_eof a)) else
  ((Z.of_nat (length got) / size, got), if (length got <? j)%nat then a_set_eof a' else a').

Definition a_fwrite (ptr : list Z) (size nmemb : Z) (a : afile) : Z * afile :=
  if negb (a_wr a) then (0, a_set_err a) else
  (if size =? 0 then 0 else nmemb, a_set_out true (a_wrote (take (Z.to_nat (size * nmemb)) ptr) a)).

(** A line, as repeated [fgetc]: at most [n] characters. *)
Fixpoint a_line (n : nat) (a : afile) : list Z * afile :=
  match n with
  | O => ([], a)
  | S n =>
      let '(c, a) := a_getc a in
      if c =? EOF then ([], a) else
      if c =? CH "010" then ([c], a) else
      let '(l, a) := a_line n a in (c :: l, a)
  end.
Definition a_fgets (size : Z) (a : afile) : option (list Z) * afile :=
  if size <=? 0 then (None, a) else
  let '(l, a) := a_line (Z.to_nat (size - 1)) a in
  (if (size =? 1) then Some [0] else match l with [] => None | _ => Some (l ++ [0]) end, a).

Definition a_target (off whence : Z) (a : afile) : Z :=
  off + (if whence =? SEEK_SET then 0 else if whence =? SEEK_CUR then a_pos a else Z.of_nat (length (a_data a))).
Definition a_seek (off whence : Z) (a : afile) : Z * afile :=
  let t := a_target off whence a in
  let a := a_clear (a_set_stale false (a_set_push None a)) in
  if t <? 0 then (-1, a) else (0, a_set_pos t a).

Definition a_tell (a : afile) : Z :=
  if a_err a then -1 else a_pos a - (match a_push a with Some _ => 1 | None => 0 end).

(** ** The relation *)

Section facts.
Context {K : Type} `{RegularFiles K} (f : Z) (Hf : f ≠ 0) (desc : Z) (Hdesc : desc ≠ 0).
Abbreviation WP := (wp (K := K) f).

(** The flags of the stream. *)
Record flags_ok (a : afile) (x : Z) : Prop := {
  fl_rd : Z.testbit x 7 = a_rd a;
  fl_wr : Z.testbit x 8 = a_wr a;
  fl_err : Z.testbit x 0 = a_err a;
  fl_eof : Z.testbit x 1 = a_eof a;
  fl_mode : Z.testbit x 2 = negb (a_out a)
}.
(** At the end of the file there is nothing left. *)
Definition end_ok (a : afile) : Prop := a_eof a = true → Z.of_nat (length (a_data a)) <= a_pos a.

(** What holds of a stream in either direction; [C] and [p] are the kernel's file,
    open as [desc]. *)
Record common (a : afile) (s : FILE) (k : K) (C : list Z) (p : Z) : Prop := {
  cm_file : file_at k (fd s) = Some (C, p);
  cm_pos : 0 <= p;
  cm_bytes : Forall byte C;
  cm_fd : fd s = desc;
  cm_len : Z.of_nat (length (buf s)) = buflen s;
  cm_buflen : 1 <= buflen s < 2147483648;
  cm_bufbytes : Forall byte (buf s);
  cm_flags : flags_ok a (flags s);
  cm_end : end_ok a
}.

(** The character pushed back is apart, or the one before the position. *)
Definition pushed (a : afile) (s : FILE) (q : Z) : Prop :=
  match a_push a with
  | None => ungotten s = false ∧ a_pos a = q
  | Some c => byte c ∧ ((ungotten s = true ∧ ungetbuf s = c ∧ a_pos a = q) ∨
      (ungotten s = false ∧ a_pos a = q + 1 ∧ bm s < bs s ∧ a_data a !! Z.to_nat q = Some c))
  end.

(** The buffer holds the part of the file before the kernel's offset. *)
Record input (a : afile) (s : FILE) (C : list Z) (p : Z) : Prop := {
  in_range : 0 <= bm s <= bs s ∧ bs s <= buflen s;
  in_start : bs s <= p;
  in_data : take (Z.to_nat (bs s)) (buf s) = take (Z.to_nat (bs s)) (drop (Z.to_nat (p - bs s)) C);
  in_contents : a_data a = C;
  in_push : pushed a s (p - (bs s - bm s))
}.

(** The buffer is to be written at the kernel's offset. *)
Record output (a : afile) (s : FILE) (C : list Z) (p : Z) : Prop := {
  out_range : 0 <= bm s <= buflen s;
  out_bs : bs s = 0;
  out_data : a_data a = overwrite C (Z.to_nat p) (take (Z.to_nat (bm s)) (buf s));
  out_pos : a_pos a = p + bm s;
  out_push : a_push a = None ∧ ungotten s = false;
  out_nobuf : Z.testbit (flags s) 4 = true → bm s = 0
}.

Definition rel (a : afile) (s : FILE) (k : K) : Prop :=
  ∃ C p, common a s k C p ∧ if a_out a then output a s C p else input a s C p.

(** Neither the position nor what is in the buffer matters to [common]. *)
Lemma common_same a a' s s' k C p :
  common a s k C p → fd s' = fd s → buf s' = buf s → buflen s' = buflen s → flags s' = flags s →
  a_rd a' = a_rd a → a_wr a' = a_wr a → a_err a' = a_err a → a_eof a' = a_eof a → a_out a' = a_out a → end_ok a' →
  common a' s' k C p.
Proof.
  intros [? ? ? ? ? ? ? [] ?] E1 E2 E3 E4 E5 E6 E7 E8 E9 He. split; rewrite ?E1, ?E2, ?E3, ?E4; try done. split; congruence.
Qed.

(** ** Flushing *)

(** What [fflush] makes of the stream. *)
Definition clean (s : FILE) : FILE := set_unget (ungetbuf s) false (if Z.testbit (flags s) 2 then set_bs 0 (set_bm 0 s) else set_bm 0 s).

Lemma clean_fields s :
  fd (clean s) = fd s ∧ flags (clean s) = flags s ∧ buf (clean s) = buf s ∧ buflen (clean s) = buflen s ∧ ungotten (clean s) = false.
Proof. unfold clean. by destruct (Z.testbit (flags s) 2). Qed.
Lemma clean_empty s : (Z.testbit (flags s) 2 = false → bs s = 0) → bm (clean s) = 0 ∧ bs (clean s) = 0.
Proof. unfold clean. destruct (Z.testbit (flags s) 2); [done|]. intros Hs. split; [done|by apply Hs]. Qed.

(** After [fflush] the kernel's file is the abstract one. *)
Lemma fflush_ok a s k : rel a s k →
  WP (fflush_unlocked f) s k (λ r s' k', r = 0 ∧ s' = clean s ∧
    ∃ p, file_at k' (fd s) = Some (a_data a, p) ∧ 0 <= p ∧ (a_push a = None → p = a_pos a)).
Proof.
  intros (C & p & [] & Hdir). unfold fflush_unlocked. cif. unfold fflush_stream, clean. wp_steps.
  rewrite bit_INPUT, (fl_mode _ _ cm_flags0). destruct (a_out a); cbn [negb].
  - destruct Hdir as [? ? ? ? [Hp0 _] _]. destruct (Z.eqb_spec (bm s) 0) as [E|E].
    + wp_steps. split; [done|]. split; [done|]. exists p. rewrite out_data0, E. cbn. split_and!; [done|done|lia].
    + apply wp_bind, wp_buf_read; [lia|lia|]. change (drop (Z.to_nat 0) (buf s)) with (buf s).
      apply wp_bind. destruct (write_law k (fd s) (take (Z.to_nat (bm s)) (buf s)) C p cm_file0) as (k' & Hw & Hk').
      apply wp_sys with (1 := Hw). rewrite length_take in *. replace (Z.of_nat (Z.to_nat (bm s) `min` length (buf s))) with (bm s) in * by lia.
      rewrite Z.eqb_refl. cbn [negb]. wp_steps. split; [done|]. split; [done|].
      exists (p + bm s). rewrite out_data0. split_and!; [done|lia|lia].
  - destruct Hdir as [? ? ? ? Hpush]. apply wp_bind.
    set (d := s32 (bm s - bs s)). assert (d = bm s - bs s) as Hd by (unfold d; clear - in_range0 cm_buflen0; int_lia).
    apply wp_mono with (λ _ s' k', s' = s ∧ ∃ q, file_at k' (fd s) = Some (C, q) ∧ 0 <= q ∧ (ungotten s = false → q = p + d)).
    + destruct (Z.eqb_spec d 0) as [E|E]; cbn [negb].
      * wp_steps. split; [done|]. exists p. split_and!; [done|done|lia].
      * apply wp_bind. set (off := if ungotten s then d - 1 else d).
        destruct (lseek_law k (fd s) off SEEK_CUR C p cm_file0) as (k' & Hs & Hk'). apply wp_sys with (1 := Hs).
        wp_steps. split; [done|]. cbn in Hk'. eexists. split; [exact Hk'|]. clear Hs Hk'.
        assert (ungotten s = false → off = d) as Hoff by (intros Hu; unfold off; by rewrite Hu).
        destruct (Z.ltb_spec (off + p) 0); (split; [lia|]); intros Hu; specialize (Hoff Hu); lia.
    + intros [] s' k' [-> (q & Hq & Hq0 & Hqd)]. wp_steps. split; [done|]. split; [done|].
      exists q. rewrite in_contents0. split_and!; [done|done|]. intros Hp. unfold pushed in *. rewrite Hp in *.
      destruct Hpush as [Hu Hpos]. rewrite Hqd by done. lia.
Qed.

(** ** Streams whose buffer is empty *)

Lemma rel_empty a s k :
  common a s k (a_data a) (a_pos a) → bm s = 0 → bs s = 0 → ungotten s = false → a_push a = None → rel a s k.
Proof.
  intros Hc Hbm Hbs Hu Hp. exists (a_data a), (a_pos a). split; [done|]. destruct Hc. destruct (a_out a).
  - split; rewrite ?Hbm, ?Hbs; try done; lia.
  - split; rewrite ?Hbm, ?Hbs; try done; try lia. unfold pushed. rewrite Hp. split; [done|lia].
Qed.

Lemma rel_facts a s k : rel a s k → Forall byte (a_data a) ∧ 0 <= a_pos a.
Proof.
  intros (C & p & [] & Hdir). destruct (a_out a).
  - destruct Hdir. rewrite out_data0, out_pos0. split; [|lia]. apply overwrite_byte; [done|by apply Forall_take].
  - destruct Hdir as [? ? ? -> Hp]. split; [done|]. unfold pushed in Hp. destruct (a_push a); [|lia].
    destruct Hp as [_ [(_ & _ & ->)|(_ & -> & _)]]; lia.
Qed.

(** ** The change of direction *)

Lemma fflush4_ok a s k (o : bool) :
  rel a s k → (a_out a ≠ o → a_push a = None) →
  WP (__fflush4 f (if o then 0 else BUFINPUT)) s k (λ r s' k', r = 0 ∧ rel (a_set_out o a) s' k' ∧
    if decide (a_out a = o) then s' = s ∧ k' = k else bm s' = 0 ∧ bs s' = 0).
Proof.
  intros Hrel Hpush. pose proof Hrel as (C & p & Hc & Hdir). pose proof (rel_facts _ _ _ Hrel) as [Hby Hpos].
  unfold __fflush4. wp_steps. pose proof (cm_flags _ _ _ _ _ Hc) as [? ? ? ? Hm].
  replace (Z.land (flags s) BUFINPUT =? (if o then 0 else BUFINPUT)) with (eqb (a_out a) o)
    by (destruct (input_eqb (flags s)) as [E1 E2]; destruct o; rewrite ?E1, ?E2, ?Hm; clear; by destruct (a_out a)).
  destruct (decide (a_out a = o)) as [<-|Hne].
  - rewrite eqb_reflx. cbn [negb]. rewrite (cm_fd _ _ _ _ _ Hc), (proj2 (Z.eqb_neq _ _) Hdesc).
    wp_steps. split; [done|]. split; [|done]. exists C, p. by destruct a, Hc.
  - rewrite (proj2 (eqb_false_iff _ _) Hne). cbn [negb]. apply wp_bind. eapply wp_mono; [by apply fflush_ok|].
    intros r s' k' (-> & Hs' & q & Hq & Hq0 & Hqp). wp_steps. split; [done|]. specialize (Hpush Hne). specialize (Hqp Hpush). subst q.
    subst s'. destruct (clean_fields s) as (E1 & E2 & E3 & E4 & E5).
    destruct (clean_empty s) as [Hbm Hbs]; [intros Hb; rewrite Hb in Hm; destruct (a_out a); [by destruct Hdir|done]|].
    split; [|done]. apply rel_empty; [|done..]. destruct Hc as [? ? ? ? ? ? ? [] ?].
    split; cbn [fd buf buflen flags set_flags]; rewrite ?E1, ?E2, ?E3, ?E4; [done..| |done].
    split; destruct o; flag_simpl; assumption || reflexivity.
Qed.

(** ** Characters *)

(** The bytes that are left in the buffer are those at the position. *)
Lemma buffered a s C p n :
  input a s C p → Z.of_nat (length (buf s)) = buflen s → bm s + Z.of_nat n <= bs s →
  take n (drop (Z.to_nat (bm s)) (buf s)) = take n (drop (Z.to_nat (p - (bs s - bm s))) C) ∧
  length (take n (drop (Z.to_nat (bm s)) (buf s))) = n.
Proof.
  intros [? ? Hd _ _] Hlen Hn. split; [|rewrite length_take, length_drop; lia].
  assert (∀ l : list Z, take n (drop (Z.to_nat (bm s)) l) = drop (Z.to_nat (bm s)) (take (Z.to_nat (bm s) + n) (take (Z.to_nat (bs s)) l))) as Hl.
  { intros l. rewrite take_take, Nat.min_l by lia. by rewrite take_drop_commute. }
  rewrite Hl, Hd, <- Hl, drop_drop. do 2 f_equal. lia.
Qed.

Lemma buffered_char a s C p :
  input a s C p → Z.of_nat (length (buf s)) = buflen s → bm s < bs s →
  ∃ c, buf s !! Z.to_nat (bm s) = Some c ∧ C !! Z.to_nat (p - (bs s - bm s)) = Some c.
Proof.
  intros Hin Hlen Hlt. destruct (buffered _ _ _ _ 1 Hin Hlen) as [E1 E2]; [lia|].
  destruct (drop (Z.to_nat (bm s)) (buf s)) as [|c l] eqn:E; [done|]. exists c.
  split.
  - replace (Z.to_nat (bm s)) with (Z.to_nat (bm s) + 0)%nat by lia. by rewrite <- lookup_drop, E.
  - cbn in E1. destruct (drop _ C) as [|c' l'] eqn:E'; cbn in E1; [done|]. injection E1 as <-.
    replace (Z.to_nat (p - (bs s - bm s))) with (Z.to_nat (p - (bs s - bm s)) + 0)%nat by lia. by rewrite <- lookup_drop, E'.
Qed.

Lemma rel_flags a eof err s x k :
  let a' := mk_afile (a_data a) (a_pos a) eof err (a_push a) (a_out a) (a_rd a) (a_wr a) (a_stale a) in
  rel a s k → (∀ i, i = 2 ∨ i = 4 ∨ i = 7 ∨ i = 8 → Z.testbit x i = Z.testbit (flags s) i) →
  Z.testbit x 0 = err → Z.testbit x 1 = eof → end_ok a' → rel a' (set_flags x s) k.
Proof.
  intros a' (C & p & Hc & Hdir) Hx Hx0 Hx1 Hend. exists C, p. split.
  - destruct Hc as [? ? ? ? ? ? ? [] ?]. split; try done. split; cbn [flags set_flags]; rewrite ?Hx by auto; done.
  - unfold a'. cbn [a_out]. destruct (a_out a); destruct Hdir; split; cbn [flags set_flags]; try done. rewrite Hx by auto. done.
Qed.

(** The indicators. *)
Ltac indicators :=
  lazymatch goal with Hrel : rel ?a _ _ |- _ =>
    let C := fresh in let p := fresh in let Hc := fresh in
    pose proof Hrel as (C & p & Hc & _); destruct Hc as [_ _ _ _ _ _ _ [] ?];
    eapply (rel_flags a); [exact Hrel| | | |] end;
  [intros i Hi; by destruct Hi as [->|[->|[->| ->]]]; flag_simpl|by flag_simpl|by flag_simpl|].

Lemma rel_raise_err a s k : rel a s k → rel (a_set_err a) (raise ERRORINDICATOR s) k.
Proof. intros Hrel. indicators. done. Qed.
Lemma rel_raise_eof a s k : Z.of_nat (length (a_data a)) <= a_pos a → rel a s k → rel (a_set_eof a) (raise EOFINDICATOR s) k.
Proof. intros He Hrel. indicators. by intros _. Qed.
Lemma rel_lower a s k : rel a s k → rel (a_clear a) (lower (Z.lor ERRORINDICATOR EOFINDICATOR) s) k.
Proof. intros Hrel. indicators. done. Qed.

(** An input stream whose buffer has been used up is filled from the file. *)
Lemma rel_fill a s k k' l :
  rel a s k → a_out a = false → a_push a = None → bm s = bs s →
  Z.of_nat (length l) <= buflen s → l = take (length l) (drop (Z.to_nat (a_pos a)) (a_data a)) →
  file_at k' (fd s) = Some (a_data a, a_pos a + Z.of_nat (length l)) →
  rel a (set_bs (Z.of_nat (length l)) (set_bm 0 (set_buf (splice 0 l (buf s)) s))) k'.
Proof.
  intros (C & p & [] & Hdir) Ho Hp Hb Hl Hd Hk'. rewrite Ho in Hdir. destruct Hdir as [? ? ? <- Hpush].
  unfold pushed in Hpush. rewrite Hp in Hpush. destruct Hpush as [Hu Hpos].
  assert (0 + length l ≤ length (buf s))%nat as Hlen by lia.
  exists (a_data a), (a_pos a + Z.of_nat (length l)). rewrite Ho. split; [split; try done|split].
  - lia.
  - cbn. by rewrite splice_length.
  - cbn [buf set_bs set_bm set_buf]. apply splice_byte; [|done]. rewrite Hd. by apply Forall_take, Forall_drop.
  - cbn [bm bs buflen set_bs set_bm set_buf]. rewrite !u32_id by lia. lia.
  - cbn [bs set_bs]. rewrite u32_id by lia. lia.
  - cbn [bs buf set_bs set_bm set_buf]. rewrite u32_id, Nat2Z.id by lia.
    replace (a_pos a + _ - _) with (a_pos a) by lia. rewrite <- Hd. apply (splice_take 0 l). done.
  - done.
  - unfold pushed. rewrite Hp. cbn [bm bs ungotten set_bs set_bm set_buf]. split; [done|]. rewrite !u32_id by lia. lia.
Qed.

(** The next byte of an input stream. *)
Lemma rel_next a s k n :
  rel a s k → a_out a = false → a_push a = None → 0 <= n → bm s + n <= bs s →
  rel (a_set_pos (a_pos a + n) a) (set_bm (bm s + n) s) k.
Proof.
  intros (C & p & [] & Hdir) Ho Hp Hn Hle. rewrite Ho in Hdir. destruct Hdir as [? ? ? <- Hpush].
  unfold pushed in Hpush. rewrite Hp in Hpush. destruct Hpush as [Hu Hpos].
  assert (u32 (bm s + n) = bm s + n) as E by (apply u32_id; lia).
  exists (a_data a), p. cbn [a_out a_set_pos]. rewrite Ho. split; [split; try done|split]; cbn [bm bs buflen buf set_bm]; rewrite ?E; try done; try lia.
  - by destruct cm_flags0.
  - intros He. cbn. specialize (cm_end0 He). lia.
  - unfold pushed. cbn [a_push a_set_pos a_pos bm bs set_bm]. rewrite Hp. split; [done|lia].
Qed.

Lemma a_set_out_id o a : a_out a = o → a_set_out o a = a.
Proof. intros <-. by destruct a. Qed.

Lemma fgetc_buffered a s k :
  rel a s k → a_rd a = true → ungotten s = false → bm s < bs s →
  ∃ c, buf s !! Z.to_nat (bm s) = Some c ∧ c = (a_getc a).1 ∧ rel (a_getc a).2 (set_bm (bm s + 1) s) k ∧ 0 <= bm s.
Proof.
  intros Hrel Hrd Hu Hlt. pose proof Hrel as (C & p & Hc & Hdir).
  destruct (a_out a) eqn:Ho; [destruct Hdir; lia|].
  pose proof (in_range _ _ _ _ Hdir) as Hrange. pose proof (in_contents _ _ _ _ Hdir) as HC.
  destruct (buffered_char _ _ _ _ Hdir (cm_len _ _ _ _ _ Hc) Hlt) as (c & Hc1 & Hc2).
  exists c. split; [done|]. pose proof (in_push _ _ _ _ Hdir) as Hp. unfold pushed in Hp.
  unfold a_getc. rewrite Hrd. cbn [negb]. destruct (a_push a) as [c'|] eqn:Hpush.
  - destruct Hp as [Hb [(Hu' & _)|(_ & Hpos & _ & Hdata)]]; [congruence|]. rewrite HC, Hc2 in Hdata. injection Hdata as ->.
    split; [done|]. split; [|lia]. exists C, p. cbn [snd a_out a_set_push]. rewrite Ho. destruct Hdir. pose proof (cm_buflen _ _ _ _ _ Hc).
    assert (u32 (bm s + 1) = bm s + 1) as E by (apply u32_id; lia).
    split; [apply (common_same a _ s); try done; apply (cm_end _ _ _ _ _ Hc)|split; cbn [bm bs buflen buf set_bm]; rewrite ?E; [lia|done|done|done|by split; [|cbn; lia]]].
  - destruct Hp as [_ Hpos]. rewrite Hpos, HC, Hc2. destruct (a_eof a) eqn:He.
    { pose proof (cm_end _ _ _ _ _ Hc He) as Hend. rewrite HC in Hend. apply lookup_lt_Some in Hc2. destruct Hc. lia. }
    split; [done|]. split; [|lia]. cbn [snd]. rewrite <- Hpos, a_set_out_id by done. apply rel_next; done || lia.
Qed.

(** [read] at the position, with the laws of the kernel. *)
Lemma read_at a s k n : rel a s k → a_out a = false → a_push a = None → bm s = bs s → 0 < n →
  ∃ l k', sys_read (fd s) n k = (Some l, k') ∧ Z.of_nat (length l) <= n ∧
    l = take (length l) (drop (Z.to_nat (a_pos a)) (a_data a)) ∧
    (l = [] → Z.of_nat (length (a_data a)) <= a_pos a) ∧
    file_at k' (fd s) = Some (a_data a, a_pos a + Z.of_nat (length l)).
Proof.
  intros (C & p & Hc & Hdir) Ho Hp Hb Hn. rewrite Ho in Hdir. destruct Hdir as [? ? ? <- Hpush]. unfold pushed in Hpush.
  rewrite Hp in Hpush. destruct Hpush as [_ Hpos]. replace p with (a_pos a) in * by lia.
  apply (read_law k (fd s) n _ _ (cm_file _ _ _ _ _ Hc) (cm_pos _ _ _ _ _ Hc) Hn).
Qed.

(** At the end of the file only the offset of the kernel matters. *)
Lemma rel_kern a s k k' : rel a s k → a_out a = false → a_push a = None → bm s = bs s →
  file_at k' (fd s) = Some (a_data a, a_pos a) → rel a s k'.
Proof.
  intros (C & p & Hc & Hdir) Ho Hp Hb Hk. exists C, p. split; [|done]. rewrite Ho in Hdir.
  destruct Hdir as [? ? ? <- Hpush]. unfold pushed in Hpush. rewrite Hp in Hpush. destruct Hpush as [_ Hpos].
  replace (a_pos a) with p in Hk by lia. by destruct Hc.
Qed.

Lemma take_head n (C l : list Z) c t : l = c :: t → l = take (length l) (drop n C) → C !! n = Some c.
Proof.
  intros -> Hl. destruct (drop n C) as [|c' l'] eqn:E; cbn in Hl; [done|]. injection Hl as -> _.
  by rewrite <- (Nat.add_0_r n), <- lookup_drop, E.
Qed.

Lemma fgetc_refill a s k : rel a s k → a_rd a = true → a_out a = false → a_push a = None → a_eof a = false → bm s = bs s →
  WP (d ← sys (sys_read (fd s) (buflen s));
      match d with
      | Some [] => _ ← upd f (raise EOFINDICATOR); mret EOF
      | None => _ ← upd f (raise ERRORINDICATOR); mret EOF
      | Some d =>
          _ ← buf_write f 0 d;
          _ ← upd f (λ s, set_bs (Z.of_nat (length d)) (set_bm 0 s));
          s ← get f; c ← buf_load s (bm s); _ ← upd f (set_bm (bm s + 1)); mret c
      end) s k (λ c s' k', c = (a_getc a).1 ∧ rel (a_getc a).2 s' k').
Proof.
  intros Hrel Hrd Ho Hp He Hb. pose proof Hrel as (C & p & Hc & _).
  pose proof (cm_buflen _ _ _ _ _ Hc) as Hn. pose proof (cm_len _ _ _ _ _ Hc) as Hlen.
  destruct (read_at a s k (buflen s) Hrel Ho Hp Hb ltac:(lia)) as (l & k' & Hread & Hl & Hdata & Hend & Hk').
  apply wp_bind, (wp_sys _ _ _ _ _ _ _ Hread). unfold a_getc. rewrite Hrd, Hp, He. cbn [negb].
  destruct l as [|c t] eqn:El.
  - wp_steps. specialize (Hend eq_refl). rewrite lookup_ge_None_2 by lia. split; [done|]. cbn [snd].
    rewrite a_set_out_id by done. apply rel_raise_eof; [done|]. apply (rel_kern _ _ k); try done. by rewrite Hk', Z.add_0_r.
  - rewrite <- El in *. rewrite (take_head _ _ l c t El Hdata). cbn [fst snd].
    apply wp_bind, wp_buf_write; [lia|lia|]. wp_steps.
    set (s1 := set_bs _ _). assert (rel a s1 k') as Hrel1 by (by apply rel_fill with (k := k)).
    apply (wp_buf_load _ _ _ _ c); [done|change (splice 0 l (buf s) !! 0%nat = Some c); by rewrite El|]. wp_steps. split; [done|].
    rewrite a_set_out_id by done. apply (rel_next a s1 k' 1); try done. cbn [bm bs s1 set_bs set_bm]. rewrite !u32_id by lia. rewrite El. cbn [length]. lia.
Qed.

Lemma fgetc_ok a s k : rel a s k →
  WP (fgetc_unlocked f) s k (λ c s' k', c = (a_getc a).1 ∧ rel (a_getc a).2 s' k').
Proof.
  intros Hrel. pose proof Hrel as (C & p & Hc & Hdir). unfold fgetc_unlocked. wp_steps.
  rewrite bit_READ, (fl_rd _ _ (cm_flags _ _ _ _ _ Hc)). destruct (a_rd a) eqn:Hrd; cbn [negb].
  2: { wp_steps. unfold a_getc. rewrite Hrd. split; [done|]. by apply rel_raise_err. }
  destruct (ungotten s) eqn:Hu.
  { wp_steps. unfold a_getc. rewrite Hrd. cbn [negb]. destruct (a_out a) eqn:Ho; [destruct Hdir as [? ? ? ? [_ Hu'] _]; congruence|].
    destruct Hdir as [? ? ? ? Hp]. unfold pushed in Hp. destruct (a_push a) as [c|]; [|destruct Hp; congruence].
    destruct Hp as [Hb [(_ & Hc' & Hpos)|(? & _)]]; [|congruence]. split; [done|].
    exists C, p. cbn [snd a_out a_set_push]. rewrite Ho. split; [apply (common_same a _ s); try done; apply (cm_end _ _ _ _ _ Hc)|by split]. }
  destruct (Z.ltb_spec (bm s) (bs s)) as [Hlt|Hge].
  { destruct (fgetc_buffered _ _ _ Hrel Hrd Hu Hlt) as (c & Hbuf & Hres & Hrel' & Hbm).
    apply wp_bind, (wp_buf_load _ _ _ _ c); [done|done|]. wp_steps. done. }
  assert (a_push a = None ∧ (a_out a = false → bm s = bs s)) as [Hpush Hempty].
  { destruct (a_out a); [by destruct Hdir as [? ? ? ? [? _] _]|]. destruct Hdir as [? ? ? ? Hp]. unfold pushed in Hp.
    split; [|lia]. destruct (a_push a); [|done]. destruct Hp as [_ [(? & _)|(_ & _ & ? & _)]]; [congruence|lia]. }
  wp_steps. rewrite Hu, bit_EOF, (fl_eof _ _ (cm_flags _ _ _ _ _ Hc)). destruct (a_eof a) eqn:He.
  { wp_steps. unfold a_getc. by rewrite Hrd, Hpush, He. }
  apply wp_bind. eapply wp_mono; [by apply (fflush4_ok a s k false)|]. intros r s1 k1 (-> & Hrel1 & Hdec). cbn [negb Z.eqb]. wp_steps.
  assert (bm s1 = bs s1) as Hb1.
  { destruct (decide (a_out a = false)) as [Ho|_]; [|lia]. destruct Hdec as [-> ->]. by apply Hempty. }
  rewrite Hb1, Z.geb_leb, Z.leb_refl. eapply wp_mono; [apply (fgetc_refill (a_set_out false a)); done|].
  unfold a_getc. cbn [a_rd a_push a_eof a_data a_pos a_set_out]. rewrite Hrd, Hpush, He. by destruct (a_data a !! _).
Qed.

(** ** Output *)

Lemma flush_rel a s k : rel a s k → a_push a = None →
  WP (fflush_unlocked f) s k (λ r s' k', r = 0 ∧ rel a s' k' ∧ bm s' = 0 ∧ bs s' = 0 ∧ buflen s' = buflen s ∧
    flags s' = flags s ∧ fd s' = fd s ∧ ungotten s' = false).
Proof.
  intros Hrel Hp. pose proof Hrel as (C & p & Hc & Hdir). pose proof (rel_facts _ _ _ Hrel) as [Hb Hpos].
  eapply wp_mono; [by apply fflush_ok|]. intros r s' k' (-> & -> & q & Hq & _ & Hqp). specialize (Hqp Hp). subst q.
  destruct (clean_fields s) as (E1 & E2 & E3 & E4 & E5).
  destruct (clean_empty s) as [Hbm Hbs].
  { rewrite (fl_mode _ _ (cm_flags _ _ _ _ _ Hc)). destruct (a_out a); [by destruct Hdir|done]. }
  split_and!; try done. apply rel_empty; try done. apply (common_same a a s); try done.
  - by destruct Hc.
  - apply (cm_end _ _ _ _ _ Hc).
Qed.

Lemma end_wrote a l : end_ok a → end_ok (a_wrote l a).
Proof.
  intros He Heof. specialize (He Heof). cbn. rewrite overwrite_length. destruct (decide (l = [])); lia.
Qed.

Lemma a_wrote_nil a : a_wrote [] a = a.
Proof. destruct a. unfold a_wrote. cbn. by rewrite Z.add_0_r. Qed.

Lemma a_wrote_app a l1 l2 : 0 <= a_pos a → a_wrote l2 (a_wrote l1 a) = a_wrote (l1 ++ l2) a.
Proof.
  intros Hp. unfold a_wrote. cbn. rewrite length_app. f_equal; [|lia].
  rewrite Z2Nat.inj_add, Nat2Z.id by lia. apply overwrite_app.
Qed.

(** Bytes put into the buffer. *)
Lemma rel_put a s k l :
  rel a s k → a_out a = true → Z.testbit (flags s) 4 = false → bm s + Z.of_nat (length l) <= buflen s → Forall byte l →
  rel (a_wrote l a) (set_bm (bm s + Z.of_nat (length l)) (set_buf (splice (Z.to_nat (bm s)) l (buf s)) s)) k.
Proof.
  intros (C & p & Hc & Hdir) Ho Hn Hl Hb. rewrite Ho in Hdir. destruct Hdir as [? ? Hd ? [? ?] ?].
  pose proof (cm_len _ _ _ _ _ Hc). pose proof (cm_buflen _ _ _ _ _ Hc).
  assert (u32 (bm s + Z.of_nat (length l)) = bm s + Z.of_nat (length l)) as E by (apply u32_id; lia).
  assert (Z.to_nat (bm s) + length l ≤ length (buf s))%nat as Hlen by lia.
  exists C, p. cbn [a_out a_wrote]. rewrite Ho. split.
  - destruct Hc as [? ? ? ? ? ? ? [] ?]. split; cbn [fd buf buflen flags set_bm set_buf]; try done.
    + by rewrite splice_length.
    + by apply splice_byte.
    + by apply end_wrote.
  - split; cbn [bm bs buf buflen flags set_bm set_buf]; rewrite ?E; try done; try lia.
    + cbn [a_data a_wrote]. rewrite Hd, out_pos0.
      replace (Z.to_nat (bm s + Z.of_nat (length l))) with (Z.to_nat (bm s) + length l)%nat by lia.
      rewrite splice_take by done. rewrite <- overwrite_app. f_equal. rewrite length_take. destruct Hc. lia.
    + cbn. lia.
Qed.

(** Bytes written directly. *)
Lemma rel_write a s k l : rel a s k → a_out a = true → bm s = 0 → Forall byte l →
  ∃ k', sys_write (fd s) l k = (Z.of_nat (length l), k') ∧ rel (a_wrote l a) s k'.
Proof.
  intros (C & p & Hc & Hdir) Ho Hbm Hb. rewrite Ho in Hdir. destruct Hdir as [? ? Hd ? [? ?] ?].
  destruct (write_law k (fd s) l C p (cm_file _ _ _ _ _ Hc)) as (k' & Hw & Hk'). exists k'. split; [done|].
  rewrite Hbm in *. cbn in Hd. assert (a_pos a = p) as Hpos by lia.
  exists (overwrite C (Z.to_nat p) l), (p + Z.of_nat (length l)). cbn [a_out a_wrote]. rewrite Ho. split.
  - destruct Hc as [? ? ? ? ? ? ? [] ?]. split; try done; [lia|by apply overwrite_byte|by apply end_wrote].
  - split; rewrite ?Hbm; try done; try lia; cbn; [by rewrite Hd, Hpos|lia].
Qed.

(** A stream that is ready for output: the state between the change of direction
    and the bytes. *)
Lemma ready a s k : rel a s k → (a_out a = false → a_push a = None) →
  WP (__fflush4 f 0) s k (λ r s' k', r = 0 ∧ rel (a_set_out true a) s' k').
Proof.
  intros Hrel Hp. eapply wp_mono; [apply (fflush4_ok a s k true); [done|]|].
  - intros Hne. apply Hp. by destruct (a_out a).
  - by intros r s' k' (-> & Hrel' & _).
Qed.

Lemma output_facts a s k : rel a s k → a_out a = true →
  0 <= bm s <= buflen s ∧ a_push a = None ∧ (Z.testbit (flags s) 4 = true → bm s = 0) ∧
  1 <= buflen s < 2147483648 ∧ Z.of_nat (length (buf s)) = buflen s.
Proof. intros (C & p & Hc & Hdir) Ho. rewrite Ho in Hdir. destruct Hdir as [? ? ? ? [? ?] ?], Hc. done. Qed.

(** [fputc] after the change of direction. *)
Lemma fputc_ready a s k c : rel a s k → a_out a = true →
  WP (s ← get f;
      r ← (if bm s >=? u32 (buflen s - 1) then fflush_unlocked f else mret 0);
      if negb (r =? 0) then _ ← upd f (raise ERRORINDICATOR); mret EOF else
      s ← get f;
      if flagged s NOBUF then
        n ← sys (sys_write (fd s) [u8 c]);
        if negb (n =? 1) then _ ← upd f (raise ERRORINDICATOR); mret EOF else mret (u8 c)
      else
        _ ← buf_store f (bm s) c;
        _ ← upd f (set_bm (bm s + 1));
        r ← (if (flagged s BUFLINEWISE && (c =? CH "010")) || flagged s NOBUF then fflush_unlocked f else mret 0);
        if negb (r =? 0) then _ ← upd f (raise ERRORINDICATOR); mret EOF else mret (u8 c)) s k
    (λ r s' k', r = u8 c ∧ rel (a_wrote [u8 c] a) s' k').
Proof.
  intros Hrel Ho. destruct (output_facts _ _ _ Hrel Ho) as (Hbm & Hp & Hnb & Hlen & Hbuf). wp_steps.
  apply wp_mono with (λ r s' k', r = 0 ∧ rel a s' k' ∧ bm s' < buflen s').
  { rewrite u32_id by lia. destruct (Z.geb_spec (bm s) (buflen s - 1)); [|wp_steps; split_and!; [done|done|lia]].
    eapply wp_mono; [by apply flush_rel|]. intros r s' k' (-> & Hrel' & Hb' & _ & Hl' & _). split_and!; [done|done|lia]. }
  intros r s1 k1 (-> & Hrel1 & Hroom). cbn [negb Z.eqb]. wp_steps. clear Hbm Hp Hnb Hlen Hbuf.
  destruct (output_facts _ _ _ Hrel1 Ho) as (Hbm & Hp & Hnb & Hlen & Hbuf). rewrite bit_NOBUF, bit_LINE.
  assert (Forall byte [u8 c]) as Hby by (constructor; [apply u8_byte|constructor]).
  destruct (Z.testbit (flags s1) 4) eqn:E4.
  - destruct (rel_write _ _ _ [u8 c] Hrel1 Ho (Hnb eq_refl) Hby) as (k' & Hw & Hrel2).
    apply wp_bind, (wp_sys _ _ _ _ _ _ _ Hw). change (Z.of_nat (length [u8 c]) =? 1) with true. cbn [negb]. by wp_steps.
  - apply wp_bind, wp_buf_store; [lia|]. wp_steps. rewrite orb_false_r.
    pose proof (rel_put a s1 k1 [u8 c] Hrel1 Ho E4 ltac:(cbn [length]; lia) Hby) as Hrel2. set (s2 := set_bm _ _) in *.
    change (set_bm (bm s1 + 1) (set_buf (splice (Z.to_nat (bm s1)) [u8 c] (buf s1)) s1)) with s2.
    apply wp_mono with (λ r s' k', r = 0 ∧ rel (a_wrote [u8 c] a) s' k').
    + destruct (_ && _); [|by wp_steps]. eapply wp_mono; [by apply flush_rel|]. by intros r s' k' (-> & ? & _).
    + intros r s' k' (-> & Hrel3). cbn [negb Z.eqb]. by wp_steps.
Qed.

Lemma fputc_ok a s k c : rel a s k → (a_wr a = true → a_out a = false → a_push a = None) →
  WP (fputc_unlocked c f) s k (λ r s' k', r = (a_putc c a).1 ∧ rel (a_putc c a).2 s' k').
Proof.
  intros Hrel Hp. pose proof Hrel as (C & p & Hc & Hdir). unfold fputc_unlocked, a_putc. wp_steps.
  rewrite bit_WRITE, (fl_wr _ _ (cm_flags _ _ _ _ _ Hc)). destruct (a_wr a) eqn:Hwr; cbn [negb].
  - apply wp_bind. eapply wp_mono; [apply ready; [done|by apply Hp]|]. intros r s1 k1 (-> & Hrel1). cbn [negb Z.eqb]. by apply (fputc_ready (a_set_out true a)).
  - wp_steps. split; [done|]. by apply rel_raise_err.
Qed.

(** ** Pushing back *)

Lemma buffered_at a s C p i : input a s C p → 0 <= i < bs s →
  buf s !! Z.to_nat i = C !! Z.to_nat (p - bs s + i).
Proof.
  intros [? ? Hd _ _] Hi. rewrite <- (lookup_take_lt (buf s) (Z.to_nat (bs s))), Hd by lia.
  rewrite lookup_take_lt, lookup_drop by lia. f_equal. lia.
Qed.

Lemma ungetc_ok a s k c : rel a s k → a_out a = false → a_push a = None →
  WP (ungetc_unlocked c f) s k (λ r s' k', r = (a_ungetc c a).1 ∧ rel (a_ungetc c a).2 s' k').
Proof.
  intros Hrel Ho Hp. pose proof Hrel as (C & p & Hc & Hdir). rewrite Ho in Hdir. destruct Hdir as [? ? ? ? Hpush].
  unfold pushed in Hpush. rewrite Hp in Hpush. destruct Hpush as [Hu Hpos]. unfold ungetc_unlocked, a_ungetc. wp_steps.
  rewrite Hu. cbn [orb]. destruct ((c <? 0) || (c >? 255)) eqn:E; [by wp_steps|]. apply wp_bind.
  pose proof (cm_len _ _ _ _ _ Hc). pose proof (cm_buflen _ _ _ _ _ Hc).
  assert (byte c) as Hb by (unfold byte; lia).
  apply wp_mono with (λ (b : bool) s' k', s' = s ∧ k' = k ∧ (b = true → 0 < bm s ∧ buf s !! Z.to_nat (bm s - 1) = Some c)).
  { destruct (Z.eqb_spec (bm s) 0); [by wp_steps|]. destruct (lookup_lt_is_Some_2 (buf s) (Z.to_nat (bm s - 1))) as [b Hlb]; [lia|].
    apply wp_bind, (wp_buf_load _ _ _ _ b); [lia|done|]. wp_steps. split_and!; [done|done|]. intros Hbc. split; [lia|].
    assert (byte b) by (eapply Forall_lookup_1; [apply (cm_bufbytes _ _ _ _ _ Hc)|done]).
    apply Z.eqb_eq in Hbc. unfold byte in *. rewrite Hlb. f_equal. clear - Hbc H3 Hb. int_lia. }
  intros b s' k' (-> & -> & Hback). wp_steps. split; [done|].
  apply (rel_lower (a_set_push (Some c) a)). pose proof Hrel as (C' & p' & Hc' & Hin). rewrite Ho in Hin.
  clear C p Hc in_range0 in_start0 in_data0 in_contents0 Hpos. exists C', p'. cbn [a_out a_set_push]. rewrite Ho.
  pose proof (in_push _ _ _ _ Hin) as Hq. unfold pushed in Hq. rewrite Hp in Hq. destruct Hq as [_ Hq].
  pose proof (cm_end _ _ _ _ _ Hc') as He. destruct b.
  - destruct (Hback eq_refl) as [Hbm Hbuf]. pose proof (in_range _ _ _ _ Hin).
    assert (u32 (bm s - 1) = bm s - 1) as Eu by (apply u32_id; lia). rewrite (buffered_at _ _ _ _ _ Hin) in Hbuf by lia.
    split; [apply (common_same a _ s); done|]. destruct Hin. split; cbn [bm bs buflen buf set_bm]; rewrite ?Eu; [lia|done..|].
    unfold pushed. cbn [a_push a_set_push]. split; [done|]. right. cbn [ungotten bm bs set_bm a_pos a_data a_set_push]. rewrite Eu.
    split_and!; [done|lia|lia|]. rewrite in_contents0, <- Hbuf. f_equal. lia.
  - split; [apply (common_same a _ s); done|]. destruct Hin. split; try done.
    unfold pushed. cbn. split; [done|]. by left.
Qed.

(** ** Reading blocks *)

(** A stream that is reading, without a character pushed back. *)
Definition reading (a : afile) : Prop := a_rd a = true ∧ a_out a = false ∧ a_push a = None.

Lemma input_facts a s k : rel a s k → reading a →
  ∃ p, common a s k (a_data a) p ∧ input a s (a_data a) p ∧ ungotten s = false ∧ a_pos a = p - (bs s - bm s).
Proof.
  intros (C & p & Hc & Hdir) (_ & Ho & Hp). rewrite Ho in Hdir. pose proof (in_contents _ _ _ _ Hdir) as <-.
  exists p. pose proof (in_push _ _ _ _ Hdir) as Hq. unfold pushed in Hq. rewrite Hp in Hq. by destruct Hq.
Qed.

Lemma rel_reset a s k : rel a s k → reading a → bm s = bs s → rel a (set_bm 0 (set_bs 0 s)) k.
Proof.
  intros Hrel Hr Hb. destruct (input_facts _ _ _ Hrel Hr) as (p & Hc & Hin & Hu & Hpos). destruct Hr as (Hrd & Ho & Hp).
  apply rel_empty; try done. apply (common_same a a s); try done; [|by apply (cm_end _ _ _ _ _ Hc)].
  replace (a_pos a) with p by lia. done.
Qed.

(** A read past the buffer. *)
Lemma rel_skip a s k k' n : rel a s k → reading a → bm s = 0 → bs s = 0 → 0 <= n →
  file_at k' (fd s) = Some (a_data a, a_pos a + n) → rel (a_set_pos (a_pos a + n) a) s k'.
Proof.
  intros Hrel Hr Hbm Hbs Hn Hk. destruct (input_facts _ _ _ Hrel Hr) as (p & Hc & Hin & Hu & Hpos). destruct Hr as (Hrd & Ho & Hp).
  pose proof (cm_end _ _ _ _ _ Hc) as He. pose proof (cm_pos _ _ _ _ _ Hc).
  apply rel_empty; try done. apply (common_same a _ s); try done; [destruct Hc; split; try done; cbn; lia|].
  intros Heof. specialize (He Heof). cbn. lia.
Qed.

(** What is read of [j] bytes, and the file after that. *)
Definition got (a : afile) (j : nat) : list Z := take j (drop (Z.to_nat (a_pos a)) (a_data a)).
Definition a_after (a : afile) (j : nat) : afile :=
  let a' := a_set_pos (a_pos a + Z.of_nat (length (got a j))) a in
  if (length (got a j) <? j)%nat then a_set_eof a' else a'.

(** The bytes [out] have been read. *)
Definition read_part (a : afile) (out : list Z) (s : FILE) (k : K) : Prop :=
  rel (a_set_pos (a_pos a + Z.of_nat (length out)) a) s k ∧ out = got a (length out).
Definition read_post (a : afile) (j : nat) (r : bool * list Z) (s : FILE) (k : K) : Prop :=
  r = ((length (got a j) =? j)%nat, got a j) ∧ rel (a_after a j) s k.

Lemma got_app a n l : 0 <= a_pos a →
  l = take (length l) (drop (Z.to_nat (a_pos a + Z.of_nat n)) (a_data a)) → got a (n + length l) = got a n ++ l.
Proof.
  intros Hp Hl. unfold got in *. rewrite Hl at 2. replace (Z.to_nat (a_pos a + Z.of_nat n)) with (Z.to_nat (a_pos a) + n)%nat by lia.
  rewrite <- drop_drop. generalize (drop (Z.to_nat (a_pos a)) (a_data a)). intros L. generalize (length l). intros m. clear.
  revert L. induction n as [|n IH]; intros [|c L]; cbn; rewrite ?take_nil; [done|done|done|]. f_equal. apply IH.
Qed.

Lemma read_done a j out s k : read_part a out s k → length out = j → read_post a j (true, out) s k.
Proof.
  intros [Hrel Hout] Hj. subst j. unfold read_post, a_after. rewrite <- Hout, Nat.eqb_refl, Nat.ltb_irrefl. done.
Qed.

Lemma read_short a j out s k : read_part a out s k → 0 <= a_pos a → (length out < j)%nat →
  Z.of_nat (length (a_data a)) <= a_pos a + Z.of_nat (length out) →
  read_post a j (false, out) (raise EOFINDICATOR s) k.
Proof.
  intros [Hrel Hout] Hp Hj Hend. assert (got a j = out) as Hg.
  { rewrite Hout. unfold got. rewrite !take_ge; [done|rewrite length_drop; lia..]. }
  unfold read_post, a_after. rewrite Hg. rewrite (proj2 (Nat.eqb_neq _ _)), (proj2 (Nat.ltb_lt _ _)) by lia.
  split; [done|]. by apply rel_raise_eof.
Qed.

Lemma read_direct_ok a j out s k :
  reading a → 0 <= a_pos a → read_part a out s k → bm s = 0 → bs s = 0 → (length out < j)%nat → ∀ fuel, (j - length out < fuel)%nat →
  WP (loop fuel (read_direct f (Z.of_nat j)) out) s k (read_post a j).
Proof.
  intros Hr Hpos Hpart Hbm Hbs Hlt fuel Hfuel.
  apply (wp_loop f _ (λ n out s k, read_part a out s k ∧ bm s = 0 ∧ bs s = 0 ∧ n = (j - length out)%nat ∧ (length out < j)%nat))
    with (n := (j - length out)%nat); [|done|done].
  clear out s k Hpart Hbm Hbs Hlt fuel Hfuel. intros n out s k ([Hrel Hout] & Hbm & Hbs & -> & Hlt). unfold read_direct. wp_steps.
  set (a1 := a_set_pos _ a) in Hrel. destruct Hr as (Hrd & Ho & Hp).
  destruct (read_at a1 s k (Z.of_nat j - Z.of_nat (length out)) Hrel) as (l & k' & Hread & Hl & Hdata & Hend & Hk'); [done|done|lia|lia|].
  apply (wp_sys _ _ _ _ _ _ _ Hread). destruct l as [|c t] eqn:El.
  - wp_steps. unfold read_end. wp_steps. apply read_short; [|done|done|by apply Hend].
    split; [|done]. apply (rel_kern _ _ k); try done; [lia|]. by rewrite Hk', Z.add_0_r.
  - rewrite <- El in *. assert (read_part a (out ++ l) s k') as Hpart.
    { split.
      - rewrite length_app, Nat2Z.inj_add, Z.add_assoc. apply (rel_skip a1 s k k'); try done. lia.
      - rewrite length_app, got_app, <- Hout; done. }
    assert (0 < length l)%nat by (rewrite El; cbn; lia).
    wp_steps. destruct (Z.ltb_spec (Z.of_nat (length l)) (Z.of_nat j - Z.of_nat (length out))).
    + exists (j - length (out ++ l))%nat. rewrite length_app. split; [lia|]. split_and!; try done. lia.
    + apply read_done; [done|]. rewrite length_app. lia.
Qed.

Lemma a_getc_reading a : reading a → a_eof a = false → a_getc a =
  match a_data a !! Z.to_nat (a_pos a) with
  | Some c => (c, a_set_pos (a_pos a + 1) a) | None => (EOF, a_set_eof a) end.
Proof.
  intros (Hrd & Ho & Hp) He. unfold a_getc. rewrite Hrd, Hp, He. cbn [negb].
  destruct (a_data a !! _); by rewrite a_set_out_id.
Qed.

Lemma read_chars_ok a j out s k :
  reading a → 0 <= a_pos a → a_eof a = false → read_part a out s k → (length out <= j)%nat → ∀ fuel, (j - length out < fuel)%nat →
  WP (loop fuel (read_chars f (Z.of_nat j)) out) s k (read_post a j).
Proof.
  intros Hr Hpos Heof Hpart Hle fuel Hfuel.
  apply (wp_loop f _ (λ n out s k, read_part a out s k ∧ n = (j - length out)%nat ∧ (length out <= j)%nat))
    with (n := (j - length out)%nat); [|done|done].
  clear out s k Hpart Hle fuel Hfuel. intros n out s k (Hpart & -> & Hle). unfold read_chars.
  destruct (Z.ltb_spec (Z.of_nat (length out)) (Z.of_nat j)) as [Hlt|Hge]; [|wp_steps; apply read_done; [done|lia]].
  destruct Hpart as [Hrel Hout]. set (a1 := a_set_pos _ a) in Hrel. pose proof (rel_facts _ _ _ Hrel) as [Hb _].
  apply wp_bind. eapply wp_mono; [by apply fgetc_ok|]. intros c s' k' (-> & Hrel').
  rewrite (a_getc_reading a1 Hr Heof) in *. cbn [a_data a1 a_set_pos] in *.
  destruct (a_data a !! Z.to_nat (a_pos a1)) as [c|] eqn:Ec; cbn [fst snd] in *.
  - assert (byte c) as Hbc by (eapply Forall_lookup_1; done). unfold EOF. replace (c =? -1) with false by (unfold byte in Hbc; lia).
    wp_steps. exists (j - length (out ++ [u8 c]))%nat. rewrite u8_id by done. rewrite length_app. cbn [length].
    split; [lia|]. split_and!; [|done|lia]. split; [rewrite length_app, Nat2Z.inj_add, Z.add_assoc; done|].
    rewrite length_app, got_app, <- Hout; [done|done|]. cbn [length]. cbn [a_pos a1 a_set_pos] in Ec.
    rewrite <- (take_drop_middle _ _ _ Ec) at 1. rewrite drop_app_length'; [done|]. rewrite length_take. apply lookup_lt_Some in Ec. lia.
  - change (EOF =? EOF) with true. cbv iota. wp_steps. apply lookup_ge_None in Ec. unfold read_post.
    destruct (read_short a j out s k (conj Hrel Hout) Hpos) as [E _]; [lia|cbn [a_pos a1 a_set_pos] in Ec; lia|].
    rewrite <- E. split; [done|]. injection E as E1 E2. unfold a_after. rewrite <- E2. by rewrite (proj2 (Nat.ltb_lt _ _)) by lia.
Qed.

Definition fread_post (a : afile) (size : Z) (j : nat) (r : Z * list Z) (s : FILE) (k : K) : Prop :=
  r = (Z.of_nat (length (got a j)) / size, got a j) ∧ rel (a_after a j) s k.

Lemma read_post_items a size nmemb j r s k : 0 < size → Z.of_nat j = size * nmemb → read_post a j r s k →
  fread_post a size j (let '(complete, out) := r in (if (complete : bool) then nmemb else Z.of_nat (length out) / size, out)) s k.
Proof.
  intros Hs Hj [-> Hrel]. split; [|done]. destruct (Nat.eqb_spec (length (got a j)) j) as [E|_]; [|done].
  f_equal. rewrite E, Hj, Z.mul_comm, Z.div_mul; lia.
Qed.

Lemma in_buffer_eof a s k : rel a s k → reading a → bm s < bs s → a_eof a = false.
Proof.
  intros Hrel Hr Hlt. destruct (input_facts _ _ _ Hrel Hr) as (p & Hc & Hin & Hu & Hpos).
  destruct (buffered_char _ _ _ _ Hin (cm_len _ _ _ _ _ Hc) Hlt) as (c & _ & Hc2). apply lookup_lt_Some in Hc2.
  destruct (a_eof a) eqn:He; [|done]. pose proof (cm_end _ _ _ _ _ Hc He). destruct Hc. lia.
Qed.

Lemma read_rest_ok a s k size nmemb j :
  rel a s k → reading a → 0 < size → 0 < Z.of_nat j → Z.of_nat j = size * nmemb → bm s < bs s →
  WP (read_rest f size nmemb (Z.of_nat j) (bs s - bm s) []) s k (fread_post a size j).
Proof.
  intros Hrel Hr Hsize Hj Hjs Hlt. destruct (input_facts _ _ _ Hrel Hr) as (p & Hc & Hin & Hu & Hpos).
  pose proof (in_buffer_eof _ _ _ Hrel Hr Hlt) as Heof. destruct (rel_facts _ _ _ Hrel) as [_ Hpos0].
  pose proof (in_range _ _ _ _ Hin) as [Hbm Hbs]. pose proof (cm_len _ _ _ _ _ Hc) as Hlen. pose proof Hr as (Hrd & Ho & Hp).
  unfold read_rest. wp_steps. set (n := Z.min (Z.of_nat j) (bs s - bm s)). assert (0 < n <= Z.of_nat j ∧ n <= bs s - bm s) as Hn by lia.
  apply wp_buf_read; [lia|lia|].
  destruct (buffered _ _ _ _ (Z.to_nat n) Hin Hlen) as [Hl1 Hl2]; [lia|]. rewrite <- Hpos in Hl1.
  set (l := take _ _) in *. change (l = got a (Z.to_nat n)) in Hl1. cbn [app]. wp_steps.
  pose proof (rel_next a s k n Hrel Ho Hp ltac:(lia) ltac:(lia)) as Hrel1. set (s1 := set_bm _ s) in *.
  assert (bm s1 = bm s + n) as Hb1 by (apply u32_id; pose proof (cm_buflen _ _ _ _ _ Hc); lia).
  apply wp_mono with (λ _ s' k', read_part a l s' k' ∧ (n < Z.of_nat j → bm s' = 0 ∧ bs s' = 0)).
  { assert (read_part a l s1 k) as Hpart by (split; rewrite Hl2; [rewrite Z2Nat.id by lia; done|done]).
    destruct (Z.eqb_spec (bm s1) (bs s1)) as [E|E]; wp_steps.
    - split; [|done]. split; [|apply Hpart]. apply rel_reset; [apply Hpart|done|done].
    - split; [done|]. change (bs s1) with (bs s) in E. lia. }
  intros [] s2 k2 [Hpart Hempty]. rewrite Hl2, Z2Nat.id by lia. destruct (Z.eqb_spec n (Z.of_nat j)) as [E|E].
  { wp_steps. apply (read_post_items a size nmemb _ (true, l)); [done|lia|]. apply read_done; [done|]. by rewrite Hl2, E, Nat2Z.id. }
  destruct (Hempty ltac:(lia)) as [Hbm2 Hbs2]. wp_steps.
  destruct (_ && _); apply wp_bind; (eapply wp_mono; [|intros [complete out] s' k' Hpost; wp_steps;
    by apply (read_post_items a size nmemb j (complete, out))]).
  - apply read_direct_ok; try done; lia.
  - apply read_chars_ok; try done; lia.
Qed.

Lemma a_set_stale_id a : a_stale a = false → a_set_stale false a = a.
Proof. intros <-. by destruct a. Qed.

(** The stream after an [fread] that found the end of the file with an empty
    buffer: [bm] is 0, but [bs] still that of the characters read before. *)
Definition stale (a : afile) (s : FILE) (k : K) : Prop :=
  ∃ s0, rel (a_set_stale false a) s0 k ∧ reading a ∧ bm s0 = bs s0 ∧ s = set_bm 0 s0.

Definition rel_or_stale (a : afile) (s : FILE) (k : K) : Prop := if a_stale a then stale a s k else rel a s k.

Lemma fread_ok a s k size nmemb :
  rel a s k → a_stale a = false → 0 <= size → 0 <= nmemb → size * nmemb < 2 ^ 64 → (a_rd a = true → a_out a = false ∧ a_push a = None) →
  WP (fread_unlocked size nmemb f) s k (λ r s' k', r = (a_fread size nmemb a).1 ∧ rel_or_stale (a_fread size nmemb a).2 s' k').
Proof.
  intros Hrel Hst Hsize Hn Hj Hr. pose proof Hrel as (C & p & Hc & Hdir). pose proof (rel_facts _ _ _ Hrel) as [_ Hpos].
  unfold fread_unlocked, a_fread, rel_or_stale. wp_steps.
  rewrite bit_READ, (fl_rd _ _ (cm_flags _ _ _ _ _ Hc)). destruct (a_rd a) eqn:Hrd; cbn [negb].
  2: { wp_steps. split; [done|]. cbn. rewrite Hst. by apply rel_raise_err. }
  destruct (Hr eq_refl) as [Ho Hp]. assert (reading a) as Hr' by done.
  rewrite u64_id by nia. remember (Z.to_nat (size * nmemb)) as j eqn:Ej. replace (size * nmemb) with (Z.of_nat j) by nia.
  fold (got a j) (a_after a j). destruct (Nat.eqb_spec j 0) as [->|Hne].
  { change (Z.of_nat 0 =? 0) with true. cbn [orb]. wp_steps. cbn [snd]. by rewrite Hst. }
  replace (Z.of_nat j =? 0) with false by lia. cbn [orb].
  replace (Z.of_nat j / nmemb =? size) with true.
  2: { symmetry. apply Z.eqb_eq. replace (Z.of_nat j) with (size * nmemb) by nia. apply Z.div_mul. nia. }
  destruct (input_facts _ _ _ Hrel Hr') as (q & Hcq & Hin & Hu & Hq). cbn [negb]. rewrite Hu. wp_steps. cbn [andb].
  replace (set_unget (ungetbuf s) false s) with s by (destruct s; cbn in Hu; by subst).
  pose proof (in_range _ _ _ _ Hin) as Hrange. pose proof (cm_buflen _ _ _ _ _ Hc) as Hbl. pose proof (cm_len _ _ _ _ _ Hc) as Hlen. rewrite u32_id by lia.
  apply wp_mono with (λ r s' k', if decide (got a j = []) then r = (0, []) ∧ stale (a_set_stale true (a_set_eof a)) s' k' else fread_post a size j r s' k').
  2: { intros r s' k'. destruct (decide _) as [E|E]; [by rewrite E|]. 
    rewrite (proj2 (Nat.eqb_neq _ _)) by (by intros ?%length_zero_iff_nil). intros [-> Hrel']. unfold a_after in *. split; [done|]. cbn [snd]. destruct (_ <? j)%nat; cbn [a_stale a_set_eof a_set_pos]; by rewrite Hst. }
  destruct (Z.eqb_spec (bs s - bm s) 0) as [E|E].
  2: { destruct (decide _) as [Eg|_]; [|apply read_rest_ok; try done; nia]. exfalso.
    destruct (buffered _ _ _ _ 1 Hin Hlen) as [E1 E2]; [lia|]. rewrite <- Hq in E1. rewrite E1 in E2.
    assert (length (got a j) ≠ 0)%nat as []; [|by rewrite Eg]. unfold got. rewrite length_take in *. lia. }
  wp_steps. destruct (read_at a s k (buflen s) Hrel Ho Hp ltac:(lia) ltac:(lia)) as (l & k' & Hread & Hl & Hdata & Hend & Hk').
  apply (wp_sys _ _ _ _ _ _ _ Hread). destruct l as [|c t] eqn:El.
  - wp_steps. unfold read_end. wp_steps. rewrite decide_True by (unfold got; apply take_nil_iff || (rewrite drop_ge; [apply take_nil|specialize (Hend eq_refl); lia])).
    split; [done|]. exists (raise EOFINDICATOR s). split_and!; try done; [|change (bm s = bs s); lia].
    change (a_set_stale false _) with (a_set_eof (a_set_stale false a)). rewrite (a_set_stale_id a) by done.
    apply rel_raise_eof; [by apply Hend|]. apply (rel_kern _ _ k); try done; [lia|]. by rewrite Hk', Z.add_0_r.
  - rewrite <- El in *. apply wp_bind, wp_buf_write; [lia|cbn [buf set_bm]; lia|]. wp_steps.
    assert (0 < length l)%nat as Hl0 by (rewrite El; cbn; lia).
    pose proof (rel_fill a s k k' l Hrel Ho Hp ltac:(lia) Hl Hdata Hk') as Hrel1.
    set (s1 := set_bs _ _) in Hrel1. change (set_bs _ _) with s1.
    destruct (decide (got a j = [])) as [Eg|_].
    { rewrite Hdata in Hl0. unfold got in Eg. apply (f_equal length) in Eg. rewrite length_take in *. cbn in Eg. lia. }
    assert (bs s1 - bm s1 = Z.of_nat (length l)) as Hn1 by (cbn [s1 bs bm set_bs set_bm]; rewrite !u32_id by lia; lia).
    rewrite <- Hn1.
    apply read_rest_ok; try done; nia.
Qed.

(** ** Writing blocks *)

(** A stream that is writing through its buffer. *)
Definition writing (a : afile) : Prop := a_wr a = true ∧ a_out a = true.

Lemma u8_s8 c : byte c → u8 (s8 c) = c.
Proof. unfold byte. intros. int_lia. Qed.

Lemma a_putc_writing c a : writing a → a_putc c a = (u8 c, a_wrote [u8 c] a).
Proof. intros [Hw Ho]. unfold a_putc. rewrite Hw. cbn [negb]. by rewrite a_set_out_id. Qed.

Lemma write_chars_ok a s k len l : rel a s k → writing a → Forall byte l →
  WP (write_chars f len l) s k (λ r s' k', r = len ∧ rel (a_wrote l a) s' k').
Proof.
  revert a s k. induction l as [|c l IH]; intros a s k Hrel Hw Hb; cbn [write_chars]; [wp_steps; by rewrite a_wrote_nil|].
  inversion Hb as [|? ? Hc Hl]; subst. apply wp_bind. eapply wp_mono; [apply fputc_ok; [done|intros _ Ho; destruct Hw; congruence]|].
  intros r s' k' (-> & Hrel'). rewrite (a_putc_writing _ _ Hw) in *. cbn [fst snd] in *. rewrite u8_s8 in * by done.
  unfold EOF. replace (c =? -1) with false by (unfold byte in Hc; lia).
  eapply wp_mono; [by apply IH|]. intros r s2 k2 [-> Hrel2]. split; [done|].
  rewrite a_wrote_app in Hrel2 by apply (rel_facts _ _ _ Hrel). done.
Qed.

Lemma write_lines_ok a s k l : rel a s k → a_out a = true → Z.testbit (flags s) 4 = false →
  bm s + Z.of_nat (length l) <= buflen s → Forall byte l →
  WP (write_lines f l) s k (λ r s' k', r = true ∧ rel (a_wrote l a) s' k').
Proof.
  revert a s k. induction l as [|c l IH]; intros a s k Hrel Ho H4 Hlen Hb; cbn [write_lines]; [wp_steps; by rewrite a_wrote_nil|].
  inversion Hb as [|? ? Hc Hl]; subst. cbn [length] in Hlen.
  destruct (output_facts _ _ _ Hrel Ho) as (Hbm & Hp & _ & Hlen' & Hbuf). wp_steps.
  apply wp_buf_store; [cbn [buf set_bm]; lia|]. rewrite u8_id by done. wp_steps.
  pose proof (rel_put a s k [c] Hrel Ho H4 ltac:(cbn [length]; lia) ltac:(by constructor)) as Hrel1.
  set (s1 := set_bm _ _) in Hrel1. change (set_buf _ _) with s1.
  assert (bm s1 = bm s + 1) as Hb1 by (apply u32_id; cbn [length]; lia).
  apply wp_mono with (λ r s' k', r = 0 ∧ rel (a_wrote [c] a) s' k' ∧ Z.testbit (flags s') 4 = false ∧ bm s' + Z.of_nat (length l) <= buflen s').
  { destruct (_ =? _); [|wp_steps; split_and!; try done; change (buflen s1) with (buflen s); lia].
    eapply wp_mono; [by apply flush_rel|]. intros r s' k' (-> & Hrel' & Hb' & _ & Hl' & Hfl & _). rewrite Hfl, Hl', Hb'.
    split_and!; try done. change (buflen s1) with (buflen s). lia. }
  intros r s2 k2 (-> & Hrel2 & H42 & Hlen2). cbn [negb Z.eqb]. eapply wp_mono; [by apply IH|].
  intros r s3 k3 [-> Hrel3]. split; [done|]. rewrite a_wrote_app in Hrel3 by apply (rel_facts _ _ _ Hrel). done.
Qed.

(** The flags that decide about buffering. *)
Lemma rel_buffering a s k x : rel a s k → (∀ i, i ≠ 3 → i ≠ 9 → 0 <= i → Z.testbit x i = Z.testbit (flags s) i) → rel a (set_flags x s) k.
Proof.
  intros Hrel Hx. pose proof Hrel as (C & p & Hc & _). destruct Hc as [_ _ _ _ _ _ _ [] He].
  assert (a = mk_afile (a_data a) (a_pos a) (a_eof a) (a_err a) (a_push a) (a_out a) (a_rd a) (a_wr a) (a_stale a)) as -> by (by destruct a).
  apply rel_flags; [done|intros i Hi; apply Hx; destruct Hi as [->|[->|[->| ->]]]; done|by rewrite Hx|by rewrite Hx|by destruct a].
Qed.

Lemma linewise_ok a s k : rel a s k →
  WP (linewise f) s k (λ lw s' k', rel a s' k' ∧ k' = k ∧ bm s' = bm s ∧ buflen s' = buflen s ∧ buf s' = buf s ∧
    Z.testbit (flags s') 4 = Z.testbit (flags s) 4 ∧ (lw = false → Z.testbit (flags s') 3 = false) ∧
    (Z.testbit (flags s) 3 = false → lw = false)).
Proof.
  intros Hrel. unfold linewise. wp_steps. rewrite bit_LINE, bit_CHECK.
  destruct (Z.testbit (flags s) 3) eqn:E3; cbn [negb]; [|by wp_steps].
  destruct (Z.testbit (flags s) 9) eqn:E9; [|by wp_steps]. wp_steps.
  assert (rel a (lower CHECKLINEWISE s) k) as Hrel1.
  { apply rel_buffering; [done|]. intros i H3 H9 Hi. rewrite Z.land_spec, Z.lnot_spec by done.
    change CHECKLINEWISE with (2 ^ 9). rewrite Z.pow2_bits_false by lia. apply andb_true_r. }
  destruct (sys_isatty _ _); wp_steps.
  - split_and!; try done. unfold lower. by flag_simpl.
  - split_and!; try done; [|unfold lower; by flag_simpl..]. apply rel_buffering; [done|]. intros i H3 H9 Hi.
    rewrite Z.land_spec, Z.lnot_spec by done. change BUFLINEWISE with (2 ^ 3). rewrite Z.pow2_bits_false by lia. apply andb_true_r.
Qed.

(** The loop at [again]: [done] has been written; after the first round the stream
    is not line-buffered and its buffer is empty. *)
Definition again (a : afile) (all : list Z) (ptr : list Z) (s : FILE) (k : K) : Prop :=
  ∃ done, rel (a_wrote done a) s k ∧ done ++ ptr = all ∧ Z.testbit (flags s) 4 = false ∧
    (done = [] ∨ (Z.testbit (flags s) 3 = false ∧ bm s = 0 ∧ ptr ≠ [])).

Definition wrote_post (a : afile) (all : list Z) (size nmemb : Z) (r : Z) (s : FILE) (k : K) : Prop :=
  r = (if size =? 0 then 0 else nmemb) ∧ rel (a_wrote all a) s k.

Lemma items_all size nmemb len : 0 <= size → len = size * nmemb → items size len = (if size =? 0 then 0 else nmemb).
Proof.
  intros Hs ->. unfold items. destruct (Z.eqb_spec size 0); [done|]. rewrite Z.mul_comm. apply Z.div_mul. lia.
Qed.

Lemma write_again_ok a all size nmemb ptr s k :
  again a all ptr s k → writing a → 0 <= a_pos a → Forall byte all → 0 <= size → Z.of_nat (length all) = size * nmemb → (all ≠ [] → size ≠ 0) →
  WP (write_again f size nmemb ptr) s k (λ r s' k', match r with
    | Done r => wrote_post a all size nmemb r s' k'
    | Next ptr' => (length ptr' < length ptr)%nat ∧ again a all ptr' s' k' end).
Proof.
  intros (pre & Hrel & Hall & H4 & Hfirst) Hw Hpos Hb Hs0 Hlen Hs. set (a1 := a_wrote pre a) in Hrel.
  assert (writing a1) as Hw1 by done. destruct (output_facts _ _ _ Hrel (proj2 Hw1)) as (Hbm & Hp & _ & Hbl & Hbuf).
  assert (Forall byte ptr) as Hbp by (rewrite <- Hall in Hb; by apply Forall_app in Hb as [_ ?]).
  assert (∀ l s k, rel (a_wrote l a1) s k → pre ++ l = all → rel (a_wrote all a) s k) as Hjoin.
  { intros l s' k' Hr Hl. rewrite <- Hl. by rewrite <- a_wrote_app. }
  unfold write_again. wp_steps. rewrite u32_id by lia. set (todo := Z.min _ _).
  set (now := take (Z.to_nat todo) ptr). set (later := drop (Z.to_nat todo) ptr).
  assert (now ++ later = ptr) as Hptr by apply take_drop.
  assert (Z.of_nat (length now) = todo) as Hnow by (unfold now; rewrite length_take; lia).
  assert (Forall byte now ∧ Forall byte later) as [Hbn Hbl'] by (rewrite <- Hptr in Hbp; by apply Forall_app in Hbp).
  destruct (Z.eqb_spec todo 0) as [E0|E0].
  { assert (pre = []) as -> by (destruct Hfirst as [?|(_ & ? & Hne)]; [done|destruct ptr; [done|cbn [length] in *; lia]]).
    apply wp_bind. eapply wp_mono; [by apply write_chars_ok|]. intros r s' k' [-> Hrel']. wp_steps. split; [|by eapply Hjoin].
    apply items_all; [done|]. by rewrite <- Hlen, <- Hall. }
  apply wp_bind. eapply wp_mono; [by apply linewise_ok|].
  intros lw s1 k1 (Hrel1 & -> & Hbm1 & Hbl1 & Hbuf1 & H41 & Hlw & Hlw').
  destruct lw.
  - assert (pre = []) as -> by (destruct Hfirst as [?|(E3 & _)]; [done|by apply Hlw' in E3]).
    apply wp_bind. eapply wp_mono; [apply write_lines_ok; try done; [apply Hw1|congruence|lia]|]. intros r s2 k2 [-> Hrel2].
    apply wp_bind. eapply wp_mono; [by apply write_chars_ok|]. intros r s3 k3 [-> Hrel3]. wp_steps. split.
    + apply items_all; [done|]. by rewrite <- Hlen, <- Hall.
    + rewrite a_wrote_app in Hrel3 by apply (rel_facts _ _ _ Hrel). apply (Hjoin (now ++ later)); [done|]. by rewrite Hptr.
  - apply wp_bind, wp_buf_write; [lia|rewrite Hbuf1; lia|]. wp_steps. rewrite Hbuf1.
    pose proof (rel_put a1 s1 k now Hrel1 (proj2 Hw1) ltac:(congruence) ltac:(lia) Hbn) as Hrel2. rewrite Hbm1, Hbuf1, Hnow in Hrel2.
    set (s2 := set_bm _ _) in Hrel2.  change (set_bm (bm s + todo) _) with s2.
    assert (bm s2 = bm s + todo) as Hbm2 by (apply u32_id; lia).
    destruct (Z.eqb_spec (bm s2) (buflen s2)) as [E|E].
    + apply wp_bind. eapply wp_mono; [by apply flush_rel|]. intros r s3 k3 (-> & Hrel3 & Hbm3 & _ & _ & Hfl & _). cbn [negb Z.eqb].
      destruct (Z.eqb_spec (Z.of_nat (length ptr) - todo) 0) as [E1|E1]; wp_steps.
      * assert (later = []) as El by (apply length_zero_iff_nil; unfold later; rewrite length_drop; lia).
        split; [rewrite (proj2 (Z.eqb_neq _ _)); [done|apply Hs; rewrite <- Hall; destruct ptr; [cbn in *; lia|by destruct pre]]|].
        apply (Hjoin now); [done|]. rewrite <- Hall, <- Hptr, El. by rewrite app_nil_r.
      * split; [unfold later; rewrite length_drop; lia|]. exists (pre ++ now). split_and!.
        -- rewrite <- a_wrote_app by done. done.
        -- by rewrite <- app_assoc, Hptr.
        -- rewrite Hfl. change (flags s2) with (flags s1). congruence.
        -- right. rewrite Hfl. split_and!; [by apply Hlw|done|]. intros E2. apply (f_equal length) in E2. unfold later in E2.
           rewrite length_drop in E2. cbn in E2. lia.
    + wp_steps. change (buflen s2) with (buflen s1) in E. assert (later = []) as El by (apply length_zero_iff_nil; unfold later; rewrite length_drop; lia).
      split; [rewrite (proj2 (Z.eqb_neq _ _)); [done|apply Hs; rewrite <- Hall; destruct ptr; [cbn in *; lia|by destruct pre]]|].
      apply (Hjoin now); [done|]. rewrite <- Hall, <- Hptr, El. by rewrite app_nil_r.
Qed.

Lemma write_loop_ok a all size nmemb s k :
  rel a s k → writing a → Forall byte all → 0 <= size → Z.of_nat (length all) = size * nmemb → (all ≠ [] → size ≠ 0) →
  Z.testbit (flags s) 4 = false →
  WP (loop (S (length all)) (write_again f size nmemb) all) s k (wrote_post a all size nmemb).
Proof.
  intros Hrel Hw Hb Hs Hlen Hne H4. destruct (rel_facts _ _ _ Hrel) as [_ Hpos].
  apply (wp_loop f _ (λ n ptr s k, again a all ptr s k ∧ n = length ptr)) with (n := length all); [|split; [|done]|lia].
  - intros n ptr s1 k1 [Hag ->]. eapply wp_mono; [by apply write_again_ok|]. intros [ptr'|r] s2 k2; [|done].
    intros [Hlt Hag']. by exists (length ptr').
  - exists []. rewrite a_wrote_nil. split_and!; [done|done|done|by left].
Qed.

Lemma fwrite_ok retries a s k ptr size nmemb :
  rel a s k → Forall byte ptr → 0 <= size → 0 <= nmemb → size * nmemb < 2 ^ 63 → size * nmemb <= Z.of_nat (length ptr) →
  (a_wr a = true → a_out a = false → a_push a = None) →
  WP (fwrite_unlocked retries ptr size nmemb f) s k
    (λ r s' k', r = (a_fwrite ptr size nmemb a).1 ∧ rel (a_fwrite ptr size nmemb a).2 s' k').
Proof.
  intros Hrel Hb Hs Hn Hlt Hlen Hp. pose proof Hrel as (C & p & Hc & Hdir). unfold fwrite_unlocked, a_fwrite. wp_steps.
  rewrite bit_WRITE, (fl_wr _ _ (cm_flags _ _ _ _ _ Hc)). destruct (a_wr a) eqn:Hwr; cbn [negb].
  2: { wp_steps. split; [done|]. by apply rel_raise_err. }
  apply wp_bind. eapply wp_mono; [apply ready; [done|by apply Hp]|]. intros r s1 k1 (-> & Hrel1). cbn [negb Z.eqb].
  set (a1 := a_set_out true a) in Hrel1. assert (writing a1) as Hw by done.
  rewrite u64_id by nia. set (all := take (Z.to_nat (size * nmemb)) ptr).
  assert (Z.of_nat (length all) = size * nmemb) as Hall by (unfold all; rewrite length_take; nia).
  assert (Forall byte all) as Hba by (by apply Forall_take). assert (all ≠ [] → size ≠ 0) as Hne.
  { intros Hne E. apply Hne, length_zero_iff_nil. lia. }
  change (a_set_out true (a_wrote all a)) with (a_wrote all a1).
  destruct (Z.eqb_spec nmemb 0) as [->|En]; cbn [orb].
  { wp_steps. assert (all = []) as -> by (apply length_zero_iff_nil; lia). rewrite a_wrote_nil. split; [by destruct (size =? 0)|done]. }
  rewrite Z.div_mul by done. rewrite Z.eqb_refl. cbn [negb]. unfold user_bytes. cif. fold all. wp_steps. rewrite bit_NOBUF.
  destruct ((size * nmemb >? buflen s1) || Z.testbit (flags s1) 4) eqn:Ebig.
  - apply wp_bind. eapply wp_mono; [by apply flush_rel; [done|apply (output_facts _ _ _ Hrel1 eq_refl)]|].
    intros r s2 k2 (-> & Hrel2 & Hbm & _ & _ & _ & Hfd & _). cbn [negb Z.eqb].
    destruct (rel_write a1 s2 k2 all Hrel2 eq_refl Hbm Hba) as (k3 & Hwrite & Hrel3). rewrite Hfd in Hwrite.
    apply wp_bind. cbn [loop]. unfold write_retry. wp_steps. apply (wp_sys _ _ _ _ _ _ _ Hwrite). wp_steps.
    replace (Z.of_nat (length all) =? -1) with false by lia. cbn [andb]. wp_steps. cif. wp_steps. split; [|done]. by apply items_all.
  - apply orb_false_iff in Ebig as [_ H4]. replace (Z.to_nat (size * nmemb)) with (length all) by lia. by apply write_loop_ok.
Qed.

(** ** Lines *)

(** What [fgets] returns when [l] has been read and no more is to come. *)
Definition finish (n : nat) (l : list Z) : option (list Z) :=
  match l with [] => if (n =? 0)%nat then Some [0] else None | _ => Some (l ++ [0]) end.


Lemma a_getc_char a : (a_getc a).1 ≠ EOF → a_rd (a_getc a).2 = true ∧ a_push (a_getc a).2 = None.
Proof.
  unfold a_getc. destruct (a_rd a) eqn:Hrd; cbn [negb]; [|done]. destruct (a_push a) eqn:Hp; [done|].
  destruct (a_eof a); [done|]. by destruct (a_data a !! _).
Qed.

Lemma not_ungotten a s k : rel a s k → a_push a = None → ungotten s = false.
Proof.
  intros (C & p & _ & Hdir) Hp. destruct (a_out a); [by destruct Hdir as [? ? ? ? [_ ?] _]|].
  destruct Hdir as [? ? ? ? Hq]. unfold pushed in Hq. rewrite Hp in Hq. apply Hq.
Qed.

(** The character that [fgets] takes, from the buffer or by [fgetc]. *)
Lemma fgets_char a s k (l : list Z) : rel a s k → (l ≠ [] → a_rd a = true ∧ a_push a = None) →
  WP (if negb (Z.of_nat (length l) =? 0) && (bm s <? bs s)
      then c ← buf_load s (bm s); _ ← upd f (set_bm (bm s + 1)); mret c else fgetc_unlocked f) s k
    (λ c s' k', c = (a_getc a).1 ∧ rel (a_getc a).2 s' k').
Proof.
  intros Hrel Hl. destruct (_ && _) eqn:E; [|by apply fgetc_ok]. apply andb_true_iff in E as [E1 E2].
  destruct Hl as [Hrd Hp]; [intros ->; done|].
  destruct (fgetc_buffered _ _ _ Hrel Hrd (not_ungotten _ _ _ Hrel Hp)) as (c & Hbuf & Hres & Hrel' & Hbm); [lia|].
  apply wp_bind, (wp_buf_load _ _ _ _ c); [done|done|]. by wp_steps.
Qed.

Lemma fgets_loop_ok size n : ∀ a s k l fuel,
  rel a s k → size = Z.of_nat (length l + 1 + n) → (l ≠ [] → a_rd a = true ∧ a_push a = None) → (n < fuel)%nat →
  WP (loop fuel (fgets_body f size) l) s k (λ r s' k', r = finish n (l ++ (a_line n a).1) ∧ rel (a_line n a).2 s' k').
Proof.
  induction n as [|n IH]; intros a s k l fuel Hrel Hsize Hl Hfuel; (destruct fuel as [|fuel]; [lia|]); cbn [loop];
    apply wp_bind; unfold fgets_body.
  - cif. wp_steps. cbn [a_line fst snd]. rewrite app_nil_r. by destruct l.
  - cif. apply wp_bind, wp_get, wp_bind. eapply wp_mono; [by apply fgets_char|]. intros c s1 k1 (-> & Hrel1).
    cbn [a_line]. destruct (a_getc a) as [c a1] eqn:Ec. cbn [fst snd] in *. destruct (Z.eqb_spec c EOF) as [->|Hc].
    { wp_steps. rewrite app_nil_r. by destruct l. }
    destruct (Z.eqb_spec c (CH "010")) as [->|Hc'].
    { wp_steps. cbn [fst snd]. rewrite <- app_assoc || idtac. split; [|done]. destruct l; [done|]. cbn. by rewrite <- app_assoc. }
    wp_steps. destruct (a_getc_char a) as [Hrd Hp]; [by rewrite Ec|]. rewrite Ec in Hrd, Hp. cbn [snd] in *.
    eapply wp_mono; [apply (IH a1); [done|rewrite length_app; cbn [length]; lia|done|lia]|].
    intros r s2 k2 [-> Hrel2]. destruct (a_line n a1) as [l' a2]. cbn [fst snd] in *. split; [|done].
    rewrite <- app_assoc. by destruct l.
Qed.

Lemma fgets_ok a s k size : rel a s k →
  WP (fgets_unlocked size f) s k (λ r s' k', r = (a_fgets size a).1 ∧ rel (a_fgets size a).2 s' k').
Proof.
  intros Hrel. unfold fgets_unlocked, a_fgets. destruct (Z.leb_spec size 0); [by wp_steps|].
  eapply wp_mono; [apply (fgets_loop_ok size (Z.to_nat (size - 1)) a); [done|cbn [length]; lia|done|lia]|].
  intros r s' k' [-> Hrel']. destruct (a_line _ a) as [l a'] eqn:El. cbn [fst snd app] in *. split; [|done]. unfold finish.
  destruct (Z.eqb_spec size 1) as [->|Hne].
  - cbn in El. injection El as <- <-. done.
  - destruct l; [|done]. by rewrite (proj2 (Nat.eqb_neq _ _)) by lia.
Qed.

(** ** Positions *)

Lemma rel_same_file a s k k' : rel a s k → file_at k' (fd s) = file_at k (fd s) → rel a s k'.
Proof. intros (C & p & [] & Hdir) Hk. exists C, p. split; [|done]. split; try done; congruence. Qed.

Lemma ftell_ok a s k : rel a s k → WP (ftell_unlocked f) s k (λ r s' k', r = a_tell a ∧ rel a s' k').
Proof.
  intros Hrel. pose proof Hrel as (C & p & Hc & Hdir). unfold ftell_unlocked, a_tell. wp_steps.
  change (negb (Z.land (flags s) 1 =? 0)) with (flagged s ERRORINDICATOR). rewrite bit_ERR, (fl_err _ _ (cm_flags _ _ _ _ _ Hc)).
  destruct (a_err a); [by wp_steps|]. apply wp_bind. pose proof (cm_pos _ _ _ _ _ Hc) as Hp. pose proof (cm_buflen _ _ _ _ _ Hc) as Hl.
  destruct (lseek_law k (fd s) 0 SEEK_CUR C p (cm_file _ _ _ _ _ Hc)) as (k' & Hs & Hk'). cbn in Hs, Hk'. rewrite Z.add_0_l in Hs, Hk'.
  replace (p <? 0) with false in * by lia. apply (wp_sys _ _ _ _ _ _ _ Hs). replace (p =? -1) with false by lia. wp_steps.
  assert (rel a s k') as Hrel' by (apply (rel_same_file _ _ k); [done|rewrite Hk'; symmetry; apply Hc]).
  rewrite bit_INPUT, (fl_mode _ _ (cm_flags _ _ _ _ _ Hc)). destruct (a_out a); cbn [negb]; wp_steps; (split; [|done]).
  - destruct Hdir as [? ? ? ? [-> _] _]. lia.
  - destruct Hdir as [? ? ? ? Hq]. rewrite u32_id by lia. unfold pushed in Hq.
    destruct (a_push a); [destruct Hq as [_ [(-> & _ & ->)|(-> & -> & _)]]|destruct Hq as [-> ->]]; cbn [b2z]; lia.
Qed.

(** [fflush] of any stream: the file is the abstract one. *)
Lemma fflush_any a s k : rel_or_stale a s k →
  WP (fflush_unlocked f) s k (λ r s' k', r = 0 ∧ fd s' = fd s ∧ flags s' = flags s ∧ buf s' = buf s ∧ buflen s' = buflen s ∧
    ∃ q, file_at k' (fd s) = Some (a_data a, q) ∧ 0 <= q ∧ (a_push a = None → a_stale a = false → q = a_pos a)).
Proof.
  unfold rel_or_stale. destruct (a_stale a).
  - intros (s0 & (C & p & Hc & Hdir) & (_ & Ho & _) & Hb & ->). cbn [a_out a_set_stale] in Hdir. rewrite Ho in Hdir.
    pose proof (in_contents _ _ _ _ Hdir) as Hd. pose proof (in_range _ _ _ _ Hdir) as Hrg. pose proof (in_start _ _ _ _ Hdir).
    pose proof (cm_buflen _ _ _ _ _ Hc) as Hbl. pose proof (cm_pos _ _ _ _ _ Hc). unfold fflush_unlocked. cif. unfold fflush_stream. wp_steps.
    rewrite bit_INPUT. cbn [flags set_bm]. rewrite (fl_mode _ _ (cm_flags _ _ _ _ _ Hc)). cbn [a_out a_set_stale]. rewrite Ho. cbn [negb].
    apply wp_bind. set (d := s32 _). assert (d = - bs s0) as Hds by (unfold d; cbn [bm bs set_bm]; clear - Hrg Hbl; int_lia).
    apply wp_mono with (λ _ s' k', s' = set_bm 0 s0 ∧ ∃ q, file_at k' (fd s0) = Some (C, q) ∧ 0 <= q).
    + destruct (negb (d =? 0)); wp_steps; [|split; [done|exists p; split; [apply Hc|done]]].
      cbn [ungotten set_bm]. set (off := if ungotten s0 then d - 1 else d).
      destruct (lseek_law k (fd s0) off SEEK_CUR C p (cm_file _ _ _ _ _ Hc)) as (k' & Hs & Hk'). apply (wp_sys _ _ _ _ _ _ _ Hs).
      wp_steps. split; [done|]. eexists. split; [exact Hk'|]. cbn. destruct (Z.ltb_spec (off + p) 0); lia.
    + intros [] s' k' [-> (q & Hq & Hq0)]. wp_steps. split_and!; try done. exists q. cbn in Hd. rewrite Hd. split_and!; done.
  - intros Hrel. eapply wp_mono; [by apply fflush_ok|]. intros r s' k' (-> & -> & q & Hq & Hq0 & Hqp).
    destruct (clean_fields s) as (E1 & E2 & E3 & E4 & E5). split_and!; try done. exists q. split_and!; auto.
Qed.

(** A failed [fseek] leaves a position that depends on what was in the buffer when
    a character had been pushed back. *)
Definition seek_allowed (off whence : Z) (a : afile) : Prop :=
  (whence = SEEK_SET ∨ whence = SEEK_CUR ∨ whence = SEEK_END) ∧
  ((a_push a = None ∧ a_stale a = false) ∨ (whence = SEEK_SET ∧ 0 <= off)).

Lemma stale_common a s k : rel_or_stale a s k → ∃ C p, common (a_set_stale false a) s k C p.
Proof.
  unfold rel_or_stale. destruct (a_stale a) eqn:E.
  - intros (s0 & (C & p & Hc & _) & _ & _ & ->). exists C, p. destruct Hc as [? ? ? ? ? ? ? [] ?]. by split.
  - intros (C & p & Hc & _). rewrite a_set_stale_id by done. by exists C, p.
Qed.

Lemma fseek_ok a s k off whence : rel_or_stale a s k → seek_allowed off whence a →
  WP (fseek_unlocked f off whence) s k (λ r s' k', r = (a_seek off whence a).1 ∧ rel (a_seek off whence a).2 s' k').
Proof.
  intros Hrel [Hwh Hal]. destruct (stale_common _ _ _ Hrel) as (C & p & Hc). unfold fseek_unlocked.
  apply wp_bind. eapply wp_mono; [by apply fflush_any|]. intros r s1 k1 (-> & Hfd & Hfl & Hbuf & Hbl & q & Hq & Hq0 & Hqp).
  assert (Forall byte (a_data a)) as Hby.
  { revert Hrel. unfold rel_or_stale. destruct (a_stale a); [intros (s0 & H1 & _)|intros H1]; apply (rel_facts _ _ _ H1). }
  wp_steps. set (s2 := set_unget _ _ _). assert (fd s2 = fd s1) as Hfd2 by done.
  rewrite Hfd2, Hfd. destruct (lseek_law k1 (fd s) off whence _ _ Hq) as (k2 & Hs & Hk2).
  replace (off + _) with (a_target off whence a) in Hs, Hk2.
  2: { unfold a_target. f_equal. destruct Hwh as [->|[->| ->]]; [done| |done]. cbn.
    destruct Hal as [[Hp Hst]|[? _]]; [by rewrite Hqp|done]. }
  apply (wp_sys _ _ _ _ _ _ _ Hs). wp_steps. unfold a_seek. set (t := a_target off whence a) in *.
  assert (∀ x, 0 <= x → file_at k2 (fd s) = Some (a_data a, x) →
    rel (a_set_pos x (a_clear (a_set_stale false (a_set_push None a)))) s2 k2) as Hnew.
  { intros x Hx Hk. destruct Hc as [? ? ? ? ? ? ? [] ?]. apply rel_empty; try done. split; try done.
    - by rewrite Hfd2, Hfd.
    - by rewrite Hfd2, Hfd.
    - change (buf s2) with (buf s1). change (buflen s2) with (buflen s1). by rewrite Hbuf, Hbl.
    - change (buflen s2) with (buflen s1). by rewrite Hbl.
    - change (buf s2) with (buf s1). by rewrite Hbuf.
    - change (flags s2) with (Z.land (flags s1) (Z.lnot (Z.lor ERRORINDICATOR EOFINDICATOR))). rewrite Hfl. split; flag_simpl; assumption || reflexivity. }
  destruct (Z.ltb_spec t 0) as [Ht|Ht]; cbn [Z.eqb].
  - split; [done|]. cbn [snd]. assert (a_push a = None ∧ a_stale a = false) as [Hp Hst].
    { destruct Hal as [?|[-> Hoff]]; [done|]. unfold t, a_target in Ht. cbn in Ht. lia. }
    specialize (Hnew q Hq0 Hk2). rewrite (Hqp Hp Hst) in Hnew. done.
  - replace (t =? -1) with false by lia. split; [done|]. cbn [snd]. by apply Hnew.
Qed.
End facts.
