(* ===== verification/StdioRefine.v ===== *)
(** * Programs that use a stream

    The refinement theorem: a program that opens a regular file, makes any
    sequence of the allowed calls and closes it sees what it would see on the
    abstract file, and leaves the abstract contents in the file.  At the end, what
    happens outside the allowed sequences. *)

From S2P Require Import Prelude Stdio StdioLogic StdioFacts.

(** ** Programs *)

(** The calls a program makes on a stream, and what they return. *)
Inductive call : Type :=
| Fgetc | Fputc (c : Z) | Ungetc (c : Z) | Fread (size nmemb : Z) | Fwrite (ptr : list Z) (size nmemb : Z)
| Fgets (size : Z) | Fputs (l : list Z) | Fseek (off whence : Z) | Ftell | Fflush | Feof | Ferror | Clearerr.
Inductive answer : Type :=
| Int (n : Z) | Bytes (n : Z) (l : list Z) | Line (l : option (list Z)) | Flag (b : bool) | Nothing.

(** What is allowed: the standard asks for no [fread] after output without a seek
    (here only [fgetc] and [fgets] change the direction), and for no call that
    depends on where a character was pushed back; after an [fread] at the end of
    the file the stream must be repositioned. *)
Definition may_write (a : afile) : Prop := a_wr a = true → a_out a = false → a_push a = None.
Definition allowed (c : call) (a : afile) : Prop :=
  match c with
  | Fseek off whence => seek_allowed off whence a
  | Feof | Ferror => a_push a = None
  | _ => a_stale a = false ∧
      match c with
      | Fputc _ => may_write a
      | Ungetc _ => a_out a = false ∧ a_push a = None
      | Fread size nmemb => 0 <= size ∧ 0 <= nmemb ∧ size * nmemb < 2 ^ 63 ∧ (a_rd a = true → a_out a = false ∧ a_push a = None)
      | Fwrite ptr size nmemb => 0 <= size ∧ 0 <= nmemb ∧ size * nmemb < 2 ^ 63 ∧ size * nmemb <= Z.of_nat (length ptr) ∧
          Forall byte ptr ∧ may_write a
      | Fputs l => Z.of_nat (length l) < 2 ^ 63 ∧ Forall byte l ∧ may_write a
      | Fflush => a_push a = None
      | _ => True
      end
  end.

Definition a_call (c : call) (a : afile) : answer * afile :=
  match c with
  | Fgetc => let '(r, a) := a_getc a in (Int r, a)
  | Fputc c => let '(r, a) := a_putc c a in (Int r, a)
  | Ungetc c => let '(r, a) := a_ungetc c a in (Int r, a)
  | Fread size nmemb => let '((n, l), a) := a_fread size nmemb a in (Bytes n l, a)
  | Fwrite ptr size nmemb => let '(n, a) := a_fwrite ptr size nmemb a in (Int n, a)
  | Fgets size => let '(l, a) := a_fgets size a in (Line l, a)
  | Fputs l => let '(n, a) := a_fwrite l (Z.of_nat (length l)) 1 a in (Int n, a)
  | Fseek off whence => let '(r, a) := a_seek off whence a in (Int r, a)
  | Ftell => (Int (a_tell a), a)
  | Fflush => (Int 0, a)
  | Feof => (Flag (a_eof a), a)
  | Ferror => (Flag (a_err a), a)
  | Clearerr => (Nothing, a_clear a)
  end.

Fixpoint a_run (cs : list call) (a : afile) : list answer * afile :=
  match cs with
  | [] => ([], a)
  | c :: cs => let '(r, a) := a_call c a in let '(rs, a) := a_run cs a in (r :: rs, a)
  end.
Fixpoint all_allowed (cs : list call) (a : afile) : Prop :=
  match cs with [] => True | c :: cs => allowed c a ∧ all_allowed cs (a_call c a).2 end.

Section run.
Context {K : Type} `{Syscalls K} (retries : nat) (f : Z).

Definition do_call (c : call) : CM (stdio K) answer :=
  match c with
  | Fgetc => r ← fgetc_unlocked f; mret (Int r)
  | Fputc c => r ← fputc_unlocked c f; mret (Int r)
  | Ungetc c => r ← ungetc_unlocked c f; mret (Int r)
  | Fread size nmemb => r ← fread_unlocked size nmemb f; mret (Bytes r.1 r.2)
  | Fwrite ptr size nmemb => n ← fwrite_unlocked retries ptr size nmemb f; mret (Int n)
  | Fgets size => l ← fgets_unlocked size f; mret (Line l)
  | Fputs l => n ← fputs_unlocked retries l f; mret (Int n)
  | Fseek off whence => r ← fseek_unlocked f off whence; mret (Int r)
  | Ftell => r ← ftell_unlocked f; mret (Int r)
  | Fflush => r ← fflush_unlocked f; mret (Int r)
  | Feof => b ← feof_unlocked f; mret (Flag b)
  | Ferror => b ← ferror_unlocked f; mret (Flag b)
  | Clearerr => _ ← clearerr_unlocked f; mret Nothing
  end.
Fixpoint do_calls (cs : list call) : CM (stdio K) (list answer) :=
  match cs with [] => mret [] | c :: cs => r ← do_call c; rs ← do_calls cs; mret (r :: rs) end.
End run.

Lemma a_getc_stale a : a_stale (a_getc a).2 = a_stale a.
Proof.
  unfold a_getc. destruct (negb (a_rd a)); [done|]. destruct (a_push a); [done|]. destruct (a_eof a); [done|].
  by destruct (a_data a !! _).
Qed.
Lemma a_line_stale n a : a_stale (a_line n a).2 = a_stale a.
Proof.
  revert a. induction n as [|n IH]; intros a; [done|]. cbn [a_line]. pose proof (a_getc_stale a) as Hg.
  destruct (a_getc a) as [c a']. cbn [snd] in Hg. destruct (c =? EOF); [done|]. destruct (c =? _); [done|].
  specialize (IH a'). destruct (a_line n a'). cbn [snd] in *. congruence.
Qed.

Section refinement.
Context {K : Type} `{RegularFiles K} (retries : nat) (f : Z) (Hf : f ≠ 0) (desc : Z) (Hdesc : desc ≠ 0).
Notation rel := (rel desc).
Notation rel_or_stale := (rel_or_stale desc).

(** A call that keeps the relation. *)
Lemma keep {A} (m : CM (stdio K) A) s k (a a' : afile) (r : A) (g : A → answer) :
  a_stale a' = false → wp f m s k (λ x s' k', x = r ∧ rel a' s' k') →
  wp f (x ← m; mret (g x)) s k (λ x s' k', x = g r ∧ rel_or_stale a' s' k').
Proof.
  intros Hst Hm. apply wp_bind. eapply wp_mono; [exact Hm|]. intros x s' k' [-> Hrel]. wp_steps. split; [done|].
  unfold rel_or_stale. by rewrite Hst.
Qed.

Lemma indicators_ok a s k : rel_or_stale a s k → a_push a = None →
  ungotten s = false ∧ flagged s ERRORINDICATOR = a_err a ∧ flagged s EOFINDICATOR = a_eof a.
Proof.
  intros Hrel Hp. destruct (stale_common desc _ _ _ Hrel) as (C & p & Hc). rewrite bit_ERR, bit_EOF.
  destruct (cm_flags _ _ _ _ _ _ Hc) as [_ _ E1 E2 _]. rewrite E1, E2. split; [|done]. revert Hrel. unfold rel_or_stale.
  destruct (a_stale a); [intros (s0 & Hrel & _ & _ & ->)|intros Hrel]; by apply (not_ungotten desc) in Hrel.
Qed.

Lemma do_call_ok c a s k : rel_or_stale a s k → allowed c a →
  wp f (do_call retries f c) s k (λ r s' k', r = (a_call c a).1 ∧ rel_or_stale (a_call c a).2 s' k').
Proof.
  intros Hrel Hal.
  assert (a_stale a = false → rel a s k) as Hrel' by (unfold rel_or_stale in Hrel; intros E; by rewrite E in Hrel).
  destruct c; cbn [allowed] in Hal; cbn [do_call a_call]; try (destruct Hal as [Hst Hal]; specialize (Hrel' Hst)).
  - pose proof (a_getc_stale a). destruct (a_getc a) as [r a'] eqn:E; cbn [fst snd]. apply (keep _ s k a a' r Int); [cbn in *; congruence|].
    eapply wp_mono; [by apply (fgetc_ok f Hf desc Hdesc)|]. by rewrite E.
  - destruct (a_putc c a) as [r a'] eqn:E; cbn [fst snd]. apply (keep _ s k a a' r Int); [unfold a_putc in E; destruct (negb _); by injection E as <- <-|].
    eapply wp_mono; [by apply (fputc_ok f Hf desc Hdesc)|]. by rewrite E.
  - destruct (a_ungetc c a) as [r a'] eqn:E; cbn [fst snd]. apply (keep _ s k a a' r Int); [unfold a_ungetc in E; destruct (_ || _); by injection E as <- <-|].
    eapply wp_mono; [apply (ungetc_ok f desc); [done|apply Hal..]|]. by rewrite E.
  - destruct Hal as (H1 & H2 & H3 & H4). apply wp_bind. eapply wp_mono; [apply (fread_ok f Hf desc Hdesc); try done; lia|].
    intros r s' k' [-> Hr]. wp_steps. destruct (a_fread size nmemb a) as [[n l] a']. done.
  - destruct Hal as (H1 & H2 & H3 & H4 & H5 & H6). destruct (a_fwrite ptr size nmemb a) as [r a'] eqn:E; cbn [fst snd].
    apply (keep _ s k a a' r Int); [unfold a_fwrite in E; destruct (negb _); by injection E as <- <-|].
    eapply wp_mono; [by apply (fwrite_ok f Hf desc Hdesc)|]. by rewrite E.
  - pose proof (a_line_stale (Z.to_nat (size - 1)) a) as Hls. destruct (a_fgets size a) as [r a'] eqn:E; cbn [fst snd].
    apply (keep _ s k a a' r Line); [unfold a_fgets in E; destruct (size <=? 0); [by injection E as <- <-|]; destruct (a_line _ _); injection E as <- <-; cbn in Hls; congruence|].
    eapply wp_mono; [by apply (fgets_ok f Hf desc Hdesc)|]. by rewrite E.
  - destruct Hal as (H1 & H2 & H3). destruct (a_fwrite l _ 1 a) as [r a'] eqn:E; cbn [fst snd].
    apply (keep _ s k a a' r Int); [unfold a_fwrite in E; destruct (negb _); by injection E as <- <-|].
    unfold fputs_unlocked. eapply wp_mono; [apply (fwrite_ok f Hf desc Hdesc); try done; lia|]. by rewrite E.
  - destruct (a_seek off whence a) as [r a'] eqn:E; cbn [fst snd].
    apply (keep _ s k a a' r Int); [unfold a_seek in E; destruct (_ <? 0); by injection E as <- <-|].
    eapply wp_mono; [by apply (fseek_ok f Hf desc)|]. by rewrite E.
  - cbn [fst snd]. apply (keep _ s k a a (a_tell a) Int); [done|]. by apply (ftell_ok f desc).
  - cbn [fst snd]. apply (keep _ s k a a 0 Int); [done|]. eapply wp_mono; [by apply (flush_rel f Hf desc)|]. by intros r s' k' (-> & ? & _).
  - destruct (indicators_ok _ _ _ Hrel Hal) as (Hu & _ & He). unfold feof_unlocked. wp_steps. by rewrite Hu, He.
  - destruct (indicators_ok _ _ _ Hrel Hal) as (_ & He & _). unfold ferror_unlocked. wp_steps. by rewrite He.
  - unfold clearerr_unlocked. wp_steps. split; [done|]. unfold rel_or_stale. cbn [snd a_stale a_clear]. rewrite Hst. by apply (rel_lower desc).
Qed.

Lemma do_calls_ok cs a s k : rel_or_stale a s k → all_allowed cs a →
  wp f (do_calls retries f cs) s k (λ r s' k', r = (a_run cs a).1 ∧ rel_or_stale (a_run cs a).2 s' k').
Proof.
  revert a s k. induction cs as [|c cs IH]; intros a s k Hrel Hal; cbn [do_calls a_run]; [by wp_steps|].
  destruct Hal as [Hc Hal]. apply wp_bind. eapply wp_mono; [by apply do_call_ok|]. intros r s1 k1 [-> Hrel1].
  apply wp_bind. eapply wp_mono; [by apply IH|]. intros rs s2 k2 [-> Hrel2]. wp_steps.
  destruct (a_call c a) as [r a1]. cbn [fst snd] in *. destruct (a_run cs a1). done.
Qed.

(** ** Opening and closing *)

(** The abstract file of a new stream. *)
Definition opened (C : list Z) (mode : Z) : afile :=
  let m := Z.land mode 3 in
  let rd := (m =? O_RDWR) || (m =? O_RDONLY) in
  mk_afile C 0 false false None (negb rd) rd ((m =? O_RDWR) || (m =? O_WRONLY)) false.

Lemma mode_flags_ok fifo mode C : flags_ok (opened C mode) (mode_flags fifo mode BUFINPUT) ∧
  Z.testbit (mode_flags fifo mode BUFINPUT) 4 = false.
Proof.
  unfold mode_flags, opened. cbv zeta. generalize (Z.land mode 3). intros m.
  destruct (Z.eqb_spec m O_RDWR) as [->|]; [|destruct (Z.eqb_spec m O_RDONLY) as [->|]; [|destruct (Z.eqb_spec m O_WRONLY) as [->|]]];
    destruct fifo; (split; [split|]); reflexivity.
Qed.

Lemma fopen_ok w path mode k1 C t bp b :
  sys_open path (__stdio_parse_mode mode) (kern w) = (desc, k1) → 0 < desc → file_at k1 desc = Some (C, 0) → Forall byte C →
  length b = 2048%nat → Forall byte b →
  ∃ w' s, fopen_unlocked (Some (f, t, Some (bp, b))) path mode w = Ok (f, w') ∧ state f w' s k1 ∧ __stdio_root w' = f ∧
    rel_or_stale (opened C (__stdio_parse_mode mode)) s k1.
Proof.
  intros Hopen Hd Hfile HC Hlen Hb. unfold fopen_unlocked, sys. set (m := __stdio_parse_mode mode) in *.
  rewrite (bind_Ok _ _ _ desc (mk_stdio (files w) (__stdio_root w) (__stdio_atexit w) (iknow w) (freed w) k1)) by (by rewrite Hopen).
  replace (desc <? 0) with false by lia. unfold __stdio_init_file. eexists _, _. split; [reflexivity|].
  split; [split; [apply lookup_insert_eq|done]|]. split; [done|].
  apply rel_empty; try done. destruct (mode_flags_ok (sys_isfifo desc k1) m C). split; try done; cbn; unfold BUFSIZE; lia.
Qed.

Lemma fclose_ok w a s k : state f w s k → __stdio_root w = f → rel_or_stale a s k →
  ∃ k2 q w', fclose_unlocked f w = Ok ((sys_close desc k2).1, w') ∧ file_at k2 desc = Some (a_data a, q) ∧
    kern w' = (sys_close desc k2).2 ∧ files w' !! f = None.
Proof.
  intros Hw Hroot Hrel. unfold fclose_unlocked.
  destruct (fflush_any f Hf desc a s k Hrel w Hw) as (r & w1 & s1 & k1 & Hflush & [Hw1 Hk1] & Hroot1 & -> & Hfd & _ & _ & _ & q & Hq & _).
  rewrite (bind_Ok _ _ _ _ _ Hflush). rewrite (bind_Ok (get f) _ _ s1 w1) by (unfold get; by rewrite Hw1).
  assert (fd s = desc) as Hds by (destruct (stale_common desc _ _ _ Hrel) as (C & p & Hc); apply Hc).
  rewrite Hfd, Hds. rewrite Hds in Hq. unfold sys at 1. destruct (sys_close desc k1) as [r k2] eqn:Ec. exists k1, q.
  erewrite bind_Ok by (rewrite Hk1, Ec; reflexivity).
  set (w2 := mk_stdio _ _ _ _ _ k2). assert (__stdio_root w2 = f) as Hr2 by (cbn; congruence).
  erewrite (bind_Ok (unlink_open f)) by (unfold unlink_open; cbn [unlink_file]; rewrite Hr2, (proj2 (Z.eqb_neq _ _) Hf);
    rewrite (bind_Ok (get f) _ _ s1 w2) by (unfold get; cbn; by rewrite Hw1); rewrite Z.eqb_refl; reflexivity).
  set (w3 := mk_stdio _ _ _ _ _ _). rewrite (bind_Ok (get f) _ _ s1 w3) by (unfold get; cbn; by rewrite Hw1).
  destruct (negb (flagged s1 STATICBUF) && negb (bufp s1 =? 0)); (eexists; split; [repeat (erewrite bind_Ok by reflexivity); rewrite Ec; reflexivity|]); rewrite Ec;
    (split; [done|]); (split; [done|]); apply lookup_delete_eq.
Qed.
End refinement.

(** A program that opens a file, makes the calls and closes it. *)
Definition session {K} `{Syscalls K} (retries : nat) alloc (path mode : list Z) (cs : list call) :
    CM (stdio K) (option (list answer * Z)) :=
  f ← fopen_unlocked alloc path mode;
  if f =? 0 then mret None else
  rs ← do_calls retries f cs; r ← fclose_unlocked f; mret (Some (rs, r)).


(** ** A disk

    Open files by descriptor; a [read] returns at most three bytes. *)
Definition disk : Type := gmap Z (list Z * Z).

#[global] Instance disk_calls : Syscalls disk := {|
  sys_read d n k :=
    match k !! d with
    | Some (C, p) => let l := take (Z.to_nat (Z.min n 3)) (drop (Z.to_nat p) C) in (Some l, <[d := (C, p + Z.of_nat (length l))]> k)
    | None => (None, k)
    end;
  sys_write d l k :=
    match k !! d with
    | Some (C, p) => (Z.of_nat (length l), <[d := (overwrite C (Z.to_nat p) l, p + Z.of_nat (length l))]> k)
    | None => (-1, k)
    end;
  sys_eintr _ := false;
  sys_lseek d off whence k :=
    match k !! d with
    | Some (C, p) =>
        let t := off + (if whence =? SEEK_SET then 0 else if whence =? SEEK_CUR then p else Z.of_nat (length C)) in
        if t <? 0 then (-1, k) else (t, <[d := (C, t)]> k)
    | None => (-1, k)
    end;
  sys_open _ _ k := (5, k);
  sys_close d k := (0, delete d k);
  sys_isatty _ _ := false;
  sys_isfifo _ _ := false
|}.

#[global] Instance disk_laws : RegularFiles disk.
Proof.
  refine {| file_at (k : disk) d := k !! d |}.
  - intros k d n C p Hk Hp Hn. cbn. rewrite Hk. set (l := take _ _). exists l, (<[d := (C, p + Z.of_nat (length l))]> k).
    assert (length l = Nat.min (Z.to_nat (Z.min n 3)) (length C - Z.to_nat p)) as Hl by (unfold l; by rewrite length_take, length_drop).
    split_and!; [done|lia| | |apply lookup_insert_eq].
    + unfold l. rewrite length_take. set (m := Z.to_nat _). set (L := drop _ _).
      destruct (Nat.min_spec m (length L)) as [[_ ->]|[Hle ->]]; [done|by rewrite !take_ge].
    + intros E. rewrite E in Hl. cbn in Hl. lia.
  - intros k d l C p Hk. cbn. rewrite Hk. eexists. split; [done|]. apply lookup_insert_eq.
  - intros k d off whence C p Hk. cbn. rewrite Hk. destruct (_ <? 0); eexists; (split; [done|]); [done|apply lookup_insert_eq].
Defined.

(** The file "ab\ncdef\ngh" is read and changed through one stream. *)
Definition disk0 : disk := {[5 := (STR "ab" ++ [10] ++ STR "cdef" ++ [10] ++ STR "gh", 0)]}.
Definition calls0 : list call :=
  [Fgets 80; Fgetc; Ungetc (CH "x"); Fgetc; Fread 1 3; Ftell; Fputc (CH "Z"); Fwrite (STR "12345") 2 2; Ftell;
   Fseek 1 SEEK_SET; Fgetc; Fseek (-1) SEEK_END; Fgets 80; Fgetc; Feof].


(** ** Outside the allowed sequences *)

Definition run0 (contents : list Z) (mode : list Z) (cs : list call) :=
  match session 1 (Some (9, __stderr, Some (10, replicate 2048 0))) [] mode cs (stdio_init (K := disk) {[5 := (contents, 0)]}) with
  | Ok (r, w) => Some (r, freed w)
  | _ => None
  end.

(** The contents of the file when a program has called [fclose] up to [close]. *)
Definition left0 (contents : list Z) (mode : list Z) (cs : list call) : option (list Z) :=
  match (f ← fopen_unlocked (Some (9, __stderr, Some (10, replicate 2048 0))) [] mode; _ ← do_calls 1 f cs; fflush_unlocked f)
          (stdio_init (K := disk) {[5 := (contents, 0)]}) with
  | Ok (_, w) => fst <$> kern w !! 5
  | _ => None
  end.

(** [fread] does not change the direction of a stream, so after output and a seek
    the next flush writes what has been read; with a character pushed back it
    stores one byte too many; at the end of the file it leaves the buffer to be
    read again; [fputs] reports an error as 0, which is no error. *)
Theorem fread_flaws :
  left0 (STR "0123456789") (STR "r+") [Fputc (CH "A"); Fseek 0 SEEK_SET; Fread 1 2] = Some (STR "A12A1" ++ STR "56789") ∧
  run0 (STR "abcdef") (STR "r") [Fgetc; Ungetc (CH "x"); Fread 1 2] =
    Some (Some ([Int (CH "a"); Int (CH "x"); Bytes 2 (STR "xbc")], 0), [10; 9]) ∧
  run0 (STR "ab") (STR "r") [Fgetc; Fgetc; Fread 1 1; Fgetc] =
    Some (Some ([Int (CH "a"); Int (CH "b"); Bytes 0 []; Int (CH "a")], 0), [10; 9]) ∧
  run0 (STR "ab") (STR "r") [Fputs (STR "xy"); Ferror] = Some (Some ([Int 0; Flag true], 0), [10; 9]).
Proof. repeat split; vm_compute; reflexivity. Qed.
