(* ===== verification/Printf.v ===== *)
(** * Formatted output

    [lib/__v_printf.c], and [lib/vsnprintf.c] on top of it.  The format is the list of
    its bytes before the NUL, as in the number conversions.  [fn->put] is called with
    pieces of text and its result is not looked at, so a call of [__v_printf] is the
    list of the pieces it passes to [put] with its result.  Variable arguments are a
    list; an argument that is missing or of another type is a fault.  Floating point
    enters through the class [Doubles]: [__dtostr] and the comparisons are arithmetic
    of doubles, which is not modelled; what [__v_printf] does with the text is. *)

From S2P Require Import Prelude Mem Strings Convert.

(** [d < +0.0], [d >= 0] and [isnan(d) || isinf(d)]; [__dtostr d maxlen width preci
    flags] is the text it leaves in the buffer. *)
Class Doubles : Type := {
  double : Type;
  d_negative : double → bool;
  d_nonnegative : double → bool;
  d_special : double → bool;
  __dtostr : double → Z → Z → Z → Z → list Z
}.

Section printf.
Context `{Doubles}.

Inductive arg : Type := A_int (n : Z) | A_long (n : Z) | A_longlong (n : Z) | A_str (s : option (list Z)) | A_double (d : double).

(** What has been passed to [put], [len], the arguments that are left, [errno]. *)
Record pstate : Type := mk_p { out : list (list Z); plen : Z; pargs : list arg; perrno : Z }.

(** ** Computations that can return early *)

Definition PM (A : Type) : Type := CM pstate (A + Z).
#[global] Instance PM_ret : MRet PM := λ A a w, Ok (inl a, w).
#[global] Instance PM_bind : MBind PM := λ A B k m w,
  match m w with
  | Ok (inl a, w') => k a w'
  | Ok (inr r, w') => Ok (inr r, w')
  | Fault => Fault
  | Hang => Hang
  end.
Definition return_ {A} (r : Z) : PM A := λ w, Ok (inr r, w).
Definition p_fault {A} : PM A := λ _, Fault.
Definition p_hang {A} : PM A := λ _, Hang.

Definition get_len : PM Z := λ w, Ok (inl (plen w), w).
Definition set_len (n : Z) : PM () := λ w, Ok (inl (), mk_p (out w) n (pargs w) (perrno w)).
Definition get_errno : PM Z := λ w, Ok (inl (perrno w), w).
Definition put_errno (e : Z) : PM () := λ w, Ok (inl (), mk_p (out w) (plen w) (pargs w) e).
Definition A_WRITE (buf : list Z) : PM () := λ w, Ok (inl (), mk_p (out w ++ [buf]) (plen w) (pargs w) (perrno w)).
Definition va_arg : PM arg := λ w,
  match pargs w with a :: l => Ok (inl a, mk_p (out w) (plen w) l (perrno w)) | [] => Fault end.
Definition va_int : PM Z := a ← va_arg; match a with A_int n => mret (s32 n) | _ => p_fault end.
Definition va_long : PM Z := a ← va_arg; match a with A_long n => mret (s64 n) | _ => p_fault end.
Definition va_longlong : PM Z := a ← va_arg; match a with A_longlong n => mret (s64 n) | _ => p_fault end.

(** [B_WRITE] with the [len+=sz] that follows it everywhere. *)
Definition b_write (buf : list Z) : PM () :=
  let sz := Z.of_nat (length buf) in
  len ← get_len;
  if (sz >? Z.shiftr ULONG_MAX 1) || (u32 (len + s32 sz) <? len) then return_ (-1) else
  _ ← A_WRITE buf; set_len (u32 (len + sz)).

(** The length of the text in front of the next directive. *)
Fixpoint skip_to (format : list Z) : nat :=
  match format with c :: rest => if c =? CH "%" then 0 else S (skip_to rest) | [] => 0 end.

(** [for (;len>15;len-=16,nr+=16) ...; if (len>0) ...] *)
Fixpoint pad_pieces (fuel : nat) (len c : Z) : PM () :=
  match fuel with
  | O => p_hang
  | S fuel =>
      if len >? 15 then _ ← A_WRITE (replicate 16 c); pad_pieces fuel (len - 16) c
      else if len >? 0 then A_WRITE (replicate (Z.to_nat len) c) else mret ()
  end.
Definition write_pad (len padwith : Z) : PM () :=
  if s32 len <=? 0 then mret () else
  dlen ← get_len;
  if u32 (dlen + len) <? len then return_ (-1) else
  _ ← pad_pieces (S (Z.to_nat len)) len (if padwith =? CH "0" then CH "0" else CH " ");
  set_len (u32 (dlen + len)).

Definition MAX_WIDTH : Z := 10 * 1024.

(** ** One conversion *)

Record spec : Type := mk_spec {
  padwith : Z; flag_in_sign : Z; flag_hash : Z; flag_left : bool; flag_space : bool;
  flag_sign : bool; flag_dot : bool; flag_long : Z; width : Z; preci : Z
}.
Definition spec0 : spec := mk_spec (CH " ") 0 0 false false false false 0 0 0.

Definition set_hash (x : Z) (sp : spec) : spec :=
  mk_spec (padwith sp) (flag_in_sign sp) x (flag_left sp) (flag_space sp) (flag_sign sp) (flag_dot sp) (flag_long sp) (width sp) (preci sp).
Definition set_long (x : Z) (sp : spec) : spec :=
  mk_spec (padwith sp) (flag_in_sign sp) (flag_hash sp) (flag_left sp) (flag_space sp) (flag_sign sp) (flag_dot sp) x (width sp) (preci sp).
Definition set_left (sp : spec) : spec :=
  mk_spec (padwith sp) (flag_in_sign sp) (flag_hash sp) true (flag_space sp) (flag_sign sp) (flag_dot sp) (flag_long sp) (width sp) (preci sp).
Definition set_space (sp : spec) : spec :=
  mk_spec (padwith sp) (flag_in_sign sp) (flag_hash sp) (flag_left sp) true (flag_sign sp) (flag_dot sp) (flag_long sp) (width sp) (preci sp).
Definition set_sign (sp : spec) : spec :=
  mk_spec (padwith sp) (flag_in_sign sp) (flag_hash sp) (flag_left sp) (flag_space sp) true (flag_dot sp) (flag_long sp) (width sp) (preci sp).
Definition set_in_sign (x : Z) (sp : spec) : spec :=
  mk_spec (padwith sp) x (flag_hash sp) (flag_left sp) (flag_space sp) (flag_sign sp) (flag_dot sp) (flag_long sp) (width sp) (preci sp).
Definition set_width (x : Z) (sp : spec) : spec :=
  mk_spec (padwith sp) (flag_in_sign sp) (flag_hash sp) (flag_left sp) (flag_space sp) (flag_sign sp) (flag_dot sp) (flag_long sp) x (preci sp).
Definition set_padwith (x : Z) (sp : spec) : spec :=
  mk_spec x (flag_in_sign sp) (flag_hash sp) (flag_left sp) (flag_space sp) (flag_sign sp) (flag_dot sp) (flag_long sp) (width sp) (preci sp).
Definition set_preci (dot : bool) (x : Z) (sp : spec) : spec :=
  mk_spec (padwith sp) (flag_in_sign sp) (flag_hash sp) (flag_left sp) (flag_space sp) (flag_sign sp) dot (flag_long sp) (width sp) x.

(** [print_out]: the first [sz] bytes of [s]; [sign] is [s] before the sign or the
    prefix is skipped. *)
Definition print_out (s : list Z) (sz precpadwith : Z) (sp : spec) : PM () :=
  if (width sp =? 0) && (preci sp =? 0) then b_write (take (Z.to_nat sz) s) else
  let todo := if flag_hash sp >? 0 then flag_hash sp else if flag_in_sign sp =? 0 then 0 else 1 in
  let sign := s in
  let s := drop (Z.to_nat todo) s in
  let sz := sz - todo in
  let width := u32 (width sp - todo) in
  let width := if flag_dot sp && (width =? 0) then preci sp else width in
  let preci := if flag_dot sp then preci sp else u32 sz in
  _ ← (if negb (flag_left sp) && (padwith sp =? CH " ") then write_pad (u32 (width - preci)) (padwith sp) else mret ());
  _ ← (if todo =? 0 then mret () else b_write (take (Z.to_nat todo) sign));
  _ ← (if negb (flag_left sp) && negb (padwith sp =? CH " ") then write_pad (u32 (width - preci)) (padwith sp) else mret ());
  _ ← write_pad (u32 (preci - sz)) precpadwith;
  _ ← b_write (take (Z.to_nat sz) s);
  if flag_left sp then write_pad (u32 (width - preci)) (padwith sp) else mret ().

(** [case 's'] *)
Definition print_str (sp : spec) : PM () :=
  a ← va_arg;
  match a with
  | A_str s =>
      let s := match s with Some s => s | None => STR "(null)" end in
      let sz := Z.of_nat (length s) in
      let sz := if flag_dot sp && (sz >? preci sp) then preci sp else sz in
      print_out s sz (CH " ") (set_padwith (CH " ") (set_preci false 0 sp))
  | _ => p_fault
  end.

(** [num_printf], with the prefix that is already in the buffer. *)
Definition num_printf (base : Z) (flag_upcase : bool) (prefix : list Z) (sp : spec) : PM () :=
  number ← (if flag_long sp >? 0 then if flag_long sp >? 1 then va_longlong else va_long
            else n ← va_int; mret (if flag_in_sign sp =? 0 then u32 n else n));
  let neg := negb (flag_in_sign sp =? 0) && (number <? 0) in
  let number := if neg then s64 (- number) else number in
  let number := if flag_long sp <? 0 then Z.land number 0xffff else number in
  let number := if flag_long sp <? -1 then Z.land number 0xff else number in
  match (if flag_long sp >? 1 then __lltostr 123 (u64 number) base flag_upcase else __ltostr 123 (u64 number) base flag_upcase) with
  | None => p_fault
  | Some digits =>
      let s := prefix ++ digits in
      let sz := Z.of_nat (length prefix) in
      let zero := flag_dot sp && (Z.of_nat (length digits) =? 1) && (peek digits 0 =? CH "0") in
      let sz := if zero then if (preci sp =? 0) || (flag_hash sp >? 0) then 0 else sz
                else sz + Z.of_nat (length digits) in
      let sp := if zero then set_hash 0 sp else sp in
      let '(s, sz, in_sign) :=
        if neg then (CH "-" :: s, sz + 1, 2)
        else if negb (flag_in_sign sp =? 0) && (flag_sign sp || flag_space sp)
        then ((if flag_sign sp then CH "+" else CH " ") :: s, sz + 1, flag_in_sign sp)
        else (s, sz, 0) in
      print_out s sz (CH "0") (set_in_sign in_sign sp)
  end.

(** *** Floating point *)

(** [strchr] as the index. *)
Definition find_char (c : Z) (s : list Z) : option nat := fst <$> list_find (λ x, x = c) s.

(** [while (preci>0 && *++tmp) --preci;]: [None] when the NUL has been passed. *)
Fixpoint precision_end (preci : nat) (s : list Z) (tmp : nat) : option nat :=
  match preci with
  | O => Some tmp
  | S preci =>
      let tmp := S tmp in
      if (length s <? tmp)%nat then None
      else if (length s =? tmp)%nat then Some tmp else precision_end preci s tmp
  end.
Definition cut_precision (preci : Z) (hash : bool) (s : list Z) : option (list Z) :=
  match find_char (CH ".") s with
  | Some tmp =>
      let tmp := if negb (preci =? 0) || hash then S tmp else tmp in
      if (length s <? tmp)%nat then None else
      e ← precision_end (Z.to_nat preci) s tmp; Some (take e s)
  | None => Some (if hash then s ++ [CH "."] else s)
  end.

(** [while ( *--tmp=='0') ; if ( *tmp!='.') ++tmp;] behind the decimal point *)
Fixpoint strip_end (n : nat) (s : list Z) (tmp : nat) : nat :=
  match n with
  | O => tmp
  | S n => let tmp := (tmp - 1)%nat in
      if peek s tmp =? CH "0" then strip_end n s tmp else if peek s tmp =? CH "." then tmp else S tmp
  end.
Definition strip_zeros (s : list Z) : list Z :=
  match find_char (CH ".") s with
  | Some dot =>
      let tmp1 := (λ i, dot + i)%nat <$> find_char (CH "e") (drop dot s) in
      let tmp := default (length s) tmp1 in
      let tmp := strip_end (length s) s tmp in
      take tmp s ++ (match tmp1 with Some e => if (tmp =? e)%nat then [] else drop e s | None => [] end)
  | None => s
  end.

Definition float_printf (ch : Z) (sp : spec) : PM () :=
  let general := Z.land ch 0x5f =? CH "G" in
  let flags := Z.lor (if general then 1 else 0) (if Z.land ch 0x20 =? 0 then 2 else 0) in
  a ← va_arg;
  match a with
  | A_double d =>
      let sp := if width sp =? 0 then set_width 1 sp else sp in
      let sp := if flag_dot sp then sp else set_preci false 6 sp in
      let sp := if flag_sign sp || d_negative d then set_in_sign 1 sp else sp in
      let s := __dtostr d 127 (width sp) (preci sp) flags in
      match (if d_special d then Some s else
        s ← (if flag_dot sp then cut_precision (preci sp) (negb (flag_hash sp =? 0)) s else Some s);
        let s := if general then strip_zeros s else s in
        Some (if (flag_sign sp || flag_space sp) && d_nonnegative d
              then (if flag_sign sp then CH "+" else CH " ") :: s else s)) with
      | None => p_fault
      | Some s =>
          let sz := Z.of_nat (length s) in
          let sp := if width sp <? sz then set_width sz sp else sp in
          print_out s sz (CH "0") (set_hash 0 (set_preci false (preci sp) sp))
      end
  | _ => p_fault
  end.

(** *** The conversion characters *)

Definition convert (ch : Z) (sp : spec) : PM () :=
  let hex (ch : Z) (sp : spec) :=
    let '(prefix, sp) := if flag_hash sp =? 0 then ([], sp) else ([CH "0"; ch], set_hash 2 sp) in
    num_printf 16 (ch =? CH "X") prefix (if preci sp >? width sp then set_width (preci sp) sp else sp) in
  if ch =? CH "c" then c ← va_int; b_write [u8 c]
  else if ch =? CH "%" then b_write [ch]
  else if ch =? CH "s" then print_str sp
  else if ch =? CH "b" then num_printf 2 false [] sp
  else if ch =? CH "p" then hex (CH "x") (set_long 1 (set_hash 2 sp))
  else if (ch =? CH "X") || (ch =? CH "x") then hex ch sp
  else if (ch =? CH "d") || (ch =? CH "i") then num_printf 10 false [] (set_in_sign 1 sp)
  else if ch =? CH "u" then num_printf 10 false [] sp
  else if ch =? CH "o" then
    if flag_hash sp =? 0 then num_printf 8 false [] sp else num_printf 8 false [CH "0"] (set_hash 1 sp)
  else if (ch =? CH "f") || (ch =? CH "F") || (ch =? CH "g") || (ch =? CH "G") then float_printf ch sp
  else mret ().

(** A number in the format: its value and the rest; [errno] as the conversion leaves it. *)
Definition format_number (f : list Z → Z → Z → conv) (format : list Z) : PM (Z * list Z) :=
  e ← get_errno;
  let r := f format 10 e in
  _ ← put_errno (conv_errno r);
  match endptr r with Some rest => mret (value r, rest) | None => p_fault end.

(** [inn_printf]: flags, width and precision up to the conversion; what is left of
    the format. *)
Fixpoint inn_printf (fuel : nat) (format : list Z) (sp : spec) : PM (list Z) :=
  match fuel with
  | O => p_hang
  | S fuel =>
      let ch := peek format 0 in
      let start := format in
      let format := tail format in
      if ch =? 0 then return_ (-1)
      else if ch =? CH "#" then inn_printf fuel format (set_long (s8 (flag_long sp - 1)) (set_hash (-1) sp))
      else if ch =? CH "h" then inn_printf fuel format (set_long (s8 (flag_long sp - 1)) sp)
      else if (ch =? CH "q") || (ch =? CH "L") then inn_printf fuel format (set_long (s8 (flag_long sp + 2)) sp)
      else if (ch =? CH "j") || (ch =? CH "z") || (ch =? CH "l") then inn_printf fuel format (set_long (s8 (flag_long sp + 1)) sp)
      else if ch =? CH "-" then inn_printf fuel format (set_left sp)
      else if ch =? CH " " then inn_printf fuel format (set_space sp)
      else if ch =? CH "+" then inn_printf fuel format (set_sign sp)
      else if (CH "0" <=? ch) && (ch <=? CH "9") then
        if flag_dot sp then return_ (-1) else
        '(w, rest) ← format_number strtoul start;
        let w := u32 w in
        if w >? MAX_WIDTH then return_ (-1) else
        let sp := set_width w sp in
        inn_printf fuel rest (if (ch =? CH "0") && negb (flag_left sp) then set_padwith (CH "0") sp else sp)
      else if ch =? CH "*" then
        tmp ← va_int;
        let sp := if tmp <? 0 then set_left sp else sp in
        let w := u32 (if tmp <? 0 then s32 (- tmp) else tmp) in
        if w >? MAX_WIDTH then return_ (-1) else inn_printf fuel format (set_width w sp)
      else if ch =? CH "." then
        '(p, rest) ← (if peek format 0 =? CH "*" then
                        tmp ← va_int; mret (if tmp <? 0 then 0 else tmp, tail format)
                      else '(tmp, rest) ← format_number strtol format; mret (if tmp <? 0 then 0 else u32 tmp, rest));
        if p >? MAX_WIDTH then return_ (-1) else inn_printf fuel rest (set_preci true p sp)
      else _ ← convert ch sp; mret format
  end.

Fixpoint printf_loop (fuel : nat) (format : list Z) : PM Z :=
  match fuel with
  | O => p_hang
  | S fuel =>
      if peek format 0 =? 0 then len ← get_len; return_ (s32 len) else
      let sz := skip_to format in
      _ ← (if (sz =? 0)%nat then mret () else b_write (take sz format));
      let format := drop sz format in
      if peek format 0 =? CH "%" then
        rest ← inn_printf (S (length format)) (tail format) spec0; printf_loop fuel rest
      else printf_loop fuel format
  end.

(** The pieces passed to [put], the result and [errno]. *)
Definition __v_printf (format : list Z) (args : list arg) (errno : Z) : outcome (list (list Z) * Z * Z) :=
  match printf_loop (S (S (length format))) format (mk_p [] 0 args errno) with
  | Ok (inl r, w) | Ok (inr r, w) => Ok (out w, r, perrno w)
  | Fault => Fault
  | Hang => Hang
  end.

(** ** vsnprintf.c *)

(** [put] for a string: [len] bytes have been written.  The text comes from the format,
    the arguments and buffers of [__v_printf]: [memcpy] is the copy of its bytes. *)
Definition swrite (str size len : Z) (ptr : list Z) : M Z :=
  let tmp := u64 (size - len) in
  if tmp >? 0 then
    let nmemb := Z.of_nat (length ptr) in
    let l := if nmemb >? tmp then tmp else nmemb in
    _ ← (if str =? 0 then mret tt
         else _ ← store_bytes (str + len) (take (Z.to_nat l) ptr); store (str + len + l) 0);
    mret (len + l)
  else mret len.
Fixpoint swrites (str size len : Z) (pieces : list (list Z)) : M Z :=
  match pieces with
  | [] => mret len
  | p :: pieces => len ← swrite str size len p; swrites str size len pieces
  end.

Definition vsnprintf (str size : Z) (format : list Z) (args : list arg) : M Z := λ w,
  match __v_printf format args (errno w) with
  | Ok (pieces, n, e) =>
      (_ ← set_errno e;
       _ ← swrites str (if size =? 0 then 0 else size - 1) 0 pieces;
       _ ← (if negb (str =? 0) && negb (size =? 0) && (n >=? 0) then
              if negb (size =? ULONG_MAX) && (n >=? size) then store (str + size - 1) 0 else store (str + n) 0
            else mret tt);
       mret n) w
  | Fault => Fault
  | Hang => Hang
  end.

(** [vsprintf]: no limit but the end of the address space. *)
Definition vsprintf (dest : Z) (format : list Z) (args : list arg) : M Z :=
  vsnprintf dest (u64 (ULONG_MAX - dest)) format args.
End printf.
