(* ===== verification/PrintfSpec.v ===== *)
(** * What a format means

    The meaning the C standard gives to a format, for the directives that [__v_printf]
    treats as the standard says; a logic of what a computation of [Printf] prints; and
    [print_out], the field that all conversions of numbers and strings share. *)

From S2P Require Import Prelude Mem Strings Convert ConvertFacts Printf.

(** ** The meaning of a format *)

Inductive width_spec : Type := No_width | Width (n : Z) | Star_width (n : Z).
Inductive prec_spec : Type := No_prec | Prec (n : Z) | Star_prec (n : Z).
Inductive modifier : Type := M_none | M_h | M_hh | M_l | M_ll | M_z | M_j.
Inductive numconv : Type := N_d | N_i | N_u | N_o | N_x | N_X.

Record directive : Type := mk_dir { d_left : bool; d_plus : bool; d_space : bool; d_zero : bool; d_width : width_spec; d_prec : prec_spec }.

Inductive item : Type :=
| Number (d : directive) (m : modifier) (c : numconv) (n : Z)
| Str (d : directive) (s : option (list Z))
| Char (c : Z)
| Percent.

(** *** Numerals *)

Definition digit_of (up : bool) (d : Z) : Z := nth (Z.to_nat d) (if up then STR "0123456789ABCDEF" else STR "0123456789abcdef") 0.
Fixpoint digits (n : nat) (base : Z) (up : bool) (v : Z) : list Z :=
  match n with
  | O => []
  | S n => if v =? 0 then [] else digits n base up (v / base) ++ [digit_of up (v mod base)]
  end.
Definition numeral_of (base : Z) (up : bool) (v : Z) : list Z := if v =? 0 then [CH "0"] else digits 122 base up v.

Definition base_of (c : numconv) : Z := match c with N_d | N_i | N_u => 10 | N_o => 8 | N_x | N_X => 16 end.
Definition upper (c : numconv) : bool := match c with N_X => true | _ => false end.
Definition signed (c : numconv) : bool := match c with N_d | N_i => true | _ => false end.

(** The value that is printed of the argument [n]. *)
Definition value_of (m : modifier) (c : numconv) (n : Z) : Z :=
  if signed c then match m with M_none => s32 n | M_h => s16 n | M_hh => s8 n | _ => s64 n end
  else match m with M_none => u32 n | M_h => u16 n | M_hh => u8 n | _ => u64 n end.

(** *** Fields *)

Definition width_of (d : directive) : Z := match d_width d with No_width => 0 | Width n => n | Star_width n => Z.abs n end.
Definition left_of (d : directive) : bool := d_left d || match d_width d with Star_width n => n <? 0 | _ => false end.
Definition prec_of (d : directive) : option Z := match d_prec d with No_prec => None | Prec n | Star_prec n => Some n end.

Definition fill (n : Z) (c : Z) : list Z := replicate (Z.to_nat n) c.
Definition len (l : list Z) : Z := Z.of_nat (length l).

Definition sign_of (d : directive) (c : numconv) (v : Z) : list Z :=
  if v <? 0 then [CH "-"] else if signed c && d_plus d then [CH "+"] else if signed c && d_space d then [CH " "] else [].
Definition digits_of (d : directive) (c : numconv) (v : Z) : list Z :=
  let ds := match prec_of d with Some p => if (p =? 0) && (v =? 0) then [] else numeral_of (base_of c) (upper c) (Z.abs v)
            | None => numeral_of (base_of c) (upper c) (Z.abs v) end in
  match prec_of d with Some p => fill (p - len ds) (CH "0") ++ ds | None => ds end.

(** [sign] and [ds] in a field. *)
Definition justify (d : directive) (zero : bool) (sign ds : list Z) : list Z :=
  let n := width_of d - len sign - len ds in
  if left_of d then sign ++ ds ++ fill n (CH " ")
  else if zero then sign ++ fill n (CH "0") ++ ds
  else fill n (CH " ") ++ sign ++ ds.

Definition render (i : item) : list Z :=
  match i with
  | Number d m c n =>
      let v := value_of m c n in
      justify d (d_zero d && match prec_of d with None => true | _ => false end) (sign_of d c v) (digits_of d c v)
  | Str d s =>
      let s := default (STR "(null)") s in
      justify d false [] (match prec_of d with Some p => take (Z.to_nat p) s | None => s end)
  | Char c => [u8 c]
  | Percent => [CH "%"]
  end.

(** *** The format that asks for it, and its arguments *)

Definition flag (b : bool) (c : Z) : list Z := if b then [c] else [].
Definition width_text (w : width_spec) : list Z := match w with No_width => [] | Width n => numeral_of 10 false n | Star_width _ => [CH "*"] end.
Definition prec_text (p : prec_spec) : list Z := match p with No_prec => [] | Prec n => CH "." :: numeral_of 10 false n | Star_prec _ => [CH "."; CH "*"] end.
Definition directive_text (d : directive) : list Z :=
  flag (d_left d) (CH "-") ++ flag (d_plus d) (CH "+") ++ flag (d_space d) (CH " ") ++ flag (d_zero d) (CH "0") ++
  width_text (d_width d) ++ prec_text (d_prec d).
Definition modifier_text (m : modifier) : list Z :=
  match m with M_none => [] | M_h => STR "h" | M_hh => STR "hh" | M_l => STR "l" | M_ll => STR "ll" | M_z => STR "z" | M_j => STR "j" end.
Definition conv_char (c : numconv) : Z :=
  match c with N_d => CH "d" | N_i => CH "i" | N_u => CH "u" | N_o => CH "o" | N_x => CH "x" | N_X => CH "X" end.
Definition item_text (i : item) : list Z :=
  CH "%" :: match i with
            | Number d m c _ => directive_text d ++ modifier_text m ++ [conv_char c]
            | Str d _ => directive_text d ++ [CH "s"]
            | Char _ => [CH "c"]
            | Percent => [CH "%"]
            end.

Section args.
Context `{Doubles}.
Definition directive_args (d : directive) : list arg :=
  match d_width d with Star_width n => [A_int n] | _ => [] end ++ match d_prec d with Star_prec n => [A_int n] | _ => [] end.
Definition number_arg (m : modifier) (n : Z) : arg :=
  match m with M_l | M_z | M_j => A_long n | M_ll => A_longlong n | _ => A_int n end.
Definition item_args (i : item) : list arg :=
  match i with
  | Number d m _ n => directive_args d ++ [number_arg m n]
  | Str d s => directive_args d ++ [A_str s]
  | Char c => [A_int c]
  | Percent => []
  end.
End args.

(** *** The directives that are covered *)

Definition width_ok (d : directive) : Prop :=
  match d_width d with No_width => True | Width n => 0 < n <= MAX_WIDTH | Star_width n => - MAX_WIDTH <= n <= MAX_WIDTH end ∧
  match prec_of d with None => True | Some p => 0 <= p <= MAX_WIDTH end.

Definition supported (i : item) : Prop :=
  match i with
  | Number d m c n =>
      let v := value_of m c n in
      width_ok d ∧
      (* the flag 0 comes with neither a precision nor a negative width from an argument *)
      (d_zero d → d_left d ∨ prec_of d = None ∧ left_of d = false) ∧
      (* with a precision and a field that is wider, the numeral has no more digits than the precision *)
      (∀ p, prec_of d = Some p →
         width_of d <= len (sign_of d c v) + p ∨ len (digits_of d c v) <= p) ∧
      (* an argument of type short or char has a value of that type *)
      (signed c → match m with M_h => - 2 ^ 15 <= n < 2 ^ 15 | M_hh => - 2 ^ 7 <= n < 2 ^ 7 | _ => True end)
  | Str d s => width_ok d ∧ d_zero d = false
  | Char _ | Percent => True
  end.

(** ** A logic of what is printed *)

Section emits.
Context `{Doubles}.

(** [m] prints [text], uses up [args] down to [args'] and yields [a]. *)
Definition emits {A} (m : PM A) (args : list arg) (a : A) (text : list Z) (args' : list arg) : Prop :=
  ∀ w, pargs w = args → 0 <= plen w → plen w + len text < 2 ^ 31 →
  ∃ w', m w = Ok (inl a, w') ∧ concat (out w') = concat (out w) ++ text ∧
    plen w' = plen w + len text ∧ pargs w' = args' ∧ perrno w' = perrno w.

Lemma PM_bind_Ok {A B} (m : PM A) (k : A → PM B) w a w' : m w = Ok (inl a, w') → (m ≫= k) w = k a w'.
Proof. intros Hm. unfold mbind, PM_bind. by rewrite Hm. Qed.

Lemma len_app l k : len (l ++ k) = len l + len k.
Proof. unfold len. rewrite length_app. lia. Qed.
Lemma len_nonneg l : 0 <= len l.
Proof. unfold len. lia. Qed.
Lemma len_fill n c : len (fill n c) = Z.max 0 n.
Proof. unfold len, fill. rewrite length_replicate. lia. Qed.
Lemma fill_neg n c : n <= 0 → fill n c = [].
Proof. intros. unfold fill. by replace (Z.to_nat n) with 0%nat by lia. Qed.

Lemma emits_ret {A} (a : A) args : emits (mret a) args a [] args.
Proof. intros w Hw Hp _. exists w. split_and!; [done|by rewrite app_nil_r|unfold len; cbn; lia|done|done]. Qed.

Lemma emits_bind {A B} (m : PM A) (k : A → PM B) args a t1 args1 b t2 args2 :
  emits m args a t1 args1 → emits (k a) args1 b t2 args2 → emits (m ≫= k) args b (t1 ++ t2) args2.
Proof.
  intros Hm Hk w Hw Hp Ht. rewrite len_app in Ht. pose proof (len_nonneg t1). pose proof (len_nonneg t2).
  destruct (Hm w Hw Hp ltac:(lia)) as (w1 & E1 & O1 & P1 & A1 & R1).
  destruct (Hk w1 A1 ltac:(lia) ltac:(lia)) as (w2 & E2 & O2 & P2 & A2 & R2).
  exists w2. rewrite (PM_bind_Ok _ _ _ _ _ E1). split_and!; [done|by rewrite O2, O1, app_assoc|rewrite len_app; lia|done|congruence].
Qed.

(** The case that the first part prints nothing. *)
Lemma emits_bind0 {A B} (m : PM A) (k : A → PM B) args a args1 b t args2 :
  emits m args a [] args1 → emits (k a) args1 b t args2 → emits (m ≫= k) args b t args2.
Proof. apply (emits_bind m k args a []). Qed.

Lemma emits_eq {A} (m : PM A) args a t t' args' : t = t' → emits m args a t args' → emits m args a t' args'.
Proof. by intros ->. Qed.

(** Only a text that fits has to be printed. *)
Lemma emits_fits {A} (m : PM A) args a t args' : (len t < 2 ^ 31 → emits m args a t args') → emits m args a t args'.
Proof. intros Hm w Hw Hp Hl. by apply Hm; try lia. Qed.

Lemma emits_write l args : emits (b_write l) args () l args.
Proof.
  intros w Hw Hp Hl. unfold b_write. erewrite PM_bind_Ok by done.
  assert (s32 (Z.of_nat (length l)) = len l) as Es by (unfold len in *; int_lia). rewrite Es.
  assert (u32 (plen w + len l) = plen w + len l) as Eu by (pose proof (len_nonneg l); apply u32_id; lia).
  rewrite Eu. change (Z.shiftr ULONG_MAX 1) with (2 ^ 63 - 1).
  replace ((Z.of_nat (length l) >? 2 ^ 63 - 1) || (plen w + len l <? plen w)) with false by (unfold len in *; lia).
  eexists. split; [erewrite PM_bind_Ok by done; done|]. cbn [out plen pargs perrno].
  split_and!; [rewrite concat_app; cbn; by rewrite app_nil_r|fold (len l); done|done|done].
Qed.

(** [write_pad] on the difference of two unsigned numbers. *)
Definition pad_char (c : Z) : Z := if c =? CH "0" then CH "0" else CH " ".

Lemma pad_pieces_ok c : ∀ fuel n w, 0 <= n → (Z.to_nat n < fuel)%nat →
  ∃ w', pad_pieces fuel n c w = Ok (inl (), w') ∧ concat (out w') = concat (out w) ++ fill n c ∧
    plen w' = plen w ∧ pargs w' = pargs w ∧ perrno w' = perrno w.
Proof.
  induction fuel as [|fuel IH]; intros n w Hn Hf; [lia|]. cbn [pad_pieces].
  destruct (Z.gtb_spec n 15) as [Hn15|Hn15].
  - edestruct (IH (n - 16)) as (w' & E & O & P & A & R); [lia|lia|]. exists w'. erewrite PM_bind_Ok by done.
    split_and!; [exact E| |done|done|done]. rewrite O. cbn [out]. rewrite concat_app. cbn [concat]. rewrite app_nil_r, <- app_assoc.
    f_equal. unfold fill. rewrite <- replicate_add. f_equal. lia.
  - destruct (Z.gtb_spec n 0) as [H0|H0].
    + eexists. split; [done|]. cbn [out plen pargs perrno]. split_and!; [rewrite concat_app; cbn; by rewrite app_nil_r|done..].
    + exists w. rewrite fill_neg by lia. split_and!; [done|by rewrite app_nil_r|done..].
Qed.

Lemma emits_pad n c args : - 2 ^ 31 <= n < 2 ^ 31 → emits (write_pad (u32 n) c) args () (fill n (pad_char c)) args.
Proof.
  intros Hn w Hw Hp Hl. rewrite len_fill in Hl. unfold write_pad.
  assert (s32 (u32 n) = n) as Es by int_lia. rewrite Es. destruct (Z.leb_spec n 0) as [H0|H0].
  - rewrite fill_neg by done. exists w. split_and!; [done|by rewrite app_nil_r|unfold len; cbn; lia|done|done].
  - assert (u32 n = n) as -> by int_lia. erewrite PM_bind_Ok by done.
    assert (u32 (plen w + n) = plen w + n) as -> by (apply u32_id; lia).
    replace (plen w + n <? n) with false by lia.
    destruct (pad_pieces_ok (pad_char c) (S (Z.to_nat n)) n w) as (w' & E & O & P & A & R); [lia|lia|].
    eexists. split; [rewrite (PM_bind_Ok _ _ _ _ _ E); done|]. cbn [out plen pargs perrno].
    rewrite len_fill. split_and!; [done|lia|by rewrite A|done].
Qed.

Lemma emits_if {A} (b : bool) (m1 m2 : PM A) args a t1 t2 args' :
  (b = true → emits m1 args a t1 args') → (b = false → emits m2 args a t2 args') →
  emits (if b then m1 else m2) args a (if b then t1 else t2) args'.
Proof. destruct b; auto. Qed.

(** ** print_out *)

(** The field that [print_out] makes of a sign and digits. *)
Definition field_text (left : bool) (pad w : Z) (sg ds : list Z) (p c : Z) : list Z :=
  let n := w - len sg - p in
  (if left then [] else if pad =? CH " " then fill n (pad_char pad) else []) ++ sg ++
  (if left then [] else if pad =? CH " " then [] else fill n (pad_char pad)) ++
  fill (p - len ds) (pad_char c) ++ ds ++ (if left then fill n (pad_char pad) else []).

Definition small (n : Z) : Prop := 0 <= n <= MAX_WIDTH.

Lemma emits_pad' n m c args : u32 m = u32 n → - 2 ^ 31 <= n < 2 ^ 31 → emits (write_pad (u32 m) c) args () (fill n (pad_char c)) args.
Proof. intros ->. apply emits_pad. Qed.

Lemma emits_print_out sg ds rest sp c args :
  flag_hash sp <= 0 → (flag_in_sign sp =? 0) = (len sg =? 0) → len sg <= 1 →
  small (width sp) → small (preci sp) → len ds < 2 ^ 31 →
  emits (print_out (sg ++ ds ++ rest) (len sg + len ds) c sp) args ()
    (field_text (flag_left sp) (padwith sp) (width sp) sg ds (if flag_dot sp then preci sp else len ds) c) args.
Proof.
  unfold small, MAX_WIDTH. intros Hh Hin Hsg Hw Hp Hds.
  pose proof (len_nonneg sg). pose proof (len_nonneg ds).
  assert (take (Z.to_nat (len sg + len ds)) (sg ++ ds ++ rest) = sg ++ ds) as Etake.
  { rewrite app_assoc, take_app_length'; [done|]. rewrite length_app. unfold len. lia. }
  unfold print_out. destruct ((width sp =? 0) && (preci sp =? 0)) eqn:E0.
  - rewrite Etake. apply (emits_eq _ _ _ (sg ++ ds)); [|apply emits_write].
    unfold field_text. rewrite !fill_neg by (destruct (flag_dot sp); lia). destruct (flag_left sp), (padwith sp =? CH " "); by rewrite ?app_nil_r.
  - assert ((if flag_hash sp >? 0 then flag_hash sp else if flag_in_sign sp =? 0 then 0 else 1) = len sg) as ->.
    { replace (flag_hash sp >? 0) with false by lia. rewrite Hin. destruct (Z.eqb_spec (len sg) 0); lia. }
    cbv zeta.
    assert (take (Z.to_nat (len sg)) (sg ++ ds ++ rest) = sg) as -> by (apply take_app_length'; unfold len; lia).
    assert (drop (Z.to_nat (len sg)) (sg ++ ds ++ rest) = ds ++ rest) as -> by (apply drop_app_length'; unfold len; lia).
    replace (len sg + len ds - len sg) with (len ds) by lia.
    assert (take (Z.to_nat (len ds)) (ds ++ rest) = ds) as -> by (apply take_app_length'; unfold len; lia).
    assert (u32 (len ds) = len ds) as -> by (apply u32_id; lia).
    set (p := if flag_dot sp then preci sp else len ds).
    assert (0 <= p < 2 ^ 31) as Hpr by (subst p; destruct (flag_dot sp); lia).
    set (W := u32 (width sp - len sg)). set (W' := if flag_dot sp && (W =? 0) then preci sp else W).
    assert (∃ n, u32 (W' - p) = u32 n ∧ - 2 ^ 31 <= n < 2 ^ 31 ∧ ∀ c, fill n c = fill (width sp - len sg - p) c) as (n & En & Rn & Fn).
    { subst W'. destruct (flag_dot sp && (W =? 0)) eqn:EW.
      - exists 0. subst W p. apply andb_true_iff in EW as [Ed EW]. rewrite Ed. apply Z.eqb_eq in EW.
        replace (preci sp - preci sp) with 0 by lia. split_and!; [done|lia|lia|].
        assert (width sp - len sg <= 0) by int_lia. intros c'. by rewrite !fill_neg by lia.
      - exists (width sp - len sg - p). subst W. split_and!; [|lia|lia|done]. int_lia. }
    clearbody W'. apply (emits_eq _ _ _ (field_text (flag_left sp) (padwith sp) (width sp) sg ds p c)); [done|].
    unfold field_text. rewrite <- !Fn.
    assert (∀ c args, emits (write_pad (u32 (W' - p)) c) args () (fill n (pad_char c)) args) as Hpad
      by (intros; by apply emits_pad').
    apply (emits_bind _ _ _ ()  _ args).
    { destruct (flag_left sp), (padwith sp =? CH " "); cbn [negb andb]; first [apply Hpad|apply emits_ret]. }
    apply (emits_bind _ _ _ ()  _ args).
    { destruct (Z.eqb_spec (len sg) 0) as [Hz|Hz]; [|apply emits_write].
      destruct sg; [apply emits_ret|unfold len in Hz; cbn in Hz; lia]. }
    apply (emits_bind _ _ _ ()  _ args).
    { destruct (flag_left sp), (padwith sp =? CH " "); cbn [negb andb]; first [apply Hpad|apply emits_ret]. }
    apply (emits_bind _ _ _ ()  _ args); [apply emits_pad; lia|].
    apply (emits_bind _ _ _ ()  _ args); [apply emits_write|].
    destruct (flag_left sp); [apply Hpad|apply emits_ret].
Qed.
End emits.
