(* ===== verification/PrintfFacts.v ===== *)
(** * What one conversion prints

    The numerals of [__ltostr], the masks and signs of [num_printf], and the fields of
    [%d %i %u %o %x %X %s %c]: from the state that the directive leaves, [convert] prints
    what [PrintfSpec] says. *)

From S2P Require Import Prelude Mem Strings Convert ConvertFacts Printf PrintfSpec.

(** ** Numerals *)

Lemma digit_char_of up d : 0 <= d < 16 → digit_char up d = digit_of up d.
Proof.
  intros Hd. assert (∀ i, (i < 16)%nat → digit_char up (Z.of_nat i) = digit_of up (Z.of_nat i)) as E.
  { intros i Hi. do 16 (destruct i as [|i]; [by destruct up|]). lia. }
  specialize (E (Z.to_nat d)). rewrite Z2Nat.id in E by lia. apply E. lia.
Qed.

Lemma ltostr_digits_of base up : 2 <= base <= 16 → ∀ n v out, 0 <= v → ltostr_digits n v base up out = digits n base up v ++ out.
Proof.
  intros Hb n. induction n as [|n IH]; intros v out Hv; [done|]. cbn [ltostr_digits digits].
  destruct (v =? 0); [done|]. rewrite IH by (apply Z.div_pos; lia). rewrite <- app_assoc. cbn [app]. do 2 f_equal.
  apply digit_char_of. pose proof (Z.mod_pos_bound v base). lia.
Qed.

Lemma base_of_range c : 2 <= base_of c <= 16.
Proof. destruct c; cbn; lia. Qed.

Lemma ltostr_numeral base up v : 2 <= base <= 16 → 0 <= v →
  __ltostr 123 v base up = Some (numeral_of base up v) ∧ __lltostr 123 v base up = Some (numeral_of base up v).
Proof.
  intros Hb Hv. assert (__ltostr 123 v base up = Some (numeral_of base up v)) as E; [|by split].
  unfold __ltostr, numeral_of. change (123 - 1 <? 0) with false. cbv iota zeta.
  replace ((base =? 0) || (base >? 36)) with false by lia. change (123 - 1 <? 1) with false. cbv iota.
  destruct (v =? 0); [done|]. change (Z.to_nat (123 - 1)) with 122%nat. rewrite ltostr_digits_of by lia. by rewrite app_nil_r.
Qed.

(** What the number conversions have of the numeral of a word. *)
Lemma numeral_facts base up v : 2 <= base <= 16 → 0 <= v < 2 ^ 64 →
  num base (numeral_of base up v) = v ∧ Forall (is_digit base) (numeral_of base up v) ∧ Forall nzbyte (numeral_of base up v) ∧
  1 <= len (numeral_of base up v) <= 122 ∧ (v ≠ 0 → peek (numeral_of base up v) 0 ≠ CH "0").
Proof.
  intros Hb Hv. unfold numeral_of. destruct (Z.eqb_spec v 0) as [->|Hv0].
  - split_and!; [done|apply Forall_singleton; split; [done|change (digit_value 48) with 0; lia]|by apply Forall_singleton|done|done|done].
  - destruct (ltostr_digits_ok base up 122 v [] ltac:(lia)) as (ds & E & Hn & Hd & Hz & Hl & Hnz).
    { split; [lia|]. eapply Z.lt_le_trans; [apply Hv|]. transitivity (2 ^ 122); [lia|]. apply Z.pow_le_mono_l. lia. }
    rewrite ltostr_digits_of, !app_nil_r in E by lia. rewrite E. destruct (Hnz Hv0) as [Hne Hp].
    split_and!; try done; unfold len; [destruct ds; [done|cbn; lia]|lia].
Qed.

(** The sign and the digits of a number, as [num_printf] finds them. *)
Definition long_of (m : modifier) : Z := match m with M_none => 0 | M_h => -1 | M_hh => -2 | M_l | M_z | M_j => 1 | M_ll => 2 end.

Definition short_ok (m : modifier) (c : numconv) (n : Z) : Prop :=
  signed c → match m with M_h => - 2 ^ 15 <= n < 2 ^ 15 | M_hh => - 2 ^ 7 <= n < 2 ^ 7 | _ => True end.

Definition raw_value (m : modifier) (c : numconv) (n : Z) : Z :=
  match m with M_none | M_h | M_hh => if signed c then s32 n else u32 n | _ => s64 n end.

Lemma land_ff x k m : m = 2 ^ k - 1 → 0 <= k → Z.land x m = x mod 2 ^ k.
Proof. intros ->. intros Hk. replace (2 ^ k - 1) with (Z.ones k) by (rewrite Z.ones_equiv; lia). by apply Z.land_ones. Qed.

Lemma magnitude m c n : short_ok m c n →
  let v := value_of m c n in let r := raw_value m c n in let neg := signed c && (r <? 0) in
  let x := if neg then s64 (- r) else r in
  let x := if long_of m <? 0 then Z.land x 0xffff else x in
  let x := if long_of m <? -1 then Z.land x 0xff else x in
  neg = (v <? 0) ∧ u64 x = Z.abs v ∧ (signed c = false → 0 <= v) ∧ Z.abs v < 2 ^ 64.
Proof.
  unfold short_ok. intros Hs. cbv zeta. unfold value_of, raw_value.
  assert (∀ z, Z.land z 0xffff = z mod 2 ^ 16) as E16 by (intros; by apply (land_ff _ 16)).
  assert (∀ z, Z.land z 0xff = z mod 2 ^ 8) as E8 by (intros; by apply (land_ff _ 8)).
  assert (∀ z, - 2 ^ 15 <= z < 2 ^ 15 → s32 z = z ∧ s16 z = z) as I16 by (intros; split; int_lia).
  assert (∀ z, - 2 ^ 7 <= z < 2 ^ 7 → s32 z = z ∧ s8 z = z) as I8 by (intros; split; int_lia).
  destruct (signed c) eqn:Ec, m; cbn [long_of andb]; try specialize (Hs eq_refl).
  all: try change (0 <? 0) with false; try change (-1 <? 0) with true; try change (-2 <? 0) with true; try change (-1 <? -1) with false;
    try change (-2 <? -1) with true; try change (1 <? 0) with false; try change (2 <? 0) with false; try change (0 <? -1) with false;
    try change (1 <? -1) with false; try change (2 <? -1) with false; cbv iota; rewrite ?E16, ?E8; clear E16 E8.
  all: try (destruct (I16 n (Hs I)) as [-> ->]); try (destruct (I8 n (Hs I)) as [-> ->]); clear I16 I8;
    match goal with |- context [?x <? 0] => destruct (Z.ltb_spec x 0) end.
  all: split_and!; [try int_lia..]; specialize (Hs I); try lia.
  all: assert (s64 (- n) = - n) as E by int_lia; rewrite ?E, ?(Z.mod_small _ (2 ^ 16)) by lia; rewrite ?(Z.mod_small _ (2 ^ 8)) by lia; rewrite u64_id by lia; lia.
Qed.

(** ** Numbers *)

Section printf_facts.
Context `{Doubles}.

Lemma emits_va_arg a args : emits va_arg (a :: args) a [] args.
Proof. intros w Hw Hp _. unfold va_arg. rewrite Hw. eexists. split; [done|]. cbn. rewrite app_nil_r. split_and!; [done|unfold len; cbn; lia|done|done]. Qed.
Lemma emits_va_int n args : emits va_int (A_int n :: args) (s32 n) [] args.
Proof. eapply emits_bind0; [apply emits_va_arg|apply emits_ret]. Qed.
Lemma emits_va_long n args : emits va_long (A_long n :: args) (s64 n) [] args.
Proof. eapply emits_bind0; [apply emits_va_arg|apply emits_ret]. Qed.
Lemma emits_va_longlong n args : emits va_longlong (A_longlong n :: args) (s64 n) [] args.
Proof. eapply emits_bind0; [apply emits_va_arg|apply emits_ret]. Qed.

Lemma emits_fetch m c n sp args :
  flag_long sp = long_of m → flag_in_sign sp = (if signed c then 1 else 0) →
  emits (if flag_long sp >? 0 then if flag_long sp >? 1 then va_longlong else va_long
         else n ← va_int; mret (if flag_in_sign sp =? 0 then u32 n else n)) (number_arg m n :: args) (raw_value m c n) [] args.
Proof.
  intros -> ->. destruct m; cbn [long_of number_arg raw_value]; try apply emits_va_long; try apply emits_va_longlong.
  all: eapply emits_bind0; [apply emits_va_int|]; destruct (signed c); try apply emits_ret.
  all: change (0 =? 0) with true; cbv iota; replace (u32 n) with (u32 (s32 n)) by int_lia; apply emits_ret.
Qed.

Lemma emits_num_printf m c n sp args :
  short_ok m c n → flag_long sp = long_of m → flag_in_sign sp = (if signed c then 1 else 0) → flag_hash sp = 0 →
  small (width sp) → small (preci sp) →
  let v := value_of m c n in
  let ds := if flag_dot sp && (v =? 0) then [] else numeral_of (base_of c) (upper c) (Z.abs v) in
  let sg := if v <? 0 then [CH "-"] else if signed c && flag_sign sp then [CH "+"] else if signed c && flag_space sp then [CH " "] else [] in
  emits (num_printf (base_of c) (upper c) [] sp) (number_arg m n :: args) ()
    (field_text (flag_left sp) (padwith sp) (width sp) sg ds (if flag_dot sp then preci sp else len ds) (CH "0")) args.
Proof.
  intros Hs Hl Hi Hh Hw Hp v ds sg. unfold num_printf.
  eapply emits_bind0; [by apply emits_fetch|].
  destruct (magnitude m c n Hs) as (Eneg & Ex & Hu & Hm). fold v in Eneg, Ex, Hu, Hm. cbv zeta in Ex, Eneg.
  assert (negb (flag_in_sign sp =? 0) = signed c) as Ein by (rewrite Hi; by destruct (signed c)).
  rewrite Ein, Hl. cbv zeta. rewrite Ex, Eneg.
  destruct (ltostr_numeral (base_of c) (upper c) (Z.abs v) (base_of_range c) ltac:(lia)) as [-> ->].
  destruct (numeral_facts (base_of c) (upper c) (Z.abs v) (base_of_range c) ltac:(lia)) as (_ & _ & _ & Hlen & Hnz).
  set (nm := numeral_of (base_of c) (upper c) (Z.abs v)) in *.
  assert ((if long_of m >? 1 then Some nm else Some nm) = Some nm) as -> by (by destruct (long_of m >? 1)).
  cbn [app]. change (Z.of_nat (length (@nil Z))) with 0. fold (len nm).
  assert (flag_dot sp && (len nm =? 1) && (peek nm 0 =? 48) = flag_dot sp && (v =? 0)) as ->.
  { destruct (flag_dot sp); [|done]. cbn [andb]. destruct (Z.eqb_spec v 0) as [->|Hv]; [done|].
    specialize (Hnz ltac:(lia)). replace (peek nm 0 =? 48) with false by lia. apply andb_false_r. }
  assert (set_hash 0 sp = sp) as -> by (destruct sp; cbn in Hh; by subst).
  assert ((if flag_dot sp && (v =? 0) then sp else sp) = sp) as -> by (by destruct (flag_dot sp && (v =? 0))).
  assert (∃ r, nm = ds ++ r) as [r Er] by (subst ds; destruct (flag_dot sp && (v =? 0)); [by exists nm|exists []; by rewrite app_nil_r]).
  assert ((if flag_dot sp && (v =? 0) then if (preci sp =? 0) || (flag_hash sp >? 0) then 0 else 0 else 0 + len nm) = len ds) as ->
    by (subst ds; destruct (flag_dot sp && (v =? 0)); [by destruct (_ || _)|lia]).
  assert (len ds < 2 ^ 31) as Hds by (subst ds; destruct (flag_dot sp && (v =? 0)); [done|lia]).
  rewrite Er. clearbody ds nm. clear Ex Eneg Er Hnz Hlen.
  assert (∀ i sg', sg' = sg → (i =? 0) = (len sg' =? 0) → len sg' <= 1 → emits (print_out (sg' ++ ds ++ r) (len sg' + len ds) 48 (set_in_sign i sp)) args ()
    (field_text (flag_left sp) (padwith sp) (width sp) sg ds (if flag_dot sp then preci sp else len ds) 48) args) as Hout.
  { intros i sg' -> Hi0 Hl1. apply (emits_print_out sg ds r (set_in_sign i sp)); try done; cbn; lia. }
  assert (signed c = false → sg = []) as Hsg.
  { subst sg. intros Es. specialize (Hu Es). rewrite Es. by replace (v <? 0) with false by lia. }
  subst sg. rewrite (Z.add_comm (len ds) 1). rewrite Ein.
  destruct (v <? 0); [by apply (Hout 2 [45])|]. rewrite Hi.
  destruct (signed c); cbn [andb]; [|by apply (Hout 0 [])].
  destruct (flag_sign sp); cbn [orb]; [by apply (Hout 1 [43])|].
  destruct (flag_space sp); [by apply (Hout 1 [32])|by apply (Hout 0 [])].
Qed.

(** *** The field of a number *)

(** What the flags, the width, the precision and the modifier leave in the state. *)
Definition spec_of (d : directive) (m : modifier) : spec :=
  mk_spec (if d_zero d && negb (d_left d) then CH "0" else CH " ") 0 0 (left_of d) (d_space d) (d_plus d)
    (bool_decide (is_Some (prec_of d))) (long_of m) (width_of d) (default 0 (prec_of d)).

Definition bare_digits (d : directive) (c : numconv) (v : Z) : list Z :=
  if bool_decide (is_Some (prec_of d)) && (v =? 0) then [] else numeral_of (base_of c) (upper c) (Z.abs v).

Lemma digits_of_eq d c v : (∀ p, prec_of d = Some p → 0 <= p) →
  digits_of d c v = fill (default (len (bare_digits d c v)) (prec_of d) - len (bare_digits d c v)) (CH "0") ++ bare_digits d c v.
Proof.
  unfold digits_of, bare_digits. intros Hp. destruct (prec_of d) as [p|]; cbn [from_option]; unfold id.
  - specialize (Hp p eq_refl). rewrite (bool_decide_eq_true_2 _ (mk_is_Some _ _ eq_refl)). cbn [andb].
    destruct (Z.eqb_spec v 0) as [->|Hv]; [|by rewrite andb_false_r].
    rewrite andb_true_r, app_nil_r. change (numeral_of (base_of c) (upper c) (Z.abs 0)) with [CH "0"].
    destruct (Z.eqb_spec p 0) as [->|Hp0]; [done|]. change (len [CH "0"]) with 1. change (len []) with 0.
    change [CH "0"] with (fill 1 (CH "0")). unfold fill. rewrite <- replicate_add. f_equal. lia.
  - rewrite bool_decide_eq_false_2 by (by intros []). cbn [andb]. by rewrite Z.sub_diag.
Qed.

Lemma field_number d c m n v w :
  supported (Number d m c n) → v = value_of m c n →
  w = width_of d ∨ sign_of d c v = [] ∧ (∃ p, prec_of d = Some p ∧ w = p ∧ width_of d <= p) →
  field_text (left_of d) (padwith (spec_of d m)) w (sign_of d c v) (bare_digits d c v)
    (default (len (bare_digits d c v)) (prec_of d)) (CH "0") = render (Number d m c n).
Proof.
  intros ([Hw Hp] & Hz & Hwide & _) -> Hwd. cbn [render].
  set (v := value_of m c n) in *. cbv zeta. set (sg := sign_of d c v) in *. cbv zeta in Hwide.
  assert (∀ p, prec_of d = Some p → 0 <= p <= MAX_WIDTH) as Hp' by (intros p Ep; by rewrite Ep in Hp).
  pose proof (digits_of_eq d c v ltac:(intros p Ep; by apply Hp')) as ED.
  set (ds := bare_digits d c v) in *. set (p := default (len ds) (prec_of d)) in *. set (D := digits_of d c v) in *.
  assert (len D = Z.max p (len ds)) as HD by (rewrite ED, len_app, len_fill; pose proof (len_nonneg ds); lia).
  assert (∀ ch, fill (w - len sg - p) ch = fill (width_of d - len sg - len D) ch) as Efill.
  { intros ch. destruct Hwd as [->|(-> & q & Eq & -> & Hq)].
    - destruct (prec_of d) as [q|] eqn:Eq; cbn [from_option] in p; unfold id in p; [|subst p; by rewrite HD, Z.max_id].
      destruct (Hwide q eq_refl) as [Hle|Hle]; [by rewrite !fill_neg by (fold sg in Hle; subst p; lia)|].
      subst p. do 2 f_equal. fold D in Hle. lia.
    - subst p. rewrite Eq in *. cbn [from_option] in *; unfold id in *. change (len []) with 0. by rewrite !fill_neg by lia. }
  unfold field_text. rewrite !Efill. unfold justify. fold D. clear Efill HD Hwide Hwd Hw.
  cbn [padwith spec_of]. destruct (left_of d) eqn:Eleft.
  - assert (d_zero d && negb (d_left d) = false) as ->.
    { destruct (d_zero d), (d_left d); try done. destruct (Hz I) as [?|[_ ?]]; done. }
    cbn [app]. change (pad_char (CH " ")) with (CH " "). rewrite ED. change (pad_char 48) with 48. by rewrite <- (app_assoc (fill _ _)).
  - assert (d_left d = false) as El by (unfold left_of in Eleft; by destruct (d_left d)).
    rewrite El, andb_true_r. change (pad_char 48) with 48. destruct (d_zero d) eqn:Ez.
    + destruct (Hz I) as [Hd|[Hn _]]; [by rewrite El in Hd|]. rewrite Hn. change (48 =? 32) with false. cbv iota. cbn [andb app].
      by rewrite ED, app_nil_r.
    + change (32 =? 32) with true. cbv iota. cbn [andb app]. by rewrite ED, app_nil_r.
Qed.

(** ** The conversions *)

Lemma emits_num d c m n w args :
  supported (Number d m c n) → small w →
  w = width_of d ∨ sign_of d c (value_of m c n) = [] ∧ (∃ p, prec_of d = Some p ∧ w = p ∧ width_of d <= p) →
  emits (num_printf (base_of c) (upper c) [] (set_width w (set_in_sign (if signed c then 1 else 0) (spec_of d m))))
    (number_arg m n :: args) () (render (Number d m c n)) args.
Proof.
  intros Hs Hw Hwd. pose proof Hs as ([_ Hp] & _ & _ & Hsh).
  rewrite <- (field_number d c m n _ w Hs eq_refl Hwd). eapply emits_eq; [|apply emits_num_printf; try done].
  - cbn [flag_dot flag_left padwith width set_width set_in_sign spec_of flag_sign flag_space preci]. unfold bare_digits, sign_of.
    destruct (prec_of d) as [p|]; [|rewrite bool_decide_eq_false_2 by (by intros []); done].
    by rewrite (bool_decide_eq_true_2 _ (mk_is_Some _ _ eq_refl)).
  - cbn. destruct (prec_of d); [done|]. unfold small, MAX_WIDTH. cbn. lia.
Qed.

Lemma width_of_small d : width_ok d → small (width_of d) ∧ small (default 0 (prec_of d)).
Proof.
  unfold width_ok, width_of, small, MAX_WIDTH. intros [Hw Hp]. split; [destruct (d_width d); lia|].
  destruct (prec_of d); cbn [from_option]; unfold id; lia.
Qed.

Lemma emits_convert_number d m c n args :
  supported (Number d m c n) →
  emits (convert (conv_char c) (spec_of d m)) (number_arg m n :: args) () (render (Number d m c n)) args.
Proof.
  intros Hs. destruct (width_of_small d ltac:(apply Hs)) as [Hw Hp].
  assert (∀ c, supported (Number d m c n) → emits (num_printf (base_of c) (upper c) [] (set_in_sign (if signed c then 1 else 0) (spec_of d m)))
    (number_arg m n :: args) () (render (Number d m c n)) args) as Hnum
    by (intros c' Hs'; apply (emits_num d c' m n (width_of d)); auto).
  assert (∀ c, base_of c = 16 → supported (Number d m c n) → emits (num_printf 16 (upper c) []
      (if preci (spec_of d m) >? width (spec_of d m) then set_width (preci (spec_of d m)) (spec_of d m) else spec_of d m))
    (number_arg m n :: args) () (render (Number d m c n)) args) as Hhex.
  { intros c' Hb Hs'. assert (signed c' = false) as Hu by (by destruct c'). cbn [preci width spec_of].
    specialize (Hnum c' Hs'). rewrite Hb, Hu in Hnum. destruct (Z.gtb_spec (default 0 (prec_of d)) (width_of d)) as [Hgt|]; [|done].
    pose proof (emits_num d c' m n (default 0 (prec_of d)) args Hs' Hp) as E. rewrite Hb, Hu in E. apply E. right.
    destruct (prec_of d) as [p|] eqn:Ep; cbn [from_option] in *; unfold id in *; [|unfold small in *; lia]. split; [|exists p; split_and!; lia || done].
    unfold sign_of. rewrite Hu. destruct (Z.ltb_spec (value_of m c' n) 0) as [Hneg|]; [|done].
    unfold value_of in Hneg. rewrite Hu in Hneg. destruct m; int_lia. }
  destruct c; [apply Hnum|apply Hnum|apply Hnum|apply Hnum|apply Hhex|apply Hhex]; done.
Qed.

Lemma emits_convert_str d s args :
  supported (Str d s) → emits (convert (CH "s") (spec_of d M_none)) (A_str s :: args) () (render (Str d s)) args.
Proof.
  intros [Hw Hz]. destruct (width_of_small d Hw) as [Hws Hps].
  cbn [render]. set (s' := default (STR "(null)") s). set (t := match prec_of d with Some p => take (Z.to_nat p) s' | None => s' end).
  change (convert (CH "s") (spec_of d M_none)) with (print_str (spec_of d M_none)). unfold print_str.
  eapply emits_bind0; [apply emits_va_arg|]. cbv beta iota zeta.
  change (match s with Some s => s | None => STR "(null)" end) with s'. set (sz := if flag_dot (spec_of d M_none) && _ then _ else _).
  assert (sz = len t ∧ take (length t) s' = t) as [-> Et].
  { subst sz t. cbn [flag_dot preci spec_of]. destruct (prec_of d) as [p|] eqn:Ep.
    - rewrite (bool_decide_eq_true_2 _ (mk_is_Some _ _ eq_refl)). cbn [from_option andb] in *. unfold id, small, len in *.
      split; [rewrite length_take; destruct (Z.gtb_spec (Z.of_nat (length s')) p); lia|]. by rewrite length_take, <- take_take, firstn_all.
    - rewrite bool_decide_eq_false_2 by (by intros []). cbn [andb]. split; [done|by rewrite take_ge]. }
  assert (s' = [] ++ t ++ drop (length t) s') as Es by (cbn [app]; by rewrite <- Et at 1; rewrite take_drop).
  clearbody t. apply emits_fits. intros Hl.
  assert (len t < 2 ^ 31) as Ht.
  { unfold justify in Hl. destruct (left_of d); rewrite ?len_app in Hl; unfold len in *; cbn in Hl; lia. }
  rewrite Es. change (len t) with (len [] + len t).
  eapply emits_eq; [|apply (emits_print_out [] t); try done].
  unfold field_text, justify. cbn [flag_left flag_dot padwith width set_padwith set_preci spec_of].
  change (32 =? 32) with true. cbv iota. rewrite Z.sub_diag. cbn [app].
  by destruct (left_of d); cbn [app]; rewrite ?app_nil_r.
Qed.

Lemma emits_convert_char c args sp : emits (convert (CH "c") sp) (A_int c :: args) () [u8 c] args.
Proof. eapply emits_bind0; [apply emits_va_int|]. replace (u8 c) with (u8 (s32 c)) by int_lia. apply emits_write. Qed.
End printf_facts.
