(* ===== verification/PrintfParse.v ===== *)
(** * What formatted output prints

    How [inn_printf] reads the directives, and with it the two results: [__v_printf]
    prints the text that [PrintfSpec] gives a format, and [vsnprintf] writes as much of
    it as there is room for.  At the end, formats that print something else. *)

From S2P Require Import Prelude Mem Strings Convert ConvertFacts Printf PrintfSpec PrintfFacts.

(** A format is a list of texts, each with the directive that follows it, and a last text. *)
Definition plain_char (c : Z) : Prop := c ≠ 0 ∧ c ≠ CH "%".
Definition format_text (f : list (list Z * item)) (last : list Z) : list Z := concat ((λ p, p.1 ++ item_text p.2) <$> f) ++ last.
Definition rendered (f : list (list Z * item)) (last : list Z) : list Z := concat ((λ p, p.1 ++ render p.2) <$> f) ++ last.

Definition format_ok (f : list (list Z * item)) (last : list Z) : Prop :=
  Forall (λ p, Forall plain_char p.1 ∧ supported p.2) f ∧ Forall plain_char last ∧ len (rendered f last) < 2 ^ 31.

(** Formats without floating point need no doubles. *)
Definition no_doubles : Doubles := {| double := Empty_set; d_negative _ := false; d_nonnegative _ := false; d_special _ := false; __dtostr _ _ _ _ _ := [] |}.

Section parse.
Context `{Doubles}.

Definition format_args (f : list (list Z * item)) : list arg := concat ((λ p, item_args p.2) <$> f).

(** What [inn_printf] does from [format] on, in the state [sp]. *)
Definition parses (format : list Z) (sp : spec) (args : list arg) (rest text : list Z) (args' : list arg) : Prop :=
  ∀ fuel, (length format < fuel)%nat → emits (inn_printf fuel format sp) args rest text args'.

Lemma parses_step c format sp sp' args rest text args' :
  (∀ fuel, inn_printf (S fuel) (c :: format) sp = inn_printf fuel format sp') →
  parses format sp' args rest text args' → parses (c :: format) sp args rest text args'.
Proof. intros E Hp [|fuel] Hf; [simpl in Hf; lia|]. rewrite E. apply Hp. simpl in Hf. lia. Qed.

Lemma parses_flag (b : bool) c (set : spec → spec) format sp args rest text args' :
  (∀ fuel sp, inn_printf (S fuel) (c :: format) sp = inn_printf fuel format (set sp)) →
  parses format (if b then set sp else sp) args rest text args' → parses (flag b c ++ format) sp args rest text args'.
Proof. intros E. destruct b; [|done]. apply parses_step. auto. Qed.

Lemma emits_format_number f ds rest args :
  f = strtoul ∨ f = strtol → Forall (is_digit 10) ds → Forall nzbyte ds → ds ≠ [] → stops 10 rest → 0 <= num 10 ds <= MAX_WIDTH →
  emits (format_number f (ds ++ rest)) args (num 10 ds, rest) [] args.
Proof.
  unfold MAX_WIDTH. intros Hf Hd Hz Hne Hst Hn w Hw Hp _. unfold format_number. erewrite PM_bind_Ok by done.
  assert (f (ds ++ rest) 10 (perrno w) = mk_conv (num 10 ds) (Some rest) (perrno w)) as ->.
  { assert (numeral 10 [] [] [] ds rest false 10) as Hnu.
    { split; [constructor|constructor|constructor; [lia|done]|done|done|done|done]. }
    destruct Hf as [-> | ->].
    - pose proof (strtoul_ok _ _ _ _ _ _ _ _ (perrno w) Hnu) as E. cbn [app] in E. rewrite E. unfold unsigned_result.
      by replace (2 ^ 64 <=? num 10 ds) with false by lia.
    - pose proof (strtol_ok _ _ _ _ _ _ _ _ (perrno w) Hnu) as E. cbv zeta in E. cbn [app] in E. rewrite E. unfold signed_result, LONG_MIN, LONG_MAX.
      replace (num 10 ds <? _) with false by lia. replace (_ <? num 10 ds) with false by lia.
      by replace (num 10 ds =? _) with false by lia. }
  exists w. split; [by destruct w|]. rewrite app_nil_r. split_and!; [done|unfold len; cbn; lia|done|done].
Qed.

Lemma digit_char_range c : nzbyte c → is_digit 10 c → 48 <= c <= 57.
Proof. unfold nzbyte, is_digit, digit_value. intros Hc Hd. repeat case_match; int_lia. Qed.

Definition width_step (fuel : nat) (start : list Z) (sp : spec) : PM (list Z) :=
  if flag_dot sp then return_ (-1) else
  '(w, rest) ← format_number strtoul start;
  let w := u32 w in
  if w >? MAX_WIDTH then return_ (-1) else
  let sp := set_width w sp in
  inn_printf fuel rest (if (peek start 0 =? CH "0") && negb (flag_left sp) then set_padwith (CH "0") sp else sp).

Lemma inn_printf_digit fuel c format sp : 48 <= c <= 57 → inn_printf (S fuel) (c :: format) sp = width_step fuel (c :: format) sp.
Proof.
  intros Hc. assert (c ∈ STR "0123456789") as Hin.
  { rewrite !elem_of_cons. lia. }
  repeat (apply elem_of_cons in Hin as [->|Hin]; [reflexivity|]). by apply elem_of_nil in Hin.
Qed.

Lemma parses_digits ds format sp args rest text args' :
  Forall (is_digit 10) ds → Forall nzbyte ds → ds ≠ [] → stops 10 format → 0 <= num 10 ds <= MAX_WIDTH → flag_dot sp = false →
  parses format (if (peek ds 0 =? CH "0") && negb (flag_left sp) then set_padwith (CH "0") (set_width (num 10 ds) sp) else set_width (num 10 ds) sp)
    args rest text args' →
  parses (ds ++ format) sp args rest text args'.
Proof.
  intros Hd Hz Hne Hst Hn Hdot Hp [|fuel] Hf; [rewrite length_app in Hf; destruct ds; simpl in *; lia|].
  destruct ds as [|c ds]; [done|]. change ((c :: ds) ++ format) with (c :: ds ++ format).
  rewrite inn_printf_digit by (apply Forall_cons in Hd as [? _], Hz as [? _]; by apply digit_char_range).
  unfold width_step. rewrite Hdot. cbv iota. change (c :: ds ++ format) with ((c :: ds) ++ format).
  eapply emits_bind0; [apply emits_format_number; auto|]. cbv beta iota zeta.
  assert (u32 (num 10 (c :: ds)) = num 10 (c :: ds)) as -> by (unfold MAX_WIDTH in *; apply u32_id; lia).
  replace (num 10 (c :: ds) >? MAX_WIDTH) with false by lia. apply Hp. rewrite length_app in Hf. simpl in Hf. lia.
Qed.

(** [*], [.] and [.*] *)
Lemma parses_star n format sp args rest text args' :
  - MAX_WIDTH <= n <= MAX_WIDTH →
  parses format (set_width (Z.abs n) (if n <? 0 then set_left sp else sp)) args rest text args' →
  parses (CH "*" :: format) sp (A_int n :: args) rest text args'.
Proof.
  unfold MAX_WIDTH. intros Hn Hp [|fuel] Hf; [simpl in Hf; lia|].
  change (inn_printf (S fuel) (42 :: format) sp) with
    (tmp ← va_int; let sp := if tmp <? 0 then set_left sp else sp in
     let w := u32 (if tmp <? 0 then s32 (- tmp) else tmp) in
     if w >? MAX_WIDTH then return_ (-1) else inn_printf fuel format (set_width w sp)).
  eapply emits_bind0; [apply emits_va_int|]. cbv zeta. replace (s32 n) with n by int_lia.
  replace (u32 (if n <? 0 then s32 (- n) else n)) with (Z.abs n) by (destruct (Z.ltb_spec n 0); int_lia).
  replace (Z.abs n >? MAX_WIDTH) with false by (unfold MAX_WIDTH; lia). apply Hp. simpl in Hf. lia.
Qed.

Lemma parses_dot ds format sp args rest text args' :
  Forall (is_digit 10) ds → Forall nzbyte ds → ds ≠ [] → stops 10 format → 0 <= num 10 ds <= MAX_WIDTH →
  parses format (set_preci true (num 10 ds) sp) args rest text args' →
  parses (CH "." :: ds ++ format) sp args rest text args'.
Proof.
  intros Hd Hz Hne Hst Hn Hp [|fuel] Hf; [simpl in Hf; lia|].
  change (inn_printf (S fuel) (46 :: ds ++ format) sp) with
    ('(p, rest) ← (if peek (ds ++ format) 0 =? CH "*" then tmp ← va_int; mret (if tmp <? 0 then 0 else tmp, tail (ds ++ format))
                   else '(tmp, rest) ← format_number strtol (ds ++ format); mret (if tmp <? 0 then 0 else u32 tmp, rest));
     if p >? MAX_WIDTH then return_ (-1) else inn_printf fuel rest (set_preci true p sp)).
  assert ((peek (ds ++ format) 0 =? CH "*") = false) as ->.
  { destruct ds as [|c ds]; [done|]. apply Forall_cons in Hd as [Hd _], Hz as [Hz _].
    pose proof (digit_char_range c Hz Hd). apply Z.eqb_neq. change (peek ((c :: ds) ++ format) 0) with c. lia. }
  eapply emits_bind0.
  { eapply emits_bind0; [apply emits_format_number; auto|]. cbv beta iota. replace (num 10 ds <? 0) with false by lia.
    assert (u32 (num 10 ds) = num 10 ds) as -> by (unfold MAX_WIDTH in *; apply u32_id; lia). apply emits_ret. }
  cbv beta iota. replace (num 10 ds >? MAX_WIDTH) with false by lia. apply Hp. simpl in Hf. rewrite length_app in Hf. lia.
Qed.

Lemma parses_dot_star n format sp args rest text args' :
  0 <= n <= MAX_WIDTH → parses format (set_preci true n sp) args rest text args' →
  parses (CH "." :: CH "*" :: format) sp (A_int n :: args) rest text args'.
Proof.
  unfold MAX_WIDTH. intros Hn Hp [|fuel] Hf; [simpl in Hf; lia|].
  change (inn_printf (S fuel) (46 :: 42 :: format) sp) with
    ('(p, rest) ← (tmp ← va_int; mret (if tmp <? 0 then 0 else tmp, format));
     if p >? MAX_WIDTH then return_ (-1) else inn_printf fuel rest (set_preci true p sp)).
  eapply emits_bind0; [eapply emits_bind0; [apply emits_va_int|apply emits_ret]|]. cbv beta iota.
  replace (if s32 n <? 0 then 0 else s32 n) with n by (repeat case_match; int_lia).
  replace (n >? MAX_WIDTH) with false by (unfold MAX_WIDTH; lia). apply Hp. simpl in Hf. lia.
Qed.

(** ** Directives *)

Lemma ten_numeral n : 0 <= n <= MAX_WIDTH →
  let ds := numeral_of 10 false n in
  num 10 ds = n ∧ Forall (is_digit 10) ds ∧ Forall nzbyte ds ∧ ds ≠ [] ∧ (n ≠ 0 → (peek ds 0 =? CH "0") = false).
Proof.
  unfold MAX_WIDTH. intros Hn. set (ds := numeral_of 10 false n). destruct (numeral_facts 10 false n ltac:(lia) ltac:(lia)) as (Hnum & Hd & Hz & Hl & Hp).
  fold ds in Hnum, Hd, Hz, Hl, Hp. split_and!; [done|done|done|intros E; rewrite E in Hl; unfold len in Hl; simpl in Hl; lia|intros Hn0; specialize (Hp Hn0); lia].
Qed.

Lemma parses_width z w format sp args rest text args' :
  match w with No_width => True | Width n => 0 < n <= MAX_WIDTH | Star_width n => - MAX_WIDTH <= n <= MAX_WIDTH end →
  flag_dot sp = false → width sp = 0 → stops 10 format →
  parses format
    (let sp := if z && negb (flag_left sp) then set_padwith (CH "0") sp else sp in
     match w with No_width => sp | Width n => set_width n sp | Star_width n => set_width (Z.abs n) (if n <? 0 then set_left sp else sp) end)
    args rest text args' →
  parses (flag z (CH "0") ++ width_text w ++ format) sp (match w with Star_width n => [A_int n] | _ => [] end ++ args) rest text args'.
Proof.
  intros Hw Hdot Hw0 Hst Hp. destruct z.
  - change (flag true (CH "0")) with [CH "0"]. cbn [andb] in Hp. destruct w as [|n|n]; cbn [width_text app] in *.
    + apply (parses_digits [CH "0"]); [by apply Forall_singleton|by apply Forall_singleton|done|done|done|done|].
      cbn [peek nth]. change (48 =? 48) with true. cbn [andb]. destruct sp; cbn in Hw0; subst. exact Hp.
    + destruct (ten_numeral n ltac:(lia)) as (Hn & Hd & Hz & Hne & _).
      apply (parses_digits (CH "0" :: numeral_of 10 false n)); try done; [by constructor|by constructor|..].
      { unfold num, num_from. cbn [foldl]. change (0 * 10 + digit_value 48) with 0. fold (num_from 10 0 (numeral_of 10 false n)).
        fold (num 10 (numeral_of 10 false n)). lia. }
      change (peek (48 :: numeral_of 10 false n) 0 =? 48) with true. cbn [andb].
      unfold num, num_from. cbn [foldl]. change (0 * 10 + digit_value 48) with 0. fold (num_from 10 0 (numeral_of 10 false n)).
      fold (num 10 (numeral_of 10 false n)). rewrite Hn. destruct (flag_left sp) eqn:E; exact Hp.
    + apply (parses_digits [CH "0"]); [by apply Forall_singleton|by apply Forall_singleton|done| |done|done|].
      { by intros [_ ?]. }
      cbn [peek nth]. change (48 =? 48) with true. cbn [andb]. change (num 10 [48]) with 0. apply parses_star; [done|].
      destruct sp; cbn in Hw0; subst. destruct flag_left; exact Hp.
  - change (flag false (CH "0")) with (@nil Z). cbn [andb app] in *. destruct w as [|n|n]; cbn [width_text app] in *.
    + exact Hp.
    + destruct (ten_numeral n ltac:(lia)) as (Hn & Hd & Hz & Hne & Hpk). apply parses_digits; try done; [lia|].
      rewrite Hpk by lia. cbn [andb]. by rewrite Hn.
    + by apply parses_star.
Qed.

Lemma parses_prec p format sp args rest text args' :
  match p with No_prec => True | Prec n | Star_prec n => 0 <= n <= MAX_WIDTH end → stops 10 format →
  parses format (match p with No_prec => sp | Prec n | Star_prec n => set_preci true n sp end) args rest text args' →
  parses (prec_text p ++ format) sp (match p with Star_prec n => [A_int n] | _ => [] end ++ args) rest text args'.
Proof.
  intros Hn Hst Hp. destruct p as [|n|n]; cbn [prec_text app]; [done| |by apply parses_dot_star].
  destruct (ten_numeral n Hn) as (En & Hd & Hz & Hne & _). apply parses_dot; try done; by rewrite En.
Qed.

Lemma parses_modifier m format sp args rest text args' :
  flag_long sp = 0 → parses format (set_long (long_of m) sp) args rest text args' →
  parses (modifier_text m ++ format) sp args rest text args'.
Proof.
  destruct sp. cbn. intros ->. destruct m; cbn [modifier_text app]; intros Hp; try exact Hp;
    (eapply parses_step; [intros; reflexivity|]); try exact Hp; (eapply parses_step; [intros; reflexivity|]); exact Hp.
Qed.

Lemma parses_conv c format sp args text args' :
  (∀ fuel, inn_printf (S fuel) (c :: format) sp = (convert c sp ≫= λ _, mret format)) →
  emits (convert c sp) args () text args' → parses (c :: format) sp args format text args'.
Proof.
  intros E Hc [|fuel] Hf; [simpl in Hf; lia|]. rewrite E. eapply emits_eq; [|eapply emits_bind; [exact Hc|apply emits_ret]]. by rewrite app_nil_r.
Qed.

Lemma parses_directive d m c format args text args' :
  width_ok d → c ∈ STR "diuoxXs" → emits (convert c (spec_of d m)) args () text args' →
  parses (directive_text d ++ modifier_text m ++ c :: format) spec0 (directive_args d ++ args) format text args'.
Proof.
  intros [Hw Hp] Hin Hc. unfold directive_text, directive_args. rewrite <- !app_assoc.
  assert (stops 10 (modifier_text m ++ c :: format)) as Hst1.
  { destruct m; [|by intros [_ ?]..]. cbn [modifier_text app stops].
    repeat (apply elem_of_cons in Hin as [->|Hin]; [by intros [_ ?]|]). by apply elem_of_nil in Hin. }
  assert (stops 10 (prec_text (d_prec d) ++ modifier_text m ++ c :: format)) as Hst2.
  { destruct (d_prec d); [exact Hst1|by intros [_ ?]..]. }
  apply (parses_flag _ _ set_left); [reflexivity|]. apply (parses_flag _ _ set_sign); [reflexivity|].
  apply (parses_flag _ _ set_space); [reflexivity|].
  apply parses_width; [done|by destruct (d_left d), (d_plus d), (d_space d)..|done|].
  apply parses_prec; [|done|].
  { unfold prec_of in Hp. by destruct (d_prec d). }
  apply parses_modifier; [by destruct d as [[] [] [] [] [| |n] []]; try done; cbn; destruct (n <? 0)|].
  apply parses_conv.
  { intros fuel. repeat (apply elem_of_cons in Hin as [->|Hin]; [reflexivity|]). by apply elem_of_nil in Hin. }
  match goal with |- emits (convert c ?sp) _ _ _ _ => assert (sp = spec_of d m) as -> end; [|done].
  destruct d as [[] [] [] [] [|w|w] [|p|p]]; try reflexivity; unfold spec_of, left_of; cbn; by destruct (w <? 0).
Qed.

(** ** Whole formats *)

Lemma parses_item i format args :
  supported i → parses (tail (item_text i) ++ format) spec0 (item_args i ++ args) format (render i) args.
Proof.
  intros Hs. destruct i as [d m c n|d s|c|]; cbn [item_text item_args tail].
  - rewrite <- !app_assoc. apply parses_directive; [apply Hs|destruct c; rewrite !elem_of_cons; tauto|by apply emits_convert_number].
  - rewrite <- !app_assoc. apply (parses_directive d M_none); [apply Hs|rewrite !elem_of_cons; tauto|by apply emits_convert_str].
  - apply parses_conv; [reflexivity|apply emits_convert_char].
  - apply parses_conv; [reflexivity|apply emits_write].
Qed.

Lemma skip_to_plain t rest : Forall plain_char t → peek rest 0 = 0 ∧ rest = [] ∨ peek rest 0 = CH "%" → skip_to (t ++ rest) = length t.
Proof.
  intros Ht Hr. induction Ht as [|c t [Hc0 Hc] Ht IH]; cbn [app skip_to length].
  - destruct Hr as [[_ ->]|Hr]; [done|]. destruct rest as [|c rest]; [done|]. cbn [skip_to]. by change (peek (c :: rest) 0) with c in Hr; subst.
  - replace (c =? CH "%") with false by lia. by rewrite IH.
Qed.

(** One round of the loop, in a text before a directive or at the end. *)
Lemma printf_loop_text fuel t rest w :
  Forall plain_char t → rest = [] ∨ peek rest 0 = CH "%" → t ++ rest ≠ [] → 0 <= plen w → plen w + len t < 2 ^ 31 →
  ∃ w1, concat (out w1) = concat (out w) ++ t ∧ plen w1 = plen w + len t ∧ pargs w1 = pargs w ∧ perrno w1 = perrno w ∧
    printf_loop (S fuel) (t ++ rest) w =
      (if peek rest 0 =? CH "%" then inn_printf (S (length rest)) (tail rest) spec0 ≫= printf_loop fuel else printf_loop fuel rest) w1.
Proof.
  intros Ht Hr Hne Hp Hl. cbn [printf_loop].
  assert ((peek (t ++ rest) 0 =? 0) = false) as ->.
  { apply Z.eqb_neq. destruct t as [|c t]; cbn [app].
    - destruct Hr as [->|Hr]; [done|]. by rewrite Hr.
    - apply Forall_cons in Ht as [[Hc _] _]. exact Hc. }
  rewrite skip_to_plain by (try done; destruct Hr as [->|]; auto).
  assert (emits (if (length t =? 0)%nat then mret () else b_write (take (length t) (t ++ rest))) (pargs w) () t (pargs w)) as He.
  { destruct t as [|c t]; [apply emits_ret|]. rewrite take_app_length. apply emits_write. }
  destruct (He w eq_refl Hp Hl) as (w1 & E & O & P & A & R). exists w1. split_and!; try done.
  rewrite (PM_bind_Ok _ _ _ _ _ E), drop_app_length. cbv zeta. done.
Qed.

Lemma printf_loop_ok last : Forall plain_char last → ∀ f fuel args w,
  Forall (λ p, Forall plain_char p.1 ∧ supported p.2) f → pargs w = format_args f ++ args →
  (S (length (format_text f last)) < fuel)%nat → 0 <= plen w → plen w + len (rendered f last) < 2 ^ 31 →
  ∃ w', printf_loop fuel (format_text f last) w = Ok (inr (plen w + len (rendered f last)), w') ∧
    concat (out w') = concat (out w) ++ rendered f last ∧ perrno w' = perrno w.
Proof.
  intros Hlast f. induction f as [|[t i] f IH]; intros fuel args w Hf Ha Hfuel Hp Hl.
  - cbn [format_text rendered app concat fmap list_fmap] in *. pose proof (len_nonneg last).
    assert (∀ fuel w, 0 <= plen w < 2 ^ 31 → printf_loop (S fuel) [] w = Ok (inr (plen w), w)) as Hend.
    { intros fu w0 Hw0. cbn [printf_loop peek nth]. change (0 =? 0) with true. cbv iota. rewrite (PM_bind_Ok _ _ _ (plen w0) w0) by done.
      unfold return_. repeat f_equal. int_lia. }
    destruct fuel as [|[|fuel]]; [lia|lia|]. destruct (decide (last = [])) as [->|Hne].
    + exists w. rewrite Hend by lia. rewrite app_nil_r. split_and!; [|done|done]. change (len []) with 0. by rewrite Z.add_0_r.
    + destruct (printf_loop_text (S fuel) last [] w) as (w1 & O & P & A & R & E); [done|by left|by rewrite app_nil_r|done|done|].
      rewrite app_nil_r in E. exists w1. rewrite E. change (peek [] 0 =? 37) with false. cbv iota. rewrite Hend by lia. by rewrite P.
  - apply Forall_cons in Hf as [[Ht Hi] Hf]. cbn [fst snd] in *.
    change (format_text ((t, i) :: f) last) with (((t ++ item_text i) ++ concat ((λ p, p.1 ++ item_text p.2) <$> f)) ++ last) in *.
    change (rendered ((t, i) :: f) last) with (((t ++ render i) ++ concat ((λ p, p.1 ++ render p.2) <$> f)) ++ last) in *.
    change (format_args ((t, i) :: f)) with (item_args i ++ format_args f) in *.
    rewrite <- !app_assoc in *. fold (format_text f last) in *. fold (rendered f last) in *. rewrite !len_app in Hl.
    rewrite !length_app in Hfuel.
    pose proof (len_nonneg t). pose proof (len_nonneg (render i)). pose proof (len_nonneg (rendered f last)).
    assert (item_text i = CH "%" :: tail (item_text i)) as Ei by done.
    assert (1 <= length (item_text i))%nat by (rewrite Ei; cbn [length]; lia). destruct fuel as [|fuel]; [lia|].
    destruct (printf_loop_text fuel t (item_text i ++ format_text f last) w) as (w1 & O & P & A & R & E);
      [done|by right|by rewrite Ei; destruct t|done|lia|].
    rewrite E, Ei. cbn [app tail]. change (peek (37 :: _) 0 =? 37) with true. cbv iota.
    destruct (parses_item i (format_text f last) (format_args f ++ args) Hi
      (S (length (CH "%" :: tail (item_text i) ++ format_text f last))) ltac:(cbn [length]; lia) w1) as (w2 & E2 & O2 & P2 & A2 & R2); [|lia|lia|].
    { by rewrite A, Ha, app_assoc. }
    rewrite (PM_bind_Ok _ _ _ _ _ E2).
    destruct (IH fuel args w2) as (w3 & E3 & O3 & R3); [done|done|lia|lia|lia|].
    exists w3. rewrite E3, O3, O2, O, !len_app. split_and!; [do 3 f_equal; lia|by rewrite <- !app_assoc|congruence].
Qed.

Lemma v_printf_ok f last args errno :
  format_ok f last → ∃ pieces, __v_printf (format_text f last) (format_args f ++ args) errno = Ok (pieces, len (rendered f last), errno) ∧
    concat pieces = rendered f last.
Proof.
  intros (Hf & Hl & Hlen). unfold __v_printf.
  destruct (printf_loop_ok last Hl f (S (S (length (format_text f last)))) args (mk_p [] 0 (format_args f ++ args) errno))
    as (w & -> & O & R); [done|done|lia|done|done|].
  exists (out w). cbn in O, R. by rewrite R, O.
Qed.


(** ** vsnprintf *)

(** The buffer while [done] has been printed: there may be a terminator. *)
Definition buffer (str : Z) (n : nat) (done : list Z) (w w' : world) : Prop :=
  w' = write_bytes str (take n done) w ∨ w' = write_bytes str (take n done ++ [0]) w.

Lemma write_over p K c q w : (length c <= 1)%nat → q ≠ [] →
  write_bytes (p + Z.of_nat (length K)) q (write_bytes p (K ++ c) w) = write_bytes p (K ++ q) w.
Proof.
  intros Hc Hq. rewrite !write_bytes_app. destruct c as [|x [|]]; [done| |simpl in Hc; lia]. destruct q as [|y q]; [done|].
  cbn [write_bytes]. f_equal. unfold set_mem. cbn [mem errno]. f_equal. apply insert_insert_eq.
Qed.

Lemma buffer_over str n dn w w' q : buffer str n dn w w' → q ≠ [] →
  write_bytes (str + Z.of_nat (length (take n dn))) q w' = write_bytes str (take n dn ++ q) w.
Proof.
  intros [-> | ->] Hq; [|by apply write_over]. rewrite <- (app_nil_r (take n dn)) at 2. apply write_over; [simpl; lia|done].
Qed.

Lemma swrite_ok str m dn piece w w' :
  str ≠ 0 → 0 <= m < 2 ^ 64 → buffer str (Z.to_nat m) dn w w' → Forall byte piece →
  mapped w' str (Z.min m (len (dn ++ piece)) + 1) →
  ∃ w'', swrite str m (Z.min m (len dn)) piece w' = Ok (Z.min m (len (dn ++ piece)), w'') ∧
    buffer str (Z.to_nat m) (dn ++ piece) w w'' ∧ ∀ q n, mapped w' q n → mapped w'' q n.
Proof.
  intros Hs Hm Hb Hp Hmap. rewrite len_app in *. pose proof (len_nonneg dn). pose proof (len_nonneg piece).
  unfold swrite. rewrite (u64_id (m - Z.min m (len dn))) by lia.
  destruct (Z.gtb_spec (m - Z.min m (len dn)) 0) as [Ht|Ht].
  - rewrite !Z.min_r in * by lia. fold (len piece). cbv zeta. replace (str =? 0) with false by lia.
    set (L := if len piece >? m - len dn then m - len dn else len piece).
    assert (L = Z.min (len piece) (m - len dn)) as EL by (subst L; destruct (Z.gtb_spec (len piece) (m - len dn)); lia).
    assert (len (take (Z.to_nat L) piece) = L) as El by (unfold len in *; rewrite length_take; lia).
    assert (mapped w' (str + len dn) (Z.of_nat (length (take (Z.to_nat L) piece)))) as M1.
    { fold (len (take (Z.to_nat L) piece)). rewrite El. eapply mapped_sub; [exact Hmap|lia|lia]. }
    rewrite bind_assoc. rewrite (bind_Ok _ _ _ _ _ (store_bytes_ok _ _ _ M1 (Forall_take _ _ _ Hp))).
    set (w1 := write_bytes (str + len dn) (take (Z.to_nat L) piece) w').
    assert (mapped w1 (str + len dn + L) 1) as M2.
    { apply write_bytes_mapped. eapply mapped_sub; [exact Hmap|lia|lia]. }
    rewrite (bind_Ok _ _ _ _ _ (store_zero _ _ _ M2 ltac:(lia))).
    eexists. split; [by rewrite EL; unfold mret, CM_ret; repeat f_equal; lia|]. split.
    + right. subst w1. replace (str + len dn + Z.min (len piece) (m - len dn)) with (str + len dn + Z.of_nat (length (take (Z.to_nat L) piece))) by (unfold len in *; lia).
      rewrite <- write_bytes_app.
      assert (take (Z.to_nat m) dn = dn) as Ed by (apply take_ge; unfold len in *; lia).
      pose proof (buffer_over str (Z.to_nat m) dn w w' (take (Z.to_nat L) piece ++ [0]) Hb ltac:(by destruct (take (Z.to_nat L) piece))) as E.
      rewrite Ed in E. fold (len dn) in E. rewrite E, take_app, Ed, app_assoc. do 3 f_equal.
      assert (Z.to_nat m - length dn = Z.to_nat (m - len dn))%nat as -> by (unfold len; lia).
      rewrite EL. destruct (Z.le_ge_cases (len piece) (m - len dn)); [rewrite Z.min_l, !take_ge by (unfold len in *; lia)|rewrite Z.min_r by lia]; done.
    + intros q n Hq. by apply write_bytes_mapped, write_bytes_mapped.
  - exists w'. rewrite !(Z.min_l m) by lia. split; [done|]. split; [|done].
    unfold buffer. rewrite take_app_le by (unfold len in *; lia). exact Hb.
Qed.

Lemma swrites_ok str m w : str ≠ 0 → 0 <= m < 2 ^ 64 → ∀ pieces dn w',
  buffer str (Z.to_nat m) dn w w' → Forall byte (concat pieces) → mapped w' str (Z.min m (len (dn ++ concat pieces)) + 1) →
  ∃ w'' r, swrites str m (Z.min m (len dn)) pieces w' = Ok (r, w'') ∧ buffer str (Z.to_nat m) (dn ++ concat pieces) w w'' ∧
    ∀ q n, mapped w' q n → mapped w'' q n.
Proof.
  intros Hs Hm pieces. induction pieces as [|p pieces IH]; intros dn w' Hb Hbt Hmap; cbn [concat swrites] in *.
  { rewrite app_nil_r. eauto. }
  apply Forall_app in Hbt as [Hp Hbt]. rewrite app_assoc in *.
  destruct (swrite_ok str m dn p w w') as (w1 & E1 & B1 & M1); try done.
  { eapply mapped_sub; [exact Hmap|lia|]. rewrite (len_app (dn ++ p)). pose proof (len_nonneg (concat pieces)). lia. }
  rewrite (bind_Ok _ _ _ _ _ E1). destruct (IH (dn ++ p) w1) as (w2 & r & E2 & B2 & M2); [done|done|by apply M1|].
  exists w2, r. split_and!; [exact E2|exact B2|auto].
Qed.

Lemma swrites_null m pieces len w : ∃ r, swrites 0 m len pieces w = Ok (r, w).
Proof.
  revert len. induction pieces as [|p pieces IH]; intros len; cbn [swrites]; [by eexists|].
  assert (∃ r, swrite 0 m len p w = Ok (r, w)) as [r E] by (unfold swrite; destruct (_ >? 0); cbn [Z.eqb]; eexists; reflexivity).
  rewrite (bind_Ok _ _ _ _ _ E). apply IH.
Qed.

(** C12: for such a format [vsnprintf] returns the length of the whole text, writes the
    first [size-1] bytes of it and a terminator, and nothing else: the bytes behind the
    terminator and outside of the buffer stay as they are, a null buffer or a size of 0
    leave memory alone, and the accesses are all inside the [size] bytes. *)
Theorem vsnprintf_correct str size f last args w :
  format_ok f last → Forall byte (rendered f last) → 0 <= size < 2 ^ 64 →
  str = 0 ∨ mapped w str (Z.min size (len (rendered f last) + 1)) →
  vsnprintf str size (format_text f last) (format_args f ++ args) w =
  Ok (len (rendered f last),
      if (str =? 0) || (size =? 0) then w else write_bytes str (take (Z.to_nat (size - 1)) (rendered f last) ++ [0]) w).
Proof.
  intros Hf Hb Hsz Hmap. pose proof Hf as (_ & _ & Hlen). pose proof (len_nonneg (rendered f last)).
  destruct (v_printf_ok f last args (errno w) Hf) as (pieces & E & Ec). unfold vsnprintf. rewrite E.
  set (text := rendered f last) in *. rewrite (bind_Ok _ _ _ tt w) by (by destruct w).
  destruct (Z.eqb_spec str 0) as [->|Hs].
  { destruct (swrites_null (if size =? 0 then 0 else size - 1) pieces 0 w) as [r Er]. rewrite (bind_Ok _ _ _ _ _ Er). done. }
  destruct Hmap as [?|Hmap]; [done|]. cbn [negb andb orb]. destruct (Z.eqb_spec size 0) as [->|Hsz0]; cbn [negb andb].
  - assert (∀ pieces, swrites str 0 0 pieces w = Ok (0, w)) as Es by (induction pieces0 as [|p l IH]; [done|]; cbn [swrites]; erewrite bind_Ok by done; exact IH).
    rewrite (bind_Ok _ _ _ _ _ (Es _)). done.
  - destruct (swrites_ok str (size - 1) w Hs ltac:(lia) pieces [] w) as (w1 & r & E1 & B1 & M1); [left; by destruct (Z.to_nat _)|by rewrite Ec| |].
    { cbn [app]. rewrite Ec. eapply mapped_sub; [exact Hmap|lia|lia]. }
    change (Z.min (size - 1) (len [])) with (Z.min (size - 1) 0) in E1. rewrite Z.min_r in E1 by lia.
    rewrite (bind_Ok _ _ _ _ _ E1). cbn [app] in B1. rewrite Ec in B1. fold text in B1.
    assert (∀ k, k = Z.min (size - 1) (len text) → store (str + k) 0 w1 = Ok (tt, write_bytes str (take (Z.to_nat (size - 1)) text ++ [0]) w)) as Hst.
    { intros k ->. rewrite (store_zero _ _ 1); [|apply M1; eapply mapped_sub; [exact Hmap|lia|lia]|lia].
      do 2 f_equal. rewrite <- (buffer_over _ _ _ _ _ [0] B1) by done. f_equal. rewrite length_take. unfold len in *. lia. }
    replace (len text >=? 0) with true by lia. destruct (Z.geb_spec (len text) size) as [Hge|Hlt].
    + replace (size =? ULONG_MAX) with false by (unfold ULONG_MAX; lia). cbn [negb andb].
      replace (str + size - 1) with (str + (size - 1)) by lia. rewrite (bind_Ok _ _ _ _ _ (Hst (size - 1) ltac:(lia))). done.
    + rewrite andb_false_r. rewrite (bind_Ok _ _ _ _ _ (Hst (len text) ltac:(lia))). done.
Qed.
End parse.

(** ** Examples *)

Definition example_format : list (list Z * item) :=
  [(STR "<", Number (mk_dir true true false false (Width 6) (Prec 3)) M_l N_d 42);
   (STR "> <", Number (mk_dir false false false true (Star_width 8) No_prec) M_none N_X 48879);
   (STR "> ", Str (mk_dir false false false false (Width 5) (Star_prec 2)) (Some (STR "abc")));
   ([], Percent)].

Lemma example_ok : format_ok example_format (STR "!").
Proof.
  split; [|split; [|reflexivity]]; [|by repeat constructor].
  repeat apply Forall_cons_2; [split; [by repeat constructor|]..|by apply Forall_nil_2]; unfold MAX_WIDTH; cbn [snd supported].
  - repeat split; try done. intros ? [= <-]. right. by vm_compute.
  - repeat split; try done. intros _. by right.
  - done.
  - done.
Qed.


Lemma vsnprintf_correct_witness :
  let w := World (list_to_map (zip [100; 101; 102; 103; 104] [1; 1; 1; 1; 1])) 7 in
  vsnprintf (H := no_doubles) 100 4 (STR "<%-+6.3ld> <%0*X> %5.*s%%!") [A_long 42; A_int 8; A_int 48879; A_int 2; A_str (Some (STR "abc"))] w =
    Ok (27, write_bytes 100 (STR "<+0" ++ [0]) w).
Proof.
  intros w. refine (vsnprintf_correct (H := no_doubles) 100 4 example_format (STR "!") [] w example_ok _ _ _).
  - apply bytesb_true. by vm_compute.
  - lia.
  - right. apply mappedb_true. by vm_compute.
Defined.

(** What formats print that are left out of [supported]. *)
Definition printed (format : list Z) (args : list arg) : option (list Z) :=
  match __v_printf (H := no_doubles) format args 0 with Ok (l, _, _) => Some (concat l) | _ => None end.

(** The flag [#] counts as the modifier [h] too. *)
Lemma hash_prints_short : printed (STR "%#x") [A_int 305419896] = Some (STR "0x5678").
Proof. vm_compute. reflexivity. Qed.
Lemma hash_prefixes_zero : printed (STR "%#x") [A_int 0] = Some (STR "0x0").
Proof. vm_compute. reflexivity. Qed.
(** [%c] has no width. *)
Lemma char_without_width : printed (STR "%3c") [A_int 65] = Some (STR "A").
Proof. vm_compute. reflexivity. Qed.
(** A flag [-] behind the flag [0] pads with zeros on the right. *)
Lemma zeros_on_the_right : printed (STR "%0-8d") [A_int 42] = Some (STR "42000000").
Proof. vm_compute. reflexivity. Qed.
(** The flag [0] is not ignored when there is a precision. *)
Lemma zeros_with_precision : printed (STR "%05.3d") [A_int 42] = Some (STR "00042").
Proof. vm_compute. reflexivity. Qed.
(** The field is filled up from the precision, not from the number of digits. *)
Lemma width_from_precision : printed (STR "%5.1d") [A_int 1234] = Some (STR "    1234").
Proof. vm_compute. reflexivity. Qed.
(** A negative precision from an argument is 0, not absent. *)
Lemma negative_precision : printed (STR "%.*s") [A_int (-1); A_str (Some (STR "abc"))] = Some [].
Proof. vm_compute. reflexivity. Qed.
(** The modifier [t] is not known. *)
Lemma ptrdiff_dropped : printed (STR "%td") [A_long 42] = Some (STR "d").
Proof. vm_compute. reflexivity. Qed.
(** [%hd] does not convert its argument to [short]. *)
Lemma short_not_converted : printed (STR "%hd") [A_int 40000] = Some (STR "40000").
Proof. vm_compute. reflexivity. Qed.
