(* ===== verification/Fnmatch.v ===== *)
(** * Shell patterns

    [libshell/fnmatch.c].  A string is the list of its [char]s, signed numbers, up to
    the NUL; [string[-1]] is the argument [prev], which is missing at the start of the
    string.  A pointer past the NUL is [None], and reading it a fault. *)

From S2P Require Import Prelude Ctype Convert.

Definition FNM_NOESCAPE : Z := 1.
Definition FNM_PATHNAME : Z := 2.
Definition FNM_PERIOD : Z := 4.
Definition FNM_LEADING_DIR : Z := 8.
Definition FNM_CASEFOLD : Z := 16.
Definition FNM_NOMATCH : Z := 1.
Definition NOTFIRST : Z := 128.

(** [flags&f] as a truth value. *)
Definition has (flags f : Z) : bool := negb (Z.land flags f =? 0).

Record charclass : Type := mk_class { class : list Z; istype : Z → bool }.
Definition allclasses : list charclass :=
  [mk_class (STR "alnum") isalnum; mk_class (STR "alpha") isalpha; mk_class (STR "blank") isblank;
   mk_class (STR "cntrl") iscntrl_ascii; mk_class (STR "digit") isdigit; mk_class (STR "graph") isgraph_ascii;
   mk_class (STR "lower") islower_ascii; mk_class (STR "print") isprint; mk_class (STR "punct") ispunct;
   mk_class (STR "space") isspace; mk_class (STR "upper") isupper_ascii; mk_class (STR "xdigit") isxdigit].

(** [!strncmp(s, t, strlen(t))] *)
Definition starts_with (t s : list Z) : bool := bool_decide (take (length t) s = t).

Fixpoint class_loop (classes : list charclass) (pattern : list Z) : option charclass :=
  match classes with
  | [] => None
  | cc :: classes =>
      if starts_with (class cc) pattern
      then if starts_with (STR ":]") (drop (length (class cc)) pattern) then Some cc else None
      else class_loop classes pattern
  end.
Definition charclass_lookup (pattern : list Z) : option charclass := class_loop allclasses pattern.

Definition match_ (c d flags : Z) : bool :=
  if has flags FNM_CASEFOLD then tolower c =? tolower d else c =? d.

(** *** Brackets *)

(** [cc->istype == isupper || cc->istype == islower], by the names in the table. *)
Definition is_case (cc : charclass) : bool :=
  bool_decide (class cc = STR "upper") || bool_decide (class cc = STR "lower").
Definition class_has (cc : charclass) (c flags : Z) : bool :=
  if has flags FNM_CASEFOLD && is_case cc then islower_ascii (tolower c) else istype cc c.
Definition range_has (a b c flags : Z) : bool :=
  ((c >=? a) && (c <=? b)) ||
  (has flags FNM_CASEFOLD && ((tolower c >=? tolower a) && (tolower c <=? tolower b))).

(** [pattern += n] *)
Definition advance (n : nat) (pattern : list Z) : option (list Z) :=
  if (length pattern <? n)%nat then None else Some (drop n pattern).

(** One member: whether it has [c], and the pattern behind it. *)
Definition member_ (pattern : list Z) (c flags : Z) : bool * option (list Z) :=
  let single :=
    if (peek pattern 1 =? CH "-") && negb (peek pattern 2 =? CH "]")
    then (range_has (peek pattern 0) (peek pattern 2) c flags, advance 3 pattern)
    else (match_ (peek pattern 0) c flags, advance 1 pattern) in
  if (peek pattern 0 =? CH "[") && (peek pattern 1 =? CH ":") then
    match charclass_lookup (drop 2 pattern) with
    | Some cc => (class_has cc c flags, advance (length (class cc) + 4) pattern)
    | None => single
    end
  else single.

(** [while ( *pattern && *pattern!=']') ++pattern;] and [pattern+!!*pattern] *)
Fixpoint behind_bracket (pattern : list Z) : list Z :=
  match pattern with
  | [] => []
  | ch :: rest => if ch =? CH "]" then rest else behind_bracket rest
  end.

(** The loop over the members: the pattern to go on with when [c] is matched. *)
Fixpoint bracket (fuel : nat) (pattern : list Z) (start neg : bool) (c flags : Z) : outcome (option (list Z)) :=
  match fuel with
  | O => Hang
  | S fuel =>
      if (peek pattern 0 =? 0) || ((peek pattern 0 =? CH "]") && negb start) then Ok None else
      let '(res, next) := member_ pattern c flags in
      match next with
      | None => if res && neg then Ok None else Fault
      | Some pattern =>
          if (res && negb neg) || (neg && negb res && (peek pattern 0 =? CH "]"))
          then Ok (Some (behind_bracket pattern))
          else if res && neg then Ok None
          else bracket fuel pattern false neg c flags
      end
  end.

Fixpoint skip_stars (pattern : list Z) : list Z :=
  match pattern with ch :: rest => if ch =? CH "*" then skip_stars rest else pattern | [] => [] end.

(** Whether a period that has to be matched by a period ends the search. *)
Definition period_stops (prev : option Z) (pattern string : list Z) (flags : Z) : outcome bool :=
  if (peek string 0 =? CH ".") && negb (peek pattern 0 =? CH ".") && has flags FNM_PERIOD then
    if negb (has flags NOTFIRST) then Ok true
    else if has flags FNM_PATHNAME then match prev with Some c => Ok (c =? CH "/") | None => Fault end
    else Ok false
  else Ok false.

Fixpoint fnmatch_at (fuel : nat) (prev : option Z) (pattern string : list Z) (flags : Z) : outcome Z :=
  match fuel with
  | O => Hang
  | S fuel =>
      let c := peek string 0 in
      if c =? 0 then Ok (if peek (skip_stars pattern) 0 =? 0 then 0 else 1) else
      match period_stops prev pattern string flags with
      | Fault => Fault
      | Hang => Hang
      | Ok true => Ok FNM_NOMATCH
      | Ok false =>
          let flags := Z.lor flags NOTFIRST in
          let slash := (c =? CH "/") && has flags FNM_PATHNAME in
          let next pattern := fnmatch_at fuel (Some c) pattern (tail string) flags in
          let ch := peek pattern 0 in
          if ch =? CH "[" then
            if slash then Ok FNM_NOMATCH else
            let neg := peek pattern 1 =? CH "!" in
            let members := if neg then drop 2 pattern else drop 1 pattern in
            match bracket (S (length members)) members true neg c flags with
            | Ok (Some pattern) => next pattern
            | Ok None => Ok FNM_NOMATCH
            | Fault => Fault
            | Hang => Hang
            end
          else if ch =? CH "\" then
            if has flags FNM_NOESCAPE then if c =? CH "\" then next (drop 1 pattern) else Ok FNM_NOMATCH
            else if c =? peek pattern 1 then next (drop 2 pattern) else Ok FNM_NOMATCH
          else if ch =? CH "*" then
            let rest := fnmatch_at fuel prev (drop 1 pattern) string flags in
            if slash then rest else
            match next pattern with
            | Ok r => if r =? 0 then Ok 0 else rest
            | r => r
            end
          else if ch =? 0 then
            if (c =? 0) || ((c =? CH "/") && has flags FNM_LEADING_DIR) then Ok 0 else Ok FNM_NOMATCH
          else if ch =? CH "?" then if slash then Ok FNM_NOMATCH else next (drop 1 pattern)
          else if match_ ch c flags then next (drop 1 pattern) else Ok FNM_NOMATCH
      end
  end.
Definition fnmatch (pattern string : list Z) (flags : Z) : outcome Z :=
  fnmatch_at (S (length pattern + length string)) None pattern string flags.
