(* ===== verification/FnmatchFacts.v ===== *)
(** * What a shell pattern matches

    Patterns as POSIX describes them, what they match, and that [fnmatch] decides it:
    it always returns, and its answer is the meaning of the pattern.  At the end, the
    patterns it gets wrong. *)

From S2P Require Import Prelude Ctype Convert Fnmatch.

(** ** Patterns and their meaning *)

Inductive member : Type := Chr (c : Z) | Range (a b : Z) | Class (cc : charclass).
Inductive pitem : Type := Lit (c : Z) | Esc (c : Z) | Any | Star | Brackets (neg : bool) (ms : list member).

Section meaning.
Variable flags : Z.

Definition in_member (c : Z) (m : member) : bool :=
  match m with
  | Chr a => match_ a c flags
  | Range a b => range_has a b c flags
  | Class cc => class_has cc c flags
  end.

(** A period that has to be matched by a period in the pattern. *)
Definition hidden (prev : option Z) (c : Z) : Prop :=
  c = CH "." ∧ has flags FNM_PERIOD ∧ match prev with None => True | Some p => has flags FNM_PATHNAME ∧ p = CH "/" end.
(** A slash that has to be matched by a slash. *)
Definition barrier (c : Z) : Prop := c = CH "/" ∧ has flags FNM_PATHNAME.

Fixpoint matches (prev : option Z) (P : list pitem) (s : list Z) : Prop :=
  match P with
  | [] => s = [] ∨ has flags FNM_LEADING_DIR ∧ ∃ t, s = CH "/" :: t
  | Star :: P => ∃ s1 s2, s = s1 ++ s2 ∧ Forall (λ c, ¬ barrier c) s1 ∧
      match s with c :: _ => ¬ hidden prev c | [] => True end ∧ matches (match last s1 with Some c => Some c | None => prev end) P s2
  | Lit a :: P => ∃ c t, s = c :: t ∧ match_ a c flags ∧ matches (Some c) P t
  | Esc a :: P => ∃ t, s = a :: t ∧ matches (Some a) P t
  | Any :: P => ∃ c t, s = c :: t ∧ ¬ hidden prev c ∧ ¬ barrier c ∧ matches (Some c) P t
  | Brackets neg ms :: P => ∃ c t, s = c :: t ∧ ¬ hidden prev c ∧ ¬ barrier c ∧
      xorb neg (existsb (in_member c) ms) ∧ matches (Some c) P t
  end.
End meaning.

(** *** How a pattern is written *)

Definition member_text (m : member) : list Z :=
  match m with
  | Chr a => [a]
  | Range a b => [a; CH "-"; b]
  | Class cc => STR "[:" ++ class cc ++ STR ":]"
  end.
Definition members_text (ms : list member) : list Z := concat (member_text <$> ms).
Definition item_text (i : pitem) : list Z :=
  match i with
  | Lit c => [c]
  | Esc c => [CH "\"; c]
  | Any => [CH "?"]
  | Star => [CH "*"]
  | Brackets neg ms => CH "[" :: (if neg then [CH "!"] else []) ++ members_text ms ++ [CH "]"]
  end.
Definition pattern_text (P : list pitem) : list Z := concat (item_text <$> P).

(** A bracket can be read back: [first] tells whether a bracket or a class may come.
    The code skips to the first [\]] behind a member that has the character, so that a
    class has to be the first member. *)
Fixpoint members_ok (first : bool) (ms : list member) : Prop :=
  match ms with
  | [] => True
  | m :: ms' =>
      let next := peek (members_text ms') 0 in
      match m with
      | Chr a => a ≠ 0 ∧ (a = CH "]" → first) ∧ (a = CH "[" → next ≠ CH ":") ∧ (next = CH "-" → ms' = [Chr (CH "-")])
      | Range a b => a ≠ 0 ∧ b ≠ 0 ∧ b ≠ CH "]" ∧ (a = CH "]" → first)
      | Class cc => first ∧ cc ∈ allclasses
      end ∧ members_ok false ms'
  end.

Definition item_ok (flags : Z) (i : pitem) : Prop :=
  match i with
  | Lit c => c ≠ 0 ∧ (c ∉ STR "[*?") ∧ (c = CH "\" → has flags FNM_NOESCAPE)
  | Esc c => c ≠ 0 ∧ c ≠ CH "." ∧ ¬ has flags FNM_NOESCAPE
  | Any | Star => True
  | Brackets neg ms => ms ≠ [] ∧ members_ok true ms ∧ (neg = false → peek (members_text ms) 0 ≠ CH "!")
  end.

(** ** Brackets *)

Lemma members_no_bracket ms : members_ok false ms → Forall (λ c, c ≠ CH "]") (members_text ms).
Proof.
  induction ms as [|m ms IH]; [constructor|]. intros [Hm Hms]. unfold members_text. cbn [fmap list_fmap concat].
  apply Forall_app. split; [|by apply IH]. destruct m as [a|a b|cc]; cbn [member_text].
  - destruct Hm as (_ & Ha & _). repeat constructor. intros ->. by apply Ha.
  - destruct Hm as (_ & _ & Hb & Ha). repeat constructor; [|done|done]. intros ->. by apply Ha.
  - by destruct Hm.
Qed.

Lemma behind_bracket_ok l rest : Forall (λ c, c ≠ CH "]") l → behind_bracket (l ++ CH "]" :: rest) = rest.
Proof. induction 1 as [|c l Hc Hl IH]; cbn [app behind_bracket]; [done|]. by replace (c =? CH "]") with false by lia. Qed.

Lemma charclass_lookup_ok cc T : cc ∈ allclasses → charclass_lookup (class cc ++ CH ":" :: CH "]" :: T) = Some cc.
Proof. intros Hcc. repeat (apply elem_of_cons in Hcc as [->|Hcc]; [reflexivity|]). by apply elem_of_nil in Hcc. Qed.

Lemma peek_members ms rest : peek (members_text ms ++ CH "]" :: rest) 0 = match ms with [] => CH "]" | _ => peek (members_text ms) 0 end.
Proof.
  destruct ms as [|m ms]; [done|]. unfold members_text. cbn [fmap list_fmap concat]. by destruct m.
Qed.

Lemma member_read first m ms rest c flags :
  members_ok first (m :: ms) →
  member_ (member_text m ++ members_text ms ++ CH "]" :: rest) c flags = (in_member flags c m, Some (members_text ms ++ CH "]" :: rest)).
Proof.
  intros [Hm Hms]. set (T := members_text ms ++ CH "]" :: rest). destruct m as [a|a b|cc]; cbn [member_text app].
  - destruct Hm as (_ & _ & Hc & Hd). unfold member_. change (peek (a :: T) 0) with a. change (peek (a :: T) 1) with (peek T 0).
    change (peek (a :: T) 2) with (peek T 1). rewrite (peek_members ms rest : (peek T 0 = _)).
    replace ((a =? 91) && _) with false.
    2: { destruct (Z.eqb_spec a 91) as [->|]; [|done]. destruct ms; [done|]. specialize (Hc eq_refl). symmetry. by apply Z.eqb_neq. }
    replace ((_ =? 45) && negb (peek T 1 =? 93)) with false; [done|].
    destruct ms as [|m ms]; [done|]. destruct (Z.eqb_spec (peek (members_text (m :: ms)) 0) 45) as [E|]; [|done].
    specialize (Hd E). injection Hd as -> ->. done.
  - destruct Hm as (_ & _ & Hb & _). unfold member_. cbn [peek nth]. change (CH "-" =? CH ":") with false. rewrite andb_false_r.
    change (CH "-" =? CH "-") with true. replace (b =? 93) with false by lia. done.
  - destruct Hm as [_ Hcc]. unfold member_. cbn [app peek nth drop]. change ((91 =? 91) && (58 =? 58)) with true. cbv iota.
    rewrite <- app_assoc. cbn [app]. rewrite drop_0, charclass_lookup_ok by done. unfold advance.
    rewrite !length_cons, !length_app. cbn [length]. replace (_ <? _)%nat with false by (symmetry; apply Nat.ltb_ge; lia).
    do 2 f_equal. replace (length (class cc) + 4)%nat with (S (S (length (class cc) + 2))) by lia. cbn [drop].
    by rewrite <- drop_drop, drop_app_length.
Qed.

Lemma bracket_ok neg c flags rest : ∀ fuel first ms,
  members_ok first ms → ms ≠ [] → (length (members_text ms) < fuel)%nat →
  bracket fuel (members_text ms ++ CH "]" :: rest) first neg c flags =
  Ok (if xorb neg (existsb (in_member flags c) ms) then Some rest else None).
Proof.
  induction fuel as [|fuel IH]; intros first ms Hms Hne Hf; [lia|]. destruct ms as [|m ms]; [done|].
  cbn [bracket]. rewrite peek_members.
  assert (peek (members_text (m :: ms)) 0 ≠ 0 ∧ (peek (members_text (m :: ms)) 0 = CH "]" → first = true)) as [H0 H1].
  { destruct Hms as [Hm _]. destruct m; [destruct Hm as (? & Hx & _)|destruct Hm as (? & _ & _ & Hx)|done]; (split; [done|]);
      intros E; apply Is_true_true, Hx, E. }
  replace ((peek (members_text (m :: ms)) 0 =? 0) || _) with false.
  2: { symmetry. apply orb_false_iff. split; [by apply Z.eqb_neq|].
       destruct (Z.eqb_spec (peek (members_text (m :: ms)) 0) 93); [|done]. by rewrite H1. }
  assert (members_text (m :: ms) = member_text m ++ members_text ms) as Et by done. rewrite Et, <- app_assoc in *.
  rewrite (member_read first) by done. destruct Hms as [Hm Hms]. rewrite (peek_members ms).
  pose proof (behind_bracket_ok _ rest (members_no_bracket ms Hms)) as Hbb.
  rewrite length_app in Hf. assert (1 <= length (member_text m))%nat by (destruct m; cbn; lia).
  cbn [existsb]. destruct (in_member flags c m) eqn:Em, neg; cbn [andb orb negb xorb]; [done|by rewrite Hbb| |].
  - destruct ms as [|m' ms].
    + by rewrite Hbb.
    + replace (_ =? 93) with false; [rewrite IH by (done || lia); done|].
      symmetry. apply Z.eqb_neq. intros E. destruct Hms as [Hm' _].
      destruct m'; [destruct Hm' as (_ & Hx & _)|destruct Hm' as (_ & _ & _ & Hx)|by destruct Hm']; by apply Hx.
  - destruct ms as [|m' ms]; [|by rewrite IH by (done || lia)]. destruct fuel; [lia|]. done.
Qed.

(** ** The search *)

(** The flags during the search differ from those of the call in [NOTFIRST]. *)
Definition agree (flags flags' : Z) : Prop := ∀ f, f ∈ [FNM_NOESCAPE; FNM_PATHNAME; FNM_PERIOD; FNM_LEADING_DIR; FNM_CASEFOLD] → has flags' f = has flags f.

Lemma agree_notfirst flags flags' : agree flags flags' → agree flags (Z.lor flags' NOTFIRST) ∧ has (Z.lor flags' NOTFIRST) NOTFIRST = true.
Proof.
  intros Ha. assert (∀ f, Z.land NOTFIRST f = 0 → has (Z.lor flags' NOTFIRST) f = has flags' f) as E.
  { intros f Hf. unfold has. by rewrite Z.land_lor_distr_l, Hf, Z.lor_0_r. }
  split.
  - intros f Hf. rewrite <- Ha by done. apply E. repeat (apply elem_of_cons in Hf as [->|Hf]; [done|]). by apply elem_of_nil in Hf.
  - unfold has. rewrite Z.land_lor_distr_l. change (Z.land NOTFIRST NOTFIRST) with (2 ^ 7).
    apply negb_true_iff, Z.eqb_neq. intros E0. apply (f_equal (λ z, Z.testbit z 7)) in E0. rewrite Z.lor_spec in E0.
    change (Z.testbit (2 ^ 7) 7) with true in E0. by rewrite orb_true_r, Z.bits_0 in E0.
Qed.

Section search.
Variables flags0 flags : Z.
Hypothesis Ha : agree flags0 flags.

Lemma has_pathname : has flags FNM_PATHNAME = has flags0 FNM_PATHNAME. Proof. apply Ha. set_solver. Qed.
Lemma has_period : has flags FNM_PERIOD = has flags0 FNM_PERIOD. Proof. apply Ha. set_solver. Qed.
Lemma has_noescape : has flags FNM_NOESCAPE = has flags0 FNM_NOESCAPE. Proof. apply Ha. set_solver. Qed.
Lemma has_leading_dir : has flags FNM_LEADING_DIR = has flags0 FNM_LEADING_DIR. Proof. apply Ha. set_solver. Qed.
Lemma match_agree a c : match_ a c flags = match_ a c flags0.
Proof. unfold match_. rewrite Ha by set_solver. done. Qed.
Lemma in_member_agree c m : in_member flags c m = in_member flags0 c m.
Proof. destruct m; [apply match_agree|..]; cbn; unfold range_has, class_has; by rewrite Ha by set_solver. Qed.
End search.

(** Where [NOTFIRST] is set at the start of the string, no period is hidden. *)
Definition place_ok (flags0 flags : Z) (prev : option Z) (s : list Z) : Prop :=
  has flags NOTFIRST = false ∧ prev = None ∨
  has flags NOTFIRST = true ∧ (prev = None → match s with c :: _ => ¬ hidden flags0 None c | [] => True end).

Lemma period_stops_ok flags0 flags prev pattern c t :
  agree flags0 flags → place_ok flags0 flags prev (c :: t) →
  ∃ b, period_stops prev pattern (c :: t) flags = Ok b ∧ (b = true ↔ hidden flags0 prev c ∧ peek pattern 0 ≠ CH ".").
Proof.
  intros Ha Hp. unfold period_stops, hidden. change (peek (c :: t) 0) with c. rewrite (has_period _ _ Ha), (has_pathname _ _ Ha).
  destruct (Z.eqb_spec c (CH ".")) as [->|Hc]; cbn [andb]; [|exists false; split; [done|]; split; [done|tauto]].
  destruct (Z.eqb_spec (peek pattern 0) (CH ".")) as [Ed|Ed]; cbn [andb negb]; [exists false; split; [done|]; split; [done|tauto]|].
  destruct (has flags0 FNM_PERIOD) eqn:Eper; [|exists false; split; [done|]; split; [done|]; intros [(_ & [] & _) _]].
  destruct Hp as [[-> ->]|[-> Hp]]; cbn [negb]; [by exists true|].
  destruct prev as [p|]; [|exfalso; apply (Hp eq_refl); unfold hidden; by rewrite Eper].
  destruct (has flags0 FNM_PATHNAME); [|exists false; split; [done|]; split; [done|]; intros [(_ & _ & [] & _) _]].
  exists (p =? CH "/"). split; [done|]. rewrite Z.eqb_eq. split; [by intros ->|by intros [(_ & _ & _ & ->) _]].
Qed.

Definition decides (r : outcome Z) (Q : Prop) : Prop := r = Ok 0 ∧ Q ∨ r = Ok 1 ∧ ¬ Q.

Lemma decides_iff r Q Q' : Q ↔ Q' → decides r Q → decides r Q'.
Proof. unfold decides. tauto. Qed.

Lemma pattern_text_cons i P : pattern_text (i :: P) = item_text i ++ pattern_text P.
Proof. done. Qed.

(** At the end of the string only stars may be left. *)
Lemma pattern_end flags prev P : Forall (item_ok flags) P →
  decides (Ok (if peek (skip_stars (pattern_text P)) 0 =? 0 then 0 else 1)) (matches flags prev P []).
Proof.
  assert (∀ i P prev, i ≠ Star → ¬ matches flags prev (i :: P) []) as Hno.
  { intros [] P' prev' Hi; [| | |done|]; cbn; [|by intros (? & [=] & _)| |]; by intros (? & ? & [=] & _). }
  intros HP. revert prev. induction HP as [|i P Hi HP IH]; intros prev; [by left; split; [|left]|].
  rewrite pattern_text_cons. assert (i = Star ∨ i ≠ Star) as [->|Hns] by (destruct i; auto).
  - eapply decides_iff; [|apply IH]. cbn. split.
    + intros Hm. by exists [], [].
    + intros (s1 & s2 & E & _ & _ & Hm). symmetry in E. by apply app_nil in E as [-> ->].
  - right. split; [|by apply Hno]. destruct i as [c|c| | |neg ms]; try done.
    destruct Hi as (Hc0 & Hc & _). cbn [item_text app skip_stars]. rewrite !not_elem_of_cons in Hc.
    replace (c =? CH "*") with false by lia. change (peek (c :: pattern_text P) 0) with c. by replace (c =? 0) with false by lia.
Qed.

(** What a star needs of the rest. *)
Lemma matches_star flags prev P c t :
  matches flags prev (Star :: P) (c :: t) ↔
  ¬ hidden flags prev c ∧ (matches flags prev P (c :: t) ∨ ¬ barrier flags c ∧ matches flags (Some c) (Star :: P) t).
Proof.
  split.
  - intros (s1 & s2 & E & Hb & Hh & Hm). split; [done|]. destruct s1 as [|x s1]; cbn in E; [left; by subst|right].
    injection E as <- ->. apply Forall_cons in Hb as [Hb1 Hb]. split; [done|]. exists s1, s2. split_and!; [done|done| |].
    + destruct s1 as [|y s1]; cbn [app]; [destruct s2 as [|y s2]; [done|]|]; intros (-> & _ & Hp & ->); by apply Hb1.
    + rewrite last_cons in Hm. by destruct (last s1).
  - intros [Hh [Hm|[Hb (s1 & s2 & -> & Hf & _ & Hm)]]]; [by exists [], (c :: t)|]. exists (c :: s1), s2. split_and!; [done|by constructor|done|].
    rewrite last_cons. by destruct (last s1).
Qed.

(** Periods and backslashes have no case. *)
Lemma match_no_case flags a c : match_ a c flags = true → (a = CH "." ∨ a = CH "\" ∨ c = CH ".") → a = c.
Proof. unfold match_, tolower. intros Hm Ha. destruct (has flags FNM_CASEFOLD); [|lia]. repeat case_match; int_lia. Qed.

Lemma match_same flags c : match_ c c flags = true.
Proof. unfold match_. destruct (has _ _); apply Z.eqb_refl. Qed.

(** A hidden period is matched by a period only. *)
Lemma hidden_no_match flags prev P c t :
  Forall (item_ok flags) P → hidden flags prev c → peek (pattern_text P) 0 ≠ CH "." → ¬ matches flags prev P (c :: t).
Proof.
  intros HP Hh Hd Hm. pose proof Hh as [-> _]. destruct P as [|[a|a| | |neg ms] P]; cbn in Hm.
  - by destruct Hm as [?|(_ & ? & ?)].
  - destruct Hm as (? & ? & [= <- <-] & Hm & _). apply Is_true_true, match_no_case in Hm; [|tauto]. by subst.
  - destruct Hm as (? & [= <- <-] & _). apply Forall_cons in HP as [(_ & ? & _) _]. done.
  - destruct Hm as (? & ? & [= <- <-] & ? & _). done.
  - destruct Hm as (? & ? & _ & _ & ? & _). done.
  - destruct Hm as (? & ? & [= <- <-] & ? & _). done.
Qed.

Lemma decides_no Q : ¬ Q → decides (Ok FNM_NOMATCH) Q.
Proof. by right. Qed.

Lemma decides_if (b : bool) r Q Q' : (Q ↔ b = true ∧ Q') → decides r Q' → decides (if b then r else Ok FNM_NOMATCH) Q.
Proof. unfold decides. destruct b; [intuition congruence|]. intros HQ _. right. split; [done|]. intros []%HQ. done. Qed.
Lemma decides_unless (b : bool) r Q Q' : (Q ↔ b = false ∧ Q') → decides r Q' → decides (if b then Ok FNM_NOMATCH else r) Q.
Proof. unfold decides. destruct b; [|intuition congruence]. intros HQ _. right. split; [done|]. by intros []%HQ. Qed.

Lemma slash_iff flags c : (c =? CH "/") && has flags FNM_PATHNAME = true ↔ barrier flags c.
Proof. unfold barrier. rewrite andb_true_iff, Z.eqb_eq, Is_true_true. done. Qed.

Lemma fnmatch_at_ok flags0 fuel : ∀ prev P s flags,
  Forall (item_ok flags0) P → Forall (λ c, c ≠ 0) s → agree flags0 flags → place_ok flags0 flags prev s →
  (length (pattern_text P) + length s < fuel)%nat →
  decides (fnmatch_at fuel prev (pattern_text P) s flags) (matches flags0 prev P s).
Proof.
  induction fuel as [|fuel IH]; intros prev P s flags HP Hs Ha Hpl Hf; [lia|].
  destruct s as [|c t]; [by apply (pattern_end flags0)|]. apply Forall_cons in Hs as [Hc Ht]. cbn [fnmatch_at length] in *.
  change (peek (c :: t) 0) with c. replace (c =? 0) with false by lia. cbn [tail].
  destruct (period_stops_ok flags0 flags prev (pattern_text P) c t Ha Hpl) as (b & -> & Hb). destruct b.
  { apply decides_no. destruct (proj1 Hb eq_refl). by apply hidden_no_match. }
  assert (peek (pattern_text P) 0 ≠ CH "." → ¬ hidden flags0 prev c) as Hnh by (intros Hd Hh; by specialize (proj2 Hb (conj Hh Hd))).
  clear Hb. destruct (agree_notfirst _ _ Ha) as [Ha' Hn]. set (flags' := Z.lor flags NOTFIRST) in *.
  assert (∀ P', Forall (item_ok flags0) P' → (length (pattern_text P') + length t < fuel)%nat →
    decides (fnmatch_at fuel (Some c) (pattern_text P') t flags') (matches flags0 (Some c) P' t)) as Hnext.
  { intros P' HP' Hf'. apply IH; try done. by right. }
  rewrite (has_pathname _ _ Ha'), (has_noescape _ _ Ha'), (has_leading_dir _ _ Ha').
  pose proof (slash_iff flags0 c) as Hsl. destruct P as [|i P].
  { change (peek (pattern_text []) 0) with 0. cbn [Z.eqb orb].
    destruct ((c =? 47) && has flags0 FNM_LEADING_DIR) eqn:E.
    - left. split; [done|]. right. apply andb_true_iff in E as [Ec%Z.eqb_eq ->]. subst. split; [done|by exists t].
    - right. split; [done|]. intros [?|(Hl & ? & [= -> _])]; [done|]. apply Is_true_true in Hl. by rewrite Hl in E. }
  apply Forall_cons in HP as [Hi HP]. rewrite pattern_text_cons in *. rewrite length_app in Hf.
  destruct i as [a|a| | |neg ms]; cbn [item_text app length] in *.
  - destruct Hi as (Ha0 & Hin & Hbs). rewrite !not_elem_of_cons in Hin.
    change (peek (a :: pattern_text P) 0) with a. cbn [drop].
    replace (a =? 91) with false by lia. replace (a =? 42) with false by lia. replace (a =? 0) with false by lia. replace (a =? 63) with false by lia.
    assert (matches flags0 prev (Lit a :: P) (c :: t) ↔ match_ a c flags' = true ∧ matches flags0 (Some c) P t) as Hiff.
    { cbn. rewrite (match_agree _ _ Ha'), <- Is_true_true. split; [by intros (? & ? & [= <- <-] & ?)|intros ?; by exists c, t]. }
    destruct (Z.eqb_spec a 92) as [->|Hn92].
    + rewrite (proj1 (Is_true_true _) (Hbs eq_refl)). eapply decides_if; [|apply Hnext; [done|lia]]. rewrite Hiff, Z.eqb_eq.
      split; intros [Hm ?]; (split; [|done]); [symmetry; apply (match_no_case flags'); tauto|subst; apply match_same].
    + eapply decides_if; [exact Hiff|apply Hnext; [done|lia]].
  - destruct Hi as (Ha0 & Hdot & Hesc). change (peek (92 :: a :: pattern_text P) 0) with 92. change (peek (92 :: a :: pattern_text P) 1) with a. cbn [drop].
    change (92 =? 91) with false. change (92 =? 92) with true. cbv iota.
    destruct (has flags0 FNM_NOESCAPE); [by destruct Hesc|]. eapply decides_if; [|apply Hnext; [done|lia]].
    cbn. rewrite Z.eqb_eq. split; [by intros (? & [= -> <-] & ?)|intros [-> ?]; by exists t].
  - change (peek (63 :: pattern_text P) 0) with 63. cbn [drop]. change (63 =? 91) with false. change (63 =? 92) with false.
    change (63 =? 42) with false. change (63 =? 0) with false. change (63 =? 63) with true. cbv iota.
    specialize (Hnh ltac:(done)). eapply decides_unless; [|apply Hnext; [done|lia]].
    cbn. rewrite <- not_true_iff_false, Hsl. split; [by intros (? & ? & [= <- <-] & _ & ? & ?)|intros []; by exists c, t].
  - change (peek (42 :: pattern_text P) 0) with 42. cbn [drop]. change (42 =? 91) with false. change (42 =? 92) with false. change (42 =? 42) with true. cbv iota.
    specialize (Hnh ltac:(done)).
    assert (decides (fnmatch_at fuel prev (pattern_text P) (c :: t) flags') (matches flags0 prev P (c :: t))) as Hrest.
    { apply IH; try done; [by constructor| |simpl; lia]. right. split; [done|]. by intros ->. }
    destruct ((c =? 47) && has flags0 FNM_PATHNAME).
    + eapply decides_iff; [|exact Hrest]. rewrite matches_star. pose proof (proj1 Hsl eq_refl). tauto.
    + assert (¬ barrier flags0 c) as Hb by (intros Hb; by specialize (proj2 Hsl Hb)).
      pose proof (Hnext (Star :: P) ltac:(by constructor) ltac:(rewrite pattern_text_cons; cbn [item_text app length]; lia)) as Hstar. rewrite pattern_text_cons in Hstar. cbn [item_text app] in Hstar.
      destruct Hstar as [[-> Hm]|[-> Hm]]; cbn [Z.eqb].
      * left. split; [done|]. rewrite matches_star. tauto.
      * eapply decides_iff; [|exact Hrest]. rewrite matches_star. tauto.
  - destruct Hi as (Hne & Hms & Hneg). rewrite !length_app in Hf. cbn [length] in Hf.
    set (T := (if neg then [33] else []) ++ members_text ms ++ [93]).
    change (peek (91 :: T ++ pattern_text P) 0) with 91. change (91 =? 91) with true. cbv iota.
    assert (peek (91 :: T ++ pattern_text P) 1 = 33 ↔ neg = true) as Hpn.
    { subst T. rewrite <- !app_assoc. destruct neg; [done|]. cbn [app]. change (peek (91 :: ?l) 1) with (peek l 0). cbn [app]. rewrite (peek_members ms).
      destruct ms; [done|]. by split; [intros E; destruct Hneg|]. }
    assert ((peek (91 :: T ++ pattern_text P) 1 =? 33) = neg) as ->.
    { destruct neg; [by apply Z.eqb_eq, Hpn|]. apply Z.eqb_neq. intros E. by apply Hpn in E. }
    assert ((if neg then drop 2 (91 :: T ++ pattern_text P) else drop 1 (91 :: T ++ pattern_text P)) = members_text ms ++ 93 :: pattern_text P) as ->.
    { subst T. destruct neg; cbn [app drop]; by rewrite <- app_assoc. }
    specialize (Hnh ltac:(done)). rewrite (bracket_ok neg c flags' (pattern_text P)) by (try done; rewrite length_app; lia).
    assert (existsb (in_member flags' c) ms = existsb (in_member flags0 c) ms) as ->.
    { clear -Ha'. induction ms as [|m ms IHm]; [done|]. cbn. by rewrite IHm, (in_member_agree _ _ Ha'). }
    eapply (decides_unless _ _ _ (xorb neg (existsb (in_member flags0 c) ms) = true ∧ matches flags0 (Some c) P t)).
    + cbn. rewrite <- not_true_iff_false, Hsl, <- Is_true_true. split; [by intros (? & ? & [= <- <-] & _ & ? & ? & ?)|intros (? & ? & ?); by exists c, t].
    + destruct (xorb _ _).
      * eapply decides_iff; [|apply Hnext; [done|lia]]. tauto.
      * apply decides_no. by intros [].
Qed.



(** ** Patterns that are matched otherwise *)

(** A class behind a member that has the character. *)
Lemma class_behind_match : fnmatch (STR "[a[:digit:]]") (STR "a") 0 = Ok FNM_NOMATCH.
Proof. reflexivity. Qed.
(** A range that is cut off is read beyond the end of the pattern. *)
Lemma range_reads_beyond : fnmatch (STR "[a-") (STR "b") 0 = Fault.
Proof. reflexivity. Qed.
(** A quoted period is not taken for a period, a quoted letter keeps its case. *)
Lemma quoted_period : fnmatch (STR "\.c") (STR ".c") FNM_PERIOD = Ok FNM_NOMATCH.
Proof. reflexivity. Qed.
Lemma quoted_case : fnmatch (STR "\a") (STR "A") FNM_CASEFOLD = Ok FNM_NOMATCH.
Proof. reflexivity. Qed.
