(* ===== verification/Regex.v ===== *)
(** * Regular expressions

    [libregex/rx.c]: the parser makes a tree, and the matcher walks through it.

    The pattern is the list of its [char]s, signed numbers, up to the NUL, the text the
    list of its bytes; a position in the text is [ofs], and [s] is always [orig+ofs].
    The [next] pointers that [regex_putnext] sets lead from a piece to the one behind
    it, or to its atom when it is to be matched once: the argument [rest] stands for
    them, the pieces that are left of the branch.  The [next] of branches and of whole
    expressions is always null.  Allocations succeed; [alloca] may give more room than it
    is asked for. *)

From S2P Require Import Prelude Ctype Convert.

Definition REG_EXTENDED : Z := 1.
Definition REG_ICASE : Z := 2.
Definition REG_NOSUB : Z := 4.
Definition REG_NEWLINE : Z := 8.
Definition REG_NOTBOL : Z := 1.
Definition REG_NOTEOL : Z := 2.
Definition REG_NOMATCH : Z := -1.
Definition RE_DUP_MAX : Z := 8192.

Definition flag (flags f : Z) : bool := negb (Z.land flags f =? 0).

(** ** The parse tree *)

Inductive atom : Type :=
| ILLEGAL                         (* a type that was not set *)
| EMPTY_ALT                       (* an empty alternative, with [matchempty] *)
| EMPTY (bnum : Z)
| REGEX (bnum : Z) (r : regex)
| BRACKET (cc : list Z)
| ANY
| LINESTART
| LINEEND
| WORDSTART
| WORDEND
| CHAR (icase : bool) (c : Z)     (* with [matchatom_CHAR] or [matchatom_CHAR_ICASE] *)
| STRING (s : list Z)
| BACKREF (c : Z)
with piece : Type := mk_piece (a : atom) (min max : Z)
with branch : Type := mk_branch (b_empty : bool) (p : list piece)
with regex : Type := mk_regex (r_empty : bool) (pieces : Z) (b : list branch).

Definition p_atom (p : piece) : atom := let '(mk_piece a _ _) := p in a.
Definition p_min (p : piece) : Z := let '(mk_piece _ min _) := p in min.
Definition p_max (p : piece) : Z := let '(mk_piece _ _ max) := p in max.

(** ** Sets of characters *)

Definition clearcc : list Z := replicate 32 0.

(** [1<<((bit%32)-1)]: the shift by -1 is a shift by 31. *)
Definition cc_mask (bit : Z) : Z := Z.shiftl 1 ((bit - 1) mod 32).
Definition cc_word (x : list Z) (bit : Z) : option Z :=
  if u32 bit / 32 <? 32 then x !! Z.to_nat (u32 bit / 32) else None.
Definition setcc (x : list Z) (bit : Z) : option (list Z) :=
  w ← cc_word x bit; Some (<[Z.to_nat (u32 bit / 32) := Z.lor w (cc_mask (u32 bit))]> x).
Definition issetcc (x : list Z) (bit : Z) : option bool :=
  w ← cc_word x bit; Some (negb (Z.land w (cc_mask (u32 bit)) =? 0)).

(** ** The matcher *)

(** [preg->l], which [alloca] leaves uninitialised. *)
Abbreviation matches := (list (option (Z * Z))).
Abbreviation RM := (CM matches).

Definition set_match (n so eo : Z) : RM unit := λ l,
  if (0 <=? n) && (n <? Z.of_nat (length l)) then Ok (tt, <[Z.to_nat n := Some (so, eo)]> l) else Fault.
Definition get_match (n : Z) : RM (Z * Z) := λ l,
  match l !! Z.to_nat n with Some (Some m) => if 0 <=? n then Ok (m, l) else Fault | _ => Fault end.

Section matcher.
Variable alloca : Z → Z.
Variables cflags : Z.
Variable text : list Z.

(** [s[i]] for a position from the start of the text on. *)
Definition char_at (i : Z) : Z := if i <? 0 then 0 else peek text (Z.to_nat i).
Definition fold (c : Z) : Z := if flag cflags REG_ICASE then tolower c else c.

(** [memcmp(s, t, n)==0] for parts of the text: it ends with a NUL. *)
Definition same_text (i j n : Z) : bool :=
  bool_decide (take (Z.to_nat n) (drop (Z.to_nat i) text) = take (Z.to_nat n) (drop (Z.to_nat j) text)) &&
  (j + n <=? Z.of_nat (length text)).

(** What an atom that is not a group matches at [ofs], the length or -1. *)
Definition matchsimple (a : atom) (ofs eflags : Z) : RM Z :=
  let c := char_at ofs in
  let newline := (c =? 10) && flag cflags REG_NEWLINE in
  match a with
  | BRACKET cc =>
      if newline || (c =? 0) then mret (-1) else
      match issetcc cc (fold c) with Some b => mret (if b then 1 else -1) | None => fault end
  | ANY => mret (if newline || (c =? 0) then -1 else 1)
  | LINESTART =>
      mret (if negb (flag eflags REG_NOTBOL) && ((ofs =? 0) || (flag cflags REG_NEWLINE && (char_at (ofs - 1) =? 10))) then 0 else -1)
  | LINEEND =>
      mret (if newline then 0
            else if (negb (c =? 0) && negb (c =? 10)) || flag eflags REG_NOTEOL then -1 else 0)
  | WORDSTART => mret (if ((ofs =? 0) || negb (isalnum (char_at (ofs - 1)))) && isalnum c then 0 else -1)
  | WORDEND => mret (if (ofs >? 0) && isalnum (char_at (ofs - 1)) && negb (isalnum c) then 0 else -1)
  | CHAR icase d => mret (if (if icase then tolower c else c) =? d then 1 else -1)
  | STRING s =>
      mret (if forallb (λ i, fold (char_at (ofs + Z.of_nat i)) =? peek s i) (seq 0 (length s)) then Z.of_nat (length s) else -1)
  | BACKREF n =>
      '(so, eo) ← get_match n;
      mret (if same_text so ofs (eo - so) then eo - so else -1)
  | _ => fault
  end.

(** [while (num<a->max) ...]: the length that is matched and [offsets], the last one
    first; [num] is the number of elements behind [offsets[0]]. *)
Fixpoint greedy (m : Z → RM Z) (room : Z) (n : nat) (matchlen : Z) (offsets : list Z) : RM (Z * list Z) :=
  match n with
  | O => mret (matchlen, offsets)
  | S n =>
      tmp ← m matchlen;
      if tmp >=? 0 then
        if room <=? Z.of_nat (length offsets) then fault
        else greedy m room n (matchlen + tmp) (tmp :: offsets)
      else mret (matchlen, offsets)
  end.

(** [for (;num>=0;) ...] *)
Fixpoint back_off (m : Z → RM Z) (offsets : list Z) (matchlen : Z) : RM Z :=
  match offsets with
  | [] => fault
  | o :: offsets =>
      tmp ← m matchlen;
      if tmp >=? 0 then mret tmp
      else match offsets with [] => mret tmp | _ => back_off m offsets (matchlen - o) end
  end.

(** Whether [branch_putnext] links to the atom. *)
Definition once (p : piece) : bool := (p_min p =? 1) && (p_max p =? 1).

Fixpoint matchatom (fuel : nat) (a : atom) (rest : list piece) (ofs plus eflags : Z) : RM Z :=
  match fuel with
  | O => λ _, Hang
  | S fuel =>
      let next (matchlen : Z) : RM Z :=
        match rest with
        | [] => mret (plus + matchlen)
        | q :: rest =>
            if once q then matchatom fuel (p_atom q) rest (ofs + matchlen) (plus + matchlen) eflags
            else matchpiece fuel q rest (ofs + matchlen) (plus + matchlen) eflags
        end in
      match a with
      | EMPTY_ALT => mret 0
      | EMPTY bnum => _ ← (if bnum >=? 0 then set_match bnum ofs ofs else mret tt); next 0
      | REGEX bnum r =>
          matchlen ← matchregex fuel r ofs 0 eflags;
          if matchlen >=? 0 then _ ← set_match bnum ofs (ofs + matchlen); next matchlen else mret (-1)
      | a => matchlen ← matchsimple a ofs eflags; if matchlen >=? 0 then next matchlen else mret (-1)
      end
  end
with matchpiece (fuel : nat) (p : piece) (rest : list piece) (ofs plus eflags : Z) : RM Z :=
  match fuel with
  | O => λ _, Hang
  | S fuel =>
      let room := alloca (p_max p) in
      if room <=? 0 then fault else
      if once p then matchatom fuel (p_atom p) rest ofs 0 eflags else
      '(matchlen, offsets) ← greedy (λ matchlen, matchatom fuel (p_atom p) [] (ofs + matchlen) 0 eflags)
                               room (Z.to_nat (p_max p)) 0 [0];
      if Z.of_nat (length offsets) - 1 <? p_min p then mret (-1) else
      back_off (λ matchlen,
        match rest with
        | [] => mret (plus + matchlen)
        | q :: rest =>
            if once q then matchatom fuel (p_atom q) rest (ofs + matchlen) (plus + matchlen) eflags
            else matchpiece fuel q rest (ofs + matchlen) (plus + matchlen) eflags
        end) offsets matchlen
  end
with matchbranch (fuel : nat) (b : branch) (ofs plus eflags : Z) : RM Z :=
  match fuel with
  | O => λ _, Hang
  | S fuel =>
      match b with
      | mk_branch true _ => mret 0
      | mk_branch false [] => fault
      | mk_branch false (p :: rest) =>
          tmp ← matchpiece fuel p rest ofs plus eflags;
          mret (if tmp >=? 0 then plus + tmp else -1)
      end
  end
with matchregex (fuel : nat) (r : regex) (ofs plus eflags : Z) : RM Z :=
  match fuel with
  | O => λ _, Hang
  | S fuel =>
      match r with
      | mk_regex true _ _ => mret 0
      | mk_regex false _ [] => mret (-1)
      | mk_regex false n (b :: bs) =>
          tmp ← matchbranch fuel b ofs plus eflags;
          if tmp >=? 0 then mret (plus + tmp) else matchregex fuel (mk_regex false n bs) ofs plus eflags
      end
  end.
End matcher.

(** ** The parser *)

(** Pointers into the pattern, of which [None] is past the NUL. *)
Definition forward (n : nat) (s : list Z) : option (list Z) :=
  if (length s <? n)%nat then None else Some (drop n s).

Section parser.
Variable cflags : Z.
Definition foldp (c : Z) : Z := if flag cflags REG_ICASE then tolower c else c.
Definition extended : bool := flag cflags REG_EXTENDED.

(** [for (i=*t+1; i<=t[2]; ++i) setcc(...)] *)
Fixpoint set_range (n : nat) (i : Z) (cc : list Z) : option (list Z) :=
  match n with
  | O => Some cc
  | S n => cc ← setcc cc (foldp i); set_range n (i + 1) cc
  end.

(** The [do] loop of [parsebracketed]: [None] when it leaves the pattern or the set,
    [Some None] when the bracket is not closed. *)
Fixpoint bracket_loop (fuel : nat) (t : list Z) (cc : list Z) : option (option (list Z * list Z)) :=
  match fuel with
  | O => None
  | S fuel =>
      if peek t 0 =? 0 then Some None else
      cc ← setcc cc (foldp (peek t 0));
      '(t, cc) ← (if (peek t 1 =? CH "-") && negb (peek t 2 =? CH "]") then
                    cc ← set_range (Z.to_nat (peek t 2 - peek t 0)) (peek t 0 + 1) cc;
                    t ← forward 3 t; Some (t, cc)
                  else t ← forward 1 t; Some (t, cc));
      if peek t 0 =? CH "]" then Some (Some (cc, tail t)) else bracket_loop fuel t cc
  end.
Definition parsebracketed (s : list Z) : option (option (list Z * list Z)) :=
  let t := tail s in
  let negflag := peek t 0 =? CH "^" in
  let t := if negflag then tail t else t in
  match bracket_loop (S (length t)) t clearcc with
  | Some (Some (cc, t)) => Some (Some (if negflag then Z.lxor 0xffffffff <$> cc else cc, t))
  | r => r
  end.

Definition closebracket (s : list Z) : bool :=
  if extended then peek s 0 =? CH ")" else (peek s 0 =? CH "\") && (peek s 1 =? CH ")").

(** [strchr(l,c)] as a truth value: the NUL is found too. *)
Definition in_chars (l : list Z) (c : Z) : bool := (c =? 0) || bool_decide (c ∈ l).

(** [for (i=1; s[i] && !strchr("(|)[.^$\\*+?{",s[i]); ++i) ;] *)
Fixpoint run_length (s : list Z) : nat :=
  match s with c :: s => if in_chars (STR "(|)[.^$\*+?{") c then 0 else S (run_length s) | [] => 0 end.

(** [handle_char] *)
Definition handle_char (s : list Z) : atom * list Z :=
  let i := S (run_length (tail s)) in
  let i := if in_chars (STR "*+?{") (peek s i) then (i - 1)%nat else i in
  if (2 <? i)%nat then (STRING (take i s), drop i s)
  else (CHAR (flag cflags REG_ICASE) (foldp (peek s 0)), tail s).

(** The parser counts the groups in [rx->brackets].  [Some] of a parser is what it
    made and the pointer behind it; [None] stands for the return of [s]. *)
Abbreviation PM := (CM Z).
Definition next_bracket : PM Z := λ n, Ok (n + 1, n + 1).
Definition brackets : PM Z := λ n, Ok (n, n).

(** [while (isdigit( *++tmp)) x=x*10+*tmp-'0';] behind the first digit *)
Fixpoint parse_number (x : Z) (tmp : list Z) : Z * list Z :=
  match tmp with
  | c :: rest => if isdigit c then parse_number (u32 (u32 (x * 10 + c) - CH "0")) rest else (x, tmp)
  | [] => (x, [])
  end.

(** The repetition behind an atom: minimum, maximum and the rest; [None] for an
    interval that is not closed. *)
Definition repetition (tmp : list Z) : option (Z * Z * list Z) :=
  let c := peek tmp 0 in
  if c =? CH "*" then Some (0, RE_DUP_MAX, tail tmp)
  else if c =? CH "+" then Some (1, RE_DUP_MAX, tail tmp)
  else if c =? CH "?" then Some (0, 1, tail tmp)
  else if c =? CH "{" then
    let tmp := tail tmp in
    if isdigit (peek tmp 0) then
      let '(min, tmp) := parse_number (peek tmp 0 - CH "0") (tail tmp) in
      let '(max, tmp) :=
        if peek tmp 0 =? CH "," then
          let tmp := tail tmp in
          if isdigit (peek tmp 0) then parse_number (peek tmp 0 - CH "0") (tail tmp) else (RE_DUP_MAX, tmp)
        else (min, tmp) in
      if peek tmp 0 =? CH "}" then Some (min, max, tail tmp) else None
    else Some (1, 1, tmp)
  else Some (1, 1, tmp).

Fixpoint parseatom (fuel : nat) (s : list Z) : PM (option (atom * list Z)) :=
  match fuel with
  | O => λ _, Hang
  | S fuel =>
      let ret (x : atom * list Z) : PM (option (atom * list Z)) := mret (Some x) in
      let openbracket (s : list Z) : PM (option (atom * list Z)) :=
        bnum ← next_bracket;
        if peek s 1 =? CH ")" then ret (EMPTY bnum, drop 2 s) else
        '(r, tmp) ← parseregex fuel (tail s);
        if closebracket tmp then ret (REGEX bnum r, drop (if extended then 1 else 2) tmp)
        else if extended then mret None else ret (handle_char s) in
      let c := peek s 0 in
      if c =? CH "(" then if extended then openbracket s else ret (handle_char s)
      else if c =? CH ")" then if extended then mret None else ret (handle_char s)
      else if (c =? 0) || (c =? CH "|") then mret None
      else if c =? CH "[" then
        match parsebracketed s with
        | None => fault
        | Some None => mret None
        | Some (Some (cc, tmp)) => ret (BRACKET cc, tmp)
        end
      else if c =? CH "." then ret (ANY, tail s)
      else if c =? CH "^" then ret (LINESTART, tail s)
      else if c =? CH "$" then ret (LINEEND, tail s)
      else if c =? CH "\" then
        let s := tail s in
        let c := peek s 0 in
        n ← brackets;
        if c =? 0 then ret (ILLEGAL, s)
        else if c =? CH "<" then ret (WORDSTART, tail s)
        else if c =? CH ">" then ret (WORDEND, tail s)
        else if (c >=? CH "1") && (c <=? n + CH "1") && negb extended then ret (BACKREF (c - CH "0"), tail s)
        else if negb extended && (c =? CH "(") then openbracket s
        else if negb extended && (c =? CH ")") then mret None
        else ret (handle_char s)
      else ret (handle_char s)
  end
with parsepiece (fuel : nat) (s : list Z) : PM (option (piece * list Z)) :=
  match fuel with
  | O => λ _, Hang
  | S fuel =>
      r ← parseatom fuel s;
      mret ('(a, tmp) ← r; '(min, max, tmp) ← repetition tmp; Some (mk_piece a min max, tmp))
  end
with parsebranch (fuel : nat) (p : list piece) (s : list Z) (pieces : Z) : PM (list piece * list Z * Z) :=
  match fuel with
  | O => λ _, Hang
  | S fuel =>
      r ← (if (peek s 0 =? CH "|") && (length p =? 0)%nat then mret (Some (mk_piece EMPTY_ALT 1 1, tail s))
           else parsepiece fuel s);
      match r with
      | None => mret (p, s, pieces)
      | Some (q, tmp) =>
          let p := p ++ [q] in
          if peek tmp 0 =? CH "|" then mret (p, tmp, pieces + Z.of_nat (length p))
          else parsebranch fuel p tmp pieces
      end
  end
with parsealternatives (fuel : nat) (b : list branch) (s : list Z) (pieces : Z) : PM (regex * list Z) :=
  match fuel with
  | O => λ _, Hang
  | S fuel =>
      '(p, tmp, pieces) ← parsebranch fuel [] s pieces;
      if same_ptr tmp s && negb (closebracket s) then mret (mk_regex false pieces b, s) else
      if closebracket s then mret (mk_regex false pieces (b ++ [mk_branch true p]), s) else
      let b := b ++ [mk_branch false p] in
      if closebracket tmp then mret (mk_regex false pieces b, tmp)
      else parsealternatives fuel b (if peek tmp 0 =? CH "|" then tail tmp else tmp) pieces
  end
with parseregex (fuel : nat) (s : list Z) : PM (regex * list Z) :=
  match fuel with
  | O => λ _, Hang
  | S fuel =>
      if (peek s 0 =? CH ")") || (peek s 0 =? 0) then mret (mk_regex true 0 [], s)
      else parsealternatives fuel [] s 0
  end.
End parser.

(** ** The interface *)

Record regex_t : Type := mk_preg { r : regex; brackets_ : Z; cflags_ : Z }.

(** -1 is [None]. *)
Definition regcomp (pattern : list Z) (cflags : Z) : outcome (option regex_t) :=
  match parseregex cflags (8 + 8 * length pattern) pattern 0 with
  | Ok ((re, t), n) =>
      if same_ptr t pattern && negb (peek pattern 0 =? 0) then Ok None else Ok (Some (mk_preg re n cflags))
  | Fault => Fault
  | Hang => Hang
  end.

(** [regexec], from the check for [earlyabort] on: whether all branches begin with [^];
    [None] where it reads through the null pointer of an empty branch or an unset type. *)
Fixpoint all_linestart (b : list branch) : option bool :=
  match b with
  | [] => Some true
  | mk_branch _ [] :: _ => None
  | mk_branch _ (p :: _) :: b => match p_atom p with LINESTART => all_linestart b | ILLEGAL => None | _ => Some false end
  end.

(** The loop over the positions: the result with the position and the length. *)
Fixpoint search (alloca : Z → Z) (fuel : nat) (preg : regex_t) (text : list Z) (n : nat) (ofs : Z) (earlyabort : bool) (eflags : Z) : RM (option (Z * Z)) :=
  matched ← matchregex alloca (cflags_ preg) text fuel (r preg) ofs 0 eflags;
  if matched >=? 0 then
    matched ← matchregex alloca (cflags_ preg) text fuel (r preg) ofs 0 eflags;
    _ ← set_match 0 ofs (ofs + matched);
    mret (Some (ofs, matched))
  else
    match n with
    | O => mret None
    | S n => if earlyabort then mret None else search alloca fuel preg text n (ofs + 1) false (Z.lor eflags REG_NOTBOL)
    end.

(** More than the depth of the tree. *)
Fixpoint size_atom (a : atom) : nat :=
  match a with REGEX _ r => S (size_regex r) | _ => 1 end
with size_piece (p : piece) : nat := let '(mk_piece a _ _) := p in S (size_atom a)
with size_branch (b : branch) : nat := let '(mk_branch _ p) := b in S (list_sum (size_piece <$> p))
with size_regex (r : regex) : nat := let '(mk_regex _ _ b) := r in S (length b + list_sum (size_branch <$> b)).

(** The result and [pmatch], whose [rm_so] only is set when there is no match. *)
Definition regexec (alloca : Z → Z) (preg : regex_t) (text : list Z) (nmatch : nat) (eflags : Z) : outcome (Z * matches) :=
  let l := replicate (Z.to_nat (brackets_ preg + 3)) None in
  let '(mk_regex _ _ b) := r preg in
  match (if flag (cflags_ preg) REG_NEWLINE then Some false else all_linestart b) with
  | None => Fault
  | Some earlyabort =>
      match search alloca (4 * size_regex (r preg)) preg text (length text) 0 earlyabort eflags l with
      | Ok (Some _, l) =>
          if flag (cflags_ preg) REG_NOSUB then Ok (0, replicate nmatch None)
          else if (length l <? nmatch)%nat then Fault else Ok (0, take nmatch l)
      | Ok (None, _) => Ok (REG_NOMATCH, replicate nmatch None)
      | Fault => Fault
      | Hang => Hang
      end
  end.
