(* ===== verification/RegexSpec.v ===== *)
(** * What a regular expression matches

    The language of a parse tree, as a relation between the positions where a match
    begins and ends, and the trees that the theorems are about.  The repetitions of a
    piece come in two kinds: [strict] ones keep to its bounds, and the others only to
    the upper one, which is what the matcher is content with. *)

From S2P Require Import Prelude Ctype Convert Regex.

Section language.
Variables cflags eflags : Z.
Variable text : list Z.
Variable strict : bool.

Definition at_ (i c : Z) : Prop := 0 <= i ∧ text !! Z.to_nat i = Some c.
Definition newline_splits : Prop := flag cflags REG_NEWLINE.
Definition folded (c : Z) : Z := if flag cflags REG_ICASE then tolower c else c.
(** The character has its bit in the set. *)
Definition in_set (cc : list Z) (c : Z) : Prop := ∃ w, cc !! Z.to_nat (c / 32) = Some w ∧ Z.testbit w ((c - 1) mod 32).
Definition word_at (i : Z) : Prop := ∃ c, at_ i c ∧ isalnum c.

(** Atoms that are no groups, from [i] to [j]. *)
Definition simple_in (a : atom) (i j : Z) : Prop :=
  match a with
  | CHAR icase d => j = i + 1 ∧ ∃ c, at_ i c ∧ d = (if icase then tolower c else c)
  | STRING s => j = i + Z.of_nat (length s) ∧ ∀ k d, s !! k = Some d → ∃ c, at_ (i + Z.of_nat k) c ∧ d = folded c
  | ANY => j = i + 1 ∧ ∃ c, at_ i c ∧ (newline_splits → c ≠ 10)
  | BRACKET cc => j = i + 1 ∧ ∃ c, at_ i c ∧ (newline_splits → c ≠ 10) ∧ in_set cc (folded c)
  | LINESTART => j = i ∧ ¬ flag eflags REG_NOTBOL ∧ (i = 0 ∨ newline_splits ∧ at_ (i - 1) 10)
  | LINEEND => j = i ∧ (newline_splits ∧ at_ i 10 ∨ ¬ flag eflags REG_NOTEOL ∧ (i = Z.of_nat (length text) ∨ at_ i 10))
  | WORDSTART => j = i ∧ ¬ word_at (i - 1) ∧ word_at i
  | WORDEND => j = i ∧ word_at (i - 1) ∧ ¬ word_at i
  | _ => False
  end.

Definition count_ok (p : piece) (n : nat) : Prop :=
  Z.of_nat n <= p_max p ∧ (once p → n = 1%nat) ∧ (strict → p_min p <= Z.of_nat n).

Inductive atom_in : atom → Z → Z → Prop :=
| in_simple a i j : simple_in a i j → atom_in a i j
| in_empty n i : atom_in (EMPTY n) i i
| in_group n r i j : regex_in r i j → atom_in (REGEX n r) i j
with chain_in : atom → nat → Z → Z → Prop :=
| chain_0 a i : chain_in a 0 i i
| chain_S a n i j k : chain_in a n i j → atom_in a j k → chain_in a (S n) i k
with pieces_in : list piece → Z → Z → Prop :=
| pieces_nil i : pieces_in [] i i
| pieces_cons p ps n i j k : chain_in (p_atom p) n i j → count_ok p n → pieces_in ps j k → pieces_in (p :: ps) i k
with branch_in : branch → Z → Z → Prop :=
| branch_empty ps i : branch_in (mk_branch true ps) i i
| branch_empty_alt mn mx ps i : branch_in (mk_branch false (mk_piece EMPTY_ALT mn mx :: ps)) i i
| branch_pieces p ps i j : pieces_in (p :: ps) i j → branch_in (mk_branch false (p :: ps)) i j
with regex_in : regex → Z → Z → Prop :=
| regex_empty n bs i : regex_in (mk_regex true n bs) i i
| regex_branch n b bs i j : b ∈ bs → branch_in b i j → regex_in (mk_regex false n bs) i j.
End language.

(** ** Trees *)

(** The trees the matcher walks through without a fault, for [n] groups; back
    references are left out. *)
Fixpoint wf_atom (n : Z) (a : atom) : bool :=
  match a with
  | ILLEGAL | EMPTY_ALT | BACKREF _ => false
  | EMPTY k => (0 <=? k) && (k <? n)
  | REGEX k r => (0 <=? k) && (k <? n) && wf_regex n r
  | BRACKET cc => (length cc =? 32)%nat
  | CHAR _ c => negb (c =? 0)
  | STRING s => forallb (λ c, negb (c =? 0)) s
  | _ => true
  end
with wf_piece (n : Z) (p : piece) : bool :=
  let '(mk_piece a mn mx) := p in wf_atom n a && (0 <=? mn) && (0 <=? mx)
with wf_branch (n : Z) (b : branch) : bool :=
  match b with
  | mk_branch true ps => (length ps =? 0)%nat
  | mk_branch false [] => false
  | mk_branch false (mk_piece EMPTY_ALT mn mx :: _) => (mn =? 1) && (mx =? 1)
  | mk_branch false ps => forallb (wf_piece n) ps
  end
with wf_regex (n : Z) (r : regex) : bool :=
  match r with
  | mk_regex true _ _ => true
  | mk_regex false _ bs => forallb (wf_branch n) bs
  end.

(** Trees without groups that hold something: the matches of an atom at a position all
    have the same length. *)
Definition simple (a : atom) : bool := match a with EMPTY_ALT | REGEX _ _ | BACKREF _ | ILLEGAL => false | _ => true end.
Definition simple_branch (b : branch) : bool :=
  match b with
  | mk_branch true _ => true
  | mk_branch false (mk_piece EMPTY_ALT _ _ :: _) => true
  | mk_branch false ps => forallb (λ p, simple (p_atom p)) ps
  end.
Definition simple_regex (r : regex) : bool := match r with mk_regex true _ _ => true | mk_regex false _ bs => forallb simple_branch bs end.
(** A branch that begins with [^] needs it. *)
Definition anchor_needed (b : branch) : bool :=
  match b with mk_branch _ (mk_piece LINESTART mn _ :: _) => 1 <=? mn | _ => true end.
Definition anchors_needed (r : regex) : bool := let '(mk_regex _ _ bs) := r in forallb anchor_needed bs.
