(* ===== verification/RegexFacts.v ===== *)
(** * What the matcher finds

    The matcher returns for every tree of [wf_regex], and what it finds is in the
    language of the tree; for trees without groups it finds a match wherever there is
    one. *)

From S2P Require Import Prelude Ctype Convert Regex RegexSpec.

(** ** Characters and sets *)

Lemma testbit_mask w k : 0 <= k → (Z.land w (Z.shiftl 1 k) =? 0) = negb (Z.testbit w k).
Proof.
  intros Hk. destruct (Z.testbit w k) eqn:E; cbn [negb].
  - apply Z.eqb_neq. intros H0. apply (f_equal (λ z, Z.testbit z k)) in H0.
    rewrite Z.land_spec, E, Z.shiftl_1_l, Z.pow2_bits_true, Z.bits_0 in H0 by done. done.
  - apply Z.eqb_eq, Z.bits_inj_iff'. intros n Hn. rewrite Z.land_spec, Z.bits_0, Z.shiftl_1_l.
    destruct (Z.eq_dec n k) as [->|Hne]; [by rewrite E|]. by rewrite Z.pow2_bits_false, andb_false_r.
Qed.

Lemma issetcc_ok cc c : length cc = 32%nat → 0 <= c < 256 →
  ∃ b : bool, issetcc cc c = Some b ∧ (b ↔ in_set cc c).
Proof.
  intros Hl Hc. unfold issetcc, cc_word, in_set, cc_mask. rewrite u32_id by lia.
  assert (c / 32 < 32) as H32 by (apply Z.div_lt_upper_bound; lia). replace (c / 32 <? 32) with true by lia.
  destruct (lookup_lt_is_Some_2 cc (Z.to_nat (c / 32))) as [w Hw].
  { rewrite Hl. assert (c / 32 < 32) by (apply Z.div_lt_upper_bound; lia). assert (0 <= c / 32) by (apply Z.div_pos; lia). lia. }
  rewrite Hw. cbn. eexists. split; [done|]. rewrite testbit_mask by (pose proof (Z.mod_pos_bound (c - 1) 32); lia). rewrite negb_involutive.
  split; [eauto|]. by intros (w' & [= <-] & ?).
Qed.

Section facts.
Variable alloca : Z → Z.
Variables cflags : Z.
Variable text : list Z.
Hypothesis Htext : Forall (λ c, 0 < c < 256) text.

Lemma char_at_at i : 0 <= i → char_at text i ≠ 0 → at_ text i (char_at text i).
Proof.
  unfold char_at, at_, peek. intros Hi Hc. replace (i <? 0) with false in * by lia. split; [done|].
  destruct (text !! Z.to_nat i) as [c|] eqn:E; [by rewrite (nth_lookup_Some _ _ _ _ E)|].
  apply lookup_ge_None in E. by rewrite nth_overflow in Hc.
Qed.

Lemma at_char_at i c : at_ text i c → char_at text i = c ∧ 0 < c < 256 ∧ 0 <= i < Z.of_nat (length text).
Proof.
  intros [Hi E]. unfold char_at, peek. replace (i <? 0) with false by lia. rewrite (nth_lookup_Some _ _ _ _ E).
  split; [done|]. split; [by apply (Forall_lookup_1 _ _ _ _ Htext E)|]. apply lookup_lt_Some in E. lia.
Qed.

Lemma char_at_end i : 0 <= i → char_at text i = 0 → Z.of_nat (length text) <= i.
Proof.
  intros Hi H0. destruct (decide (i < Z.of_nat (length text))) as [Hlt|]; [|lia].
  destruct (lookup_lt_is_Some_2 text (Z.to_nat i) ltac:(lia)) as [c E].
  destruct (at_char_at i c) as (E' & ? & _); [done|]. lia.
Qed.

Lemma char_at_iff i c : 0 <= i → c ≠ 0 → char_at text i = c ↔ at_ text i c.
Proof. intros Hi Hc. split; [intros <-; by apply char_at_at|apply at_char_at]. Qed.

Lemma word_at_iff i : 0 <= i → isalnum (char_at text i) ↔ word_at text i.
Proof.
  intros Hi. split.
  - intros Hw. exists (char_at text i). split; [|done]. apply char_at_at; [done|]. intros E. by rewrite E in Hw.
  - intros (c & Hc & Hw). by destruct (at_char_at i c Hc) as [-> _].
Qed.

Lemma folded_range c : 0 < c < 256 → 0 < folded cflags c < 256.
Proof. intros Hc. unfold folded, tolower. repeat case_match; int_lia. Qed.

Lemma simple_in_range e a i j : 0 <= i <= Z.of_nat (length text) → simple_in cflags e text a i j → i <= j <= Z.of_nat (length text).
Proof.
  intros Hi. destruct a; cbn; try done; try (intros [-> _]; lia); try (intros [-> (c' & Hc%at_char_at & _)]; lia).
  intros [-> Hs]. destruct (decide (length s = 0%nat)) as [->|Hl]; [lia|].
  destruct (lookup_lt_is_Some_2 s (length s - 1) ltac:(lia)) as [d Hd]. destruct (Hs _ _ Hd) as (c & Hc%at_char_at & _). lia.
Qed.

(** *** Atoms that are no groups *)

Lemma newline_test c : (c =? 10) && flag cflags REG_NEWLINE = true ↔ c = 10 ∧ newline_splits cflags.
Proof. unfold newline_splits. rewrite andb_true_iff, Z.eqb_eq, Is_true_true. done. Qed.

Lemma simple_case (m : RM Z) v (b : bool) a ofs e :
  (∀ l, m l = Ok (if b then v else -1, l)) → 0 <= v →
  (∀ j, simple_in cflags e text a ofs j → j = ofs + v) → (b = true ↔ simple_in cflags e text a ofs (ofs + v)) →
  ∃ r, (∀ l, m l = Ok (r, l)) ∧ (0 <= r → simple_in cflags e text a ofs (ofs + r)) ∧
    ∀ j, simple_in cflags e text a ofs j → r = j - ofs.
Proof.
  intros Hm Hv Hj Hb. eexists. split; [exact Hm|]. destruct b.
  - split; [intros _; by apply Hb|]. intros j Hin. apply Hj in Hin. lia.
  - split; [lia|]. intros j Hin. pose proof (Hj _ Hin) as ->. by apply Hb in Hin.
Qed.

Lemma forallb_string s ofs : 0 <= ofs → forallb (λ c, negb (c =? 0)) s = true →
  forallb (λ i, fold cflags (char_at text (ofs + Z.of_nat i)) =? peek s i) (seq 0 (length s)) = true ↔
  ∀ k d, s !! k = Some d → ∃ c, at_ text (ofs + Z.of_nat k) c ∧ d = folded cflags c.
Proof.
  intros Ho Hnz. rewrite forallb_forall. split.
  - intros Hall k d Hk. pose proof (lookup_lt_Some _ _ _ Hk). specialize (Hall k ltac:(apply in_seq; lia)). apply Z.eqb_eq in Hall.
    unfold peek in Hall. rewrite (nth_lookup_Some _ _ _ _ Hk) in Hall. exists (char_at text (ofs + Z.of_nat k)). split; [|done].
    apply char_at_at; [lia|]. intros E. rewrite E in Hall. rewrite forallb_forall in Hnz.
    specialize (Hnz d ltac:(apply list_elem_of_In; by eapply list_elem_of_lookup_2)). rewrite <- Hall in Hnz.
    by destruct (flag cflags REG_ICASE) eqn:Ef; unfold fold in Hnz; rewrite Ef in Hnz.
  - intros Hall k [_ Hk]%in_seq. destruct (lookup_lt_is_Some_2 s k ltac:(lia)) as [d Hd]. destruct (Hall _ _ Hd) as (c & Hc & ->).
    apply Z.eqb_eq. unfold peek. rewrite (nth_lookup_Some _ _ _ _ Hd). by destruct (at_char_at _ _ Hc) as [-> _].
Qed.

Lemma matchsimple_ok n a ofs e : wf_atom n a = true → simple a = true → (∀ k, a ≠ EMPTY k) → 0 <= ofs <= Z.of_nat (length text) →
  ∃ r, (∀ l, matchsimple cflags text a ofs e l = Ok (r, l)) ∧ (0 <= r → simple_in cflags e text a ofs (ofs + r)) ∧
    ∀ j, simple_in cflags e text a ofs j → r = j - ofs.
Proof.
  intros Hwf Hs He Ho. set (c := char_at text ofs).
  assert (∀ c', at_ text ofs c' → c' = c ∧ 0 < c < 256) as Hat.
  { intros c' Hc'. destruct (at_char_at _ _ Hc') as (E & ? & _). subst c. rewrite E. lia. }
  assert (c ≠ 0 → at_ text ofs c) as Hat' by (intros; apply char_at_at; [lia|done]).
  destruct a as [| |k|k r|cc| | | | | |icase d|s|k]; try done; [by destruct (He k)| | | | | | | |].
  - destruct (decide (c = 0)) as [E0|E0].
    { apply (simple_case _ 1 false); [intros l; cbn [matchsimple]; fold c; rewrite E0; done|done|by intros j []|].
      split; [done|]. intros (_ & c' & Hc' & _). apply Hat in Hc'. lia. }
    assert (0 < c < 256) as Hc by (by apply (Hat c), Hat').
    destruct (issetcc_ok cc (fold cflags c)) as (b & Eb & Hb); [by apply Nat.eqb_eq|pose proof (folded_range c Hc); unfold fold, folded in *; lia|].
    apply (simple_case _ 1 (negb ((c =? 10) && flag cflags REG_NEWLINE) && b)); [|done|by intros j []|].
    { intros l. cbn [matchsimple]. fold c. replace (c =? 0) with false by lia. rewrite orb_false_r, Eb. by destruct (_ && _), b. }
    rewrite andb_true_iff, negb_true_iff, <- not_true_iff_false, newline_test, <- Is_true_true, Hb. split.
    + intros [Hn Hin]. split; [done|]. exists c. split_and!; [by apply Hat'|intros ? ->; by apply Hn|done].
    + intros (_ & c' & Hc' & Hn & Hin). apply Hat in Hc' as [-> _]. split; [|done]. intros [-> ?]. by apply Hn.
  - apply (simple_case _ 1 (negb ((c =? 10) && flag cflags REG_NEWLINE) && negb (c =? 0))); [|done|by intros j []|].
    { intros l. cbn [matchsimple]. fold c. by destruct (_ && _), (c =? 0). }
    rewrite andb_true_iff, !negb_true_iff, <- not_true_iff_false, newline_test, Z.eqb_neq. split.
    + intros [Hn H0]. split; [done|]. exists c. split; [by apply Hat'|]. intros ? ->. by apply Hn.
    + intros (_ & c' & Hc' & Hn). apply Hat in Hc' as [-> ?]. split; [|lia]. intros [-> ?]. by apply Hn.
  - eapply (simple_case _ 0); [by intros l|done|intros j [-> _]; lia|]. rewrite Z.add_0_r.
    rewrite andb_true_iff, negb_true_iff, orb_true_iff, andb_true_iff, Z.eqb_eq, Z.eqb_eq, <- not_true_iff_false, <- !Is_true_true.
    unfold simple_in, newline_splits. split.
    + intros [Hn Ho']. split; [done|]. split; [done|]. destruct (decide (ofs = 0)) as [|H0]; [by left|right].
      destruct Ho' as [?|[? E]]; [done|]. split; [done|]. apply char_at_iff; [lia|done|done].
    + intros (_ & Hn & Ho'). split; [done|]. destruct Ho' as [?|[? E]]; [by left|right]. split; [done|]. by apply at_char_at in E as [-> _].
  - apply (simple_case _ 0 ((c =? 10) && flag cflags REG_NEWLINE || negb ((negb (c =? 0) && negb (c =? 10)) || flag e REG_NOTEOL)));
      [intros l; cbn [matchsimple]; fold c; by destruct (_ && flag cflags REG_NEWLINE), (_ || flag e REG_NOTEOL)|done|intros j [-> _]; lia|].
    rewrite Z.add_0_r, orb_true_iff, newline_test, negb_true_iff, orb_false_iff, andb_false_iff, !negb_false_iff, !Z.eqb_eq, <- not_true_iff_false, <- Is_true_true.
    assert (c = 0 ↔ ofs = Z.of_nat (length text)) as E0.
    { split; [intros E; apply char_at_end in E; lia|]. intros ->. destruct (decide (c = 0)) as [|Hc0]; [done|]. apply Hat', at_char_at in Hc0. lia. }
    assert (c = 10 ↔ at_ text ofs 10) as E10 by (subst c; apply char_at_iff; lia).
    cbn. rewrite E0, E10. tauto.
  - eapply (simple_case _ 0); [by intros l|done|intros j [-> _]; lia|]. rewrite Z.add_0_r.
    rewrite andb_true_iff, orb_true_iff, negb_true_iff, Z.eqb_eq, <- not_true_iff_false, <- !Is_true_true. fold c. cbn.
    rewrite <- (word_at_iff ofs) by lia. fold c. split.
    + intros [Hl Hc]. split; [done|]. split; [|done]. intros Hw. pose proof Hw as (c' & [? _] & _).
      destruct Hl as [->|Hl]; [lia|]. apply Hl. by apply word_at_iff.
    + intros (_ & Hl & Hc). split; [|done]. destruct (decide (ofs = 0)); [by left|right]. intros Hw. apply Hl. apply word_at_iff; [lia|done].
  - eapply (simple_case _ 0); [by intros l|done|intros j [-> _]; lia|]. rewrite Z.add_0_r.
    rewrite !andb_true_iff, negb_true_iff, Z.gtb_lt, <- not_true_iff_false, <- !Is_true_true. fold c. cbn.
    rewrite <- (word_at_iff ofs) by lia. fold c. split.
    + intros [[Hl Hw] Hc]. split_and!; [done| |done]. by apply word_at_iff; [lia|].
    + intros (_ & Hw & Hc). pose proof Hw as (c' & [? _] & _). split_and!; [lia|by apply word_at_iff; [lia|]|done].
  - eapply (simple_case _ 1); [by intros l|done|by intros j []|]. rewrite Z.eqb_eq. fold c. split.
    + intros E. split; [done|]. exists c. split; [|done]. apply Hat'. intros E0. rewrite E0 in E. cbn in Hwf. apply negb_true_iff, Z.eqb_neq in Hwf.
      by destruct icase; subst d.
    + intros (_ & c' & Hc' & ->). by apply Hat in Hc' as [-> _].
  - eapply (simple_case _ (Z.of_nat (length s))); [by intros l|lia|by intros j []|]. rewrite (forallb_string s ofs) by (done || lia). cbn. tauto.
Qed.

(** ** Repetitions *)

Variable eflags : Z.
Variable groups : Z.

(** [m] returns [a] from every state with room for the groups. *)
Definition runs {A} (m : RM A) (a : A) : Prop :=
  ∀ l, Z.of_nat (length l) = groups → ∃ l', m l = Ok (a, l') ∧ Z.of_nat (length l') = groups.

Lemma runs_ret {A} (a : A) : runs (mret a) a.
Proof. intros l Hl. by exists l. Qed.
Lemma runs_bind {A B} (m : RM A) (k : A → RM B) a b : runs m a → runs (k a) b → runs (m ≫= k) b.
Proof. intros Hm Hk l Hl. destruct (Hm l Hl) as (l1 & E & Hl1). rewrite (bind_Ok _ _ _ _ _ E). by apply Hk. Qed.

(** It finds something that satisfies [X], and finds it when [C] holds. *)
Definition good (X : Z → Prop) (C : Prop) (m : RM Z) : Prop :=
  ∃ r, runs m r ∧ (0 <= r → X r) ∧ (C → 0 <= r).

Lemma good_weaken X X' C C' m : good X C m → (∀ r, 0 <= r → X r → X' r) → (C' → C) → good X' C' m.
Proof. intros (r & E & H1 & H2) HX HC. exists r. eauto 10. Qed.

Lemma good_ret X (C : Prop) v : (0 <= v → X v) → (C → 0 <= v) → good X C (mret v).
Proof. intros ??. exists v. split; [apply runs_ret|done]. Qed.

(** The next computation runs when the first one has found something. *)
Lemma good_bind X C X' C' m (k : Z → RM Z) :
  good X C m → (∀ r, 0 <= r → X r → good X' C' (k r)) → (C' → C) →
  good X' C' (r ← m; if r >=? 0 then k r else mret (-1)).
Proof.
  intros (r & E & HX & HC1) Hk HC. destruct (Z.geb_spec r 0) as [Hr|Hr].
  - destruct (Hk r Hr (HX Hr)) as (r' & E' & ?). exists r'. split; [|done]. apply (runs_bind _ _ r); [done|]. by replace (r >=? 0) with true by lia.
  - exists (-1). split; [|split; [lia|]].
    + apply (runs_bind _ _ r); [done|]. replace (r >=? 0) with false by lia. apply runs_ret.
    + intros HC'. specialize (HC1 (HC HC')). lia.
Qed.

Abbreviation tlen := (Z.of_nat (length text)).
Abbreviation ain s := (atom_in cflags eflags text s).
Abbreviation cin s := (chain_in cflags eflags text s).
Abbreviation pin s := (pieces_in cflags eflags text s).

Lemma atom_in_det s1 s2 a i j k : simple a = true → wf_atom groups a = true → 0 <= i <= tlen → ain s1 a i j → ain s2 a i k → j = k.
Proof.
  intros Hs Hwf Hi H1 H2. inversion H1 as [? ? ? S1|?|]; subst; [|by inversion H2|done].
  inversion H2 as [? ? ? S2|?|]; subst; [|done|done].
  destruct (matchsimple_ok groups a i eflags Hwf Hs) as (r & _ & _ & Hu); [by intros k' ->|done|].
  apply Hu in S1, S2. lia.
Qed.

Lemma chain_range s a n i j : wf_atom groups a = true → simple a = true → 0 <= i <= tlen → cin s a n i j → i <= j <= tlen.
Proof.
  intros Hwf Hs Hi Hc. induction Hc as [|a n i j k Hc IH Ha]; [lia|]. specialize (IH Hwf Hs Hi). inversion Ha as [? ? ? Sa|?|]; subst; [|lia|done].
  apply simple_in_range in Sa; lia.
Qed.

Lemma chain_det s1 s2 a n i j k : simple a = true → wf_atom groups a = true → 0 <= i <= tlen → cin s1 a n i j → cin s2 a n i k → j = k.
Proof.
  intros Hs Hwf Hi H1. revert k. induction H1 as [|a n i j j' Hc IH Ha]; intros k H2; inversion H2 as [|? ? ? m ? Hc2 Ha2]; subst; [done|].
  specialize (IH Hs Hwf Hi _ Hc2) as ->. eapply atom_in_det; [done|done| |exact Ha|exact Ha2]. pose proof (chain_range _ _ _ _ _ Hwf Hs Hi Hc2). lia.
Qed.

Lemma chain_prefix s a n m i j : cin s a (m + n) i j → (0 < m)%nat → ∃ k k', cin s a n i k ∧ ain s a k k'.
Proof.
  revert j. induction m as [|m IH]; intros j Hc Hm; [lia|]. cbn in Hc. inversion Hc as [|? ? ? k ? Hc' Ha]; subst.
  destruct m as [|m]; [by exists k, j|]. apply (IH k); [done|lia].
Qed.

(** The offsets of the matches of [a] from [ofs] on. *)
Inductive stack (a : atom) (ofs : Z) : list Z → Z → Prop :=
| stack_0 : stack a ofs [0] 0
| stack_S offs ml o : stack a ofs offs ml → ain false a (ofs + ml) (ofs + ml + o) → 0 <= o → ofs + ml + o <= tlen → stack a ofs (o :: offs) (ml + o).

Lemma stack_chain a ofs offs ml : ofs <= tlen → stack a ofs offs ml →
  cin false a (length offs - 1) ofs (ofs + ml) ∧ 0 <= ml ∧ ofs + ml <= tlen ∧ (0 < length offs)%nat.
Proof.
  intros Ho. induction 1 as [|offs ml o Hs (IH & Hml & Hl & Hn) Ha Hoo Hlen]; [split_and!; [rewrite Z.add_0_r; apply chain_0|lia|lia|simpl; lia]|].
  split_and!; [|lia|lia|simpl; lia]. cbn [length]. replace (S (length offs) - 1)%nat with (S (length offs - 1)) by lia.
  eapply chain_S; [done|]. by rewrite Z.add_assoc.
Qed.

Section repetition.
Variables (a : atom) (ofs : Z).
Hypothesis Hwf : wf_atom groups a = true.
Hypothesis Hofs : 0 <= ofs <= tlen.

Lemma greedy_ok (m : Z → RM Z) room n : ∀ ml offs,
  (∀ ml, 0 <= ml → ofs + ml <= tlen →
     good (λ r, ain false a (ofs + ml) (ofs + ml + r) ∧ ofs + ml + r <= tlen) (simple a = true ∧ ∃ j, ain true a (ofs + ml) j) (m ml)) →
  stack a ofs offs ml → Z.of_nat (length offs + n) <= room →
  ∃ ml' offs', runs (greedy m room n ml offs) (ml', offs') ∧
    stack a ofs offs' ml' ∧ (length offs' <= length offs + n)%nat ∧
    (simple a = true → ∀ k j, cin true a k ofs j → (k < length offs + n)%nat → (k < length offs')%nat).
Proof.
  intros ml offs Hm. revert ml offs. induction n as [|n IH]; intros ml offs Hst Hroom; cbn [greedy].
  { exists ml, offs. split_and!; auto using runs_ret with lia. }
  destruct (stack_chain a ofs offs ml ltac:(lia) Hst) as (Hch & Hml & Hle & Hn).
  destruct (Hm ml Hml Hle) as (r & E & HX & HC).
  destruct (Z.geb_spec r 0) as [Hr|Hr].
  - destruct (HX Hr) as [Ha Hlen].
    destruct (IH (ml + r) (r :: offs)) as (ml' & offs' & E' & Hst' & Hlen' & Hall); [by constructor; auto; lia|simpl; lia|].
    cbn [length] in *. exists ml', offs'. split_and!; [|done|lia|].
    + apply (runs_bind _ _ r); [done|]. replace (r >=? 0) with true by lia. by replace (room <=? Z.of_nat (length offs)) with false by lia.
    + intros Hs k j Hc Hk. apply (Hall Hs k j Hc). lia.
  - exists ml, offs. split_and!; [|done|lia|].
    { apply (runs_bind _ _ r); [done|]. replace (r >=? 0) with false by lia. apply runs_ret. }
    intros Hs k j Hc Hk. destruct (decide (k < length offs)%nat) as [|Hge]; [done|]. exfalso.
    destruct (chain_prefix true a (length offs - 1) (k - (length offs - 1)) ofs j) as (x & y & Hx & Hy); [by replace (_ + _)%nat with k by lia|lia|].
    pose proof (chain_det _ _ _ _ _ _ _ Hs Hwf Hofs Hch Hx) as <-. specialize (HC (conj Hs (ex_intro _ y Hy))). lia.
Qed.

Lemma back_off_ok (m : Z → RM Z) (X : Z → Z → Prop) (C : Z → Prop) offs ml :
  (∀ ml, 0 <= ml → ofs + ml <= tlen → good (X ml) (C ml) (m ml)) → stack a ofs offs ml →
  good (λ r, ∃ n ml', (n < length offs)%nat ∧ cin false a n ofs (ofs + ml') ∧ 0 <= ml' ∧ X ml' r)
    (simple a = true ∧ ∃ n j, (n < length offs)%nat ∧ cin true a n ofs j ∧ C (j - ofs)) (back_off m offs ml).
Proof.
  intros Hm Hst. induction Hst as [|offs ml o Hst IH Ha Ho Hlen]; cbn [back_off].
  - destruct (Hm 0 ltac:(lia) ltac:(lia)) as (r & E & HX & HC).
    exists r. split; [apply (runs_bind _ _ r); [done|destruct (r >=? 0); apply runs_ret]|]. split.
    + intros Hr. exists 0%nat, 0. split_and!; [simpl; lia|rewrite Z.add_0_r; apply chain_0|lia|auto].
    + intros (Hs & n & j & Hn & Hc & HCj). simpl in Hn. assert (n = 0%nat) as -> by lia. inversion Hc; subst. apply HC. by rewrite Z.sub_diag in HCj.
  - destruct (stack_chain a ofs _ _ ltac:(lia) (stack_S a ofs offs ml o Hst Ha Ho Hlen)) as (Hch & Hml & Hle & _).
    destruct (Hm (ml + o) Hml Hle) as (r & E & HX & HC).
    destruct (Z.geb_spec r 0) as [Hr|Hr].
    + exists r. split; [apply (runs_bind _ _ r); [done|]; replace (r >=? 0) with true by lia; apply runs_ret|]. split; [|done].
      intros _. exists (length (o :: offs) - 1)%nat, (ml + o). split_and!; [simpl; lia|done|lia|auto].
    + destruct IH as (r' & E2 & HX2 & HC2).
      exists r'. split; [|split].
      * apply (runs_bind _ _ r); [done|]. replace (r >=? 0) with false by lia. replace (ml + o - o) with ml by lia. inversion Hst; subst; exact E2.
      * intros Hr'. destruct (HX2 Hr') as (n & ml' & Hn & ?). exists n, ml'. split; [simpl; lia|done].
      * intros (Hs & n & j & Hn & Hc & HCj). apply HC2. split; [done|]. exists n, j. split; [|done].
        destruct (decide (n = length offs)) as [->|]; [|simpl in Hn; lia]. exfalso.
        cbn [length] in Hch. replace (S (length offs) - 1)%nat with (length offs) in Hch by lia.
        pose proof (chain_det _ _ _ _ _ _ _ Hs Hwf Hofs Hch Hc) as <-. replace (ofs + (ml + o) - ofs) with (ml + o) in HCj by lia.
        specialize (HC HCj). lia.
Qed.
End repetition.

(** ** The tree *)

Hypothesis Hroom : ∀ n, 0 <= n → n < alloca n.

Definition simple_pieces (ps : list piece) : bool := forallb (λ p, simple (p_atom p)) ps.
Definition need (ps : list piece) : nat := list_sum (size_piece <$> ps).

(** What is found by a computation that begins at [ofs] with [plus]. *)
Definition found (P : Z → Prop) (ofs plus r : Z) : Prop := ∃ k, P k ∧ ofs <= k <= tlen ∧ r = plus + (k - ofs).

Definition atom_spec (fuel : nat) : Prop := ∀ a rest ofs plus,
  wf_atom groups a = true → forallb (wf_piece groups) rest = true → 0 <= ofs <= tlen → 0 <= plus →
  (size_atom a + need rest < fuel)%nat →
  good (found (λ k, ∃ j, ain false a ofs j ∧ ofs <= j ∧ pin false rest j k) ofs plus)
    (simple a = true ∧ simple_pieces rest = true ∧ ∃ j k, ain true a ofs j ∧ pin true rest j k)
    (matchatom alloca cflags text fuel a rest ofs plus eflags).

Definition piece_spec (fuel : nat) : Prop := ∀ p rest ofs plus,
  forallb (wf_piece groups) (p :: rest) = true → 0 <= ofs <= tlen → 0 <= plus → (once p = true → plus = 0) →
  (need (p :: rest) < fuel)%nat →
  good (found (λ k, pin false (p :: rest) ofs k) ofs plus)
    (simple_pieces (p :: rest) = true ∧ ∃ k, pin true (p :: rest) ofs k)
    (matchpiece alloca cflags text fuel p rest ofs plus eflags).

Definition regex_spec (fuel : nat) : Prop := ∀ r ofs,
  wf_regex groups r = true → 0 <= ofs <= tlen → (size_regex r < fuel)%nat →
  good (found (λ k, regex_in cflags eflags text false r ofs k) ofs 0)
    (simple_regex r = true ∧ ∃ k, regex_in cflags eflags text true r ofs k)
    (matchregex alloca cflags text fuel r ofs 0 eflags).

Lemma once_count p s n : once p = true → count_ok s p n ↔ n = 1%nat.
Proof.
  unfold once, count_ok. intros Ho. split; [intros (_ & H1 & _); apply H1; unfold once; by rewrite Ho|].
  intros ->. split_and!; [lia|done|intros _; lia].
Qed.

Lemma pieces_once s p ps i k : once p = true → pin s (p :: ps) i k ↔ ∃ j, ain s (p_atom p) i j ∧ pin s ps j k.
Proof.
  intros Ho. split.
  - intros Hp. inversion Hp as [|? ? n ? j ? Hc Hn Hps]; subst. apply once_count in Hn as ->; [|done].
    inversion Hc as [|? ? ? x ? Hc0 Ha]; subst. inversion Hc0; subst. by exists j.
  - intros (j & Ha & Hps). eapply pieces_cons; [eapply chain_S; [apply chain_0|exact Ha]|by apply once_count|exact Hps].
Qed.

(** Going on with the pieces that are left. *)
Lemma next_ok fuel rest ofs plus :
  atom_spec fuel → piece_spec fuel → forallb (wf_piece groups) rest = true → 0 <= ofs <= tlen → 0 <= plus → (need rest < fuel)%nat →
  good (found (λ k, pin false rest ofs k) ofs plus) (simple_pieces rest = true ∧ ∃ k, pin true rest ofs k)
    (match rest with
     | [] => mret plus
     | q :: rest => if once q then matchatom alloca cflags text fuel (p_atom q) rest ofs plus eflags
                    else matchpiece alloca cflags text fuel q rest ofs plus eflags
     end).
Proof.
  intros HA HP Hwf Ho Hpl Hf. destruct rest as [|q rest].
  - apply good_ret; [|lia]. intros _. exists ofs. split_and!; [apply pieces_nil|lia|lia|lia].
  - destruct (once q) eqn:Eo; [|apply HP; auto; by rewrite Eo].
    cbn [forallb] in Hwf. apply andb_true_iff in Hwf as [Hq Hwf]. unfold need in Hf. cbn [fmap list_fmap list_sum foldr] in Hf.
    assert (size_piece q = S (size_atom (p_atom q))) as Esz by (by destruct q). fold (list_sum (size_piece <$> rest)) in Hf.
    eapply good_weaken; [apply HA; [by destruct q as [a ? ?]; cbn in Hq; apply andb_true_iff in Hq as [[? _]%andb_true_iff _]|done|done|done|unfold need; lia]| |].
    + intros r _ (k & (j & Ha & _ & Hps) & Hk & ->). exists k. split_and!; [|lia|lia|done]. apply pieces_once; eauto.
    + intros [Hs (k & Hp)]. apply pieces_once in Hp as (j & Ha & Hp); [|done]. cbn [simple_pieces forallb] in Hs. apply andb_true_iff in Hs as [? ?]. eauto 10.
Qed.

Lemma runs_set_match k so eo : 0 <= k < groups → runs (set_match k so eo) tt.
Proof.
  intros Hk l Hl. exists (<[Z.to_nat k := Some (so, eo)]> l). split; [|by rewrite length_insert].
  unfold set_match. by replace ((0 <=? k) && (k <? Z.of_nat (length l))) with true by lia.
Qed.
Lemma good_set_match X C k so eo m : 0 <= k < groups → good X C m → good X C (set_match k so eo ≫= λ _, m).
Proof. intros Hk (r & E & ?). exists r. split; [|done]. eapply runs_bind; [by apply runs_set_match|done]. Qed.

Lemma atom_step fuel : atom_spec fuel → piece_spec fuel → regex_spec fuel → atom_spec (S fuel).
Proof.
  intros HA HP HR a rest ofs plus Hwf Hrest Ho Hpl Hf.
  set (next := λ ml, match rest with
     | [] => mret (plus + ml)
     | q :: rest => if once q then matchatom alloca cflags text fuel (p_atom q) rest (ofs + ml) (plus + ml) eflags
                    else matchpiece alloca cflags text fuel q rest (ofs + ml) (plus + ml) eflags
     end).
  assert (∀ s j, simple_in cflags eflags text a ofs j → ain s a ofs j) as Hin by (intros; by apply in_simple).
  assert (∀ ml, 0 <= ml → ofs + ml <= tlen → good (found (λ k, pin false rest (ofs + ml) k) (ofs + ml) (plus + ml))
    (simple_pieces rest = true ∧ ∃ k, pin true rest (ofs + ml) k) (next ml)) as Hnext.
  { intros ml Hml Hle. apply (next_ok fuel rest); auto; [lia|lia|]. destruct a; cbn in Hf; lia. }
  assert (∀ ml r, found (λ k, pin false rest (ofs + ml) k) (ofs + ml) (plus + ml) r → 0 <= ml → ain false a ofs (ofs + ml) →
    found (λ k, ∃ j, ain false a ofs j ∧ ofs <= j ∧ pin false rest j k) ofs plus r) as Hfound.
  { intros ml r (k & Hp & Hk & ->) Hml Ha. exists k. split_and!; [exists (ofs + ml); split_and!; [done|lia|done]|lia|lia|lia]. }
  assert (simple a = true ∧ (∀ k, a ≠ EMPTY k) ∨ (∃ k, a = EMPTY k) ∨ ∃ k r, a = REGEX k r) as [[Hs He]|[[k ->]|(k & r & ->)]].
  { destruct a; try done; try (by left; split; [|done]); eauto. }
  - destruct (matchsimple_ok groups a ofs eflags Hwf Hs He Ho) as (r & Em & Hr & Hu).
    assert (good (found (λ k, ∃ j, ain false a ofs j ∧ ofs <= j ∧ pin false rest j k) ofs plus)
      (simple a = true ∧ simple_pieces rest = true ∧ ∃ j k, ain true a ofs j ∧ pin true rest j k)
      (matchlen ← matchsimple cflags text a ofs eflags; if matchlen >=? 0 then next matchlen else mret (-1))) as Hg.
    { assert (∀ s j, ain s a ofs j → r = j - ofs) as Hu'.
      { intros s j Ha. apply Hu. inversion Ha; subst; [done|by destruct (He n)|done]. }
      eapply (good_bind (λ r', r' = r) (∃ j, ain true a ofs j)).
      - exists r. split; [intros l Hl; exists l; by split; [apply Em|]|]. split; [done|]. intros [j Ha]. pose proof (Hu' _ _ Ha).
        inversion Ha as [? ? ? Sa|?|]; subst; [apply simple_in_range in Sa; lia|lia|done].
      - intros r' Hr' ->. specialize (Hr Hr'). pose proof (simple_in_range _ _ _ _ Ho Hr).
        eapply good_weaken; [apply Hnext; lia|intros r'' _ Hf'; eapply Hfound; [exact Hf'|lia|by apply Hin]|].
        intros (_ & ? & j & k & Ha & Hp). split; [done|]. exists k. apply Hu' in Ha. by replace (ofs + r) with j by lia.
      - intros (_ & _ & j & _ & Ha & _). eauto. }
    destruct a; try done; [by destruct (He bnum)|..]; exact Hg.
  - cbn [wf_atom] in Hwf. apply andb_true_iff in Hwf as [Hk0 Hk]. cbn [matchatom]. replace (k >=? 0) with true by lia.
    apply good_set_match; [lia|].
    eapply good_weaken; [apply (Hnext 0); lia|intros r'' _ Hf'; eapply Hfound; [exact Hf'|lia|rewrite Z.add_0_r; apply in_empty]|].
    intros (_ & ? & j & k' & Ha & Hp). split; [done|]. exists k'. rewrite Z.add_0_r. by inversion Ha; subst.
  - cbn [wf_atom] in Hwf. apply andb_true_iff in Hwf as [[Hk0 Hk]%andb_true_iff Hwf]. cbn [matchatom].
    eapply (good_bind (found (λ j, regex_in cflags eflags text false r ofs j) ofs 0)).
    + eapply (good_weaken _ _ _ False); [apply HR; [done|done|cbn in Hf; lia]|done|done].
    + intros ml Hml (j & Hr & Hj & ->). apply good_set_match; [lia|].
      eapply good_weaken; [apply (Hnext (0 + (j - ofs))); lia| |].
      * intros r'' _ Hf'. eapply Hfound; [exact Hf'|lia|]. replace (ofs + (0 + (j - ofs))) with j by lia. by apply in_group.
      * by intros [? _].
    + by intros [? _].
Qed.

Lemma wf_piece_inv p : wf_piece groups p = true → wf_atom groups (p_atom p) = true ∧ 0 <= p_min p ∧ 0 <= p_max p ∧ size_piece p = S (size_atom (p_atom p)).
Proof. destruct p as [a mn mx]. cbn. intros [[? ?]%andb_true_iff ?]%andb_true_iff. split_and!; try done; lia. Qed.

Lemma piece_step fuel : atom_spec fuel → piece_spec fuel → piece_spec (S fuel).
Proof.
  intros HA HP p rest ofs plus Hwf Ho Hpl Honce Hf. cbn [forallb] in Hwf. apply andb_true_iff in Hwf as [Hp Hrest].
  destruct (wf_piece_inv p Hp) as (Ha & Hmin & Hmax & Hsz).
  assert (size_piece p + need rest < S fuel)%nat as Hf' by exact Hf. clear Hf.
  cbn [matchpiece]. replace (alloca (p_max p) <=? 0) with false by (pose proof (Hroom (p_max p) Hmax); lia).
  destruct (once p) eqn:Eo.
  { rewrite (Honce eq_refl). eapply good_weaken; [apply HA; auto; lia| |].
    - intros r _ (k & (j & Hj & _ & Hps) & Hk & ->). exists k. split_and!; [apply pieces_once; eauto|lia|lia|done].
    - intros [[Hs Hss]%andb_true_iff (k & Hps)]. apply pieces_once in Hps as (j & ? & ?); [|done]. eauto 10. }
  destruct (greedy_ok (p_atom p) ofs Ha Ho (λ matchlen, matchatom alloca cflags text fuel (p_atom p) [] (ofs + matchlen) 0 eflags)
    (alloca (p_max p)) (Z.to_nat (p_max p)) 0 [0]) as (ml & offs & E & Hst & Hlen & Hall).
  { intros ml Hml Hle. eapply good_weaken; [apply (HA (p_atom p) [] (ofs + ml) 0); auto; cbn; lia| |].
    - intros r _ (k & (j & Hj & _ & Hps) & Hk & ->). inversion Hps; subst. replace (ofs + ml + (0 + (k - (ofs + ml)))) with k by lia. split; [done|lia].
    - intros [Hs [j Hj]]. split_and!; [done|done|]. exists j, j. split; [done|apply pieces_nil]. }
  { apply stack_0. } { pose proof (Hroom (p_max p) Hmax). cbn. lia. }
  cbn [length] in *.
  assert (∀ n j, cin true (p_atom p) n ofs j → count_ok true p n → simple (p_atom p) = true → (n < length offs)%nat) as Hcount.
  { intros n j Hc (Hn & _ & _) Hs. apply (Hall Hs n j Hc). lia. }
  destruct (Z.ltb_spec (Z.of_nat (length offs) - 1) (p_min p)) as [Hlt|Hge].
  { exists (-1). split; [eapply runs_bind; [exact E|]; cbv beta iota; replace (_ <? _) with true by lia; apply runs_ret|]. split; [lia|].
    intros [[Hs _]%andb_true_iff (k & Hps)]. inversion Hps as [|? ? n ? j ? Hc Hn _]; subst.
    pose proof (Hcount n j Hc Hn Hs). destruct Hn as (_ & _ & Hn). specialize (Hn I). lia. }
  assert (∀ ml, 0 <= ml → ofs + ml <= tlen → good (found (λ k, pin false rest (ofs + ml) k) (ofs + ml) (plus + ml))
    (simple_pieces rest = true ∧ ∃ k, pin true rest (ofs + ml) k)
    (match rest with
     | [] => mret (plus + ml)
     | q :: rest => if once q then matchatom alloca cflags text fuel (p_atom q) rest (ofs + ml) (plus + ml) eflags
                    else matchpiece alloca cflags text fuel q rest (ofs + ml) (plus + ml) eflags
     end)) as Hnext by (intros ml' Hml Hle; apply (next_ok fuel rest); auto; lia).
  destruct (back_off_ok (p_atom p) ofs Ha Ho _ _ _ offs ml Hnext Hst) as (r & Er & HX & HC).
  exists r. split; [eapply runs_bind; [exact E|]; cbv beta iota; replace (_ <? _) with false by lia; exact Er|]. split.
  - intros Hr. destruct (HX Hr) as (n & ml' & Hn & Hc & Hml & (k & Hps & Hk & ->)). exists k. split_and!; [|lia|lia|lia].
    eapply pieces_cons; [exact Hc| |exact Hps]. split_and!; [lia|by rewrite Eo|done].
  - intros [[Hs Hss]%andb_true_iff (k & Hps)]. inversion Hps as [|? ? n ? j ? Hc Hn Hps']; subst.
    apply HC. split; [done|]. exists n, j. split_and!; [by eapply Hcount|done|done|]. exists k. by replace (ofs + (j - ofs)) with j by lia.
Qed.

(** *** Alternatives *)

Lemma branch_shape p ps : wf_branch groups (mk_branch false (p :: ps)) = true →
  p = mk_piece EMPTY_ALT 1 1 ∨
  forallb (wf_piece groups) (p :: ps) = true ∧ simple_branch (mk_branch false (p :: ps)) = simple_pieces (p :: ps) ∧
  ∀ s i j, branch_in cflags eflags text s (mk_branch false (p :: ps)) i j → pin s (p :: ps) i j.
Proof.
  destruct p as [a mn mx]. intros Hwf. assert (a = EMPTY_ALT ∨ a ≠ EMPTY_ALT) as [->|Ha] by (destruct a; auto).
  - left. cbn in Hwf. f_equal; lia.
  - right. split; [by destruct a|]. split; [by destruct a|]. intros s i j Hb. by inversion Hb; subst.
Qed.

Definition branch_spec (fuel : nat) : Prop := ∀ b ofs,
  wf_branch groups b = true → 0 <= ofs <= tlen → (size_branch b < fuel)%nat →
  good (found (λ k, branch_in cflags eflags text false b ofs k) ofs 0)
    (simple_branch b = true ∧ ∃ k, branch_in cflags eflags text true b ofs k) (matchbranch alloca cflags text fuel b ofs 0 eflags).

Lemma branch_step fuel : piece_spec fuel → branch_spec (S fuel).
Proof.
  intros HP b ofs Hwf Ho Hf. destruct b as [[] ps]; cbn [matchbranch].
  - apply good_ret; [|lia]. intros _. exists ofs. split_and!; [apply branch_empty|lia..].
  - destruct ps as [|p ps]; [done|]. cbn in Hf. destruct (branch_shape p ps Hwf) as [->|(Hwf' & Es & Hpin)].
    + cbn in Hf. destruct fuel as [|[|fuel]]; [lia|lia|]. cbn [matchpiece p_max].
      replace (alloca 1 <=? 0) with false by (pose proof (Hroom 1); lia). cbn [once p_min p_max p_atom matchatom].
      exists 0. split; [exact (runs_ret 0)|]. split; [|lia]. intros _. exists ofs. split_and!; [apply branch_empty_alt|lia..].
    + destruct (HP p ps ofs 0 Hwf' Ho ltac:(lia) ltac:(done) ltac:(unfold need; cbn; lia)) as (r & E & HX & HC).
      exists (if r >=? 0 then 0 + r else -1). rewrite Es. split; [eapply runs_bind; [exact E|apply runs_ret]|]. split.
      * destruct (Z.geb_spec r 0); [|lia]. intros _. destruct (HX ltac:(lia)) as (k & Hp & Hk & ->).
        exists k. split_and!; [by apply branch_pieces|lia..].
      * intros [Hs [k Hk]]. destruct (Z.geb_spec r 0); [lia|]. enough (0 <= r) by lia. apply HC. eauto.
Qed.

Lemma regex_step fuel : branch_spec fuel → regex_spec fuel → regex_spec (S fuel).
Proof.
  intros HB HR [[] n bs] ofs Hwf Ho Hf; cbn [matchregex].
  { apply good_ret; [|lia]. intros _. exists ofs. split_and!; [apply regex_empty|lia..]. }
  destruct bs as [|b bs].
  { apply good_ret; [lia|]. intros [_ [k Hk]]. inversion Hk as [|? ? ? ? ? Hin]; subst. by apply elem_of_nil in Hin. }
  cbn [wf_regex forallb] in Hwf. apply andb_true_iff in Hwf as [Hb Hbs]. cbn in Hf.
  destruct (HB b ofs Hb Ho ltac:(lia)) as (r & E & HX & HC).
  destruct (Z.geb_spec r 0) as [Hr|Hr].
  - exists (0 + r). split; [eapply runs_bind; [exact E|]; replace (r >=? 0) with true by lia; apply runs_ret|]. split; [|lia].
    intros _. destruct (HX Hr) as (k & Hk & ? & ->).
    exists k. split_and!; [|lia|lia|lia]. eapply regex_branch; [apply elem_of_cons; by left|done].
  - destruct (HR (mk_regex false n bs) ofs Hbs Ho ltac:(cbn; unfold list_sum; lia)) as (r2 & E2 & HX2 & HC2).
    exists r2. split; [eapply runs_bind; [exact E|]; replace (r >=? 0) with false by lia; exact E2|]. split.
    + intros Hr2. destruct (HX2 Hr2) as (k & Hk & ?). exists k. split; [|done]. inversion Hk; subst. eapply regex_branch; [apply elem_of_cons; by right|done].
    + intros [[Hs Hss]%andb_true_iff [k Hk]]. inversion Hk as [|? b' ? ? ? Hin Hb']; subst. apply elem_of_cons in Hin as [->|Hin].
      * specialize (HC (conj Hs (ex_intro _ k Hb'))). lia.
      * apply HC2. split; [done|]. exists k. by eapply regex_branch.
Qed.

Lemma regex_ok fuel : regex_spec fuel.
Proof.
  enough (atom_spec fuel ∧ piece_spec fuel ∧ branch_spec fuel ∧ regex_spec fuel) by tauto.
  induction fuel as [|fuel (HA & HP & HB & HR)]; [split_and!; repeat intro; lia|].
  split_and!; [by apply atom_step|by apply piece_step|by apply branch_step|by apply regex_step].
Qed.
End facts.

(** ** The search *)

(** The flags at a position: only at the first one a line can begin. *)
Definition flags_at (eflags i : Z) : Z := if i =? 0 then eflags else Z.lor eflags REG_NOTBOL.

Lemma flags_at_next eflags i : 0 <= i → Z.lor (flags_at eflags i) REG_NOTBOL = flags_at eflags (i + 1).
Proof.
  intros Hi. unfold flags_at. replace (i + 1 =? 0) with false by lia. destruct (i =? 0); [done|]. by rewrite <- Z.lor_assoc.
Qed.

Lemma flags_at_notbol eflags i : 0 < i → flag (flags_at eflags i) REG_NOTBOL.
Proof.
  intros Hi. unfold flags_at, flag. replace (i =? 0) with false by lia. rewrite Z.land_lor_distr_l. change (Z.land REG_NOTBOL REG_NOTBOL) with 1.
  rewrite Is_true_true. apply negb_true_iff, Z.eqb_neq. intros E. apply (f_equal (λ z, Z.testbit z 0)) in E. rewrite Z.lor_spec in E.
  change (Z.testbit 1 0) with true in E. by rewrite orb_true_r, Z.bits_0 in E.
Qed.

Lemma anchored cflags e text groups n bs i j :
  all_linestart bs = Some true → forallb (wf_branch groups) bs = true → forallb anchor_needed bs = true → flag e REG_NOTBOL →
  ¬ regex_in cflags e text true (mk_regex false n bs) i j.
Proof.
  intros Hall Hwf Han He Hr. inversion Hr as [|? b ? ? ? Hin Hb]; subst. clear Hr. induction bs as [|b' bs IH]; [by apply elem_of_nil in Hin|].
  cbn [forallb] in Hwf, Han. apply andb_true_iff in Hwf as [Hwb Hwf], Han as [Hnb Han]. destruct b' as [m [|[a mn mx] ps]]; [done|].
  cbn [all_linestart p_atom] in Hall. destruct a; try done. apply elem_of_cons in Hin as [->|Hin]; [|by apply IH].
  destruct m; [done|]. inversion Hb as [| |? ? ? ? Hp]; subst. inversion Hp as [|? ? k ? x ? Hc Hn _]; subst. clear Hp Hb.
  destruct Hn as (_ & _ & Hn). specialize (Hn I). cbn in Hn, Hnb, Hc. destruct k as [|k]; [lia|].
  inversion Hc as [|? ? ? ? ? _ Ha]; subst. inversion Ha as [? ? ? Hs|?|]; subst. by destruct Hs as (_ & Hs & _).
Qed.

(** What a search from [ofs] on has found. *)
Definition search_post (preg : regex_t) (text : list Z) (eflags ofs : Z) (res : option (Z * Z)) (l : matches) : Prop :=
  let r := Regex.r preg in
  let lang s i j := regex_in (cflags_ preg) (flags_at eflags i) text s r i j in
  let complete i := simple_regex r = true → anchors_needed r = true → ∀ j, ¬ lang true i j in
  match res with
  | Some (i, n) => ofs <= i ∧ 0 <= n ∧ i + n <= Z.of_nat (length text) ∧ lang false i (i + n) ∧ l !! 0%nat = Some (Some (i, i + n)) ∧
      ∀ i', ofs <= i' < i → complete i'
  | None => ∀ i', ofs <= i' <= Z.of_nat (length text) → complete i'
  end.

Section search.
Variable alloca : Z → Z.
Hypothesis Hroom : ∀ n, 0 <= n → n < alloca n.
Variable text : list Z.
Hypothesis Htext : Forall (λ c, 0 < c < 256) text.
Variable preg : regex_t.
Hypothesis Hwf : wf_regex (brackets_ preg + 3) (Regex.r preg) = true.
Hypothesis Hbr : 0 <= brackets_ preg.
Variable eflags : Z.

(** The second run of the matcher finds the same. *)
Lemma record_match (mm : RM Z) m ofs l : runs (brackets_ preg + 3) mm m → Z.of_nat (length l) = brackets_ preg + 3 →
  ∃ l', (matched ← mm; _ ← set_match 0 ofs (ofs + matched); mret (Some (ofs, matched))) l = Ok (Some (ofs, m), l') ∧
    length l' = length l ∧ l' !! 0%nat = Some (Some (ofs, ofs + m)).
Proof.
  intros Hm Hl. destruct (Hm l Hl) as (l1 & E & Hl1). exists (<[0%nat := Some (ofs, ofs + m)]> l1). rewrite (bind_Ok _ _ _ _ _ E). split.
  - erewrite bind_Ok; [reflexivity|]. unfold set_match. by replace ((0 <=? 0) && (0 <? Z.of_nat (length l1))) with true by lia.
  - rewrite length_insert. split; [lia|]. apply list_lookup_insert_eq. lia.
Qed.

Lemma search_ok fuel n : ∀ ofs early l,
  (size_regex (Regex.r preg) < fuel)%nat → 0 <= ofs → ofs + Z.of_nat n = Z.of_nat (length text) →
  (early = true → let '(mk_regex _ _ bs) := Regex.r preg in all_linestart bs = Some true) →
  Z.of_nat (length l) = brackets_ preg + 3 →
  ∃ res l', search alloca fuel preg text n ofs early (flags_at eflags ofs) l = Ok (res, l') ∧
    length l' = length l ∧ search_post preg text eflags ofs res l'.
Proof.
  induction n as [|n IH]; intros ofs early l Hf Ho Hlen Hearly Hl; cbn [search];
    destruct (regex_ok alloca (cflags_ preg) text Htext (flags_at eflags ofs) (brackets_ preg + 3) Hroom fuel (Regex.r preg) ofs Hwf ltac:(lia) Hf)
      as (m & Hm & HX & HC);
    destruct (Hm l Hl) as (l1 & E1 & Hl1); rewrite (bind_Ok _ _ _ _ _ E1);
    assert (m < 0 → simple_regex (Regex.r preg) = true → ∀ j, ¬ regex_in (cflags_ preg) (flags_at eflags ofs) text true (Regex.r preg) ofs j) as Hno
      by (intros Hm0 Hs j Hj; specialize (HC (conj Hs (ex_intro _ j Hj))); lia);
    destruct (Z.geb_spec m 0) as [Hm0|Hm0].
  1, 3: destruct (record_match _ m ofs l1 Hm Hl1) as (l2 & E2 & Hl2 & Hl0); exists (Some (ofs, m)), l2; split; [exact E2|];
    destruct (HX Hm0) as (k & Hk & Hkr & ->); split; [lia|];
    split_and!; [lia|lia|lia|by replace (ofs + (0 + (k - ofs))) with k by lia|done|lia].
  - exists None, l1. split; [done|]. split; [lia|]. intros i Hi Hs _. replace i with ofs by lia. by apply Hno.
  - destruct early.
    + exists None, l1. split; [done|]. split; [lia|]. intros i Hi Hs Han. destruct (decide (i = ofs)) as [->|]; [by apply Hno|].
      specialize (Hearly eq_refl). destruct (Regex.r preg) as [re k bs]. intros j. destruct re; [|eapply anchored; [done|exact Hwf|exact Han|apply flags_at_notbol; lia]].
      exfalso. eapply (Hno ltac:(lia) Hs ofs). apply regex_empty.
    + rewrite flags_at_next by done. destruct (IH (ofs + 1) false l1) as (res & l2 & E2 & Hl2 & Hp); [done|lia|lia|done|done|].
      exists res, l2. split; [done|]. split; [lia|]. destruct res as [[i k]|].
      * destruct Hp as (? & ? & ? & ? & ? & Hp). split_and!; try done; [lia|]. intros i' Hi' Hs Han.
        destruct (decide (i' = ofs)) as [->|]; [by apply Hno|apply Hp; [lia|done|done]].
      * intros i' Hi' Hs Han. destruct (decide (i' = ofs)) as [->|]; [by apply Hno|apply Hp; [lia|done|done]].
Qed.
End search.

(** What [regexec] has to know about the branches does not lead through a null pointer. *)
Definition ready (preg : regex_t) : bool :=
  let '(mk_regex _ _ bs) := Regex.r preg in
  flag (cflags_ preg) REG_NEWLINE || match all_linestart bs with Some _ => true | None => false end.


