(* ===== verification/RegexParse.v ===== *)
(** * What the parser of regular expressions makes

    [regcomp] returns for every pattern, and its trees are the ones that [RegexFacts] is
    about when the pattern has no backslashes. *)

From S2P Require Import Prelude Ctype Convert Regex RegexSpec RegexFacts.

(** The characters of patterns without quoting. *)
Definition plain (c : Z) : Prop := -128 <= c < 128 ∧ c ≠ 0 ∧ c ≠ CH "\".

Lemma plain_suffix s t : t `suffix_of` s → Forall plain s → Forall plain t.
Proof. intros [k ->] [_ ?]%Forall_app. done. Qed.

Lemma suffix_length {A} (s t : list A) : t `suffix_of` s → (length t <= length s)%nat.
Proof. intros [k ->]. rewrite length_app. lia. Qed.

Lemma suffix_tail {A} (s : list A) : tail s `suffix_of` s.
Proof. destruct s; [done|]. by apply suffix_cons_r. Qed.
Lemma suffix_drop {A} k (s : list A) : drop k s `suffix_of` s.
Proof. exists (take k s). by rewrite take_drop. Qed.

(** [t] is what is left of [s] behind something. *)
Definition behind (s t : list Z) : Prop := t `suffix_of` s ∧ (length t < length s)%nat.

Lemma behind_tail s : peek s 0 ≠ 0 → behind s (tail s).
Proof. intros Hs. split; [apply suffix_tail|]. destruct s; [done|simpl; lia]. Qed.
Lemma behind_suffix s t u : behind s t → u `suffix_of` t → behind s u.
Proof. intros [Hs Hl] Hu. split; [by etransitivity|]. apply suffix_length in Hu. lia. Qed.
Lemma behind_drop s k : (0 < k)%nat → peek s 0 ≠ 0 → behind s (drop k s).
Proof. intros Hk Hs. destruct k; [lia|]. destruct s; [done|]. split; [apply suffix_drop|]. cbn [drop length]. rewrite length_drop. lia. Qed.

(** ** Brackets, characters and repetitions *)

Section parse.
Variable cflags : Z.

Lemma setcc_length cc c cc' : setcc cc c = Some cc' → length cc' = length cc.
Proof. unfold setcc. destruct (cc_word cc c); cbn; [|done]. intros [= <-]. by rewrite length_insert. Qed.

Lemma set_range_length n : ∀ i cc cc', set_range cflags n i cc = Some cc' → length cc' = length cc.
Proof.
  induction n as [|n IH]; intros i cc cc'; cbn; [by intros [= ->]|]. destruct (setcc cc _) as [cc1|] eqn:E; cbn; [|done].
  intros H1%IH. apply setcc_length in E. congruence.
Qed.

Lemma forward_suffix n s t : forward n s = Some t → t = drop n s ∧ (n <= length s)%nat.
Proof. unfold forward. destruct (Nat.ltb_spec (length s) n); [done|]. by intros [= <-]. Qed.

Lemma bracket_loop_ok fuel : ∀ t cc r, bracket_loop cflags fuel t cc = Some (Some r) → length r.1 = length cc ∧ r.2 `suffix_of` t.
Proof.
  induction fuel as [|fuel IH]; intros t cc [cc' t'] E; cbn [bracket_loop] in E; [done|].
  destruct (peek t 0 =? 0); [done|]. destruct (setcc cc _) as [cc1|] eqn:E1; [|done]. cbn in E. apply setcc_length in E1.
  match type of E with (?m ≫= _) = _ => destruct m as [[t2 cc2]|] eqn:E2; [|done] end. cbn in E.
  assert (length cc2 = length cc ∧ t2 `suffix_of` t) as [Hl2 Ht2].
  { destruct (_ && _); [destruct (set_range _ _ _ cc1) as [cc3|] eqn:E3; [|done]; apply set_range_length in E3|]; cbn in E2;
      (destruct (forward _ t) as [t3|] eqn:E4; [|done]); apply forward_suffix in E4 as [-> _]; simplify_eq/=; (split; [lia|apply suffix_drop]). }
  destruct (peek t2 0 =? CH "]").
  - simplify_eq/=. split; [done|]. etransitivity; [apply suffix_tail|done].
  - apply IH in E as [? ?]. cbn in *. split; [lia|]. by etransitivity.
Qed.

Lemma parsebracketed_ok s cc t : peek s 0 ≠ 0 → parsebracketed cflags s = Some (Some (cc, t)) → length cc = 32%nat ∧ behind s t.
Proof.
  intros Hs. unfold parsebracketed. set (t0 := if peek (tail s) 0 =? CH "^" then tail (tail s) else tail s).
  assert (t0 `suffix_of` tail s) as Ht0 by (subst t0; destruct (_ =? _); [apply suffix_tail|done]).
  destruct (bracket_loop cflags _ t0 clearcc) as [[[cc' t']|]|] eqn:E; [|done..]. apply bracket_loop_ok in E as [Hl Ht]. cbn in Hl, Ht.
  intros [= <- <-]. split; [by destruct (_ =? _); rewrite ?length_fmap|].
  eapply behind_suffix; [by apply behind_tail|]. by etransitivity.
Qed.

Lemma foldp_nonzero c : -128 <= c < 128 → c ≠ 0 → foldp cflags c ≠ 0.
Proof. intros Hc H0. unfold foldp, tolower. repeat case_match; int_lia. Qed.

Lemma handle_char_ok s : peek s 0 ≠ 0 →
  behind s (handle_char cflags s).2 ∧ (Forall plain s → ∀ n, wf_atom n (handle_char cflags s).1 = true).
Proof.
  intros Hs. unfold handle_char. set (i := if in_chars (STR "*+?{") _ then _ else _).
  destruct (Nat.ltb_spec 2 i); cbn [fst snd].
  - split; [apply behind_drop; [lia|done]|]. intros Hp n. cbn [wf_atom]. apply forallb_forall. intros c Hc%list_elem_of_In.
    apply elem_of_take in Hc as (k & Hk & _). pose proof (Forall_lookup_1 _ _ _ _ Hp Hk) as (_ & ? & _). apply negb_true_iff. by apply Z.eqb_neq.
  - split; [by apply behind_tail|]. intros Hp n. cbn [wf_atom]. destruct s as [|c s]; [done|]. apply Forall_cons in Hp as [(Hc & H0 & _) _].
    apply negb_true_iff, Z.eqb_neq. by apply foldp_nonzero.
Qed.

Lemma parse_number_ok tmp : ∀ x, (parse_number x tmp).2 `suffix_of` tmp ∧ (0 <= x → 0 <= (parse_number x tmp).1).
Proof.
  induction tmp as [|c tmp IH]; intros x; cbn [parse_number]; [done|]. destruct (isdigit c); [|done].
  destruct (IH (u32 (u32 (x * 10 + c) - CH "0"))) as [Hs Hx]. split; [by apply suffix_cons_r|]. intros _. apply Hx. int_lia.
Qed.

Lemma number_ok s : isdigit (peek s 0) = true →
  let r := parse_number (peek s 0 - CH "0") (tail s) in r.2 `suffix_of` s ∧ (Forall plain s → 0 <= r.1).
Proof.
  intros Hd r. destruct (parse_number_ok (tail s) (peek s 0 - CH "0")) as [Hs Hx]. fold r in Hs, Hx.
  split; [etransitivity; [exact Hs|apply suffix_tail]|]. intros Hp. apply Hx. destruct s as [|c s]; [done|].
  apply Forall_cons in Hp as [(Hc & _) _]. change (peek (c :: s) 0) with c in *. unfold isdigit in Hd. int_lia.
Qed.

Lemma repetition_ok tmp mn mx t : repetition tmp = Some (mn, mx, t) →
  t `suffix_of` tmp ∧ (Forall plain tmp → 0 <= mn ∧ 0 <= mx).
Proof.
  unfold repetition. set (c := peek tmp 0).
  assert (∀ x y z, Some (x, y, z) = Some (mn, mx, t) → z `suffix_of` tmp → 0 <= x → 0 <= y → t `suffix_of` tmp ∧ (Forall plain tmp → 0 <= mn ∧ 0 <= mx)) as Hs
    by (by intros x y z [= -> -> ->] ? ? ?).
  destruct (c =? CH "*"); [intros; eapply Hs; eauto using suffix_tail; done|].
  destruct (c =? CH "+"); [intros; eapply Hs; eauto using suffix_tail; done|].
  destruct (c =? CH "?"); [intros; eapply Hs; eauto using suffix_tail; done|].
  destruct (c =? CH "{"); [|intros; eapply Hs; eauto; done].
  destruct (isdigit (peek (tail tmp) 0)) eqn:Ed; [|intros; eapply Hs; eauto using suffix_tail; done]. clear Hs.
  destruct (number_ok (tail tmp) Ed) as [Hs Hmn]. cbv zeta in Hs, Hmn. destruct (parse_number _ _) as [a tmp0]. cbn [fst snd] in *.
  assert (Forall plain tmp → Forall plain (tail tmp)) as Hpt by (apply plain_suffix, suffix_tail).
  set (X := if peek tmp0 0 =? CH "," then _ else _).
  assert (X.2 `suffix_of` tmp0 ∧ (Forall plain tmp0 → 0 <= a → 0 <= X.1)) as [HX1 HX2].
  { subst X. destruct (_ =? _); [|done]. destruct (isdigit (peek (tail tmp0) 0)) eqn:Ed0; [|split; [apply suffix_tail|done]].
    destruct (number_ok (tail tmp0) Ed0) as [Hs0 Hm0]. split; [etransitivity; [exact Hs0|apply suffix_tail]|].
    intros Hp _. apply Hm0. eapply plain_suffix; [apply suffix_tail|done]. }
  destruct X as [b tmp1]. cbn [fst snd] in *. destruct (_ =? _); [|done]. intros [= <- <- <-]. split.
  - repeat (etransitivity; [apply suffix_tail|]). etransitivity; [exact HX1|]. etransitivity; [exact Hs|apply suffix_tail].
  - intros Hp. split; [auto|]. apply HX2; [eapply plain_suffix; [exact Hs|auto]|auto].
Qed.

(** ** The parser returns *)

(** [m] returns from the count [n] of groups, or reads beyond a bracket. *)
Definition returns {A} (m : CM Z A) (n : Z) (Q : A → Z → Prop) : Prop :=
  m n = Fault ∨ ∃ a n', m n = Ok (a, n') ∧ n <= n' ∧ Q a n'.

Lemma returns_ret {A} (a : A) n (Q : A → Z → Prop) : Q a n → returns (mret a) n Q.
Proof. intros HQ. right. exists a, n. split; [done|]. split; [lia|done]. Qed.

Lemma returns_bind {A B} (m : CM Z A) (k : A → CM Z B) n Q Q' :
  returns m n Q → (∀ a n', n <= n' → Q a n' → returns (k a) n' Q') → returns (m ≫= k) n Q'.
Proof.
  intros [E|(a & n' & E & Hn & HQ)] Hk; [left; by rewrite (bind_Fault _ _ _ E)|].
  destruct (Hk a n' Hn HQ) as [E'|(b & n2 & E' & Hn2 & HQ')]; [left; by rewrite (bind_Ok _ _ _ _ _ E)|].
  right. exists b, n2. rewrite (bind_Ok _ _ _ _ _ E). split; [done|]. split; [lia|done].
Qed.

(** The trees are good for every number of groups above the count. *)
Definition good_branch (G : Z) (p : list piece) : Prop := p = [] ∨ wf_branch G (mk_branch false p) = true.

Lemma good_branch_snoc G p q : good_branch G p → wf_piece G q = true → good_branch G (p ++ [q]) ∧ p ++ [q] ≠ [].
Proof.
  intros Hp Hq. split; [|by destruct p]. right. destruct Hp as [->|Hp].
  - cbn [app]. destruct q as [a mn mx]. by destruct a; cbn in *; rewrite ?andb_true_r.
  - destruct p as [|[a mn mx] ps]; [done|]. destruct a; cbn [app wf_branch] in *; try done; by rewrite app_comm_cons, forallb_app, Hp; cbn [forallb]; rewrite Hq.
Qed.

Definition atom_post (s : list Z) (r : option (atom * list Z)) (n : Z) : Prop :=
  match r with None => True | Some (a, t) => behind s t ∧ (Forall plain s → ∀ G, n < G → wf_atom G a = true) end.
Definition piece_post (s : list Z) (r : option (piece * list Z)) (n : Z) : Prop :=
  match r with None => True | Some (p, t) => behind s t ∧ (Forall plain s → ∀ G, n < G → wf_piece G p = true) end.
Definition branch_post (p : list piece) (s : list Z) (r : list piece * list Z * Z) (n : Z) : Prop :=
  let '(p', t, _) := r in (p' = p ∧ t = s ∨ p' ≠ [] ∧ behind s t) ∧
  (Forall plain s → ∀ G, n < G → good_branch G p → good_branch G p').
Definition regex_post (b : list branch) (s : list Z) (r : regex * list Z) (n : Z) : Prop :=
  let '(re, t) := r in t `suffix_of` s ∧ (Forall plain s → ∀ G, n < G → forallb (wf_branch G) b = true → wf_regex G re = true).

Record parses (fuel : nat) : Prop := {
  parses_atom s n : (8 * length s + 1 < fuel)%nat → 0 <= n → returns (parseatom cflags fuel s) n (atom_post s);
  parses_piece s n : (8 * length s + 2 < fuel)%nat → 0 <= n → returns (parsepiece cflags fuel s) n (piece_post s);
  parses_branch p s k n : (8 * length s + 3 < fuel)%nat → 0 <= n → returns (parsebranch cflags fuel p s k) n (branch_post p s);
  parses_alternatives b s k n : (8 * length s + 4 < fuel)%nat → 0 <= n → returns (parsealternatives cflags fuel b s k) n (regex_post b s);
  parses_regex s n : (8 * length s + 5 < fuel)%nat → 0 <= n → returns (parseregex cflags fuel s) n (regex_post [] s)
}.

Lemma handle_char_post s s' n : peek s' 0 ≠ 0 → s' `suffix_of` s → atom_post s (Some (handle_char cflags s')) n.
Proof.
  intros H0 Hs. destruct (handle_char_ok s' H0) as [Hb Hw]. destruct (handle_char cflags s') as [a t]. cbn in *. split.
  - destruct Hb as [? ?]. split; [by etransitivity|]. apply suffix_length in Hs. lia.
  - intros Hp G _. apply Hw. by eapply plain_suffix.
Qed.

Lemma group_post fuel s s' n : parses fuel → (8 * length s + 1 < S fuel)%nat → 0 <= n → s' `suffix_of` s → peek s' 0 ≠ 0 →
  returns (bnum ← next_bracket;
    if peek s' 1 =? CH ")" then mret (Some (EMPTY bnum, drop 2 s')) else
    '(r, tmp) ← parseregex cflags fuel (tail s');
    if closebracket cflags tmp then mret (Some (REGEX bnum r, drop (if extended cflags then 1 else 2) tmp))
    else if extended cflags then mret None else mret (Some (handle_char cflags s'))) n (atom_post s).
Proof.
  intros IH Hf Hn Hs H0. pose proof (behind_tail s' H0) as Hb. pose proof (suffix_length _ _ Hs).
  assert (∀ t, behind s' t → behind s t) as Htr by (intros t [? ?]; split; [by etransitivity|lia]).
  eapply (returns_bind _ _ _ (λ b n', b = n' ∧ n < n')); [right; exists (n + 1), (n + 1); split_and!; [done|lia|done|lia]|].
  intros bnum n1 Hn1 [-> Hlt]. destruct (_ =? _).
  { apply returns_ret. split; [apply Htr, behind_drop; [lia|done]|]. intros _ G HG. cbn. lia. }
  eapply returns_bind; [apply (parses_regex _ IH); [destruct Hb; lia|lia]|].
  intros [re tmp] n2 Hn2 [Hsuf Hwf]. destruct (closebracket cflags tmp).
  - apply returns_ret. split; [apply Htr; eapply behind_suffix; [exact Hb|]; etransitivity; [apply suffix_drop|done]|].
    intros Hp G HG. cbn [wf_atom]. rewrite Hwf; [lia| |lia|done]. eapply plain_suffix; [|exact Hp]. etransitivity; [apply suffix_tail|done].
  - destruct (extended cflags); apply returns_ret; [done|by apply handle_char_post].
Qed.

Lemma parse_atom_step fuel : parses fuel → ∀ s n, (8 * length s + 1 < S fuel)%nat → 0 <= n → returns (parseatom cflags (S fuel) s) n (atom_post s).
Proof.
  intros IH s n Hf Hn. cbn [parseatom].
  assert (∀ s', s' `suffix_of` s → peek s' 0 ≠ 0 → returns (mret (Some (handle_char cflags s'))) n (atom_post s)) as Hchar
    by (intros; apply returns_ret; by apply handle_char_post).
  assert (∀ a s', s' `suffix_of` s → peek s' 0 ≠ 0 → (∀ G, Forall plain s → wf_atom G a = true) → returns (mret (Some (a, tail s'))) n (atom_post s)) as Hone.
  { intros a s' Hs H0 Hw. apply returns_ret. split; [|intros Hp G _; by apply Hw]. destruct (behind_tail s' H0) as [? ?].
    apply suffix_length in Hs as Hl. split; [by etransitivity|lia]. }
  destruct (Z.eqb_spec (peek s 0) (CH "(")) as [E|_].
  { destruct (extended cflags) eqn:Ee; [|apply Hchar; [done|by rewrite E]]. pose proof (group_post fuel s s n IH Hf Hn) as Hg. rewrite Ee in Hg.
    apply Hg; [done|by rewrite E]. }
  destruct (Z.eqb_spec (peek s 0) (CH ")")) as [E|_]; [destruct (extended cflags); [by apply returns_ret|apply Hchar; [done|by rewrite E]]|].
  destruct (Z.eqb_spec (peek s 0) 0) as [E|H0]; [by apply returns_ret|]. cbn [orb].
  destruct (_ =? CH "|"); [by apply returns_ret|].
  destruct (_ =? CH "["); [destruct (parsebracketed cflags s) as [[[cc t]|]|] eqn:Eb; [|by apply returns_ret|by left]|].
  { apply returns_ret. destruct (parsebracketed_ok s cc t H0 Eb) as [Hl Hb]. split; [done|]. intros _ G _. cbn. by rewrite Hl. }
  destruct (_ =? CH "."); [by apply Hone|]. destruct (_ =? CH "^"); [by apply Hone|]. destruct (_ =? CH "$"); [by apply Hone|].
  destruct (Z.eqb_spec (peek s 0) (CH "\")) as [E|_]; [|by apply Hchar].
  assert (Forall plain s → False) as Hnp.
  { destruct s; [done|]. intros [(_ & _ & Hb) _]%Forall_cons. by apply Hb. }
  pose proof (suffix_tail s) as Hts. destruct (behind_tail s H0) as [_ Hlt].
  eapply (returns_bind _ _ _ (λ _ n', n' = n)); [right; exists n, n; split_and!; [done|lia|done]|]. intros k n' _ ->.
  destruct (Z.eqb_spec (peek (tail s) 0) 0) as [|H1]; [apply returns_ret; split; [by split|by intros ?%Hnp]|].
  do 2 (destruct (_ =? _); [apply Hone; try done; by intros G ?%Hnp|]).
  destruct (_ && negb _); [apply Hone; try done; by intros G ?%Hnp|].
  destruct (negb (extended cflags) && (_ =? CH "(")); [by apply group_post|].
  destruct (negb (extended cflags) && _); [by apply returns_ret|by apply Hchar].
Qed.

Lemma parse_piece_step fuel : parses fuel → ∀ s n, (8 * length s + 2 < S fuel)%nat → 0 <= n → returns (parsepiece cflags (S fuel) s) n (piece_post s).
Proof.
  intros IH s n Hf Hn. cbn [parsepiece]. eapply returns_bind; [apply (parses_atom _ IH); lia|].
  intros [[a t]|] n' _ Hr; apply returns_ret; [|done]. destruct Hr as [Hb Hw]. cbn [mbind option_bind].
  destruct (repetition t) as [[[mn mx] t']|] eqn:Er; [|done]. apply repetition_ok in Er as [Ht Hm]. cbn [mbind option_bind piece_post].
  split; [by eapply behind_suffix|]. intros Hp G HG. cbn [wf_piece]. destruct (Hm ltac:(destruct Hb; by eapply plain_suffix)) as [? ?].
  rewrite Hw by done. lia.
Qed.

Lemma parse_branch_step fuel : parses fuel → ∀ p s k n, (8 * length s + 3 < S fuel)%nat → 0 <= n → returns (parsebranch cflags (S fuel) p s k) n (branch_post p s).
Proof.
  intros IH p s k n Hf Hn. cbn [parsebranch].
  eapply (returns_bind _ _ _ (λ r n', match r with None => True | Some (q, t) => behind s t ∧
    (Forall plain s → ∀ G, n' < G → good_branch G p → good_branch G (p ++ [q])) end)).
  - destruct ((peek s 0 =? CH "|") && _) eqn:E.
    + apply returns_ret. apply andb_true_iff in E as [E Ep]. split; [apply behind_tail; lia|]. intros _ G _ _. destruct p; [|done]. by right.
    + destruct (parses_piece _ IH s n ltac:(lia) Hn) as [Ef|(r & n' & Er & Hn' & Hp)]; [by left|]. right. exists r, n'. split_and!; [done|done|].
      destruct r as [[q t]|]; [|done]. destruct Hp as [Hb Hw]. split; [done|]. intros Hp G HG Hg. apply good_branch_snoc; auto.
  - intros [[q t]|] n' Hn' Hq; [|apply returns_ret; split; [by left|done]]. destruct Hq as [Hb Hw].
    destruct (_ =? CH "|"); [apply returns_ret; split; [right; split; [by destruct p|done]|done]|].
    destruct Hb as [Hs Hl]. destruct (parses_branch _ IH (p ++ [q]) t k n' ltac:(lia) ltac:(lia)) as [Ef|([[p' t'] k'] & n2 & Er & Hn2 & Hp & Hw2)]; [by left|].
    right. exists (p', t', k'), n2. split_and!; [done|lia|]. split.
    + right. destruct Hp as [[-> ->]|[? [? ?]]]; [by split; [destruct p|split]|]. split; [done|]. split; [by etransitivity|lia].
    + intros Hpl G HG Hg. apply Hw2; [by eapply plain_suffix|lia|]. apply Hw; [done|lia|done].
Qed.

(** In front of a closing bracket a branch is empty. *)
Lemma branch_at_bracket fuel s k n r : Forall plain s → closebracket cflags s = true → parsebranch cflags (S (S (S fuel))) [] s k n = Ok r → r = ([], s, k, n).
Proof.
  unfold closebracket. intros Hp Hc. destruct (extended cflags) eqn:Ee.
  - apply Z.eqb_eq in Hc. cbn [parsebranch parsepiece parseatom]. rewrite Hc, Ee. by intros [= <-].
  - apply andb_true_iff in Hc as [Hc _]. apply Z.eqb_eq in Hc. destruct s; [done|]. apply Forall_cons in Hp as [(_ & _ & Hb) _]. by destruct Hb.
Qed.

Lemma parse_alternatives_step fuel : parses fuel →
  ∀ b s k n, (8 * length s + 4 < S fuel)%nat → 0 <= n → returns (parsealternatives cflags (S fuel) b s k) n (regex_post b s).
Proof.
  intros IH b s k n Hf Hn. cbn [parsealternatives].
  destruct (parses_branch _ IH [] s k n ltac:(lia) Hn) as [Ef|([[p t] k'] & n' & Er & Hn' & Hp & Hw)]; [left; by rewrite (bind_Fault _ _ _ Ef)|].
  match goal with |- returns (_ ≫= ?K) _ _ => assert (returns (K (p, t, k')) n' (regex_post b s)) as Hk end.
  2: { destruct Hk as [Ef|(r & n2 & E2 & Hn2 & Hr)]; [left; by rewrite (bind_Ok _ _ _ _ _ Er)|].
       right. exists r, n2. rewrite (bind_Ok _ _ _ _ _ Er). split_and!; [done|lia|done]. }
  cbv beta iota. destruct (closebracket cflags s) eqn:Ec; cbn [negb]; rewrite ?andb_false_r, ?andb_true_r.
  - apply returns_ret. split; [done|]. intros Hpl G HG Hb. cbn [wf_regex]. rewrite forallb_app, Hb. cbn [forallb wf_branch andb].
    destruct fuel as [|[|[|fuel]]]; [lia..|]. apply branch_at_bracket in Er; [|done|done]. by simplify_eq.
  - destruct (same_ptr t s) eqn:Es; [apply returns_ret; by split|].
    assert (p ≠ [] ∧ behind s t) as [Hne [Hts Htl]].
    { destruct Hp as [[-> ->]|?]; [|done]. unfold same_ptr in Es. by rewrite Nat.eqb_refl in Es. }
    assert (Forall plain s → ∀ G, n' < G → forallb (wf_branch G) b = true → forallb (wf_branch G) (b ++ [mk_branch false p]) = true) as Hb.
    { intros Hpl G HG Hb. rewrite forallb_app, Hb. destruct (Hw Hpl G HG (or_introl eq_refl)) as [?|Hg]; [done|]. cbn [forallb]. by rewrite Hg. }
    destruct (closebracket cflags t); [apply returns_ret; by split|].
    set (t' := if peek t 0 =? CH "|" then tail t else t). assert (t' `suffix_of` t) as Ht' by (subst t'; destruct (_ =? _); [apply suffix_tail|done]).
    pose proof (suffix_length _ _ Ht').
    destruct (parses_alternatives _ IH (b ++ [mk_branch false p]) t' k' n' ltac:(lia) ltac:(lia)) as [Ef|([re u] & n2 & E2 & Hn2 & Hu & Hwf)]; [by left|].
    right. exists (re, u), n2. split_and!; [done|lia|]. split; [by do 2 (etransitivity; [eassumption|])|].
    intros Hpl G HG Hg. apply Hwf; [eapply plain_suffix; [|exact Hpl]; by etransitivity|done|]. apply Hb; [done|lia|done].
Qed.

Lemma parse_ok fuel : parses fuel.
Proof.
  induction fuel as [|fuel IH]; [split; intros; lia|]. split.
  - by apply parse_atom_step.
  - by apply parse_piece_step.
  - by apply parse_branch_step.
  - by apply parse_alternatives_step.
  - intros s n Hf Hn. cbn [parseregex]. destruct (_ || _); [apply returns_ret; by split|]. apply (parses_alternatives _ IH); lia.
Qed.
End parse.


(** ** Examples *)

Definition grep (pattern text : list Z) (cflags : Z) : outcome (Z * option (Z * Z)) :=
  match regcomp pattern cflags with
  | Ok (Some preg) =>
      match regexec (λ n, n + 4) preg text 1 0 with
      | Ok (r, pmatch) => Ok (r, default None (head pmatch))
      | Fault => Fault
      | Hang => Hang
      end
  | Ok None => Ok (-2, None)
  | Fault => Fault
  | Hang => Hang
  end.

(** [a+a] finds a single [a]: a piece backs off below its minimum. *)
Lemma plus_backs_off : grep (STR "a+a") (STR "a") REG_EXTENDED = Ok (0, Some (0, 1)).
Proof. by vm_compute. Qed.
(** [a?] writes behind its array of offsets when [alloca] gives just what it is asked for. *)
Lemma offsets_overflow : let preg := mk_preg (mk_regex false 0 [mk_branch false [mk_piece (CHAR false (CH "a")) 0 1]]) 0 REG_EXTENDED in
  regcomp (STR "a?") REG_EXTENDED = Ok (Some preg) ∧ regexec (λ n, n) preg (STR "a") 1 0 = Fault.
Proof. split; by vm_compute. Qed.
(** A group is not tried again when what is behind it does not match. *)
Lemma groups_keep_first : grep (STR "(a|ab)c") (STR "abc") REG_EXTENDED = Ok (REG_NOMATCH, None).
Proof. by vm_compute. Qed.
(** An empty alternative in front swallows the next one. *)
Lemma empty_alternative : grep (STR "(|ab)c") (STR "abc") REG_EXTENDED = Ok (0, Some (2, 3)).
Proof. by vm_compute. Qed.
(** Capitals in a run of characters are not found with [REG_ICASE]. *)
Lemma icase_string : grep (STR "ABCD") (STR "ABCD") REG_ICASE = Ok (REG_NOMATCH, None).
Proof. by vm_compute. Qed.
(** With [REG_NEWLINE] the beginning of the second line is not found. *)
Lemma second_line : grep (STR "^b") [CH "a"; 10; CH "b"] REG_NEWLINE = Ok (REG_NOMATCH, None).
Proof. by vm_compute. Qed.
(** A repeated [^] ends the search after the first position. *)
Lemma repeated_anchor : grep (STR "^*a") (STR "ba") 0 = Ok (REG_NOMATCH, None).
Proof. by vm_compute. Qed.
(** A byte above 127 is not equal to itself. *)
Lemma high_byte : grep [s8 200] [200] 0 = Ok (REG_NOMATCH, None).
Proof. by vm_compute. Qed.
(** A range that is cut off is read beyond the pattern; a high character in a bracket is
    written out of the set. *)
Lemma bracket_bounds : regcomp (STR "[a-") 0 = Fault ∧ regcomp [CH "["; s8 200; CH "]"] 0 = Fault.
Proof. by vm_compute. Qed.
(** What follows an interval that is not closed is dropped without an error. *)
Lemma pattern_dropped : grep (STR "ba{2") (STR "b") REG_EXTENDED = Ok (0, Some (0, 1)).
Proof. by vm_compute. Qed.
