(* ===== verification/Des.v ===== *)
(** * The traditional password hash

    [libcrypt/crypt.c]: DES with one array element per bit, and [crypt] on top of
    it.  The state are the static arrays [KS] and [E]; the other static arrays are
    written by every call before it reads them, so they are values here.  A table
    is the list of its entries, an access outside an array is [None]. *)

From S2P Require Import Prelude Mem HashStream Sha2 Md5 Crypt.

(** ** Tables *)

Definition IP : list Z := [
  57;49;41;33;25;17; 9; 1;
  59;51;43;35;27;19;11; 3;
  61;53;45;37;29;21;13; 5;
  63;55;47;39;31;23;15; 7;
  56;48;40;32;24;16; 8; 0;
  58;50;42;34;26;18;10; 2;
  60;52;44;36;28;20;12; 4;
  62;54;46;38;30;22;14; 6].

Definition FP : list Z := [
  39; 7;47;15;55;23;63;31;
  38; 6;46;14;54;22;62;30;
  37; 5;45;13;53;21;61;29;
  36; 4;44;12;52;20;60;28;
  35; 3;43;11;51;19;59;27;
  34; 2;42;10;50;18;58;26;
  33; 1;41; 9;49;17;57;25;
  32; 0;40; 8;48;16;56;24].

Definition PC1_C : list Z := [
  56;48;40;32;24;16; 8;
   0;57;49;41;33;25;17;
   9; 1;58;50;42;34;26;
  18;10; 2;59;51;43;35].

Definition PC1_D : list Z := [
  62;54;46;38;30;22;14;
   6;61;53;45;37;29;21;
  13; 5;60;52;44;36;28;
  20;12; 4;27;19;11; 3].

Definition shifts : list Z := [
   1; 1; 2; 2; 2; 2; 2; 2; 1; 2; 2; 2; 2; 2; 2; 1].

Definition PC2_C : list Z := [
  13;16;10;23; 0; 4; 2;27;14; 5;20; 9;
  22;18;11; 3;25; 7;15; 6;26;19;12; 1].

Definition PC2_D : list Z := [
  12;23; 2; 8;18;26; 1;11;22;16; 4;19;
  15;20;10;27; 5;24;17;13;21; 7; 0; 3].

Definition e2 : list Z := [
  32; 1; 2; 3; 4; 5; 4; 5; 6; 7; 8; 9;
   8; 9;10;11;12;13;12;13;14;15;16;17;
  16;17;18;19;20;21;20;21;22;23;24;25;
  24;25;26;27;28;29;28;29;30;31;32; 1].

Definition P : list Z := [
  15; 6;19;20;28;11;27;16; 0;14;22;25; 4;17;30; 9;
   1; 7;23;13;31;26; 2; 8;18;12;29; 5;21;10; 3;24].

Definition Sbox : list (list Z) := [
  [14; 4;13; 1; 2;15;11; 8; 3;10; 6;12; 5; 9; 0; 7;
    0;15; 7; 4;14; 2;13; 1;10; 6;12;11; 9; 5; 3; 8;
    4; 1;14; 8;13; 6; 2;11;15;12; 9; 7; 3;10; 5; 0;
   15;12; 8; 2; 4; 9; 1; 7; 5;11; 3;14;10; 0; 6;13];
  [15; 1; 8;14; 6;11; 3; 4; 9; 7; 2;13;12; 0; 5;10;
    3;13; 4; 7;15; 2; 8;14;12; 0; 1;10; 6; 9;11; 5;
    0;14; 7;11;10; 4;13; 1; 5; 8;12; 6; 9; 3; 2;15;
   13; 8;10; 1; 3;15; 4; 2;11; 6; 7;12; 0; 5;14; 9];
  [10; 0; 9;14; 6; 3;15; 5; 1;13;12; 7;11; 4; 2; 8;
   13; 7; 0; 9; 3; 4; 6;10; 2; 8; 5;14;12;11;15; 1;
   13; 6; 4; 9; 8;15; 3; 0;11; 1; 2;12; 5;10;14; 7;
    1;10;13; 0; 6; 9; 8; 7; 4;15;14; 3;11; 5; 2;12];
  [ 7;13;14; 3; 0; 6; 9;10; 1; 2; 8; 5;11;12; 4;15;
   13; 8;11; 5; 6;15; 0; 3; 4; 7; 2;12; 1;10;14; 9;
   10; 6; 9; 0;12;11; 7;13;15; 1; 3;14; 5; 2; 8; 4;
    3;15; 0; 6;10; 1;13; 8; 9; 4; 5;11;12; 7; 2;14];
  [ 2;12; 4; 1; 7;10;11; 6; 8; 5; 3;15;13; 0;14; 9;
   14;11; 2;12; 4; 7;13; 1; 5; 0;15;10; 3; 9; 8; 6;
    4; 2; 1;11;10;13; 7; 8;15; 9;12; 5; 6; 3; 0;14;
   11; 8;12; 7; 1;14; 2;13; 6;15; 0; 9;10; 4; 5; 3];
  [12; 1;10;15; 9; 2; 6; 8; 0;13; 3; 4;14; 7; 5;11;
   10;15; 4; 2; 7;12; 9; 5; 6; 1;13;14; 0;11; 3; 8;
    9;14;15; 5; 2; 8;12; 3; 7; 0; 4;10; 1;13;11; 6;
    4; 3; 2;12; 9; 5;15;10;11;14; 1; 7; 6; 0; 8;13];
  [ 4;11; 2;14;15; 0; 8;13; 3;12; 9; 7; 5;10; 6; 1;
   13; 0;11; 7; 4; 9; 1;10;14; 3; 5;12; 2;15; 8; 6;
    1; 4;11;13;12; 3; 7;14;10;15; 6; 8; 0; 5; 9; 2;
    6;11;13; 8; 1; 4;10; 7; 9; 5; 0;15;14; 2; 3;12];
  [13; 2; 8; 4; 6;15;11; 1;10; 9; 3;14; 5; 0;12; 7;
    1;15;13; 8;10; 3; 7; 4;12; 5; 6;11; 0;14; 9; 2;
    7;11; 4; 1; 9;12;14; 2; 0; 6;10;13;15; 3; 5; 8;
    2; 1;14; 7; 4;10; 8;13;15;12; 9; 0; 3; 5; 6;11]].

(** ** The key schedule *)

Record statics : Type := mk_statics { KS : list (list Z); E : list Z }.

(** [a[i]] *)
Definition at_ (a : list Z) (i : Z) : option Z := if i <? 0 then None else a !! Z.to_nat i.

(** [for (i = 0; i < n; i++) to[i] = from[table[i]]] *)
Definition permute (table from : list Z) : option (list Z) := mapM (at_ from) table.

(** [t = C[0]; for (j = 0; j < 27; j++) C[j] = C[j+1]; C[27] = t;] *)
Definition rotate (half : list Z) : list Z := drop 1 half ++ take 1 half.

(** The rounds of [setkey]: the round keys that are picked from [C] and [D]. *)
Fixpoint key_rounds (shifts : list Z) (C D : list Z) : option (list (list Z)) :=
  match shifts with
  | [] => Some []
  | s :: shifts =>
      let C := Nat.iter (Z.to_nat s) rotate C in
      let D := Nat.iter (Z.to_nat s) rotate D in
      kc ← permute PC2_C C;
      kd ← permute PC2_D D;
      ks ← key_rounds shifts C D;
      Some ((kc ++ kd) :: ks)
  end.

Definition setkey (key : list Z) : option statics :=
  C ← permute PC1_C key;
  D ← permute PC1_D key;
  ks ← key_rounds shifts C D;
  Some (mk_statics ks e2).

(** ** Encryption *)

(** [preS[j] = R[E[j]-1] ^ KS[i][j]], where [R] is the second half of [L] *)
Definition expand (E L Ki : list Z) : option (list Z) :=
  mapM (λ '(e, k), (λ r, Z.lxor r k) <$> at_ L (32 + (e - 1))) (zip E Ki).

(** The eight selection functions; four bits of [f] from six of [preS]. *)
Definition select1 (box preS : list Z) : option (list Z) :=
  match preS with
  | [p0; p1; p2; p3; p4; p5] =>
      k ← at_ box (Z.shiftl p0 5 + Z.shiftl p1 3 + Z.shiftl p2 2 + Z.shiftl p3 1 + p4 + Z.shiftl p5 4);
      Some [Z.land (Z.shiftr k 3) 1; Z.land (Z.shiftr k 2) 1; Z.land (Z.shiftr k 1) 1; Z.land k 1]
  | _ => None
  end.
Fixpoint select (boxes : list (list Z)) (preS : list Z) : option (list Z) :=
  match boxes with
  | [] => Some []
  | box :: boxes =>
      f4 ← select1 box (take 6 preS);
      f ← select boxes (drop 6 preS);
      Some (f4 ++ f)
  end.

(** One of the 16 rounds on the array [L]; its second half is [R]. *)
Definition round (E Ki L : list Z) : option (list Z) :=
  let tempL := drop 32 L in
  preS ← expand E L Ki;
  f ← select Sbox preS;
  fp ← permute P f;
  Some (tempL ++ zip_with Z.lxor (take 32 L) fp).

Fixpoint rounds (E : list Z) (KS : list (list Z)) (L : list Z) : option (list Z) :=
  match KS with
  | [] => Some L
  | Ki :: KS => L ← round E Ki L; rounds E KS L
  end.

(** The output [L] and [R] are reversed, with three exclusive ors. *)
Definition reverse_halves (L : list Z) : list Z :=
  let l := take 32 L in
  let r := drop 32 L in
  let l := zip_with Z.lxor l r in
  let r := zip_with Z.lxor r l in
  let l := zip_with Z.lxor l r in
  l ++ r.

(** [encrypt]: [edflag] is not used. *)
Definition encrypt (st : statics) (block : list Z) (edflag : Z) : option (list Z) :=
  L ← permute IP block;
  L ← rounds (E st) (KS st) L;
  out ← permute FP (reverse_halves L);
  Some (out ++ drop 64 block).

(** ** [crypt] *)

(** The bits of one character of the password, [(c>>(6-j)) & 01] *)
Definition char_bits (c : Z) : list Z :=
  (λ j, Z.land (Z.shiftr c (6 - j)) 1) <$> [0; 1; 2; 3; 4; 5; 6].

Fixpoint key_block (pw : list Z) (i : nat) (block : list Z) : list Z :=
  match pw with
  | c :: pw =>
      if (i <? 64)%nat then key_block pw (i + 8) (list_inserts i (char_bits (s8 c)) block)
      else block
  | [] => block
  end.

(** [E[a] ^= E[b]; E[b] ^= E[a]; E[a] ^= E[b];] *)
Definition swap_entries (a b : nat) (E : list Z) : option (list Z) :=
  x ← E !! a;
  y ← E !! b;
  let x := Z.lxor x y in
  let y := Z.lxor y x in
  let x := Z.lxor x y in
  Some (<[b := y]> (<[a := x]> E)).

(** The digit of a character of the salt *)
Definition salt_digit (c : Z) : Z :=
  let c := if c >? CH "Z" then c - 6 else c in
  let c := if c >? CH "9" then c - 7 else c in
  c - CH ".".

Definition salt_bit (c : Z) (i j : nat) (E : list Z) : option (list Z) :=
  if Z.land (Z.shiftr c (Z.of_nat j)) 1 =? 0 then Some E
  else let ind1 := (6 * i + j)%nat in swap_entries ind1 (ind1 + 24) E.

(** [for(j=0; j < 6; j++)] for the character [i] of the salt *)
Definition salt_char (c : Z) (i : nat) (E : list Z) : option (list Z) :=
  foldl (λ E j, E ← E; salt_bit c i j E) (Some E) (seq 0 6).

(** The two characters of the salt and [E] as they change it; the character behind
    the end of the string is 0, and there is none behind it. *)
Definition read_salt (salt : list Z) (E : list Z) : option (list Z * list Z) :=
  s0 ← (salt ++ [0]) !! 0%nat;
  E ← salt_char (salt_digit (s8 s0)) 0 E;
  s1 ← (salt ++ [0]) !! 1%nat;
  E ← salt_char (salt_digit (s8 s1)) 1 E;
  Some ([s0; s1], E).

(** The character for six bits of the block *)
Definition out_char (six : list Z) : Z :=
  let c := foldl (λ c b, Z.lor (Z.shiftl c 1) b) 0 six in
  let c := c + CH "." in
  let c := if c >? CH "9" then c + 7 else c in
  if c >? CH "Z" then c + 6 else c.
Definition out_chars (block : list Z) : list Z :=
  (λ i, out_char (take 6 (drop (6 * i) block))) <$> seq 0 11.

(** [for(i=0; i < n; i++) encrypt(block,0);] *)
Fixpoint encrypt_times (n : nat) (st : statics) (block : list Z) : option (list Z) :=
  match n with
  | O => Some block
  | S n => block ← encrypt st block 0; encrypt_times n st block
  end.

Definition fix_second (iobuf : list Z) : list Z :=
  match iobuf with
  | c :: 0 :: cs => c :: c :: cs
  | _ => iobuf
  end.

(** The part of [crypt] behind the choice of the hash: the characters of [iobuf] in
    front of the NUL that is written behind them. *)
Definition crypt_des (pw salt : list Z) : option (list Z) :=
  st ← setkey (key_block pw 0 (replicate 66 0));
  '(s, E) ← read_salt salt (E st);
  block ← encrypt_times 25 (mk_statics (KS st) E) (replicate 66 0);
  Some (fix_second (s ++ out_chars block)).

(** [crypt]: the hash is chosen by the start of the salt.  The contexts of the other
    hashes are local variables, whose contents are arbitrary; [None] is a null pointer. *)
Definition crypt (pw salt : list Z) (md5 : MD5_CTX * MD5_CTX) (sha : sha_ctx * sha_ctx)
    : outcome (option (list Z)) :=
  if has_prefix (STR "$1$") salt then
    match md5crypt pw salt md5 with Ok (h, _) => Ok (Some h) | Fault => Fault | Hang => Hang end
  else if has_prefix (STR "$5$") salt then
    match sha256_crypt pw salt sha with Ok (h, _) => Ok h | Fault => Fault | Hang => Hang end
  else if has_prefix (STR "$6$") salt then
    match sha512_crypt pw salt sha with Ok (h, _) => Ok h | Fault => Fault | Hang => Hang end
  else match crypt_des pw salt with Some h => Ok (Some h) | None => Fault end.
