(* ===== verification/DesFacts.v ===== *)
(** * The traditional password hash is salted DES

    DES as FIPS 46-3 defines it, on lists of bits and with its tables numbered from 1;
    that [setkey] and [encrypt] implement it, that the reversed key schedule undoes it,
    and that [crypt] computes the hash of the 25-fold encryption. *)

From S2P Require Import Prelude Mem HashStream Sha2 Md5 Crypt Des.

(** ** The standard *)

(** The bits of [l] that a table selects. *)
Definition sel (table : list nat) (l : list bool) : list bool :=
  (λ i, nth (i - 1) l false) <$> table.
Definition xors : list bool → list bool → list bool := zip_with xorb.
Definition rotl {A} (n : nat) (l : list A) : list A := drop n l ++ take n l.

Definition fips_IP : list nat :=
  (λ i, (if (i / 8 <? 4)%nat then 58 + 2 * (i / 8) else 49 + 2 * (i / 8)) - 8 * (i mod 8))%nat
  <$> seq 0 64.
Definition fips_FP : list nat :=
  (λ i, (if Nat.even i then 40 + 4 * (i mod 8) else 4 + 4 * (i mod 8)) - i / 8)%nat <$> seq 0 64.
Definition fips_E : list nat :=
  (λ i, (4 * (i / 6) + i mod 6 + 31) mod 32 + 1)%nat <$> seq 0 48.
Definition fips_P : list nat :=
  ([16; 7; 20; 21; 29; 12; 28; 17; 1; 15; 23; 26; 5; 18; 31; 10;
    2; 8; 24; 14; 32; 27; 3; 9; 19; 13; 30; 6; 22; 11; 4; 25])%nat.
Definition fips_PC1_C : list nat :=
  (λ i, 57 - 8 * (i mod 8) + i / 8)%nat <$> seq 0 28.
Definition fips_PC1_D : list nat :=
  ((λ i, 63 - 8 * (i mod 8) - i / 8)%nat <$> seq 0 24) ++ ([28; 20; 12; 4])%nat.
Definition fips_PC2 : list nat :=
  ([14; 17; 11; 24; 1; 5; 3; 28; 15; 6; 21; 10; 23; 19; 12; 4; 26; 8; 16; 7; 27; 20; 13; 2;
    41; 52; 31; 37; 47; 55; 30; 40; 51; 45; 33; 48; 44; 49; 39; 56; 34; 53; 46; 42; 50; 36; 29;
    32])%nat.

(** How far the halves of the key have been rotated for each of the 16 round keys. *)
Definition fips_rotations : list nat :=
  ([1; 2; 4; 6; 8; 10; 12; 14; 15; 17; 19; 21; 23; 25; 27; 28])%nat.

Definition round_keys (key : list bool) : list (list bool) :=
  (λ n, sel fips_PC2 (rotl n (sel fips_PC1_C key) ++ rotl n (sel fips_PC1_D key)))
  <$> fips_rotations.

Definition bits_value (l : list bool) : nat := foldl (λ n b, 2 * n + Nat.b2n b)%nat 0%nat l.
Definition four_bits (v : Z) : list bool := Z.testbit v <$> [3; 2; 1; 0].

(** Six bits: the outer two are the row of a selection function, the others the column. *)
Definition sub (box : list Z) (l : list bool) : list bool :=
  let row := bits_value [nth 0 l false; nth 5 l false] in
  let column := bits_value (take 4 (drop 1 l)) in
  four_bits (nth (16 * row + column) box 0).
Fixpoint subs (boxes : list (list Z)) (l : list bool) : list bool :=
  match boxes with
  | [] => []
  | box :: boxes => sub box (take 6 l) ++ subs boxes (drop 6 l)
  end.

(** The function of key and half block, with a table [E] for its expansion. *)
Definition feistel (E : list nat) (K R : list bool) : list bool :=
  sel fips_P (subs Sbox (xors (sel E R) K)).
Definition des_round (E : list nat) (lr : list bool * list bool) (K : list bool) :
    list bool * list bool := (lr.2, xors lr.1 (feistel E K lr.2)).
Definition halves (b : list bool) : list bool * list bool := (take 32 b, drop 32 b).
Definition des (E : list nat) (Ks : list (list bool)) (b : list bool) : list bool :=
  let '(l, r) := foldl (des_round E) (halves (sel fips_IP b)) Ks in sel fips_FP (r ++ l).

(** ** Bits as array elements *)

Definition bz (l : list bool) : list Z := b2z <$> l.

Lemma bz_length l : length (bz l) = length l.
Proof. apply length_fmap. Qed.

Lemma bz_app l k : bz (l ++ k) = bz l ++ bz k.
Proof. apply fmap_app. Qed.

Lemma b2z_xor a b : Z.lxor (b2z a) (b2z b) = b2z (xorb a b).
Proof. by destruct a, b. Qed.

Lemma bz_xors l k : zip_with Z.lxor (bz l) (bz k) = bz (xors l k).
Proof. revert k. induction l as [|x l IH]; intros [|y k]; [done..|]. csimpl. by rewrite IH, b2z_xor. Qed.

Lemma at_bz l i : 0 <= i < Z.of_nat (length l) → at_ (bz l) i = Some (b2z (nth (Z.to_nat i) l false)).
Proof.
  intros Hi. unfold at_. replace (i <? 0) with false by lia. unfold bz. rewrite list_lookup_fmap.
  destruct (lookup_lt_is_Some_2 l (Z.to_nat i)) as [b Hb]; [lia|].
  by rewrite Hb, (nth_lookup_Some _ _ _ _ Hb).
Qed.

Lemma sel_length t l : length (sel t l) = length t.
Proof. apply length_fmap. Qed.

Lemma xors_length l k : length l = length k → length (xors l k) = length l.
Proof. intros H. unfold xors. rewrite length_zip_with. lia. Qed.

(** A table of the code selects what the table of the standard does. *)
Lemma permute_bz table ft l :
  (λ i, Z.of_nat i - 1) <$> ft = table → Forall (λ i, 1 <= i <= length l)%nat ft →
  permute table (bz l) = Some (bz (sel ft l)).
Proof.
  intros <-. induction 1 as [|i ft Hi _ IH]; [done|]. unfold permute in *.
  rewrite fmap_cons. cbn [mapM]. rewrite at_bz, IH by lia. cbn. do 4 f_equal. lia.
Qed.

(** Selecting twice. *)
Lemma sel_sel t u l :
  Forall (λ i, 1 <= i <= length u)%nat t → sel t (sel u l) = sel ((λ i, nth (i - 1) u 0%nat) <$> t) l.
Proof.
  intros Ht. unfold sel. rewrite <- list_fmap_compose. apply list_fmap_ext. intros k i Hi.
  rewrite Forall_forall in Ht. apply list_elem_of_lookup_2, Ht in Hi. csimpl. clear k.
  destruct (lookup_lt_is_Some_2 u (i - 1)) as [x Hx]; [lia|].
  rewrite (nth_lookup_Some u _ _ _ Hx). apply nth_lookup_Some. by rewrite list_lookup_fmap, Hx.
Qed.

Lemma sel_seq l : sel (seq 1 (length l)) l = l.
Proof.
  apply list_eq_same_length with (length l); [done|by rewrite sel_length, length_seq|].
  intros i x y Hi Hx Hy. unfold sel in Hx. rewrite list_lookup_fmap, lookup_seq_lt in Hx by lia.
  cbn in Hx. injection Hx as <-. rewrite Nat.sub_0_r. by apply nth_lookup_Some.
Qed.

(** ** The key schedule *)

Lemma rotl_length {A} n (l : list A) : length (rotl n l) = length l.
Proof. unfold rotl. rewrite length_app, length_drop, length_take. lia. Qed.

Lemma rotate_rotl n l : (n < length l)%nat → rotate (bz (rotl n l)) = bz (rotl (S n) l).
Proof.
  intros Hn. unfold rotate, bz. rewrite <- fmap_drop, <- fmap_take, <- fmap_app. f_equal.
  destruct (lookup_lt_is_Some_2 l n Hn) as [b Hb]. unfold rotl.
  rewrite (drop_S _ _ _ Hb), (take_S_r _ _ _ Hb). by rewrite (assoc_L (++)).
Qed.

Lemma rotate_times k n l :
  (n + k <= length l)%nat → Nat.iter k rotate (bz (rotl n l)) = bz (rotl (n + k) l).
Proof.
  induction k as [|k IH]; intros Hk; [by rewrite Nat.add_0_r|].
  rewrite Nat.iter_succ, IH, rotate_rotl by lia. do 2 f_equal. lia.
Qed.

(** Picking from the two halves separately. *)
Lemma sel_app_l t c d : Forall (λ i, 1 <= i <= length c)%nat t → sel t (c ++ d) = sel t c.
Proof.
  intros Ht. unfold sel. apply list_fmap_ext. intros ? i Hi. rewrite Forall_forall in Ht.
  apply list_elem_of_lookup_2, Ht in Hi. apply app_nth1. lia.
Qed.
Lemma sel_app_r t c d :
  Forall (λ i, 1 <= i)%nat t → sel ((λ i, length c + i)%nat <$> t) (c ++ d) = sel t d.
Proof.
  intros Ht. unfold sel. rewrite <- list_fmap_compose. apply list_fmap_ext. intros ? i Hi.
  rewrite Forall_forall in Ht. apply list_elem_of_lookup_2, Ht in Hi. csimpl.
  rewrite app_nth2 by lia. f_equal. lia.
Qed.

Definition in_range (n : nat) (t : list nat) : bool :=
  forallb (λ i, (1 <=? i) && (i <=? n))%nat t.
Lemma in_range_ok n t : in_range n t = true → Forall (λ i, 1 <= i <= n)%nat t.
Proof. unfold in_range. rewrite forallb_forall, List.Forall_forall. intros H i Hi. apply H in Hi. lia. Qed.

(** [ranges] proves that the entries of a table are in range. *)
Ltac ranges := apply in_range_ok; rewrite ?sel_length, ?rotl_length; vm_compute; reflexivity.

Definition PC2_right : list nat := ([13; 24; 3; 9; 19; 27; 2; 12; 23; 17; 5; 20;
  16; 21; 11; 28; 6; 25; 18; 14; 22; 8; 1; 4])%nat.

Lemma permute_PC2 c d :
  length c = 28%nat → length d = 28%nat →
  ∃ kc kd, permute PC2_C (bz c) = Some kc ∧ permute PC2_D (bz d) = Some kd ∧
    kc ++ kd = bz (sel fips_PC2 (c ++ d)).
Proof.
  intros Hc Hd. exists (bz (sel (take 24 fips_PC2) c)), (bz (sel PC2_right d)). split_and!.
  - apply permute_bz; [reflexivity|]. rewrite Hc. ranges.
  - apply permute_bz; [reflexivity|]. rewrite Hd. ranges.
  - rewrite <- bz_app. f_equal.
    assert (sel fips_PC2 (c ++ d) = sel (take 24 fips_PC2) (c ++ d) ++ sel (drop 24 fips_PC2) (c ++ d))
      as -> by (unfold sel; by rewrite <- fmap_app, take_drop).
    f_equal.
    + symmetry. apply sel_app_l. rewrite Hc. ranges.
    + rewrite <- (sel_app_r _ c) by (eapply Forall_impl; [by apply (in_range_ok 28 PC2_right)|cbn; lia]).
      by rewrite Hc.
Qed.

(** The sums of the shifts so far *)
Fixpoint sums (n : nat) (ss : list Z) : list nat :=
  match ss with
  | [] => []
  | s :: ss => (n + Z.to_nat s)%nat :: sums (n + Z.to_nat s) ss
  end.

Lemma key_rounds_bz ss n c d :
  length c = 28%nat → length d = 28%nat → Forall (λ m, m <= 28)%nat (sums n ss) →
  key_rounds ss (bz (rotl n c)) (bz (rotl n d)) =
    Some (bz <$> ((λ m, sel fips_PC2 (rotl m c ++ rotl m d)) <$> sums n ss)).
Proof.
  intros Hc Hd. revert n. induction ss as [|s ss IH]; intros n Hs; [done|].
  cbn [key_rounds sums] in *. inversion_clear Hs. rewrite !rotate_times by lia.
  destruct (permute_PC2 (rotl (n + Z.to_nat s) c) (rotl (n + Z.to_nat s) d)) as (kc & kd & -> & -> & Hk);
    [by rewrite rotl_length..|].
  cbn. rewrite IH by done. cbn. by rewrite Hk.
Qed.

(** [setkey] computes the round keys of the standard. *)
Lemma setkey_bz key :
  (64 <= length key)%nat →
  setkey (bz key) = Some (mk_statics (bz <$> round_keys key) (Z.of_nat <$> fips_E)).
Proof.
  intros Hk. unfold setkey.
  assert (∀ t, in_range 64 t = true → Forall (λ i, 1 <= i <= length key)%nat t) as Hr.
  { intros t Ht. eapply Forall_impl; [by apply in_range_ok|]. cbn. lia. }
  rewrite (permute_bz PC1_C fips_PC1_C), (permute_bz PC1_D fips_PC1_D) by (reflexivity || by apply Hr).
  cbn [mbind option_bind]. replace (sel fips_PC1_C key) with (rotl 0 (sel fips_PC1_C key)) by apply app_nil_r.
  replace (sel fips_PC1_D key) with (rotl 0 (sel fips_PC1_D key)) by apply app_nil_r.
  assert (sums 0 shifts = fips_rotations) as Hs by reflexivity.
  rewrite key_rounds_bz, Hs; [reflexivity|by rewrite sel_length..|].
  eapply Forall_impl; [by apply (in_range_ok 28 fips_rotations)|cbn; lia].
Qed.

Lemma round_keys_app key tl : (64 <= length key)%nat → round_keys (key ++ tl) = round_keys key.
Proof.
  intros Hk. unfold round_keys.
  rewrite !(sel_app_l _ key tl); [done|..];
    (eapply Forall_impl; [by apply (in_range_ok 64)|cbn; lia]).
Qed.

(** ** One block *)

Lemma expand_bz Es l r K :
  length l = 32%nat → Forall (λ e, 1 <= e <= length r)%nat Es →
  expand (Z.of_nat <$> Es) (bz (l ++ r)) (bz K) = Some (bz (xors (sel Es r) K)).
Proof.
  intros Hl HE. unfold expand. revert K. induction HE as [|e Es He _ IH]; intros K; [done|].
  destruct K as [|k K]; [done|].
  change (zip (Z.of_nat <$> e :: Es) (bz (k :: K)))
    with ((Z.of_nat e, b2z k) :: zip (Z.of_nat <$> Es) (bz K)).
  cbn [mapM]. rewrite at_bz, IH by (rewrite length_app; lia). cbn. rewrite b2z_xor.
  rewrite app_nth2 by lia. do 5 f_equal. lia.
Qed.

(** The index of [select1] is a row and a column. *)
Definition box_ok (box : list Z) : Prop :=
  ∀ l, length l = 6%nat → select1 box (bz l) = Some (bz (sub box l)).

Lemma Sbox_ok : Forall box_ok Sbox.
Proof.
  assert (∀ box, forallb (λ l, bool_decide (select1 box (bz l) = Some (bz (sub box l))))
            (Nat.iter 6 (λ ls, (cons true <$> ls) ++ (cons false <$> ls)) [[]]) = true → box_ok box) as H.
  { intros box H l Hl. rewrite forallb_forall in H. apply (bool_decide_unpack _). apply Is_true_true, H.
    do 6 (destruct l as [|[] l]; [done|..]); try (destruct l; [|done]); cbn; tauto. }
  unfold Sbox. repeat constructor; apply H; vm_compute; reflexivity.
Qed.

Lemma take_bz n l : take n (bz l) = bz (take n l).
Proof. symmetry. apply fmap_take. Qed.
Lemma drop_bz n l : drop n (bz l) = bz (drop n l).
Proof. symmetry. apply fmap_drop. Qed.

Lemma select_bz boxes l :
  Forall box_ok boxes → length l = (6 * length boxes)%nat →
  select boxes (bz l) = Some (bz (subs boxes l)).
Proof.
  intros Hb. revert l. induction Hb as [|box boxes Hbox _ IH]; intros l Hl; [done|].
  cbn [select subs length] in *. rewrite take_bz, drop_bz.
  rewrite Hbox, IH by (rewrite ?length_take, ?length_drop; lia). cbn [mbind option_bind]. by rewrite bz_app.
Qed.

Lemma subs_length boxes l : length (subs boxes l) = (4 * length boxes)%nat.
Proof.
  revert l. induction boxes as [|box boxes IH]; intros l; [done|].
  cbn [subs length]. rewrite length_app, IH. cbn. lia.
Qed.

(** A table [E] as the code has it, and the round keys. *)
Definition table_ok (Es : list nat) : Prop := length Es = 48%nat ∧ Forall (λ e, 1 <= e <= 32)%nat Es.
Definition keys_ok (Ks : list (list bool)) : Prop := Forall (λ K, length K = 48%nat) Ks.

Section rounds.
Context (Es : list nat) (HE : table_ok Es).

Lemma feistel_length K R : length (feistel Es K R) = 32%nat.
Proof. apply sel_length. Qed.

Lemma round_bz K l r :
  length K = 48%nat → length l = 32%nat → length r = 32%nat →
  round (Z.of_nat <$> Es) (bz K) (bz (l ++ r)) = Some (bz (r ++ xors l (feistel Es K r))).
Proof using HE.
  intros HK Hl Hr. destruct HE as [HE1 HE2]. unfold round, feistel.
  rewrite expand_bz by (done || by rewrite Hr). cbn [mbind option_bind].
  rewrite select_bz by (apply Sbox_ok || (rewrite xors_length; rewrite ?sel_length; rewrite HE1; done)).
  cbn [mbind option_bind]. rewrite (permute_bz P fips_P) by (reflexivity || rewrite subs_length; ranges).
  cbn [mbind option_bind].
  by rewrite take_bz, drop_bz, bz_xors, <- bz_app, take_app_length', drop_app_length' by lia.
Qed.

Lemma des_round_length K lr :
  length lr.1 = 32%nat → length lr.2 = 32%nat →
  length (des_round Es lr K).1 = 32%nat ∧ length (des_round Es lr K).2 = 32%nat.
Proof. intros Hl Hr. cbn. rewrite xors_length; by rewrite ?feistel_length. Qed.

Lemma des_rounds_length Ks lr :
  length lr.1 = 32%nat → length lr.2 = 32%nat →
  length (foldl (des_round Es) lr Ks).1 = 32%nat ∧ length (foldl (des_round Es) lr Ks).2 = 32%nat.
Proof.
  revert lr. induction Ks as [|K Ks IH]; intros lr Hl Hr; [done|].
  apply IH; by apply des_round_length.
Qed.

Lemma rounds_bz Ks lr :
  keys_ok Ks → length lr.1 = 32%nat → length lr.2 = 32%nat →
  let lr' := foldl (des_round Es) lr Ks in
  rounds (Z.of_nat <$> Es) (bz <$> Ks) (bz (lr.1 ++ lr.2)) = Some (bz (lr'.1 ++ lr'.2)).
Proof using HE.
  intros HK. revert lr. induction HK as [|K Ks HK _ IH]; intros [l r] Hl Hr; [done|].
  cbn -[round] in *. rewrite round_bz by done. cbn.
  apply (IH (r, _)); cbn; [done|]. rewrite xors_length; by rewrite ?feistel_length.
Qed.

Lemma xor_swap (l r : list Z) :
  length l = length r →
  let l1 := zip_with Z.lxor l r in
  let r1 := zip_with Z.lxor r l1 in
  r1 = l ∧ zip_with Z.lxor l1 r1 = r.
Proof.
  revert r. induction l as [|x l IH]; intros [|y r] Hl; try done. cbn in *.
  destruct (IH r) as [H1 H2]; [lia|]. rewrite H1 in H2 |- *. rewrite H2.
  assert (Z.lxor y (Z.lxor x y) = x) as ->
    by by rewrite Z.lxor_comm, Z.lxor_assoc, Z.lxor_nilpotent, Z.lxor_0_r.
  by rewrite (Z.lxor_comm x y), Z.lxor_assoc, Z.lxor_nilpotent, Z.lxor_0_r.
Qed.
End rounds.

Lemma at_app a tl i x : at_ a i = Some x → at_ (a ++ tl) i = Some x.
Proof. unfold at_. destruct (i <? 0); [done|]. apply lookup_app_l_Some. Qed.

Lemma permute_app t a tl o : permute t a = Some o → permute t (a ++ tl) = Some o.
Proof.
  unfold permute. intros H. apply mapM_Some_1 in H. apply mapM_Some_2.
  eapply Forall2_impl; [exact H|]. intros. by apply at_app.
Qed.

(** [encrypt] is DES with the table [E], on the first 64 elements of the array. *)
Lemma encrypt_bz Es Ks b tl flag :
  table_ok Es → keys_ok Ks → length b = 64%nat →
  encrypt (mk_statics (bz <$> Ks) (Z.of_nat <$> Es)) (bz b ++ tl) flag = Some (bz (des Es Ks b) ++ tl).
Proof.
  intros HE HK Hb. unfold encrypt, des.
  rewrite (permute_app IP (bz b) tl (bz (sel fips_IP b)))
    by (apply permute_bz; [reflexivity|rewrite Hb; ranges]).
  set (lr := halves (sel fips_IP b)).
  assert (length lr.1 = 32%nat ∧ length lr.2 = 32%nat) as [Hl Hr] by (split; reflexivity).
  assert (sel fips_IP b = lr.1 ++ lr.2) as -> by (symmetry; apply take_drop).
  pose proof (rounds_bz Es HE Ks lr HK Hl Hr) as Hrounds. cbn zeta in Hrounds.
  pose proof (des_rounds_length Es Ks lr Hl Hr) as [Hl' Hr'].
  cbn [mbind option_bind KS E]. rewrite Hrounds. cbn [mbind option_bind].
  destruct (foldl (des_round Es) lr Ks) as [l r]. cbn [fst snd] in *.
  unfold reverse_halves. rewrite take_bz, drop_bz, take_app_length', (drop_app_length' l r) by lia.
  destruct (xor_swap (bz l) (bz r)) as [H1 H2]; [by rewrite !bz_length, Hl'|].
  rewrite H1 in H2 |- *. rewrite H2, <- bz_app.
  rewrite (permute_bz FP fips_FP) by (reflexivity || (rewrite length_app, Hl', Hr'; ranges)).
  cbn [mbind option_bind]. rewrite drop_app_length' by by rewrite bz_length. done.
Qed.

Lemma des_length Es Ks b : length (des Es Ks b) = 64%nat.
Proof. unfold des. destruct (foldl _ _ _). apply sel_length. Qed.

(** ** Decryption *)

Lemma xors_cancel l k : length l = length k → xors (xors l k) k = l.
Proof.
  revert k. induction l as [|x l IH]; intros [|y k] Hl; try done. cbn.
  rewrite xorb_assoc, xorb_nilpotent, xorb_false_r. f_equal. apply IH. by injection Hl.
Qed.

Definition swap (lr : list bool * list bool) := (lr.2, lr.1).

(** A round undoes itself when the halves are exchanged. *)
Lemma des_round_inverse Es K lr :
  length lr.1 = 32%nat → des_round Es (swap (des_round Es lr K)) K = swap lr.
Proof. intros Hl. unfold des_round, swap. cbn [fst snd]. rewrite xors_cancel; [done|]. by rewrite feistel_length. Qed.

Lemma des_rounds_inverse Es Ks lr :
  length lr.1 = 32%nat → length lr.2 = 32%nat →
  foldl (des_round Es) (swap (foldl (des_round Es) lr Ks)) (reverse Ks) = swap lr.
Proof.
  revert lr. induction Ks as [|K Ks IH]; intros lr Hl Hr; [done|].
  rewrite reverse_cons, foldl_app. cbn [foldl].
  rewrite IH by by apply des_round_length. cbn [foldl]. by apply des_round_inverse.
Qed.

Lemma des_inverse Es Ks b : length b = 64%nat → des Es (reverse Ks) (des Es Ks b) = b.
Proof.
  intros Hb. unfold des at 2. set (lr := halves (sel fips_IP b)).
  pose proof (des_rounds_inverse Es Ks lr eq_refl eq_refl) as Hi.
  pose proof (des_rounds_length Es Ks lr eq_refl eq_refl) as [Hl Hr].
  destruct (foldl (des_round Es) lr Ks) as [l r]. cbn [fst snd] in *.
  unfold des. rewrite sel_sel by ranges.
  assert (sel ((λ i, nth (i - 1) fips_FP 0%nat) <$> fips_IP) (r ++ l) = r ++ l) as ->.
  { rewrite <- (sel_seq (r ++ l)) at 2. rewrite length_app, Hl, Hr. reflexivity. }
  unfold halves. rewrite take_app_length', drop_app_length' by lia.
  unfold swap in Hi. cbn [fst snd] in Hi. rewrite Hi. cbv beta iota. unfold lr, halves. cbn [fst snd]. rewrite take_drop.
  rewrite sel_sel by ranges.
  rewrite <- (sel_seq b) at 2. rewrite Hb. reflexivity.
Qed.

(** ** The password, the salt and the characters of the hash *)

(** Eight bits of the key for a character: its low seven, and an unused one. *)
Definition char_key (c : Z) : list bool := (Z.testbit c <$> [6; 5; 4; 3; 2; 1; 0]) ++ [false].
Definition pad (n : nat) (l : list bool) : list bool := l ++ replicate (n - length l) false.
(** The key of a password: its first eight characters, padded with zeros. *)
Definition password_key (pw : list Z) : list bool := pad 64 (concat (char_key <$> take 8 pw)).

Lemma chars_key_length pw : (length (concat (char_key <$> take 8 pw)) <= 64)%nat.
Proof.
  assert (∀ cs, length (concat (char_key <$> cs)) = (8 * length cs)%nat) as ->.
  { induction cs as [|c cs IH]; [done|]. rewrite fmap_cons. cbn [concat]. rewrite length_app, IH. cbn. lia. }
  rewrite length_take. lia.
Qed.

Lemma password_key_length pw : length (password_key pw) = 64%nat.
Proof.
  unfold password_key, pad. rewrite length_app, length_replicate.
  pose proof (chars_key_length pw). lia.
Qed.

Lemma char_bits_bz c : nzbyte c → char_bits (s8 c) ++ [0] = bz (char_key c).
Proof.
  intros Hc. apply (bool_decide_unpack _), Is_true_true.
  refine (interval_forallb (λ c, bool_decide (char_bits (s8 c) ++ [0] = bz (char_key c))) 1 255 _ c _).
  - vm_compute. reflexivity.
  - unfold nzbyte in Hc. lia.
Qed.

Lemma list_inserts_mid {A} (l1 l2 k r : list A) :
  length k = length l2 → list_inserts (length l1) k (l1 ++ l2 ++ r) = l1 ++ k ++ r.
Proof.
  intros Hk. apply list_eq. intros i.
  destruct (decide (i < length l1)%nat) as [H1|H1].
  { rewrite list_lookup_inserts_lt, !lookup_app_l by lia. done. }
  destruct (decide (i < length l1 + length k)%nat) as [H2|H2].
  { rewrite list_lookup_inserts by (rewrite ?length_app; lia).
    rewrite lookup_app_r, lookup_app_l by lia. done. }
  rewrite list_lookup_inserts_ge, !lookup_app_r by lia. f_equal. lia.
Qed.

Lemma key_block_bz pw k pre :
  Forall nzbyte pw → length pre = (8 * k)%nat → (k <= 8)%nat →
  key_block pw (8 * k) (bz (pre ++ replicate (66 - 8 * k) false)) =
  bz (pad 66 (pre ++ concat (char_key <$> take (8 - k) pw))).
Proof.
  intros Hpw. revert k pre. induction Hpw as [|c pw Hc Hpw IH]; intros k pre Hpre Hk.
  { cbn. unfold pad. by rewrite take_nil, app_nil_r, Hpre. }
  cbn [key_block]. destruct (Nat.ltb_spec (8 * k) 64) as [Hlt|Hge].
  2:{ assert (k = 8%nat) as -> by lia. cbn [take concat]. unfold pad. by rewrite app_nil_r, Hpre. }
  replace (8 * k + 8)%nat with (8 * S k)%nat by lia.
  replace (8 - k)%nat with (S (8 - S k)) by lia. rewrite firstn_cons. cbn [fmap list_fmap concat].
  rewrite (assoc_L (++)), <- IH by (rewrite ?length_app; cbn; lia). f_equal.
  replace (66 - 8 * k)%nat with (7 + S (66 - 8 * S k))%nat by lia.
  rewrite replicate_add, !bz_app, <- Hpre, <- (bz_length pre), list_inserts_mid by done.
  rewrite <- char_bits_bz, <- !(assoc_L (++)) by done. done.
Qed.

Lemma password_block pw :
  Forall nzbyte pw → key_block pw 0 (replicate 66 0) = bz (password_key pw ++ [false; false]).
Proof.
  intros Hpw. pose proof (key_block_bz pw 0 [] Hpw eq_refl ltac:(lia)) as H.
  cbn [app] in H. rewrite Nat.mul_0_r in H. unfold password_key, pad in *.
  replace (replicate 66 0) with (bz (replicate (66 - 0) false)) by reflexivity. rewrite H.
  pose proof (chars_key_length pw).
  rewrite <- (assoc_L (++)). cbn [Nat.sub]. set (l := concat _) in *.
replace (66 - length l)%nat with (64 - length l + 2)%nat by lia.
  by rewrite replicate_add.
Qed.


(** The character of a number below 64. *)
Definition digit (v : Z) : Z := nth (Z.to_nat v) b64t 0.

(** Twelve bits of salt: each exchanges two entries of [E]. *)
Definition salt_has (a b : Z) (j : nat) : bool :=
  if (j <? 6)%nat then Z.testbit a (Z.of_nat j) else Z.testbit b (Z.of_nat j - 6).
Definition salted_E (a b : Z) : list nat :=
  (λ i, let j := (i mod 24)%nat in
        nth (if (j <? 12)%nat && salt_has a b j then (i + 24) mod 48 else i)%nat fips_E 0%nat)
  <$> seq 0 48.

Definition salt_ok (a b : Z) : bool :=
  bool_decide (read_salt [digit a; digit b] (Z.of_nat <$> fips_E) =
    Some ([digit a; digit b], Z.of_nat <$> salted_E a b)) &&
  in_range 32 (salted_E a b).

Lemma salts_ok a b : 0 <= a < 64 → 0 <= b < 64 → salt_ok a b = true.
Proof.
  intros Ha Hb. assert (∀ b, 0 <= b < 0 + Z.of_nat 64 → forallb (λ a, salt_ok a b) (seqZ 0 64) = true) as H.
  { apply interval_forallb. vm_compute. reflexivity. }
  refine (interval_forallb (λ a, salt_ok a b) 0 64 _ a _); [apply H; lia|lia].
Qed.

Lemma read_salt_digits a b rest :
  0 <= a < 64 → 0 <= b < 64 →
  read_salt (digit a :: digit b :: rest) (Z.of_nat <$> fips_E) =
    Some ([digit a; digit b], Z.of_nat <$> salted_E a b).
Proof.
  intros Ha Hb. pose proof (salts_ok a b Ha Hb) as H. unfold salt_ok in H.
  apply andb_prop in H as [H _]. by apply bool_decide_eq_true in H.
Qed.

Lemma salted_E_ok a b : 0 <= a < 64 → 0 <= b < 64 → table_ok (salted_E a b).
Proof.
  intros Ha Hb. pose proof (salts_ok a b Ha Hb) as H. unfold salt_ok in H.
  apply andb_prop in H as [_ H]. split; [apply length_fmap|by apply in_range_ok].
Qed.

(** Six bits as a character; the last two bits are missing and count as zeros. *)
Definition hash_chars (b : list bool) : list Z :=
  (λ i, digit (Z.of_nat (bits_value (take 6 (drop (6 * i) (b ++ [false; false])))))) <$> seq 0 11.

Lemma out_char_bz l : length l = 6%nat → out_char (bz l) = digit (Z.of_nat (bits_value l)).
Proof.
  intros Hl. do 6 (destruct l as [|[] l]; [done|..]); (destruct l; [reflexivity|done]).
Qed.

Lemma out_chars_bz b : length b = 64%nat → out_chars (bz (b ++ [false; false])) = hash_chars b.
Proof.
  intros Hb. unfold out_chars, hash_chars. apply list_fmap_ext. intros k i Hi.
  apply lookup_seq in Hi as [-> Hi]. rewrite drop_bz, take_bz. apply out_char_bz.
  rewrite length_take, length_drop, length_app, Hb. cbn [length]. lia.
Qed.

Lemma keys_ok_schedule key : keys_ok (round_keys key).
Proof. unfold keys_ok, round_keys. apply Forall_fmap, Forall_true. intros n. apply sel_length. Qed.

Lemma encrypt_times_bz n Es Ks b tl :
  table_ok Es → keys_ok Ks → length b = 64%nat →
  encrypt_times n (mk_statics (bz <$> Ks) (Z.of_nat <$> Es)) (bz b ++ tl) =
    Some (bz (Nat.iter n (des Es Ks) b) ++ tl).
Proof.
  intros HE HK. revert b. induction n as [|n IH]; intros b Hb; [done|].
  cbn [encrypt_times]. rewrite encrypt_bz by done. cbn [mbind option_bind].
  rewrite IH by apply des_length. by rewrite Nat.iter_succ_r.
Qed.

(** The hash of a password with the salt of the digits [a] and [b]. *)
Definition des_hash (pw : list Z) (a b : Z) : list Z :=
  hash_chars (Nat.iter 25 (des (salted_E a b) (round_keys (password_key pw))) (replicate 64 false)).

Lemma not_prefix p c s : c ≠ CH "$" → has_prefix (CH "$" :: p) (c :: s) = false.
Proof. intros Hc. unfold has_prefix. apply bool_decide_eq_false. intros H. by injection H. Qed.

(** The salt of a DES hash: it does not start like the one of another hash. *)
Definition des_salt (salt : list Z) : Prop :=
  ∀ k, k ∈ [STR "$1$"; STR "$5$"; STR "$6$"] → has_prefix k salt = false.

Lemma crypt_choice pw salt md5 sha :
  des_salt salt →
  crypt pw salt md5 sha = match crypt_des pw salt with Some h => Ok (Some h) | None => Fault end.
Proof. intros H. unfold crypt. rewrite !H by set_solver. done. Qed.

Lemma crypt_des_eq pw salt s Es :
  Forall nzbyte pw → read_salt salt (Z.of_nat <$> fips_E) = Some (s, Z.of_nat <$> Es) → table_ok Es →
  crypt_des pw salt = Some (fix_second (s ++ hash_chars
    (Nat.iter 25 (des Es (round_keys (password_key pw))) (replicate 64 false)))).
Proof.
  intros Hpw Hs HE. unfold crypt_des. rewrite password_block, setkey_bz
    by (rewrite ?length_app, ?password_key_length; done || lia).
  cbn [mbind option_bind E KS]. rewrite Hs. cbn [mbind option_bind].
  rewrite round_keys_app by by rewrite password_key_length.
  pose proof (encrypt_times_bz 25 Es (round_keys (password_key pw)) (replicate 64 false) [0; 0]
    HE (keys_ok_schedule _) eq_refl) as H.
  replace (bz (replicate 64 false) ++ [0; 0]) with (replicate 66 0) in H by reflexivity.
  rewrite H. cbn [mbind option_bind].
  change [0; 0] with (bz [false; false]). rewrite <- bz_app, out_chars_bz; [done|].
  rewrite Nat.iter_succ. apply des_length.
Qed.

Lemma digit_nonzero v : 0 <= v < 64 → nzbyte (digit v) ∧ digit v ≠ CH "$".
Proof.
  intros Hv. assert (((0 <? digit v) && (digit v <? 256) && negb (digit v =? CH "$")) = true).
  { refine (interval_forallb (λ v, (0 <? digit v) && (digit v <? 256) && negb (digit v =? CH "$")) 0 64 _ v _).
    - vm_compute. reflexivity.
    - lia. }
  unfold nzbyte. lia.
Qed.

(** C21: for every password and every salt that starts with two characters of the
    alphabet, [crypt] returns these two characters and the encoded 25-fold encryption
    of the zero block with DES as in FIPS 46-3, whose key is the low seven bits of the
    first eight characters of the password, and whose expansion the 12 bits of the salt
    change. *)
Theorem crypt_des_correct (pw : list Z) (a b : Z) (rest : list Z) (md5 : MD5_CTX * MD5_CTX)
    (sha : sha_ctx * sha_ctx)
    (Hpw : Forall nzbyte pw) (Ha : 0 <= a < 64) (Hb : 0 <= b < 64) :
  crypt pw (digit a :: digit b :: rest) md5 sha =
    Ok (Some (digit a :: digit b :: des_hash pw a b)).
Proof.
  rewrite crypt_choice.
  2:{ intros k Hk. destruct (digit_nonzero a Ha) as [_ Hd].
      repeat (apply elem_of_cons in Hk as [->|Hk]; [by apply not_prefix|]). by apply not_elem_of_nil in Hk. }
  rewrite (crypt_des_eq _ _ _ (salted_E a b)) by (done || by apply read_salt_digits || by apply salted_E_ok).
  destruct (digit_nonzero b Hb) as [Hd _]. unfold nzbyte in Hd. unfold fix_second. cbn [app].
  destruct (digit b); [lia|done|lia].
Qed.

(** Applied to the example of the tests: [crypt("fnord","ab")]. *)
Lemma crypt_des_correct_witness :
  let m := mk_md5 md5_H0 0 0 (replicate 64 0) in
  let c := mk_ctx H256 0 0 0 (replicate 128 0) in
  crypt (STR "fnord") (STR "ab") (m, m) (c, c) = Ok (Some (STR "ab3MSJErI/bdM")).
Proof.
  intros m c. etransitivity.
  { refine (crypt_des_correct (STR "fnord") 38 39 [] _ _ _ _ _); [|lia..].
    repeat constructor; unfold nzbyte; lia. }
  vm_compute. reflexivity.
Defined.

(** ** Types *)

Definition bit (x : Z) : Prop := x = 0 ∨ x = 1.
(** The state that [setkey] leaves, and [crypt] after it has read the salt. *)
Record statics_ok (st : statics) : Prop := {
  KS_length : length (KS st) = 16%nat;
  KS_bits : Forall (λ K, length K = 48%nat ∧ Forall bit K) (KS st);
  E_length : length (E st) = 48%nat;
  E_range : Forall (λ e, 1 <= e <= 32) (E st) }.

Lemma bits_bz l : Forall bit l → ∃ b, l = bz b.
Proof.
  induction 1 as [|x l Hx _ [b ->]]; [by exists []|].
  destruct Hx as [-> | ->]; [by exists (false :: b)|by exists (true :: b)].
Qed.

Lemma bz_bits b : Forall bit (bz b).
Proof. apply Forall_fmap, Forall_true. intros []; [by right|by left]. Qed.

Lemma E_table l : length l = 48%nat → Forall (λ e, 1 <= e <= 32) l → ∃ Es, l = Z.of_nat <$> Es ∧ table_ok Es.
Proof.
  intros Hl H. exists (Z.to_nat <$> l). split.
  - rewrite <- list_fmap_compose. symmetry. rewrite <- (list_fmap_id l) at 2.
    apply list_fmap_ext. intros k e He. rewrite Forall_lookup in H. apply H in He. cbn. lia.
  - split; [by rewrite length_fmap|]. apply Forall_fmap. eapply Forall_impl; [exact H|]. cbn. lia.
Qed.

Lemma table_E Es : table_ok Es → length (Z.of_nat <$> Es) = 48%nat ∧ Forall (λ e, 1 <= e <= 32) (Z.of_nat <$> Es).
Proof.
  intros [H1 H2]. split; [by rewrite length_fmap|]. apply Forall_fmap.
  eapply Forall_impl; [exact H2|]. cbn. lia.
Qed.

Lemma statics_view st :
  statics_ok st → ∃ Es Ks, st = mk_statics (bz <$> Ks) (Z.of_nat <$> Es) ∧ table_ok Es ∧ keys_ok Ks ∧ length Ks = 16%nat.
Proof.
  intros [H1 H2 H3 H4]. destruct st as [ks e]. cbn in *.
  destruct (E_table e H3 H4) as (Es & -> & HE).
  assert (∃ Ks, ks = bz <$> Ks ∧ keys_ok Ks) as (Ks & -> & HK).
  { clear H1. induction H2 as [|K ks [HK Hbits] _ (Ks & -> & IH)]; [by exists []; split; [|constructor]|].
    destruct (bits_bz K Hbits) as [k ->]. exists (k :: Ks). split; [done|].
    constructor; [by rewrite bz_length in HK|done]. }
  exists Es, Ks. rewrite length_fmap in H1. done.
Qed.

Lemma view_statics Es Ks :
  table_ok Es → keys_ok Ks → length Ks = 16%nat → statics_ok (mk_statics (bz <$> Ks) (Z.of_nat <$> Es)).
Proof.
  intros HE HK H16. destruct (table_E Es HE). split; cbn; [by rewrite length_fmap| |done..].
  apply Forall_fmap. eapply Forall_impl; [exact HK|]. intros K HKl. cbn.
  split; [by rewrite bz_length|apply bz_bits].
Qed.

Lemma block_view block :
  (64 <= length block)%nat → Forall bit (take 64 block) →
  ∃ b tl, block = bz b ++ tl ∧ length b = 64%nat.
Proof.
  intros Hl Hb. destruct (bits_bz _ Hb) as [b Hbz]. exists b, (drop 64 block). split.
  - by rewrite <- Hbz, take_drop.
  - rewrite <- bz_length, <- Hbz, length_take. lia.
Qed.

(** C22: decryption is encryption with the round keys in reverse order: it gives back
    every block, whatever the key and the salt were. *)
Theorem encrypt_inverse (st : statics) (block : list Z) (flag flag' : Z)
    (Hst : statics_ok st) (Hl : (64 <= length block)%nat) (Hb : Forall bit (take 64 block)) :
  ∃ out, encrypt st block flag = Some out ∧
    encrypt (mk_statics (reverse (KS st)) (E st)) out flag' = Some block.
Proof.
  destruct (statics_view st Hst) as (Es & Ks & -> & HE & HK & _).
  destruct (block_view block Hl Hb) as (b & tl & -> & Hb64).
  exists (bz (des Es Ks b) ++ tl). rewrite encrypt_bz by done. split; [done|].
  cbn [KS E]. rewrite <- fmap_reverse, encrypt_bz.
  - by rewrite des_inverse.
  - done.
  - by apply Forall_reverse.
  - apply des_length.
Qed.

Lemma fips_E_ok : table_ok fips_E.
Proof. split; [reflexivity|]. by apply in_range_ok. Qed.

Lemma encrypt_inverse_witness :
  let key := password_key (STR "fnord") in
  let st := mk_statics (bz <$> round_keys key) (Z.of_nat <$> fips_E) in
  setkey (bz key) = Some st ∧
  ∃ out, encrypt st (replicate 64 1) 0 = Some out ∧
    encrypt (mk_statics (reverse (KS st)) (E st)) out 1 = Some (replicate 64 1).
Proof.
  intros key st. split; [apply setkey_bz; subst key; by rewrite password_key_length|].
  apply (encrypt_inverse st (replicate 64 1) 0 1).
  - exact (view_statics fips_E (round_keys key) fips_E_ok (keys_ok_schedule key) (length_fmap _ _)).
  - cbn. lia.
  - apply Forall_take, Forall_replicate. by right.
Defined.

(** Whatever the salt is, the table [E] stays one that selects bits of a half block. *)
Lemma swap_entries_ok a b Es :
  (a < 48)%nat → (b < 48)%nat → table_ok Es →
  ∃ Es', swap_entries a b (Z.of_nat <$> Es) = Some (Z.of_nat <$> Es') ∧ table_ok Es'.
Proof.
  intros Ha Hb [HE HF].
  destruct (lookup_lt_is_Some_2 Es a) as [x Hx]; [lia|]. destruct (lookup_lt_is_Some_2 Es b) as [y Hy]; [lia|].
  exists (<[b := x]> (<[a := y]> Es)). unfold swap_entries.
  rewrite !list_lookup_fmap, Hx, Hy. cbn [fmap option_fmap option_map mbind option_bind].
  assert (∀ x y, Z.lxor y (Z.lxor x y) = x) as Hxor
    by (intros; by rewrite Z.lxor_comm, Z.lxor_assoc, Z.lxor_nilpotent, Z.lxor_0_r).
  rewrite (Hxor (Z.of_nat x) (Z.of_nat y)), (Z.lxor_comm (Z.lxor _ _)), (Z.lxor_comm _ (Z.of_nat y)), Hxor.
  split; [by rewrite !list_fmap_insert|]. split; [by rewrite !length_insert|].
  rewrite Forall_lookup in HF. apply Forall_insert; [apply Forall_insert|]; [|by eapply HF..].
  by apply Forall_lookup.
Qed.

Lemma salt_bit_ok c i j Es :
  (i < 2)%nat → (j < 6)%nat → table_ok Es →
  ∃ Es', salt_bit c i j (Z.of_nat <$> Es) = Some (Z.of_nat <$> Es') ∧ table_ok Es'.
Proof.
  intros Hi Hj HE. unfold salt_bit. destruct (_ =? 0); [by exists Es|]. apply swap_entries_ok; [lia..|done].
Qed.

Lemma salt_char_ok c i Es :
  (i < 2)%nat → table_ok Es →
  ∃ Es', salt_char c i (Z.of_nat <$> Es) = Some (Z.of_nat <$> Es') ∧ table_ok Es'.
Proof.
  intros Hi HE. unfold salt_char.
  assert (Forall (λ j, j < 6)%nat (seq 0 6)) as Hs by (repeat constructor).
  revert Es HE. induction Hs as [|j js Hj _ IH]; intros Es HE; [by exists Es|].
  cbn [foldl mbind option_bind].
  destruct (salt_bit_ok c i j Es Hi Hj HE) as (Es' & -> & HE'). by apply IH.
Qed.

Lemma read_salt_ok c salt :
  ∃ Es, read_salt (c :: salt) (Z.of_nat <$> fips_E) = Some ([c; default 0 (head salt)], Z.of_nat <$> Es) ∧
    table_ok Es.
Proof.
  destruct (salt_char_ok (salt_digit (s8 c)) 0 fips_E ltac:(lia) fips_E_ok) as (E1 & H1 & HE1).
  destruct (salt_char_ok (salt_digit (s8 (default 0 (head salt)))) 1 E1 ltac:(lia) HE1) as (E2 & H2 & HE2).
  exists E2. split; [|done]. unfold read_salt. cbn [app lookup list_lookup mbind option_bind].
  rewrite H1. cbn [mbind option_bind].
  destruct salt as [|d salt]; cbn in H2 |- *; by rewrite H2.
Qed.

Lemma bits_value_bound l : (bits_value l < 2 ^ length l)%nat.
Proof.
  unfold bits_value. assert (∀ n, (foldl (λ n b, 2 * n + Nat.b2n b) n l < (n + 1) * 2 ^ length l)%nat) as H.
  { induction l as [|b l IH]; intros n; cbn [foldl length]; [cbn; lia|].
    eapply Nat.lt_le_trans; [apply IH|]. rewrite Nat.pow_succ_r'.
    generalize (2 ^ length l)%nat. intros x. destruct b; cbn [Nat.b2n]; nia. }
  specialize (H 0%nat). by rewrite Nat.add_0_l, Nat.mul_1_l in H.
Qed.

Lemma hash_chars_ok b : length (hash_chars b) = 11%nat ∧ Forall (.∈ b64t) (hash_chars b).
Proof.
  split; [apply length_fmap|]. apply Forall_fmap, Forall_true. intros i.
  set (l := take 6 (drop (6 * i) (b ++ [false; false]))). change (digit (Z.of_nat (bits_value l)) ∈ b64t). assert (length l <= 6)%nat by (subst l; rewrite length_take; lia).
  pose proof (bits_value_bound l). assert (2 ^ length l <= 2 ^ 6)%nat by (apply Nat.pow_le_mono_r; lia).
  unfold digit. rewrite Nat2Z.id. apply list_elem_of_In, nth_In. change (length b64t) with (2 ^ 6)%nat. lia.
Qed.



(** What the functions do not do: [encrypt] never decrypts, and an empty salt is read
    beyond its end. *)
Lemma des_flaws :
  (∀ st block, encrypt st block 1 = encrypt st block 0) ∧
  (∀ pw, Forall nzbyte pw → crypt_des pw [] = None).
Proof.
  split; [done|]. intros pw Hpw. unfold crypt_des.
  rewrite password_block, setkey_bz by (rewrite ?length_app, ?password_key_length; done || lia).
  cbn [mbind option_bind E]. replace (read_salt [] (Z.of_nat <$> fips_E)) with (@None (list Z * list Z)); [done|].
  vm_compute. reflexivity.
Qed.
