(* ===== verification/Scanf.v ===== *)
(** * Formatted input

    [lib/__v_scanf.c], and [lib/vsscanf.c] and [libstdio/vfscanf.c] on top of it.  The
    format is the list of its bytes before the NUL; a pointer past the NUL is [None],
    and reading through it a fault.  The input is an interface, [CharStream], with the
    two functions of [struct arg_scanf].  The pointers among the variable arguments are
    addresses with a type; what is stored through them is recorded in order.  A pointer
    that is missing or of another type is a fault.  Arithmetic of doubles is the class
    [DoubleOps]. *)

From S2P Require Import Prelude Mem Ctype Convert Stdio.

(** [getch] and [putch] *)
Class CharStream (K : Type) : Type := { getch : CM K Z; putch : Z → CM K Z }.

(** An [int] as a double, [.1], and the operators. *)
Class DoubleOps : Type := {
  dbl : Type;
  d_int : Z → dbl;
  d_point_one : dbl;
  d_add : dbl → dbl → dbl;
  d_mul : dbl → dbl → dbl;
  d_div : dbl → dbl → dbl;
  d_neg : dbl → dbl
}.

Section scanf.
Context {K : Type} `{CharStream K} `{DoubleOps}.

Inductive scan_arg : Type :=
| P_int (p : Z) | P_long (p : Z) | P_longlong (p : Z) | P_short (p : Z)
| P_char (p : Z) | P_float (p : Z) | P_double (p : Z).
Inductive stored : Type :=
| V_int (v : Z) | V_long (v : Z) | V_longlong (v : Z) | V_short (v : Z)
| V_char (v : Z) | V_float (d : dbl) | V_double (d : dbl).

(** The input, [consumed], [tpch], [n], the arguments that are left, the stores. *)
Record scan_state : Type := mk_scan {
  stream : K; consumed : Z; tpch : Z; count : Z; sargs : list scan_arg; stores : list (Z * stored); serrno : Z }.

(** ** Computations that can return early *)

Definition SM (A : Type) : Type := CM scan_state (A + Z).
#[global] Instance SM_ret : MRet SM := λ A a w, Ok (inl a, w).
#[global] Instance SM_bind : MBind SM := λ A B k m w,
  match m w with
  | Ok (inl a, w') => k a w'
  | Ok (inr r, w') => Ok (inr r, w')
  | Fault => Fault
  | Hang => Hang
  end.
Definition s_return {A} (r : Z) : SM A := λ w, Ok (inr r, w).
Definition s_fault {A} : SM A := λ _, Fault.
Definition s_hang {A} : SM A := λ _, Hang.
Definition sget {A} (f : scan_state → A) : SM A := λ w, Ok (inl (f w), w).

Definition set_tpch (c : Z) (w : scan_state) : scan_state :=
  mk_scan (stream w) (consumed w) c (count w) (sargs w) (stores w) (serrno w).
Definition set_tpch_to (c : Z) : SM () := λ w, Ok (inl (), set_tpch c w).
(** [++n] *)
Definition inc_n : SM () := λ w,
  Ok (inl (), mk_scan (stream w) (consumed w) (tpch w) (s32 (count w + 1)) (sargs w) (stores w) (serrno w)).
Definition set_serrno (e : Z) : SM () := λ w,
  Ok (inl (), mk_scan (stream w) (consumed w) (tpch w) (count w) (sargs w) (stores w) e).

(** [tpch=A_GETC(fn)] *)
Definition A_GETC : SM () := λ w,
  match getch (stream w) with
  | Ok (c, k) => Ok (inl (), mk_scan k (u32 (consumed w + 1)) c (count w) (sargs w) (stores w) (serrno w))
  | Fault => Fault
  | Hang => Hang
  end.
(** [A_PUTC(c,fn)] *)
Definition A_PUTC (c : Z) : SM () := λ w,
  match putch c (stream w) with
  | Ok (_, k) => Ok (inl (), mk_scan k (u32 (consumed w - 1)) (tpch w) (count w) (sargs w) (stores w) (serrno w))
  | Fault => Fault
  | Hang => Hang
  end.

Definition va_pointer : SM scan_arg := λ w,
  match sargs w with
  | a :: l => Ok (inl a, mk_scan (stream w) (consumed w) (tpch w) (count w) l (stores w) (serrno w))
  | [] => Fault
  end.
Definition store (p : Z) (v : stored) : SM () := λ w,
  Ok (inl (), mk_scan (stream w) (consumed w) (tpch w) (count w) (sargs w) (stores w ++ [(p, v)]) (serrno w)).
(** [s=(char * )va_arg(arg_ptr,char* )] unless the conversion is discarded *)
Definition va_chars (discard : bool) : SM Z :=
  if discard then mret 0 else
  a ← va_pointer; match a with P_char p => mret p | _ => s_fault end.
Definition store_char (discard : bool) (s c : Z) : SM () :=
  if discard then mret () else store s (V_char (u8 c)).

(** [err_out] *)
Definition err_out {A} : SM A :=
  c ← sget tpch;
  n ← sget count;
  if (c <? 0) && (n =? 0) then s_return (-1) else
  _ ← A_PUTC c; s_return n.

(** ** The format *)

(** [*format], and [++format] *)
Definition deref (format : option (list Z)) : SM Z :=
  match format with
  | Some (c :: _) => mret (s8 c)
  | Some [] => mret 0
  | None => s_fault
  end.
Definition next (format : option (list Z)) : option (list Z) :=
  match format with Some (_ :: l) => Some l | _ => None end.

(** [while(( *format)&&(isspace( *format))) ++format;] *)
Fixpoint skip_format (format : list Z) : list Z :=
  match format with
  | c :: l => if isspace (s8 c) then skip_format l else format
  | [] => []
  end.

(** [while(isspace(tpch)) tpch=A_GETC(fn);] *)
Fixpoint skip_input (fuel : nat) : SM () :=
  match fuel with
  | O => s_hang
  | S fuel =>
      c ← sget tpch;
      if isspace c then _ ← A_GETC; skip_input fuel else mret ()
  end.

(** ** One conversion *)

Record conversion : Type := mk_conversion {
  s_width : Z; s_flag_width : bool; s_discard : bool; s_half : bool; s_long : bool; s_longlong : bool }.
Definition conversion0 : conversion := mk_conversion (-1) false false false false false.

(** [_div] for the conversion character *)
Definition div_of (ch : Z) : Z :=
  if (ch =? CH "p") || (ch =? CH "X") || (ch =? CH "x") then 16
  else if ch =? CH "d" then 10 else if ch =? CH "o" then 8 else 0.

(** The value of a digit: [c=(d>='a'?d-'a'+10:c<='9'?c-'0':0xff)] *)
Definition scan_digit (tpch : Z) : Z :=
  let c := Z.land tpch 0xff in
  let d := Z.lor c 0x20 in
  if d >=? CH "a" then d - CH "a" + 10 else if c <=? CH "9" then u64 (c - CH "0") else 0xff.

Fixpoint scan_digits (fuel : nat) (width div v : Z) : SM Z :=
  match fuel with
  | O => s_hang
  | S fuel =>
      t ← sget tpch;
      if (width =? 0) || (t =? -1) then mret v else
      let c := scan_digit t in
      if c >=? div then mret v else
      let d := u64 (v * div) in
      let v := if d <? v then ULONG_MAX else u64 (d + c) in
      _ ← A_GETC; scan_digits fuel (width - 1) div v
  end.

(** [scan_hex] *)
Definition scan_hex (div : Z) : SM Z :=
  _ ← A_GETC;
  t ← sget tpch;
  if Z.lor t 32 =? CH "x" then _ ← A_GETC; mret 16 else mret div.
Definition scan_prefix (sp : conversion) (div : Z) : SM Z :=
  if s_flag_width sp then mret div else
  t ← sget tpch;
  if (div =? 16) && (t =? CH "0") then scan_hex div
  else if div =? 0 then (if t =? CH "0" then scan_hex 8 else mret 10)
  else mret div.

Definition store_int (sp : conversion) (v : Z) : SM () :=
  a ← va_pointer;
  if s_longlong sp then match a with P_longlong p => store p (V_longlong (s64 v)) | _ => s_fault end
  else if s_long sp then match a with P_long p => store p (V_long (s64 v)) | _ => s_fault end
  else if s_half sp then match a with P_short p => store p (V_short (s16 v)) | _ => s_fault end
  else match a with P_int p => store p (V_int (s32 v)) | _ => s_fault end.

(** The sign; whether it is negative. *)
Definition scan_sign : SM bool :=
  t ← sget tpch;
  neg ← (if t =? CH "-" then _ ← A_GETC; mret true else mret false);
  t ← sget tpch;
  _ ← (if t =? CH "+" then A_GETC else mret ());
  mret neg.

Definition ABS_LLONG_MIN : Z := 0x8000000000000000.

(** [case 'p'] to [case 'i'] *)
Definition scan_int (fuel : nat) (ch : Z) (sp : conversion) : SM () :=
  _ ← skip_input fuel;
  neg ← scan_sign;
  t ← sget tpch;
  n ← sget count;
  if t =? -1 then s_return n else
  consumedsofar ← sget consumed;
  div ← scan_prefix sp (div_of ch);
  v ← scan_digits fuel (s_width sp) div 0;
  consumed ← sget consumed;
  if consumedsofar =? consumed then s_return n else
  let v := if (Z.lor ch 0x20 <? CH "p") && negb (v >=? ABS_LLONG_MIN) && neg then u64 (- v) else v in
  if s_discard sp then mret () else
  _ ← store_int sp v;
  if consumedsofar <? consumed then inc_n else mret ().

(** *** Floating point *)

(** [while (isdigit(tpch)) { d=d*10+(tpch-'0'); ... }] *)
Fixpoint scan_whole (fuel : nat) (d : dbl) : SM dbl :=
  match fuel with
  | O => s_hang
  | S fuel =>
      t ← sget tpch;
      if isdigit t then _ ← A_GETC; scan_whole fuel (d_add (d_mul d (d_int 10)) (d_int (t - CH "0")))
      else mret d
  end.
Fixpoint scan_fraction (fuel : nat) (d factor : dbl) : SM dbl :=
  match fuel with
  | O => s_hang
  | S fuel =>
      t ← sget tpch;
      if isdigit t then
        _ ← A_GETC;
        scan_fraction fuel (d_add d (d_mul factor (d_int (t - CH "0")))) (d_div factor (d_int 10))
      else mret d
  end.
(** The exponent, an [int]; its overflow is undefined. *)
Fixpoint scan_exponent (fuel : nat) (exp : Z) : SM Z :=
  match fuel with
  | O => s_hang
  | S fuel =>
      t ← sget tpch;
      if isdigit t then
        let exp := exp * 10 + (t - CH "0") in
        if exp >? 0x7fffffff then s_fault else _ ← A_GETC; scan_exponent fuel exp
      else mret exp
  end.
(** Behind the digits: the exponent, if there is one. *)
Definition scan_exp (fuel : nat) (d : dbl) : SM dbl :=
  prec ← sget tpch;
  if negb (Z.lor prec 0x20 =? CH "e") then mret d else
  _ ← A_GETC;
  t ← sget tpch;
  if (t =? CH "-") || (t =? CH "+") then
    _ ← A_GETC;
    consumedsofar ← sget consumed;
    exp ← scan_exponent fuel 0;
    consumed ← sget consumed;
    n ← sget count;
    if consumedsofar =? consumed then s_return n else
    let factor := if t =? CH "-" then d_point_one else d_int 10 in
    mret (Nat.iter (Z.to_nat exp) (λ d, d_mul d factor) d)
  else
    _ ← (if t =? -1 then mret () else A_PUTC t);
    _ ← set_tpch_to prec;
    mret (d_int 0).

(** [case 'e'] to [case 'g'] *)
Definition scan_float (fuel : nat) (sp : conversion) : SM () :=
  _ ← skip_input fuel;
  neg ← scan_sign;
  consumedsofar ← sget consumed;
  d ← scan_whole fuel (d_int 0);
  t ← sget tpch;
  d ← (if t =? CH "." then _ ← A_GETC; scan_fraction fuel d d_point_one else mret d);
  consumed ← sget consumed;
  n ← sget count;
  if u32 (consumedsofar + (if t =? CH "." then 1 else 0)) =? consumed then s_return n else
  d ← scan_exp fuel d;
  let d := if (neg : bool) then d_neg d else d in
  if s_discard sp then mret () else
  a ← va_pointer;
  _ ← (if s_long sp then match a with P_double p => store p (V_double d) | _ => s_fault end
       else match a with P_float p => store p (V_float d) | _ => s_fault end);
  inc_n.

(** *** Characters and strings *)

(** [case 'c'] *)
Fixpoint scan_chars (fuel : nat) (discard : bool) (s width : Z) : SM () :=
  match fuel with
  | O => s_hang
  | S fuel =>
      t ← sget tpch;
      if (width =? 0) || (t =? -1) then mret () else
      _ ← store_char discard s t;
      _ ← A_GETC; scan_chars fuel discard (s + 1) (width - 1)
  end.
Definition scan_c (fuel : nat) (sp : conversion) : SM () :=
  s ← va_chars (s_discard sp);
  _ ← (if s_discard sp then mret () else inc_n);
  scan_chars fuel (s_discard sp) s (if s_flag_width sp then s_width sp else 1).

(** The loops of [case 's'] and of [case '[']: the pointer at the end, and [matched]. *)
Fixpoint scan_while (fuel : nat) (more : Z → SM bool) (discard : bool) (s width : Z) (matched : bool) : SM (Z * bool) :=
  match fuel with
  | O => s_hang
  | S fuel =>
      t ← sget tpch;
      go ← (if width =? 0 then mret false else more t);
      if (go : bool) then
        _ ← store_char discard s t;
        if t =? 0 then mret (s, matched) else
        _ ← A_GETC; scan_while fuel more discard (s + 1) (width - 1) true
      else mret (s, matched)
  end.
Definition scan_s (fuel : nat) (sp : conversion) : SM () :=
  s ← va_chars (s_discard sp);
  _ ← skip_input fuel;
  t ← sget tpch;
  if t =? -1 then mret () else
  '(s, _) ← scan_while fuel (λ t, mret (negb (t =? -1) && negb (isspace t))) (s_discard sp) s (s_width sp) false;
  _ ← store_char (s_discard sp) s 0;
  if s_discard sp then mret () else inc_n.

(** [case 'n'] *)
Definition scan_n (sp : conversion) : SM () :=
  if s_discard sp then mret () else
  a ← va_pointer;
  consumed ← sget consumed;
  match a with P_int p => store p (V_int (s32 (consumed - 1))) | _ => s_fault end.

(** [cset[ch]=1], and [cset[tpch]] *)
Definition cset_add (ch : Z) (cset : list Z) : SM (list Z) :=
  if (0 <=? ch) && (ch <? 256) then mret (<[Z.to_nat ch := 1]> cset) else s_fault.
Fixpoint cset_range (n : nat) (ch : Z) (cset : list Z) : SM (list Z) :=
  match n with
  | O => mret cset
  | S n => cset ← cset_add ch cset; cset_range n (ch + 1) cset
  end.

(** [for (;( *format) && ( *format!=']');++format)]: [cset], the last character and
    [flag_dash]; [tmp] and [ch] are unsigned. *)
Fixpoint scan_cset (format : list Z) (cset : list Z) (ch : Z) (dash : bool) : SM (list Z * Z * bool * option (list Z)) :=
  match format with
  | [] => mret (cset, ch, dash, Some [])
  | c :: l =>
      if c =? CH "]" then mret (cset, ch, dash, Some format)
      else if dash then
        cset ← cset_range (Z.to_nat (c - ch + 1)) ch cset;
        scan_cset l cset (u32 (s8 c)) false
      else if c =? CH "-" then scan_cset l cset ch true
      else cset ← cset_add ch cset; scan_cset l cset (u32 (s8 c)) false
  end.

(** [case '[']: where the format goes on. *)
Definition scan_set (fuel : nat) (sp : conversion) (format : option (list Z)) : SM (option (list Z)) :=
  let cset := replicate 256 0 in
  ch ← deref format;
  let format := next format in
  '(flag_not, ch, format) ← (if ch =? CH "^" then c ← deref format; mret (true, c, next format) else mret (false, ch, format));
  '(cset, ch, format) ← (if (ch =? CH "-") || (ch =? CH "]")
                         then cset ← cset_add ch cset; c ← deref format; mret (cset, c, next format)
                         else mret (cset, ch, format));
  '(cset, ch, dash, format) ← match format with
                              | Some l => scan_cset l cset (u32 ch) false
                              | None => s_fault
                              end;
  cset ← cset_add (if (dash : bool) then CH "-" else ch) cset;
  s ← va_chars (s_discard sp);
  '(s, matched) ← scan_while fuel
     (λ t, if t <? 0 then mret false else
           match cset !! Z.to_nat t with
           | Some x => mret (negb (Z.lxor x (b2z flag_not) =? 0))
           | None => s_fault
           end) (s_discard sp) s (s_width sp) false;
  _ ← store_char (s_discard sp) s 0;
  _ ← (if (matched : bool) && negb (s_discard sp) then inc_n else mret ());
  mret (next format).

(** ** The directives *)

Definition set_width' (w : Z) (sp : conversion) : conversion :=
  mk_conversion w true (s_discard sp) (s_half sp) (s_long sp) (s_longlong sp).
Definition set_discard (sp : conversion) : conversion :=
  mk_conversion (s_width sp) (s_flag_width sp) true (s_half sp) (s_long sp) (s_longlong sp).
Definition set_half (sp : conversion) : conversion :=
  mk_conversion (s_width sp) (s_flag_width sp) (s_discard sp) true (s_long sp) (s_longlong sp).
Definition set_l (sp : conversion) : conversion :=
  mk_conversion (s_width sp) (s_flag_width sp) (s_discard sp) (s_half sp) true (s_long sp || s_longlong sp).
Definition set_longlong (sp : conversion) : conversion :=
  mk_conversion (s_width sp) (s_flag_width sp) (s_discard sp) (s_half sp) (s_long sp) true.

Definition is_one_of (c : Z) (l : list Z) : bool := existsb (Z.eqb c) l.

(** [in_scan]: one directive, from behind its percent sign; where the format goes on.
    [ffuel] counts the characters of the directive. *)
Fixpoint in_scan (ffuel fuel : nat) (format : option (list Z)) (sp : conversion) : SM (option (list Z)) :=
  match ffuel with
  | O => s_hang
  | S ffuel =>
      ch ← deref format;
      let start := format in
      let format := next format in
      t ← sget tpch;
      if negb (ch =? CH "n") && (t =? -1) then err_out
      else if ch =? 0 then s_return 0
      else if ch =? CH "%" then
        if negb (u8 t =? ch) then err_out else _ ← A_GETC; mret format
      else if ch =? CH "*" then in_scan ffuel fuel format (set_discard sp)
      else if ch =? CH "h" then in_scan ffuel fuel format (set_half sp)
      else if ch =? CH "l" then in_scan ffuel fuel format (set_l sp)
      else if is_one_of ch (STR "qL") then in_scan ffuel fuel format (set_longlong sp)
      else if is_one_of ch (STR "0123456789") then
        e ← sget serrno;
        let r := strtol (default [] start) 10 e in
        _ ← set_serrno (conv_errno r);
        in_scan ffuel fuel (endptr r) (set_width' (s32 (value r)) sp)
      else if is_one_of ch (STR "pXxdoui") then _ ← scan_int fuel ch sp; mret format
      else if is_one_of ch (STR "eEfg") then _ ← scan_float fuel sp; mret format
      else if ch =? CH "c" then _ ← scan_c fuel sp; mret format
      else if ch =? CH "s" then _ ← scan_s fuel sp; mret format
      else if ch =? CH "n" then _ ← scan_n sp; mret format
      else if ch =? CH "[" then scan_set fuel sp format
      else err_out
  end.

(** [while ( *format)], and [err_out] behind it *)
Fixpoint scan_loop (ffuel fuel : nat) (format : option (list Z)) : SM Z :=
  match ffuel with
  | O => s_hang
  | S ffuel =>
      c ← deref format;
      if c =? 0 then err_out
      else if is_one_of c [CH " "; 12; 9; 11; 10; 13] then
        _ ← skip_input fuel;
        scan_loop ffuel fuel (skip_format <$> next format)
      else if c =? CH "%" then
        format ← in_scan ffuel fuel (next format) conversion0;
        scan_loop ffuel fuel format
      else
        t ← sget tpch;
        if negb (u8 t =? u32 c) then err_out else _ ← A_GETC; scan_loop ffuel fuel (next format)
  end.

(** The result, what has been stored, the stream and [errno]. *)
Definition __v_scanf (fuel : nat) (k : K) (format : list Z) (args : list scan_arg) (errno : Z) :
    outcome (Z * list (Z * stored) * K * Z) :=
  match (_ ← A_GETC; scan_loop (S (length format)) fuel (Some format)) (mk_scan k 0 0 0 args [] errno) with
  | Ok (inl r, w) | Ok (inr r, w) => Ok (r, stores w, stream w, serrno w)
  | Fault => Fault
  | Hang => Hang
  end.

End scanf.

(** ** Strings *)

(** [struct str_data]: the string, and how far it has been read. *)
Record str_data : Type := mk_str { text : list Z; str : nat }.

Definition sgetc : CM str_data Z := λ sd,
  match (text sd ++ [0]) !! str sd with
  | Some ret => Ok (if ret =? 0 then -1 else ret, mk_str (text sd) (S (str sd)))
  | None => Fault
  end.
Definition sputc (c : Z) : CM str_data Z := λ sd,
  match str sd with
  | S i => match (text sd ++ [0]) !! i with
           | Some b => Ok (if b =? c then c else -1, mk_str (text sd) i)
           | None => Fault
           end
  | O => Fault
  end.
#[export] Instance string_stream : CharStream str_data := {| getch := sgetc; putch := sputc |}.

Definition vsscanf `{DoubleOps} (s format : list Z) (args : list scan_arg) (errno : Z) : outcome (Z * list (Z * stored) * Z) :=
  match __v_scanf (length s + 2) (mk_str s 0) format args errno with
  | Ok (r, st, _, e) => Ok (r, st, e)
  | Fault => Fault
  | Hang => Hang
  end.

(** ** Streams: [fgetc] and [ungetc], which are other names of [fgetc_unlocked] and
    [ungetc_unlocked] *)
Definition file_stream {K} `{Syscalls K} (f : Z) : CharStream (stdio K) :=
  {| getch := fgetc_unlocked f; putch c := ungetc_unlocked c f |}.

Definition vfscanf {K} `{Syscalls K} `{DoubleOps} (fuel : nat) (f : Z) (format : list Z) (args : list scan_arg) (errno : Z)
    (w : stdio K) : outcome (Z * list (Z * stored) * stdio K * Z) :=
  __v_scanf (H := file_stream f) fuel w format args errno.
Definition vscanf {K} `{Syscalls K} `{DoubleOps} (fuel : nat) := vfscanf fuel stdin.
