(* ===== verification/ScanfFacts.v ===== *)
(** * What formatted input reads

    A logic of what a computation of [Scanf] reads from a string, the meaning of the
    directives, and the result of [vsscanf]: it takes apart every input that the format
    describes, stops where the input does not fit any more, and never reads beyond the
    end of the string. *)

From S2P Require Import Prelude Mem Ctype Convert ConvertFacts Stdio Printf PrintfSpec PrintfFacts Scanf.

(** ** What a computation reads *)

Section reads.
Context `{DoubleOps}.
Notation SM := (SM (K := str_data)).
Notation scan_state := (scan_state (K := str_data)).

Definition head_char (rest : list Z) : Z := match rest with c :: _ => c | [] => -1 end.

(** The string is [pre ++ rest]; the first character of [rest] has been read into
    [tpch], and nothing behind it. *)
Record view (pre rest : list Z) (w : scan_state) : Prop := {
  view_text : text (stream w) = pre ++ rest;
  view_pos : str (stream w) = S (length pre);
  view_consumed : consumed w = Z.of_nat (S (length pre));
  view_tpch : tpch w = head_char rest;
  view_chars : Forall nzbyte (pre ++ rest);
  view_small : Z.of_nat (length (pre ++ rest)) + 2 < 2 ^ 32 }.

(** From the input [rest] and the arguments [args], [m] reads [inp], uses [args] down to
    [args'], makes the stores [st] and adds [k] to the count. *)
Definition reads {A} (m : SM A) (pre inp rest : list Z) (args : list scan_arg) (a : A) (st : list (Z * stored)) (k : Z)
    (args' : list scan_arg) : Prop :=
  ∀ w, view pre (inp ++ rest) w → sargs w = args → 0 <= count w → count w + k < 2 ^ 31 →
  ∃ w', m w = Ok (inl a, w') ∧ view (pre ++ inp) rest w' ∧ sargs w' = args' ∧ stores w' = stores w ++ st ∧
    count w' = count w + k ∧ serrno w' = serrno w.

Lemma SM_bind_Ok {A B} (m : SM A) (k : A → SM B) w a w' : m w = Ok (inl a, w') → (m ≫= k) w = k a w'.
Proof. intros E. unfold mbind, SM_bind. by rewrite E. Qed.
Lemma SM_bind_ret {A B} (m : SM A) (k : A → SM B) w r w' : m w = Ok (inr r, w') → (m ≫= k) w = Ok (inr r, w').
Proof. intros E. unfold mbind, SM_bind. by rewrite E. Qed.

Lemma reads_ret {A} (a : A) pre rest args : reads (mret a) pre [] rest args a [] 0 args.
Proof. intros w Hw Ha _ _. exists w. rewrite !app_nil_r. split_and!; try done. lia. Qed.

Lemma reads_bind {A B} (m : SM A) (f : A → SM B) pre i1 i2 rest args a s1 k1 args1 b s2 k2 args2 :
  0 <= k1 → 0 <= k2 →
  reads m pre i1 (i2 ++ rest) args a s1 k1 args1 → reads (f a) (pre ++ i1) i2 rest args1 b s2 k2 args2 →
  reads (m ≫= f) pre (i1 ++ i2) rest args b (s1 ++ s2) (k1 + k2) args2.
Proof.
  intros Hk1 Hk2 Hm Hf w Hw Ha Hn Hc. rewrite <- app_assoc in Hw.
  destruct (Hm w Hw Ha ltac:(lia) ltac:(lia)) as (w1 & E1 & V1 & A1 & S1 & C1 & R1).
  destruct (Hf w1 V1 A1 ltac:(lia) ltac:(lia)) as (w2 & E2 & V2 & A2 & S2 & C2 & R2).
  exists w2. rewrite (SM_bind_Ok _ _ _ _ _ E1), app_assoc. split_and!; try done.
  - by rewrite S2, S1, app_assoc.
  - lia.
  - congruence.
Qed.

(** The first part reads nothing, or the second does. *)
Lemma reads_bind0 {A B} (m : SM A) (f : A → SM B) pre inp rest args a args1 b st k args2 :
  0 <= k → reads m pre [] (inp ++ rest) args a [] 0 args1 → reads (f a) pre inp rest args1 b st k args2 →
  reads (m ≫= f) pre inp rest args b st k args2.
Proof.
  intros Hk Hm Hf. apply (reads_bind m f pre [] inp rest args a [] 0 args1 b st k args2); try done.
  by rewrite app_nil_r.
Qed.
Lemma reads_bind_last {A B} (m : SM A) (f : A → SM B) pre inp rest args a args1 b s1 s2 k1 k2 args2 :
  0 <= k1 → 0 <= k2 →
  reads m pre inp rest args a s1 k1 args1 → reads (f a) (pre ++ inp) [] rest args1 b s2 k2 args2 →
  reads (m ≫= f) pre inp rest args b (s1 ++ s2) (k1 + k2) args2.
Proof.
  intros H1 H2 Hm Hf. rewrite <- (app_nil_r inp).
  by apply (reads_bind m f pre inp [] rest args a s1 k1 args1 b s2 k2 args2).
Qed.

(** The first part only reads. *)
Lemma reads_bind1 {A B} (m : SM A) (f : A → SM B) pre i1 i2 rest args a b st k args2 :
  0 <= k → reads m pre i1 (i2 ++ rest) args a [] 0 args → reads (f a) (pre ++ i1) i2 rest args b st k args2 →
  reads (m ≫= f) pre (i1 ++ i2) rest args b st k args2.
Proof. intros Hk Hm Hf. by apply (reads_bind m f pre i1 i2 rest args a [] 0 args b st k args2). Qed.

Lemma reads_eq {A} (m : SM A) pre inp inp' rest args a st k args' :
  inp = inp' → reads m pre inp rest args a st k args' → reads m pre inp' rest args a st k args'.
Proof. by intros ->. Qed.

Lemma reads_tpch pre rest args : reads (sget tpch) pre [] rest args (head_char rest) [] 0 args.
Proof.
  intros w Hw Ha _ _. exists w. rewrite !app_nil_r. split_and!; try done; [|lia].
  unfold sget. by rewrite (view_tpch _ _ _ Hw).
Qed.

Lemma reads_consumed pre rest args : reads (sget consumed) pre [] rest args (Z.of_nat (S (length pre))) [] 0 args.
Proof.
  intros w Hw Ha _ _. exists w. rewrite !app_nil_r. split_and!; try done; [|lia].
  unfold sget. by rewrite (view_consumed _ _ _ Hw).
Qed.

Lemma reads_getc pre c rest args : reads A_GETC pre [c] rest args () [] 0 args.
Proof.
  intros w Hw Ha _ _. destruct Hw as [Ht Hp Hc Htp Hch Hs]. cbn [app] in *.
  unfold A_GETC. cbn [getch string_stream]. unfold sgetc. rewrite Hp, Ht.
  assert (((pre ++ c :: rest) ++ [0]) !! S (length pre) = Some (match rest with [] => 0 | d :: _ => d end)) as ->.
  { replace ((pre ++ c :: rest) ++ [0]) with ((pre ++ [c]) ++ rest ++ [0]) by by rewrite <- !app_assoc.
    rewrite lookup_app_r by (rewrite length_app; cbn; lia).
    rewrite length_app. replace (S (length pre) - (length pre + length [c]))%nat with 0%nat by (cbn; lia).
    by destruct rest. }
  eexists. split; [done|]. cbn [stream consumed tpch count sargs stores serrno].
  rewrite app_nil_r. split_and!; [|done|done|lia|done].
  rewrite length_app in Hs. cbn in Hs. split; cbn [stream consumed tpch text str].
  - by rewrite <- app_assoc.
  - rewrite length_app. cbn. lia.
  - rewrite Hc, length_app. cbn. rewrite u32_id; lia.
  - destruct rest as [|d rest]; [done|]. cbn. apply Forall_app in Hch as [_ Hch].
    inversion_clear Hch as [|? ? _ Hch']. inversion_clear Hch' as [|? ? Hd _]. unfold nzbyte in Hd.
    by replace (d =? 0) with false by lia.
  - by rewrite <- app_assoc.
  - rewrite <- app_assoc, length_app. cbn. lia.
Qed.

Lemma reads_inc pre rest args : reads inc_n pre [] rest args () [] 1 args.
Proof.
  intros w Hw Ha Hn Hk. unfold inc_n. eexists. split; [done|]. cbn [stream consumed tpch count sargs stores serrno].
  rewrite !app_nil_r. split_and!; try done; [by destruct Hw|]. int_lia.
Qed.

Lemma reads_store pre rest args p v : reads (store p v) pre [] rest args () [(p, v)] 0 args.
Proof.
  intros w Hw Ha _ _. unfold store. eexists. split; [done|]. cbn [stream consumed tpch count sargs stores serrno].
  rewrite app_nil_r. split_and!; try done; [by destruct Hw|]. lia.
Qed.

Lemma reads_va pre rest a args : reads va_pointer pre [] rest (a :: args) a [] 0 args.
Proof.
  intros w Hw Ha _ _. unfold va_pointer. rewrite Ha. eexists. split; [done|].
  cbn [stream consumed tpch count sargs stores serrno].
  rewrite !app_nil_r. split_and!; try done; [by destruct Hw|]. lia.
Qed.

Lemma reads_deref c l pre rest args : reads (deref (Some (c :: l))) pre [] rest args (s8 c) [] 0 args.
Proof. apply reads_ret. Qed.

(** The characters of the string are not NUL. *)
Lemma reads_chars {A} (m : SM A) pre inp rest args a st k args' :
  (Forall nzbyte (pre ++ inp ++ rest) → reads m pre inp rest args a st k args') → reads m pre inp rest args a st k args'.
Proof. intros Hm w Hw. apply Hm; [apply (view_chars _ _ _ Hw)|done]. Qed.

(** ** Spaces and signs *)

Definition space (c : Z) : Prop := isspace c = true.
(** The input does not go on with a character of the class. *)
Definition ends (P : Z → bool) (rest : list Z) : Prop := match rest with c :: _ => P c = false | [] => True end.

Lemma reads_skip sp : ∀ fuel pre rest args,
  Forall space sp → ends isspace rest → (length sp < fuel)%nat →
  reads (skip_input fuel) pre sp rest args () [] 0 args.
Proof.
  induction sp as [|c sp IH]; intros [|fuel] pre rest args Hsp Hr Hf; cbn [length] in Hf; try lia; cbn [skip_input].
  - eapply reads_bind0; [lia|apply reads_tpch|]. cbn [app].
    destruct rest as [|c rest]; cbn [head_char]; [apply reads_ret|]. rewrite Hr. apply reads_ret.
  - inversion_clear Hsp as [|? ? Hc Hsp']. eapply reads_bind0; [lia|apply reads_tpch|]. cbn [app head_char].
    rewrite Hc. apply (reads_bind _ _ pre [c] sp rest args () [] 0 args () [] 0 args); [lia..| |].
    + apply reads_getc.
    + apply IH; [done..|lia].
Qed.

Definition is_sign (c : Z) : bool := (c =? CH "-") || (c =? CH "+").

Lemma reads_sign sg neg pre rest args :
  sign_str sg neg → ends is_sign rest → reads scan_sign pre sg rest args neg [] 0 args.
Proof.
  intros Hsg Hr. unfold scan_sign.
  assert ((head_char rest =? CH "-") = false ∧ (head_char rest =? CH "+") = false) as [Hm Hp]
    by (destruct rest as [|c rest]; cbn in *; unfold is_sign in *; lia).
  destruct Hsg; (eapply reads_bind0; [lia|apply reads_tpch|]); cbn [app head_char].
  - rewrite Hm. eapply reads_bind0; [lia|apply reads_ret|]. eapply reads_bind0; [lia|apply reads_tpch|].
    cbn [app]. rewrite Hp. eapply reads_bind0; [lia|apply reads_ret|]. apply reads_ret.
  - cbn. eapply reads_bind0; [lia|apply reads_ret|]. eapply reads_bind0; [lia|apply reads_tpch|].
    cbn. apply (reads_bind_last _ _ pre _ _ args () args _ [] [] 0 0 args); [lia..|apply reads_getc|apply reads_ret].
  - apply (reads_bind_last _ _ pre _ _ args true args _ [] [] 0 0 args); [lia..| |].
    + apply (reads_bind_last _ _ pre _ _ args () args _ [] [] 0 0 args); [lia..|apply reads_getc|apply reads_ret].
    + eapply reads_bind0; [lia|apply reads_tpch|]. cbn [app]. rewrite Hp.
      eapply reads_bind0; [lia|apply reads_ret|]. apply reads_ret.
Qed.

(** ** Numerals *)

Definition sdigits (base : Z) (ds : list Z) : Prop := Forall (λ c, scan_digit c < base) ds.
Definition snum (base : Z) (ds : list Z) (v : Z) : Z := foldl (λ v c, v * base + scan_digit c) v ds.

Lemma scan_digit_nonneg c : 0 <= scan_digit c.
Proof.
  unfold scan_digit. set (x := Z.land c 0xff). destruct (Z.lor x 0x20 >=? CH "a") eqn:E; [lia|].
  destruct (x <=? CH "9"); [apply u64_range|lia].
Qed.

Lemma snum_ge base ds v : 1 <= base → 0 <= v → v <= snum base ds v.
Proof.
  intros Hb. revert v. induction ds as [|c ds IH]; intros v Hv; cbn; [lia|].
  pose proof (scan_digit_nonneg c). etransitivity; [|apply IH; nia]. nia.
Qed.

(** The numeral [ds] ends where it does: at the width or in front of no digit. *)
Definition digits_end (base width : Z) (n : nat) (rest : list Z) : Prop :=
  width = Z.of_nat n ∨ (width < 0 ∨ Z.of_nat n < width) ∧ ends (λ c, scan_digit c <? base) rest.

Lemma reads_digits base ds : ∀ fuel width v pre rest args,
  1 <= base → sdigits base ds → digits_end base width (length ds) rest → 0 <= v → snum base ds v < 2 ^ 64 →
  (length ds < fuel)%nat →
  reads (scan_digits fuel width base v) pre ds rest args (snum base ds v) [] 0 args.
Proof.
  intros fuel width v pre rest args Hb. revert fuel width v pre.
  induction ds as [|c ds IH]; intros [|fuel] width v pre Hd He Hv Hn Hf; cbn [length] in *; try lia;
    cbn [scan_digits]; apply reads_chars; intros Hz; (eapply reads_bind0; [lia|apply reads_tpch|]); cbn [app head_char].
  - assert (((width =? 0) || (head_char rest =? -1)) = true ∨ (scan_digit (head_char rest) >=? base) = true) as Hstop.
    { destruct He as [->|[_ He]]; [by left|]. destruct rest as [|d rest]; [left; by destruct (_ =? _)|right].
      cbn in *. lia. }
    destruct (_ || _); [apply reads_ret|]. destruct Hstop as [Hstop|Hstop]; [done|]. rewrite Hstop. apply reads_ret.
  - inversion_clear Hd as [|? ? Hc Hd'].
    assert (nzbyte c) as Hcz by (apply Forall_app in Hz as [_ Hz]; by inversion_clear Hz).
    unfold nzbyte in Hcz. assert (width ≠ 0) as Hw by (destruct He as [?|[? _]]; lia).
    replace ((width =? 0) || (c =? -1)) with false by lia.
    replace (scan_digit c >=? base) with false by lia.
    pose proof (scan_digit_nonneg c) as Hc0. cbn [snum foldl] in Hn. fold (snum base ds (v * base + scan_digit c)) in Hn.
    pose proof (snum_ge base ds (v * base + scan_digit c) Hb ltac:(nia)) as Hge.
    assert (u64 (v * base) = v * base) as Hu by (apply u64_id; nia). rewrite Hu.
    replace (v * base <? v) with false by nia. rewrite (u64_id (v * base + scan_digit c)) by nia.
    apply (reads_bind _ _ pre [c] ds rest args () [] 0 args _ [] 0 args); [lia..|apply reads_getc|].
    apply IH; [done| |nia|done|lia].
    destruct He as [He|[He He']]; [left; lia|right]. split; [lia|done].
Qed.

(** The digits of the number conversions *)
Lemma scan_digit_cases c : nzbyte c → scan_digit c = digit_value c ∨ 36 <= scan_digit c ∧ 36 <= digit_value c.
Proof.
  intros Hc. unfold nzbyte in Hc.
  assert (((scan_digit c =? digit_value c) || (36 <=? scan_digit c) && (36 <=? digit_value c)) = true); [|lia].
  refine (interval_forallb (λ c, (scan_digit c =? digit_value c) || (36 <=? scan_digit c) && (36 <=? digit_value c)) 1 255 _ c _);
    [vm_compute; reflexivity|lia].
Qed.

Lemma digits_sdigits base ds : 2 <= base <= 36 → Forall nzbyte ds → Forall (is_digit base) ds →
  sdigits base ds ∧ ∀ v, snum base ds v = num_from base v ds.
Proof.
  intros Hb Hz. induction Hz as [|c ds Hc Hz IH]; intros Hd; [by split; [constructor|]|].
  inversion_clear Hd as [|? ? Hcd Hd']. destruct (IH Hd') as [IHd IHn]. unfold is_digit in Hcd.
  assert (scan_digit c = digit_value c) as E by (destruct (scan_digit_cases c Hc); lia).
  split; [constructor; [lia|done]|]. intros v. cbn. rewrite E. apply IHn.
Qed.

Lemma stops_ends base rest : 2 <= base <= 36 → Forall nzbyte rest → stops base rest → ends (λ c, scan_digit c <? base) rest.
Proof.
  intros Hb Hz. destruct rest as [|c rest]; [done|]. inversion_clear Hz as [|? ? Hc _]. cbn. unfold is_digit.
  pose proof (digit_value_range c). destruct (scan_digit_cases c Hc); lia.
Qed.

(** ** The prefix of a numeral

    [prefix_text ch wide px ds rest base]: where the conversion [ch], with a width if
    [wide], finds the digits [ds] of [base] behind the prefix [px]. *)
Definition is_x (c : Z) : bool := (c =? CH "x") || (c =? CH "X").
Inductive prefix_text (ch : Z) (rest : list Z) : bool → list Z → list Z → Z → Prop :=
| Px_wide ds : div_of ch ≠ 0 → prefix_text ch rest true [] ds (div_of ch)
| Px_fixed ds : div_of ch = 8 ∨ div_of ch = 10 → prefix_text ch rest false [] ds (div_of ch)
| Px_plain ds : div_of ch = 0 ∨ div_of ch = 16 → peek ds 0 ≠ CH "0" →
    prefix_text ch rest false [] ds (if div_of ch =? 0 then 10 else 16)
| Px_zero ds : div_of ch = 0 ∨ div_of ch = 16 → ends is_x (ds ++ rest) →
    prefix_text ch rest false [] (CH "0" :: ds) (if div_of ch =? 0 then 8 else 16)
| Px_0x x ds : div_of ch = 0 ∨ div_of ch = 16 → is_x x = true →
    prefix_text ch rest false [CH "0"; x] ds 16.

Lemma is_x_or c : nzbyte c → (Z.lor c 32 =? CH "x") = is_x c.
Proof.
  intros Hc. unfold nzbyte in Hc. apply eqb_true_iff.
  refine (interval_forallb (λ c, eqb (Z.lor c 32 =? CH "x") (is_x c)) 1 255 _ c _); [vm_compute; reflexivity|lia].
Qed.

Lemma reads_hex_none div pre rest args :
  Forall nzbyte rest → ends is_x rest → reads (scan_hex div) pre [CH "0"] rest args div [] 0 args.
Proof.
  intros Hz Hr. unfold scan_hex.
  apply (reads_bind_last _ _ pre _ _ args () args _ [] [] 0 0 args); [lia..|apply reads_getc|].
  eapply reads_bind0; [lia|apply reads_tpch|]. cbn [app].
  replace (Z.lor (head_char rest) 32 =? CH "x") with false; [apply reads_ret|].
  destruct rest as [|c rest]; [done|]. cbn in *. inversion_clear Hz. by rewrite is_x_or.
Qed.

Lemma reads_hex_x div x pre rest args :
  nzbyte x → is_x x = true → reads (scan_hex div) pre [CH "0"; x] rest args 16 [] 0 args.
Proof.
  intros Hz Hx. unfold scan_hex.
  apply (reads_bind _ _ pre [CH "0"] [x] rest args () [] 0 args _ [] 0 args); [lia..|apply reads_getc|].
  eapply reads_bind0; [lia|apply reads_tpch|]. cbn [app head_char]. rewrite is_x_or, Hx by done.
  apply (reads_bind_last _ _ _ _ _ args () args _ [] [] 0 0 args); [lia..|apply reads_getc|apply reads_ret].
Qed.

(** The prefix, and the zero of an octal or hexadecimal numeral, are read first. *)
Lemma reads_prefix sp ch px ds base rest pre args :
  prefix_text ch rest (s_flag_width sp) px ds base → Forall nzbyte (px ++ ds ++ rest) → ds ≠ [] →
  ∃ used ds', px ++ ds = used ++ ds' ∧ snum base ds 0 = snum base ds' 0 ∧ (sdigits base ds → sdigits base ds') ∧
    (length ds' <= length ds)%nat ∧ (s_flag_width sp = true → ds' = ds) ∧
    reads (scan_prefix sp (div_of ch)) pre used (ds' ++ rest) args base [] 0 args.
Proof.
  intros Hpx Hz Hne. unfold scan_prefix.
  inversion Hpx as [ds0 Hdiv Hw|ds0 Hdiv Hw|ds0 Hdiv Hp Hw|ds0 Hdiv Hp Hw|x ds0 Hdiv Hx Hw]; subst; rewrite <- ?Hw.
  - exists [], ds. split_and!; try done. apply reads_ret.
  - exists [], ds. split_and!; try done. eapply reads_bind0; [lia|apply reads_tpch|].
    replace (div_of ch =? 16) with false by lia. replace (div_of ch =? 0) with false by lia. apply reads_ret.
  - exists [], ds. split_and!; try done. eapply reads_bind0; [lia|apply reads_tpch|].
    destruct ds as [|c ds]; [done|]. cbn in Hp. cbn [app head_char].
    replace (c =? CH "0") with false by lia. rewrite andb_false_r. destruct Hdiv as [-> | ->]; apply reads_ret.
  - assert (Forall nzbyte (ds0 ++ rest)) as Hz' by by inversion_clear Hz.
    exists [CH "0"], ds0. split_and!; try done.
    + intros Hd. by inversion_clear Hd.
    + cbn. lia.
    + eapply reads_bind0; [lia|apply reads_tpch|]. cbn [app head_char].
      destruct Hdiv as [-> | ->]; cbn [Z.eqb andb]; by apply reads_hex_none.
  - assert (nzbyte x) as Hxz by (inversion_clear Hz as [|? ? _ Hz']; by inversion_clear Hz').
    exists [CH "0"; x], ds. split_and!; try done.
    eapply reads_bind0; [lia|apply reads_tpch|]. cbn [app head_char].
    destruct Hdiv as [-> | ->]; cbn [Z.eqb andb]; by apply reads_hex_x.
Qed.

Lemma prefix_base ch rest wide px ds base : prefix_text ch rest wide px ds base → 2 <= base <= 36.
Proof.
  assert (div_of ch = 0 ∨ 8 <= div_of ch <= 16) as Hd by (unfold div_of; repeat case_match; lia).
  destruct 1; try case_match; lia.
Qed.

Lemma digit_head base c : 2 <= base <= 36 → nzbyte c → is_digit base c → isspace c = false ∧ is_sign c = false.
Proof.
  unfold is_digit, nzbyte. intros Hb Hc Hd.
  assert ((36 <=? digit_value c) || negb (isspace c) && negb (is_sign c) = true) as Hf; [|split; destruct (isspace c), (is_sign c); lia].
  refine (interval_forallb (λ c, (36 <=? digit_value c) || negb (isspace c) && negb (is_sign c)) 1 255 _ c _);
    [vm_compute; reflexivity|lia].
Qed.

(** A numeral starts with a character that is neither a space nor a sign. *)
Lemma numeral_head ch rest wide px ds base more :
  prefix_text ch rest wide px ds base → ds ≠ [] → Forall nzbyte (px ++ ds) → Forall (is_digit base) ds →
  ∃ c l, px ++ ds ++ more = c :: l ∧ isspace c = false ∧ is_sign c = false.
Proof.
  intros Hp Hne Hz Hd. pose proof (prefix_base _ _ _ _ _ _ Hp) as Hb.
  assert (px = [] ∨ ∃ x, px = [CH "0"; x]) as [->|[x ->]] by (destruct Hp; eauto).
  - destruct ds as [|c ds]; [done|]. exists c, (ds ++ more). split; [done|].
    inversion_clear Hz. inversion_clear Hd. by apply (digit_head base).
  - by exists (CH "0"), (x :: ds ++ more).
Qed.

(** ** Integers *)

Lemma reads_count {A} (f : Z → SM A) pre inp rest args a st k args' :
  (∀ n, reads (f n) pre inp rest args a st k args') → reads (n ← sget count; f n) pre inp rest args a st k args'.
Proof. intros Hf w. apply (Hf (count w)). Qed.

(** A character of the string has been read. *)
Lemma reads_tpch_char {A} (f : Z → SM A) pre c inp rest args a st k args' :
  0 <= k → (nzbyte c → reads (f c) pre (c :: inp) rest args a st k args') →
  reads (t ← sget tpch; f t) pre (c :: inp) rest args a st k args'.
Proof.
  intros Hk Hf. apply reads_chars. intros Hz. apply Forall_app in Hz as [_ Hz]. inversion_clear Hz.
  eapply reads_bind0; [lia|apply reads_tpch|]. cbn [app head_char]. by apply Hf.
Qed.

Definition int_arg (cv : conversion) (p : Z) : scan_arg :=
  if s_longlong cv then P_longlong p else if s_long cv then P_long p else if s_half cv then P_short p else P_int p.
Definition int_value (cv : conversion) (z : Z) : stored :=
  if s_longlong cv then V_longlong (s64 z) else if s_long cv then V_long (s64 z)
  else if s_half cv then V_short (s16 z) else V_int (s32 z).

Lemma reads_store_int cv v p pre rest args :
  reads (store_int cv v) pre [] rest (int_arg cv p :: args) () [(p, int_value cv v)] 0 args.
Proof.
  unfold store_int, int_arg, int_value. eapply reads_bind0; [lia|apply reads_va|].
  destruct (s_longlong cv), (s_long cv), (s_half cv); apply reads_store.
Qed.

Lemma int_value_u64 cv v z : u64 v = u64 z → int_value cv v = int_value cv z.
Proof.
  intros E. unfold int_value.
  assert (s64 v = s64 z ∧ s32 v = s32 z ∧ s16 v = s16 z) as (-> & -> & ->); [|done].
  revert E. uwrap. intros E. assert (u16 v = u16 z ∧ u32 v = u32 z) as [H16 H32] by (uwrap; Z.div_mod_to_equations; lia).
  rewrite u16_mod in H16. rewrite u32_mod in H32. repeat split; repeat bool_case; Z.div_mod_to_equations; lia.
Qed.

Definition signed_conv (ch : Z) : bool := Z.lor ch 0x20 <? CH "p".
Definition numeral_ends (base width : Z) (n : nat) (rest : list Z) : Prop :=
  width = Z.of_nat n ∨ (width < 0 ∨ Z.of_nat n < width) ∧ stops base rest.

Definition int_args (cv : conversion) (p : Z) : list scan_arg := if s_discard cv then [] else [int_arg cv p].
Definition int_stores (cv : conversion) (p z : Z) : list (Z * stored) := if s_discard cv then [] else [(p, int_value cv z)].
Definition counted (cv : conversion) : Z := if s_discard cv then 0 else 1.

Lemma counted_nonneg cv : 0 <= counted cv.
Proof. unfold counted. by destruct (s_discard cv). Qed.

Lemma reads_int_stores cv p v z before now pre rest args :
  u64 v = u64 z → before < now →
  reads (if s_discard cv then mret () else _ ← store_int cv v; if before <? now then inc_n else mret ())
    pre [] rest (int_args cv p ++ args) () (int_stores cv p z) (counted cv) args.
Proof.
  intros E Hlt. unfold int_args, int_stores, counted. destruct (s_discard cv); [apply reads_ret|].
  replace (before <? now) with true by lia. rewrite <- (int_value_u64 _ _ _ E).
  apply (reads_bind_last _ _ pre [] rest _ () args () [(p, int_value cv v)] [] 0 1 args); [lia..| |].
  - apply reads_store_int.
  - apply reads_inc.
Qed.

(** A number that the conversion [ch] with the flags [cv] takes from the input. *)
Record int_text (cv : conversion) (ch : Z) (sp sg px ds rest : list Z) (neg : bool) (base : Z) : Prop := {
  it_space : Forall space sp;
  it_sign : sign_str sg neg;
  it_prefix : prefix_text ch rest (s_flag_width cv) px ds base;
  it_some : ds ≠ [];
  it_digits : Forall (is_digit base) ds;
  it_ends : numeral_ends base (s_width cv) (length ds) rest;
  it_width : s_flag_width cv = false → s_width cv < 0;
  it_fits : num base ds < 2 ^ 64;
  it_neg : neg = true → signed_conv ch = true ∧ num base ds <= 2 ^ 63 }.

Lemma reads_int fuel cv ch sp sg px ds rest neg base p pre args :
  int_text cv ch sp sg px ds rest neg base → (length sp + length ds < fuel)%nat →
  reads (scan_int fuel ch cv) pre (sp ++ sg ++ px ++ ds) rest (int_args cv p ++ args) ()
    (int_stores cv p (if neg then - num base ds else num base ds)) (counted cv) args.
Proof.
  intros [Hsp Hsg Hpx Hne Hd He Hw Hfit Hneg] Hf. apply reads_chars. intros Hz.
  pose proof (prefix_base _ _ _ _ _ _ Hpx) as Hb.
  rewrite !Forall_app in Hz. destruct Hz as (_ & (_ & _ & Hzp & Hzd) & Hzr).
  destruct (numeral_head _ _ _ _ _ _ rest Hpx Hne) as (c & l & Ec & Hcs & Hcg); [by apply Forall_app|done|].
  destruct (digits_sdigits base ds Hb Hzd Hd) as [Hsd Hsn]. specialize (Hsn 0). fold (num base ds) in Hsn.
  destruct (reads_prefix cv ch px ds base rest (pre ++ sp ++ sg) (int_args cv p ++ args) Hpx) as (used & ds' & Eu & Enum & Hsd' & Hlen & Hwide & Hpre);
    [by rewrite !Forall_app|done|].
  pose proof (counted_nonneg cv) as Hk.
  unfold scan_int. eapply reads_bind1; [lia|apply reads_skip; [done| |lia]|].
  { rewrite <- !app_assoc, Ec. by destruct Hsg. }
  eapply reads_bind1; [lia|apply reads_sign; [done|by rewrite <- app_assoc, Ec]|].
  assert (∃ l', px ++ ds = c :: l') as [l' El].
  { destruct (px ++ ds) as [|c' l'] eqn:E; [by apply app_eq_nil in E as [_ ?]|]. exists l'.
    rewrite app_assoc, E in Ec. cbn in Ec. congruence. }
  rewrite El. apply reads_tpch_char; [lia|]. intros Hcz. rewrite <- El. apply reads_count. intros n.
  unfold nzbyte in Hcz. replace (c =? -1) with false by lia.
  eapply reads_bind0; [lia|apply reads_consumed|]. rewrite Eu.
  rewrite <- app_assoc. eapply reads_bind1; [lia|exact Hpre|].
  rewrite <- (app_nil_r ds'). eapply reads_bind1; [lia|apply reads_digits; try done|].
  - lia.
  - by apply Hsd'.
  - destruct (s_flag_width cv); [rewrite Hwide by done|right; split; [left; by apply Hw|]].
    + destruct He as [He|[He He']]; [by left|right]. split; [done|]. by apply stops_ends.
    + destruct He as [He|[_ He]]; [specialize (Hw eq_refl); lia|]. by apply stops_ends.
  - by rewrite <- Enum, Hsn.
  - lia.
  - eapply reads_bind0; [lia|apply reads_consumed|].
    assert (used ++ ds' ≠ []) as Hlong by (rewrite <- Eu, El; done).
    assert (0 < length (used ++ ds'))%nat by (destruct (used ++ ds'); [done|cbn; lia]).
    assert (Z.of_nat (S (length (pre ++ sp ++ sg))) < Z.of_nat (S (length (((pre ++ sp ++ sg) ++ used) ++ ds')))).
    { rewrite <- app_assoc, (length_app (pre ++ sp ++ sg)). lia. }
    replace (_ =? _) with false by lia.
    apply reads_int_stores; [|done]. rewrite <- Enum, Hsn. fold (signed_conv ch).
    assert (0 <= num base ds) by (apply num_from_mono; lia). unfold ABS_LLONG_MIN.
    destruct neg; [|by rewrite andb_false_r]. destruct (Hneg eq_refl) as [-> Hle].
    rewrite andb_true_r. cbn [andb]. destruct (Z.geb_spec (num base ds) 0x8000000000000000); cbn [negb]; int_lia.
Qed.

(** ** Characters and strings *)

Fixpoint char_stores (s : Z) (cs : list Z) : list (Z * stored) :=
  match cs with [] => [] | c :: cs => (s, V_char c) :: char_stores (s + 1) cs end.
Definition str_args (cv : conversion) (p : Z) : list scan_arg := if s_discard cv then [] else [P_char p].
Definition str_stores (cv : conversion) (p : Z) (cs : list Z) : list (Z * stored) :=
  if s_discard cv then [] else char_stores p cs.

Lemma reads_va_chars cv p pre rest args :
  reads (va_chars (s_discard cv)) pre [] rest (str_args cv p ++ args) (if s_discard cv then 0 else p) [] 0 args.
Proof.
  unfold va_chars, str_args. destruct (s_discard cv); [apply reads_ret|].
  eapply reads_bind0; [lia|apply reads_va|]. apply reads_ret.
Qed.

Lemma reads_store_char d s c pre rest args :
  byte c → reads (store_char d s c) pre [] rest args () (if d then [] else [(s, V_char c)]) 0 args.
Proof. intros Hc. unfold store_char. rewrite u8_id by done. destruct d; [apply reads_ret|apply reads_store]. Qed.

(** Where a field of at most [width] characters ends. *)
Definition field_ends (more : Z → bool) (width : Z) (n : nat) (rest : list Z) : Prop :=
  width = Z.of_nat n ∨ (width < 0 ∨ Z.of_nat n < width) ∧ ends more rest.

Lemma reads_store_then {A} (m : SM A) (d : bool) s c pre inp rest args a cs args' :
  byte c → reads m pre inp rest args a (if d then [] else char_stores (s + 1) cs) 0 args' →
  reads (_ ← store_char d s c; m) pre inp rest args a (if d then [] else char_stores s (c :: cs)) 0 args'.
Proof.
  intros Hc Hm.
  replace (if d then [] else char_stores s (c :: cs))
    with ((if d then [] else [(s, V_char c)]) ++ (if d then [] else char_stores (s + 1) cs)) by by destruct d.
  rewrite <- (app_nil_l inp).
  apply (reads_bind _ _ pre [] inp rest args () _ 0 args a _ 0 args'); [lia..|by apply reads_store_char|].
  by rewrite app_nil_r.
Qed.

Lemma reads_scan_chars d : ∀ cs fuel s width pre rest args,
  field_ends (λ _, true) width (length cs) rest → (length cs < fuel)%nat →
  reads (scan_chars fuel d s width) pre cs rest args () (if d then [] else char_stores s cs) 0 args.
Proof.
  induction cs as [|c cs IH]; intros [|fuel] s width pre rest args He Hf; cbn [length] in *; try lia; cbn [scan_chars].
  - eapply reads_bind0; [lia|apply reads_tpch|].
    assert ((width =? 0) || (head_char ([] ++ rest) =? -1) = true) as ->.
    { destruct He as [->|[_ He]]; [done|]. destruct rest; [|done]. by destruct (width =? 0). }
    destruct d; apply reads_ret.
  - apply reads_tpch_char; [lia|]. intros Hc. unfold nzbyte in Hc.
    replace ((width =? 0) || (c =? -1)) with false by (destruct He as [?|[? _]]; lia).
    apply reads_store_then; [unfold byte; lia|].
    apply (reads_bind1 _ _ pre [c] cs rest args () () _ 0 args); [lia|apply reads_getc|].
    apply IH; [|lia]. destruct He as [He|[He He']]; [left; lia|right]. split; [lia|done].
Qed.

Lemma reads_c fuel cv cs p pre rest args :
  field_ends (λ _, true) (if s_flag_width cv then s_width cv else 1) (length cs) rest → (length cs < fuel)%nat →
  reads (scan_c fuel cv) pre cs rest (str_args cv p ++ args) () (str_stores cv p cs) (counted cv) args.
Proof.
  intros He Hf. unfold scan_c, str_stores. pose proof (counted_nonneg cv).
  eapply reads_bind0; [lia|apply reads_va_chars|].
  replace (counted cv) with (counted cv + 0) by lia.
  rewrite <- (app_nil_l (if s_discard cv then _ else _)), <- (app_nil_l cs) at 1.
  apply (reads_bind _ _ pre [] cs rest args () [] (counted cv) args () _ 0 args); [lia..| |].
  - unfold counted. destruct (s_discard cv); [apply reads_ret|apply reads_inc].
  - rewrite app_nil_r. pose proof (reads_scan_chars (s_discard cv) cs fuel (if s_discard cv then 0 else p) _ pre rest args He Hf) as Hr.
    by destruct (s_discard cv).
Qed.

Lemma reads_while P more d : ∀ cs fuel s width matched pre rest args,
  (∀ t, t = -1 ∨ nzbyte t → more t = mret (P t)) → P (-1) = false →
  Forall (λ c, P c = true) cs → field_ends P width (length cs) rest → (length cs < fuel)%nat →
  reads (scan_while fuel more d s width matched) pre cs rest args
    (s + Z.of_nat (length cs), matched || (0 <? length cs)%nat) (if d then [] else char_stores s cs) 0 args.
Proof.
  induction cs as [|c cs IH]; intros [|fuel] s width matched pre rest args Hmore Hend Hcs He Hf; cbn [length] in *; try lia;
    cbn [scan_while].
  - apply reads_chars. intros Hz. apply Forall_app in Hz as [_ Hz].
    eapply reads_bind0; [lia|apply reads_tpch|]. cbn [app].
    eapply (reads_bind0 _ _ _ _ _ _ false); [lia| |].
    { destruct (width =? 0) eqn:Ew; [apply reads_ret|].
      destruct He as [->|[_ He]]; [done|]. rewrite Hmore.
      - destruct rest as [|c rest]; cbn [head_char]; [rewrite Hend|rewrite He]; apply reads_ret.
      - destruct rest as [|c rest]; [by left|right]. by inversion_clear Hz. }
    rewrite orb_false_r, Z.add_0_r. destruct d; apply reads_ret.
  - apply reads_tpch_char; [lia|]. intros Hc. inversion_clear Hcs as [|? ? Hpc Hcs'].
    eapply (reads_bind0 _ _ _ _ _ _ true); [lia| |].
    { replace (width =? 0) with false by (destruct He as [?|[? _]]; lia).
      rewrite Hmore, Hpc by by right. apply reads_ret. }
    unfold nzbyte in Hc. apply reads_store_then; [unfold byte; lia|]. replace (c =? 0) with false by lia.
    apply (reads_bind1 _ _ pre [c] cs rest args () _ _ 0 args); [lia|apply reads_getc|].
    replace (s + Z.of_nat (S (length cs))) with (s + 1 + Z.of_nat (length cs)) by lia.
    replace (matched || (0 <? S (length cs))%nat) with (true || (0 <? length cs)%nat) by (by destruct matched).
    apply IH; try done; [|lia]. destruct He as [He|[He He']]; [left; lia|right]. split; [lia|done].
Qed.

Definition no_space (c : Z) : bool := negb (c =? -1) && negb (isspace c).

Lemma char_stores_app s cs ds : char_stores s (cs ++ ds) = char_stores s cs ++ char_stores (s + Z.of_nat (length cs)) ds.
Proof.
  revert s. induction cs as [|c cs IH]; intros s; cbn [app char_stores length]; [by rewrite Z.add_0_r|].
  rewrite IH. cbn [app]. do 3 f_equal. lia.
Qed.

Lemma reads_s fuel cv sp word p pre rest args :
  Forall space sp → word ≠ [] → Forall (λ c, no_space c = true) word → field_ends no_space (s_width cv) (length word) rest →
  (length sp + length word < fuel)%nat →
  reads (scan_s fuel cv) pre (sp ++ word) rest (str_args cv p ++ args) () (str_stores cv p (word ++ [0])) (counted cv) args.
Proof.
  intros Hsp Hne Hw He Hf. unfold scan_s. pose proof (counted_nonneg cv).
  eapply reads_bind0; [lia|apply reads_va_chars|].
  eapply reads_bind1; [lia|apply reads_skip; [done| |lia]|].
  { destruct word as [|c word]; [done|]. inversion_clear Hw as [|? ? Hc _]. cbn. unfold no_space in Hc.
    destruct (isspace c); [|done]. by rewrite andb_false_r in Hc. }
  destruct word as [|c word'] eqn:Ew; [done|]. apply reads_tpch_char; [lia|]. intros Hc. unfold nzbyte in Hc.
  replace (c =? -1) with false by lia. rewrite <- Ew in *.
  set (s := if s_discard cv then 0 else p).
  assert (str_stores cv p (word ++ [0]) = (if s_discard cv then [] else char_stores s word) ++
    (if s_discard cv then [] else [(s + Z.of_nat (length word), V_char 0)])) as ->.
  { unfold str_stores, s. destruct (s_discard cv); [done|]. by rewrite char_stores_app. }
  change (counted cv) with (0 + counted cv).
  eapply (reads_bind_last _ _ _ word rest args _ args () _ _ 0 _ args); [lia..| |].
  - apply (reads_while no_space); [done..|lia].
  - cbv beta iota. rewrite <- (app_nil_r (if s_discard cv then [] else [_])).
    change (counted cv) with (0 + counted cv).
    apply (reads_bind_last _ _ _ [] rest args () args () _ [] 0 _ args); [lia..|by apply reads_store_char|].
    unfold counted. destruct (s_discard cv); [apply reads_ret|apply reads_inc].
Qed.

Lemma reads_n cv p pre rest args :
  s_discard cv = false →
  reads (scan_n cv) pre [] rest (P_int p :: args) () [(p, V_int (s32 (Z.of_nat (length pre))))] 0 args.
Proof.
  intros Hd. unfold scan_n. rewrite Hd. eapply reads_bind0; [lia|apply reads_va|].
  eapply reads_bind0; [lia|apply reads_consumed|]. cbn [app].
  replace (Z.of_nat (S (length pre)) - 1) with (Z.of_nat (length pre)) by lia. apply reads_store.
Qed.
End reads.
