(* ===== verification/ScanfParse.v ===== *)
(** * Formatted input takes apart what its format describes

    How [in_scan] reads the directives, the meaning of a format as the pieces of input
    that its items match, and the theorems on [vsscanf]: the pieces are converted and
    stored in order, reading stops at the first piece that does not fit, and what
    [__v_printf] prints is read back.  At the end, formats that go wrong. *)

From S2P Require Import Prelude Mem Ctype Convert ConvertFacts Stdio Printf PrintfSpec PrintfFacts PrintfParse Scanf ScanfFacts.

(** ** Directives *)

Inductive smod : Type := S_none | S_h | S_l | S_ll.
Record sdirective : Type := mk_sdir { sd_discard : bool; sd_width : option Z; sd_mod : smod }.

Definition smod_text (m : smod) : list Z := match m with S_none => [] | S_h => STR "h" | S_l => STR "l" | S_ll => STR "ll" end.
Definition sdir_text (d : sdirective) : list Z :=
  flag (sd_discard d) (CH "*") ++ match sd_width d with Some w => numeral_of 10 false w | None => [] end ++ smod_text (sd_mod d).
Definition sdir_ok (d : sdirective) : Prop := match sd_width d with Some w => 0 < w < 2 ^ 31 | None => True end.

(** The flags in front of the conversion character. *)
Definition conv_of (d : sdirective) : conversion :=
  mk_conversion (default (-1) (sd_width d)) (bool_decide (is_Some (sd_width d))) (sd_discard d)
    match sd_mod d with S_h => true | _ => false end
    match sd_mod d with S_l | S_ll => true | _ => false end
    match sd_mod d with S_ll => true | _ => false end.

(** A conversion character: not a flag or a digit. *)
Definition is_conv (ch : Z) : bool := is_one_of ch (STR "pXxdouieEfgcsn[").

Section parse.
Context `{DoubleOps}.

(** [in_scan] gets from the format [f1] with the flags [cv1] to [f2] with [cv2]. *)
Definition skips (fuel : nat) (f1 : list Z) (cv1 : conversion) (f2 : list Z) (cv2 : conversion) : Prop :=
  ∀ w : scan_state, tpch w ≠ -1 → ∀ ffuel, (length f1 < ffuel)%nat →
  ∃ ffuel', (length f2 < ffuel')%nat ∧ in_scan ffuel fuel (Some f1) cv1 w = in_scan ffuel' fuel (Some f2) cv2 w.

Lemma skips_refl fuel f cv : skips fuel f cv f cv.
Proof. intros w _ ffuel Hf. by exists ffuel. Qed.

Lemma skips_trans fuel f1 cv1 f2 cv2 f3 cv3 :
  skips fuel f1 cv1 f2 cv2 → skips fuel f2 cv2 f3 cv3 → skips fuel f1 cv1 f3 cv3.
Proof.
  intros H1 H2 w Hw ff Hf. destruct (H1 w Hw ff Hf) as (ff1 & Hf1 & ->). by apply H2.
Qed.

(** The flags. *)
Lemma skips_flag c f fuel l cv :
  (∀ ffuel, in_scan (S ffuel) fuel (Some (c :: l)) cv =
     (t ← sget tpch; if t =? -1 then err_out else in_scan ffuel fuel (Some l) (f cv))) →
  skips fuel (c :: l) cv l (f cv).
Proof.
  intros E w Hw [|ff] Hf; cbn [length] in Hf; [lia|]. exists ff. split; [lia|]. rewrite E.
  rewrite (SM_bind_Ok _ _ _ (tpch w) w) by done. by replace (tpch w =? -1) with false by lia.
Qed.

(** The digits of a width. *)
Lemma width_char w : 0 < w < 2 ^ 31 → ∃ c ds, numeral_of 10 false w = c :: ds ∧ is_one_of c (STR "0123456789") = true ∧ s8 c = c.
Proof.
  intros Hw. destruct (numeral_facts 10 false w ltac:(lia) ltac:(lia)) as (_ & Hd & Hz & Hl & _).
  destruct (numeral_of 10 false w) as [|c ds]; [unfold len in Hl; cbn in Hl; lia|]. exists c, ds. split; [done|].
  inversion_clear Hd as [|? ? Hc _]. inversion_clear Hz as [|? ? Hcz _]. unfold is_digit, nzbyte in *.
  assert ((is_one_of c (STR "0123456789") && (s8 c =? c)) || (10 <=? digit_value c) = true) as E; [|lia].
  refine (interval_forallb (λ c, (is_one_of c (STR "0123456789") && (s8 c =? c)) || (10 <=? digit_value c)) 1 255 _ c _);
    [vm_compute; reflexivity|lia].
Qed.

Lemma digit_tests c : is_one_of c (STR "0123456789") = true →
  (c =? CH "n") = false ∧ (c =? 0) = false ∧ (c =? CH "%") = false ∧ (c =? CH "*") = false ∧ (c =? CH "h") = false ∧
  (c =? CH "l") = false ∧ is_one_of c (STR "qL") = false.
Proof. unfold is_one_of. cbn. lia. Qed.

Lemma skips_width w fuel l cv :
  0 < w < 2 ^ 31 → stops 10 l → skips fuel (numeral_of 10 false w ++ l) cv l (set_width' w cv).
Proof.
  intros Hw Hst v Hv [|ff] Hf; [lia|].
  destruct (numeral_facts 10 false w ltac:(lia) ltac:(lia)) as (Hn & Hd & Hz & Hl & _).
  destruct (width_char w Hw) as (c & ds & E & Hc & Hs8). rewrite E in *. clear Hl.
  destruct (digit_tests c Hc) as (T1 & T2 & T3 & T4 & T5 & T6 & T7).
  assert (numeral 10 [] [] [] (c :: ds) l false 10) as Hnum.
  { split; try done; [constructor|]. apply radix_plain; [lia|lia]. }
  pose proof (strtol_ok 10 [] [] [] (c :: ds) l false 10 (serrno v) Hnum) as Es.
  cbv zeta in Es. rewrite Hn in Es. unfold signed_result in Es.
  replace (w <? LONG_MIN) with false in Es by (unfold LONG_MIN; lia).
  replace (LONG_MAX <? w) with false in Es by (unfold LONG_MAX; lia).
  replace (w =? LONG_MIN) with false in Es by (unfold LONG_MIN; lia). cbn [app] in Es.
  exists ff. cbn [length] in Hf. rewrite length_app in Hf. cbn [length] in Hf. split; [lia|].
  cbn [app in_scan]. rewrite (SM_bind_Ok _ _ _ (s8 c) v) by done.
  rewrite (SM_bind_Ok _ _ _ (tpch v) v), Hs8, T1, T2, T3, T4, T5, T6, T7, Hc by done. cbn [negb andb].
  replace (tpch v =? -1) with false by lia.
  rewrite (SM_bind_Ok _ _ _ (serrno v) v) by done.
  change (default [] (Some (c :: ds ++ l))) with (c :: ds ++ l). cbv zeta. rewrite Es. cbn [conv_errno endptr value].
  rewrite (SM_bind_Ok _ _ _ () v) by by destruct v.
  by replace (s32 w) with w by int_lia.
Qed.

(** A directive up to its conversion character. *)
Lemma skips_directive d ch fuel l :
  sdir_ok d → is_conv ch = true → skips fuel (sdir_text d ++ ch :: l) conversion0 (ch :: l) (conv_of d).
Proof.
  intros Hd Hch. destruct d as [dis w m]. unfold sdir_text, sdir_ok in *. cbn [sd_discard sd_width sd_mod] in *.
  rewrite <- !(assoc_L (++)). apply skips_trans with (match w with Some w => numeral_of 10 false w | None => [] end ++ smod_text m ++ ch :: l)
    (if dis then set_discard conversion0 else conversion0).
  { destruct dis; [by apply (skips_flag _ set_discard)|apply skips_refl]. }
  apply skips_trans with (smod_text m ++ ch :: l)
    (let cv := if dis then set_discard conversion0 else conversion0 in match w with Some n => set_width' n cv | None => cv end).
  { destruct w as [w|]; [|apply skips_refl]. apply skips_width; [done|].
    assert (∀ c l, is_one_of c (STR "hl") || is_conv c = true → stops 10 (c :: l)) as Hc.
    { intros c l' Hc. unfold stops, is_digit, is_conv, is_one_of in *. cbn in Hc. unfold digit_value. repeat bool_case; uwrap; Z.div_mod_to_equations; lia. }
    destruct m; cbn [smod_text app]; apply Hc; try reflexivity. by rewrite Hch, orb_true_r. }
  destruct m; cbn [smod_text app].
  - destruct dis, w; apply skips_refl.
  - destruct dis, w; by apply (skips_flag _ set_half).
  - destruct dis, w; by apply (skips_flag _ set_l).
  - destruct dis, w; (eapply skips_trans; [by apply (skips_flag _ set_l)|by apply (skips_flag _ set_l)]).
Qed.

(** [in_scan] from [format] on, with the flags [cv] and input to read. *)
Definition takes (fuel : nat) (format : list Z) (cv : conversion) (pre inp rest : list Z) (args : list scan_arg)
    (format' : list Z) (st : list (Z * stored)) (k : Z) (args' : list scan_arg) : Prop :=
  inp ≠ [] → ∀ ffuel, (length format < ffuel)%nat →
  reads (in_scan ffuel fuel (Some format) cv) pre inp rest args (Some format') st k args'.

Lemma view_tpch_ok pre rest w : view pre rest w → rest ≠ [] → tpch w ≠ -1.
Proof.
  intros Hw Hne. rewrite (view_tpch _ _ _ Hw). destruct rest as [|c rest]; [done|].
  pose proof (view_chars _ _ _ Hw) as Hz. apply Forall_app in Hz as [_ Hz]. inversion_clear Hz as [|? ? Hc _].
  unfold nzbyte in Hc. cbn. lia.
Qed.

Lemma takes_directive d ch fuel l pre inp rest args format' st k args' :
  sdir_ok d → is_conv ch = true →
  takes fuel (ch :: l) (conv_of d) pre inp rest args format' st k args' →
  takes fuel (sdir_text d ++ ch :: l) conversion0 pre inp rest args format' st k args'.
Proof.
  intros Hd Hch Hp Hne ff Hf w Hw. destruct (skips_directive d ch fuel l Hd Hch w) with ff as (ff' & Hf' & ->); [|done|].
  - apply (view_tpch_ok _ _ _ Hw). by destruct inp.
  - by apply (Hp Hne ff' Hf').
Qed.

(** A conversion. *)
Lemma takes_conv ch m fuel l cv pre inp rest args st k args' :
  0 <= k →
  (∀ ffuel, in_scan (S ffuel) fuel (Some (ch :: l)) cv =
     (t ← sget tpch; if t =? -1 then err_out else _ ← m; mret (Some l))) →
  reads m pre inp rest args () st k args' →
  takes fuel (ch :: l) cv pre inp rest args l st k args'.
Proof.
  intros Hk E Hm Hne [|ffuel] Hf; [lia|]. rewrite E. destruct inp as [|d inp]; [done|].
  apply reads_tpch_char; [done|]. intros Hd. unfold nzbyte in Hd. replace (d =? -1) with false by lia.
  rewrite <- (app_nil_r st). replace k with (k + 0) by lia.
  apply (reads_bind_last _ _ pre _ rest args () args' _ st [] k 0 args'); [lia..|done|]. apply reads_ret.
Qed.

Definition is_int_conv (ch : Z) : bool := is_one_of ch (STR "pXxdoui").

Lemma takes_int ch fuel l cv pre inp rest args st k args' :
  0 <= k → is_int_conv ch = true → reads (scan_int fuel ch cv) pre inp rest args () st k args' →
  takes fuel (ch :: l) cv pre inp rest args l st k args'.
Proof.
  intros Hk Hch. apply takes_conv; [done|]. intros ffuel. unfold is_int_conv, is_one_of in Hch. cbn in Hch.
  rewrite !orb_true_iff, !Z.eqb_eq in Hch. destruct Hch as [->|[->|[->|[->|[->|[->|[->|?]]]]]]]; done.
Qed.

Lemma int_conv_is_conv ch : is_int_conv ch = true → is_conv ch = true.
Proof. unfold is_int_conv, is_conv, is_one_of. cbn. lia. Qed.

(** ** Formats and what they describe *)

(** An item of a format with the piece of input that it matches: white space; a
    character that stands for itself; a percent sign; a number, with the white space,
    the sign, the prefix and the digits; a word; characters; the position. *)
Inductive sitem : Type :=
| I_space (f sp : list Z)
| I_lit (c : Z)
| I_percent
| I_int (d : sdirective) (ch p : Z) (sp sg px ds : list Z) (neg : bool) (base : Z)
| I_str (d : sdirective) (p : Z) (sp word : list Z)
| I_chars (d : sdirective) (p : Z) (cs : list Z)
| I_count (p : Z).

Definition sitem_text (i : sitem) : list Z :=
  match i with
  | I_space f _ => f
  | I_lit c => [c]
  | I_percent => STR "%%"
  | I_int d ch _ _ _ _ _ _ _ => CH "%" :: sdir_text d ++ [ch]
  | I_str d _ _ _ => CH "%" :: sdir_text d ++ [CH "s"]
  | I_chars d _ _ => CH "%" :: sdir_text d ++ [CH "c"]
  | I_count _ => STR "%n"
  end.
Definition sitem_input (i : sitem) : list Z :=
  match i with
  | I_space _ sp => sp
  | I_lit c => [c]
  | I_percent => [CH "%"]
  | I_int _ _ _ sp sg px ds _ _ => sp ++ sg ++ px ++ ds
  | I_str _ _ sp word => sp ++ word
  | I_chars _ _ cs => cs
  | I_count _ => []
  end.
Definition sitem_args (i : sitem) : list scan_arg :=
  match i with
  | I_int d _ p _ _ _ _ _ _ => int_args (conv_of d) p
  | I_str d p _ _ | I_chars d p _ => str_args (conv_of d) p
  | I_count p => [P_int p]
  | _ => []
  end.
(** What an item stores that starts at the position [pos] of the input, and whether it
    counts. *)
Definition sitem_stores (pos : Z) (i : sitem) : list (Z * stored) :=
  match i with
  | I_int d _ p _ _ _ ds neg base => int_stores (conv_of d) p (if neg then - num base ds else num base ds)
  | I_str d p _ word => str_stores (conv_of d) p (word ++ [0])
  | I_chars d p cs => str_stores (conv_of d) p cs
  | I_count p => [(p, V_int (s32 pos))]
  | _ => []
  end.
Definition sitem_count (i : sitem) : Z :=
  match i with
  | I_int d _ _ _ _ _ _ _ _ | I_str d _ _ _ | I_chars d _ _ => counted (conv_of d)
  | _ => 0
  end.

(** The piece is what the item matches when [rest] follows it, and [fmt] the item. *)
Definition sitem_ok (i : sitem) (fmt rest : list Z) : Prop :=
  match i with
  | I_space f sp => f ≠ [] ∧ Forall byte (f ++ fmt) ∧ Forall space f ∧ ends isspace fmt ∧ Forall space sp ∧ ends isspace rest
  | I_lit c => 0 < c < 128 ∧ c ≠ CH "%" ∧ isspace c = false
  | I_percent => True
  | I_int d ch _ sp sg px ds neg base => sdir_ok d ∧ is_int_conv ch = true ∧ int_text (conv_of d) ch sp sg px ds rest neg base
  | I_str d _ sp word => sdir_ok d ∧ Forall space sp ∧ word ≠ [] ∧ Forall (λ c, no_space c = true) word ∧
      field_ends no_space (s_width (conv_of d)) (length word) rest
  | I_chars d _ cs => sdir_ok d ∧ cs ≠ [] ∧ field_ends (λ _, true) (default 1 (sd_width d)) (length cs) rest
  | I_count _ => True
  end.

(** [m] ends the function: with the result [f n] when [n] has been counted before. *)
Definition finishes {A} (m : SM (K := str_data) A) (pre rest : list Z) (args : list scan_arg) (f : Z → Z) (st : list (Z * stored)) (k : Z) : Prop :=
  ∀ w, view pre rest w → sargs w = args → 0 <= count w → count w + k < 2 ^ 31 →
  ∃ w', m w = Ok (inr (f (count w)), w') ∧ stores w' = stores w ++ st ∧ serrno w' = serrno w.

Lemma finishes_bind {A B} (m : SM A) (g : A → SM B) pre inp rest args a s1 k1 args1 f s2 k2 :
  0 <= k1 → 0 <= k2 →
  reads m pre inp rest args a s1 k1 args1 → finishes (g a) (pre ++ inp) rest args1 f s2 k2 →
  finishes (m ≫= g) pre (inp ++ rest) args (λ n, f (n + k1)) (s1 ++ s2) (k1 + k2).
Proof.
  intros H1 H2 Hm Hg w Hw Ha Hc Hk.
  destruct (Hm w Hw Ha Hc ltac:(lia)) as (w1 & E1 & V1 & A1 & S1 & C1 & R1).
  destruct (Hg w1 V1 A1 ltac:(lia) ltac:(lia)) as (w2 & E2 & S2 & R2).
  exists w2. rewrite (SM_bind_Ok _ _ _ _ _ E1), E2, C1. split_and!; [done| |congruence].
  by rewrite S2, S1, app_assoc.
Qed.

(** The end of the format, and of a match that fails. *)
Definition result (rest : list Z) (n : Z) : Z := match rest with [] => if n =? 0 then -1 else n | _ => n end.

Lemma finishes_err_out {A} pre rest args : finishes (A := A) err_out pre rest args (result rest) [] 0.
Proof.
  intros w Hw Ha Hc _. destruct Hw as [Ht Hp Hcs Htp Hz _]. unfold err_out.
  rewrite (SM_bind_Ok _ _ _ (tpch w) w), (SM_bind_Ok _ _ _ (count w) w), Htp by done.
  assert (((head_char rest <? 0) && (count w =? 0)) = match rest with [] => count w =? 0 | _ => false end) as ->.
  { destruct rest as [|c rest]; [done|]. apply Forall_app in Hz as [_ Hz]. inversion_clear Hz as [|? ? Hcz _].
    unfold nzbyte in Hcz. cbn. lia. }
  assert (∃ w', A_PUTC (head_char rest) w = Ok (inl (), w') ∧ stores w' = stores w ∧ serrno w' = serrno w) as (w' & E & S & R).
  { unfold A_PUTC. cbn [putch string_stream]. unfold sputc. rewrite Hp.
    destruct (lookup_lt_is_Some_2 (text (stream w) ++ [0]) (length pre)) as [b ->].
    { rewrite Ht, !length_app. cbn. lia. }
    eexists. split; [done|]. done. }
  unfold result. destruct rest as [|c rest]; [destruct (count w =? 0)|]; rewrite ?(SM_bind_Ok _ _ _ _ _ E);
    eexists; (split; [done|]); rewrite app_nil_r; done.
Qed.

Lemma finishes_bind0 {A B} (m : SM A) (g : A → SM B) pre rest args a args1 f st k :
  0 <= k → reads m pre [] rest args a [] 0 args1 → finishes (g a) pre rest args1 f st k →
  finishes (m ≫= g) pre rest args f st k.
Proof.
  intros Hk Hm Hg w Hw Ha Hc Hb.
  destruct (finishes_bind m g pre [] rest args a [] 0 args1 f st k ltac:(lia) Hk Hm ltac:(by rewrite app_nil_r) w Hw Ha Hc ltac:(lia))
    as (w' & E & S & R).
  exists w'. by rewrite E, Z.add_0_r.
Qed.

(** One directive of the format. *)
Lemma finishes_directive fuel t fmt pre inp rest args s1 k1 args1 f s2 k2 ffuel :
  0 <= k1 → 0 <= k2 → inp ≠ [] → (length t < ffuel)%nat →
  takes fuel t conversion0 pre inp rest args fmt s1 k1 args1 →
  finishes (scan_loop ffuel fuel (Some fmt)) (pre ++ inp) rest args1 f s2 k2 →
  finishes (scan_loop (S ffuel) fuel (Some (CH "%" :: t))) pre (inp ++ rest) args (λ n, f (n + k1)) (s1 ++ s2) (k1 + k2).
Proof.
  intros H1 H2 Hne Hf Hp Hg.
  change (scan_loop (S ffuel) fuel (Some (CH "%" :: t)))
    with (format ← in_scan ffuel fuel (Some t) conversion0; scan_loop ffuel fuel format).
  eapply finishes_bind; [done|done|by apply Hp|done].
Qed.

(** A character that stands for itself, and a run of white space. *)
Lemma finishes_lit fuel c fmt pre rest args f st k ffuel :
  0 <= k → 0 < c < 128 → c ≠ CH "%" → isspace c = false →
  finishes (scan_loop ffuel fuel (Some fmt)) (pre ++ [c]) rest args f st k →
  finishes (scan_loop (S ffuel) fuel (Some (c :: fmt))) pre (c :: rest) args f st k.
Proof.
  intros Hk Hc Hp Hs Hg. cbn [scan_loop]. eapply finishes_bind0; [done|apply reads_deref|].
  assert (s8 c = c) as -> by int_lia. replace (c =? 0) with false by lia.
  assert (is_one_of c [CH " "; 12; 9; 11; 10; 13] = false) as ->.
  { assert (isspace c || negb (is_one_of c [CH " "; 12; 9; 11; 10; 13]) = true) as E.
    { refine (interval_forallb (λ c, isspace c || negb (is_one_of c [CH " "; 12; 9; 11; 10; 13])) 1 127 _ c _);
        [vm_compute; reflexivity|lia]. }
    rewrite Hs in E. by apply negb_true_iff in E. }
  replace (c =? CH "%") with false by lia.
  eapply finishes_bind0; [done|apply reads_tpch|]. cbn [head_char].
  assert (u8 c =? u32 c = true) as -> by int_lia. cbn [negb next].
  change k with (0 + k). rewrite <- (app_nil_l st).
  intros w Hw Ha Hn Hb. pose proof (finishes_bind A_GETC (λ _, scan_loop ffuel fuel (Some fmt)) pre [c] rest args () [] 0 args f st k
    ltac:(lia) Hk (reads_getc pre c rest args) Hg w Hw Ha Hn Hb) as (w' & E & S & R).
  exists w'. by rewrite E, Z.add_0_r.
Qed.

Lemma skip_format_ok f fmt : Forall byte (f ++ fmt) → Forall space f → ends isspace fmt → skip_format (f ++ fmt) = fmt.
Proof.
  assert (∀ c, byte c → isspace (s8 c) = isspace c) as Hs.
  { intros c Hc. unfold byte in Hc. apply eqb_true_iff.
    refine (interval_forallb (λ c, eqb (isspace (s8 c)) (isspace c)) 0 256 _ c _); [vm_compute; reflexivity|lia]. }
  intros Hb Hf He. induction Hf as [|c f Hc Hf IH]; cbn [app] in *.
  - destruct fmt as [|c fmt]; [done|]. inversion_clear Hb. cbn. rewrite Hs by done. cbn in He. by rewrite He.
  - inversion_clear Hb. cbn. rewrite Hs by done. unfold space in Hc. rewrite Hc. by apply IH.
Qed.

Lemma finishes_space fuel g fmt sp pre rest args f st k ffuel :
  0 <= k → g ≠ [] → Forall byte (g ++ fmt) → Forall space g → ends isspace fmt → Forall space sp → ends isspace rest →
  (length sp < fuel)%nat →
  finishes (scan_loop ffuel fuel (Some fmt)) (pre ++ sp) rest args f st k →
  finishes (scan_loop (S ffuel) fuel (Some (g ++ fmt))) pre (sp ++ rest) args f st k.
Proof.
  intros Hk Hne Hb Hg He Hsp Hr Hf Hfin. destruct g as [|c g]; [done|]. cbn [app] in *.
  inversion_clear Hb as [|? ? Hc Hb']. inversion_clear Hg as [|? ? Hcs Hg'].
  cbn [scan_loop]. eapply finishes_bind0; [done|apply reads_deref|].
  assert (is_one_of (s8 c) [CH " "; 12; 9; 11; 10; 13] && negb (s8 c =? 0) = true) as Hone.
  { assert (negb (isspace c) || is_one_of (s8 c) [CH " "; 12; 9; 11; 10; 13] && negb (s8 c =? 0) = true) as E.
    { unfold byte in Hc.
      refine (interval_forallb (λ c, negb (isspace c) || is_one_of (s8 c) [CH " "; 12; 9; 11; 10; 13] && negb (s8 c =? 0)) 0 256 _ c _);
        [vm_compute; reflexivity|lia]. }
    unfold space in Hcs. by rewrite Hcs in E. }
  apply andb_prop in Hone as [-> Hz]. replace (s8 c =? 0) with false by lia. cbn [next fmap option_fmap option_map].
  rewrite skip_format_ok by done.
  intros w Hw Ha Hn Hbd. pose proof (finishes_bind (skip_input fuel) (λ _, scan_loop ffuel fuel (Some fmt)) pre sp rest args () [] 0 args f st k
    ltac:(lia) Hk (reads_skip sp fuel pre rest args Hsp Hr Hf) Hfin w Hw Ha Hn Hbd) as (w' & E & S & R).
  exists w'. by rewrite E, Z.add_0_r.
Qed.

Lemma sitem_count_nonneg i : 0 <= sitem_count i.
Proof. destruct i; cbn; try lia; apply counted_nonneg. Qed.

Lemma conv_width d : s_width (conv_of d) = default (-1) (sd_width d) ∧ s_flag_width (conv_of d) = bool_decide (is_Some (sd_width d)).
Proof. done. Qed.

(** One item. *)
Lemma finishes_item fuel i fmt pre rest args f st k ffuel :
  0 <= k → sitem_ok i fmt rest → (length (sitem_input i) < fuel)%nat → (length (sitem_text i) <= ffuel)%nat →
  (length fmt < ffuel)%nat → (length (sitem_text i ++ fmt) <= ffuel)%nat →
  finishes (scan_loop ffuel fuel (Some fmt)) (pre ++ sitem_input i) rest args f st k →
  finishes (scan_loop (S ffuel) fuel (Some (sitem_text i ++ fmt))) pre (sitem_input i ++ rest) (sitem_args i ++ args)
    (λ n, f (n + sitem_count i)) (sitem_stores (Z.of_nat (length pre)) i ++ st) (sitem_count i + k).
Proof.
  intros Hk Hok Hfuel Hff Hff' Hlen Hfin.
  destruct i as [g sp|c| |d ch p sp sg px ds neg base|d p sp word|d p cs|p];
    cbn [sitem_text sitem_input sitem_args sitem_stores sitem_count sitem_ok] in *.
  - destruct Hok as (Hg & Hb & Hgs & He & Hsp & Hr). cbn [app].
    intros w Hw Ha Hn Hbd. rewrite !Z.add_0_r. by apply (finishes_space fuel g fmt sp pre rest args f st k ffuel).
  - destruct Hok as (Hc & Hp & Hs). intros w Hw Ha Hn Hbd. rewrite !Z.add_0_r.
    by apply (finishes_lit fuel c fmt pre rest args f st k ffuel).
  - apply (finishes_directive fuel (CH "%" :: fmt) fmt pre [CH "%"] rest args [] 0 args); [lia..|done|cbn [app length] in *; lia| |done].
    intros _ [|ff] Hf; [lia|].
    change (in_scan (S ff) fuel (Some (37 :: fmt)) conversion0)
      with (t ← sget tpch; if t =? -1 then err_out else if negb (u8 t =? 37) then err_out else _ ← A_GETC; mret (Some fmt) : SM _).
    apply reads_tpch_char; [lia|]. intros _. cbn.
    apply (reads_bind_last _ _ pre _ _ args () args _ [] [] 0 0 args); [lia..|apply reads_getc|apply reads_ret].
  - destruct Hok as (Hd & Hch & Hit). pose proof (it_some _ _ _ _ _ _ _ _ _ Hit) as Hne.
    rewrite <- app_comm_cons, <- app_assoc in *. cbn [app length] in *.
    apply (finishes_directive fuel (sdir_text d ++ ch :: fmt) fmt pre _ rest _ _ _ args); [apply counted_nonneg|done| |lia| |done].
    { destruct ds; [done|]. by destruct sp, sg, px. }
    apply takes_directive; [done|by apply int_conv_is_conv|].
    apply takes_int; [apply counted_nonneg|done|]. apply reads_int; [done|]. rewrite !length_app in Hfuel. lia.
  - destruct Hok as (Hd & Hsp & Hne & Hw & He).
    rewrite <- app_comm_cons, <- app_assoc in *. cbn [app length] in *.
    apply (finishes_directive fuel (sdir_text d ++ CH "s" :: fmt) fmt pre _ rest _ _ _ args); [apply counted_nonneg|done| |lia| |done].
    { destruct word; [done|]. by destruct sp. }
    apply takes_directive; [done|done|].
    apply (takes_conv _ (scan_s fuel (conv_of d))); [apply counted_nonneg|done|].
    apply reads_s; try done. rewrite length_app in Hfuel. lia.
  - destruct Hok as (Hd & Hne & He).
    rewrite <- app_comm_cons, <- app_assoc in *. cbn [app length] in *.
    apply (finishes_directive fuel (sdir_text d ++ CH "c" :: fmt) fmt pre _ rest _ _ _ args); [apply counted_nonneg|done|done|lia| |done].
    apply takes_directive; [done|done|].
    apply (takes_conv _ (scan_c fuel (conv_of d))); [apply counted_nonneg|done|].
    apply reads_c; [|done]. cbn [conv_of s_flag_width s_width]. by destruct (sd_width d).
  - cbn [app length] in *. destruct ffuel as [|ff]; [lia|].
    change (scan_loop (S (S ff)) fuel (Some (CH "%" :: CH "n" :: fmt)))
      with (format ← (t ← sget tpch; _ ← scan_n conversion0; mret (Some fmt) : SM _); scan_loop (S ff) fuel format).
    apply (finishes_bind _ _ pre [] rest _ (Some fmt) [(p, V_int (s32 (Z.of_nat (length pre))))] 0 args f st k); [lia|done| |done].
    eapply reads_bind0; [lia|apply reads_tpch|].
    apply (reads_bind_last _ _ pre [] rest _ () args (Some fmt) [(p, V_int (s32 (Z.of_nat (length pre))))] [] 0 0 args); [lia..| |].
    + by apply reads_n.
    + apply reads_ret.
Qed.

(** ** Whole formats *)

Definition inputs (l : list sitem) : list Z := concat (sitem_input <$> l).
Definition texts (l : list sitem) : list Z := concat (sitem_text <$> l).
Definition arguments (l : list sitem) : list scan_arg := concat (sitem_args <$> l).
Fixpoint results (pos : Z) (l : list sitem) : list (Z * stored) :=
  match l with
  | [] => []
  | i :: l => sitem_stores pos i ++ results (pos + Z.of_nat (length (sitem_input i))) l
  end.
Fixpoint matched (l : list sitem) : Z := match l with [] => 0 | i :: l => sitem_count i + matched l end.

(** Every item matches its piece of the input, in front of [fmt] and [rest]. *)
Fixpoint items_ok (l : list sitem) (fmt rest : list Z) : Prop :=
  match l with
  | [] => True
  | i :: l => sitem_ok i (texts l ++ fmt) (inputs l ++ rest) ∧ items_ok l fmt rest
  end.

Lemma matched_nonneg l : 0 <= matched l.
Proof. induction l as [|i l IH]; cbn; [lia|]. pose proof (sitem_count_nonneg i). lia. Qed.

Lemma finishes_items fuel l : ∀ fmt pre rest args f st k ffuel,
  0 <= k → items_ok l fmt rest → (length (inputs l) < fuel)%nat → (length (texts l ++ fmt) < ffuel)%nat →
  (∀ ffuel, (length fmt < ffuel)%nat → finishes (scan_loop ffuel fuel (Some fmt)) (pre ++ inputs l) rest args f st k) →
  finishes (scan_loop ffuel fuel (Some (texts l ++ fmt))) pre (inputs l ++ rest) (arguments l ++ args)
    (λ n, f (n + matched l)) (results (Z.of_nat (length pre)) l ++ st) (matched l + k).
Proof.
  induction l as [|i l IH]; intros fmt pre rest args f st k ffuel Hk Hok Hfuel Hff Hfin.
  - intros w Hw Ha Hn Hb. cbn [matched]. rewrite Z.add_0_r. apply Hfin; try done. rewrite app_nil_r. exact Hw.
  - destruct Hok as [Hi Hl]. unfold inputs, texts, arguments in *. rewrite !fmap_cons in *. cbn [concat matched results] in *.
    fold (inputs l) (texts l) (arguments l) in *. rewrite <- !(assoc_L (++)) in *.
    assert (sitem_text i ≠ []) as Hne by (destruct i; cbn; try done; by destruct Hi).
    assert (0 < length (sitem_text i))%nat by (destruct (sitem_text i); [done|cbn; lia]).
    rewrite !length_app in *. destruct ffuel as [|ffuel]; [lia|].
    intros w Hw Ha Hn Hb.
    destruct (finishes_item fuel i (texts l ++ fmt) pre (inputs l ++ rest) (arguments l ++ args) (λ n, f (n + matched l))
      (results (Z.of_nat (length pre) + Z.of_nat (length (sitem_input i))) l ++ st) (matched l + k) ffuel) with w as (w' & E & S & R);
      try done; try (rewrite ?length_app; lia).
    + pose proof (matched_nonneg l). lia.
    + replace (Z.of_nat (length pre) + Z.of_nat (length (sitem_input i))) with (Z.of_nat (length (pre ++ sitem_input i)))
        by (rewrite length_app; lia).
      apply IH; [done|done|lia|rewrite length_app; lia|]. intros ff Hff'. rewrite <- (assoc_L (++)). by apply Hfin.
    + exists w'. rewrite E. replace (count w + (sitem_count i + matched l)) with (count w + sitem_count i + matched l) by lia. done.
Qed.

(** *** Where reading stops

    At the end of the format; in front of a character that is not the one of the format;
    at the end of the input; in front of something that is no number. *)
Inductive tail_fmt : Type :=
| T_end
| T_lit (c : Z) (more : list Z)
| T_eof (d : sdirective) (ch : Z) (more : list Z)
| T_no_int (d : sdirective) (ch : Z) (sp sg : list Z) (neg : bool) (more : list Z).
Definition tail_text (t : tail_fmt) : list Z :=
  match t with
  | T_end => []
  | T_lit c more => c :: more
  | T_eof d ch more => CH "%" :: sdir_text d ++ ch :: more
  | T_no_int d ch _ _ _ more => CH "%" :: sdir_text d ++ ch :: more
  end.
Definition tail_ok (t : tail_fmt) (rest : list Z) : Prop :=
  match t with
  | T_end => True
  | T_lit c _ => 0 < c < 128 ∧ c ≠ CH "%" ∧ isspace c = false ∧ head_char rest ≠ c
  | T_eof d ch _ => sdir_ok d ∧ is_conv ch = true ∧ ch ≠ CH "n" ∧ rest = []
  | T_no_int d ch sp sg neg _ => sdir_ok d ∧ is_int_conv ch = true ∧ Forall space sp ∧ sign_str sg neg ∧
      ∃ r, rest = sp ++ sg ++ r ∧ ends isspace (sg ++ r) ∧ ends is_sign r ∧ stops 10 r ∧ stops (div_of ch) r ∧ rest ≠ []
  end.
Definition tail_result (t : tail_fmt) (rest : list Z) (n : Z) : Z :=
  match t with T_no_int _ _ _ _ _ _ => n | _ => result rest n end.


(** The first part ends the function. *)
Lemma finishes_early {A B} (m : SM A) (g : A → SM B) pre rest args f st k :
  finishes m pre rest args f st k → finishes (m ≫= g) pre rest args f st k.
Proof.
  intros Hm w Hw Ha Hn Hb. destruct (Hm w Hw Ha Hn Hb) as (w' & E & S & R).
  exists w'. by rewrite (SM_bind_ret _ _ _ _ _ E).
Qed.

Lemma finishes_bind1 {A B} (m : SM A) (g : A → SM B) pre inp rest args a f st k :
  0 <= k → reads m pre inp rest args a [] 0 args → finishes (g a) (pre ++ inp) rest args f st k →
  finishes (m ≫= g) pre (inp ++ rest) args f st k.
Proof.
  intros Hk Hm Hg w Hw Ha Hn Hb.
  destruct (finishes_bind m g pre inp rest args a [] 0 args f st k ltac:(lia) Hk Hm Hg w Hw Ha Hn ltac:(lia)) as (w' & E & S & R).
  exists w'. by rewrite E, Z.add_0_r.
Qed.

Lemma finishes_return {A} n pre rest args : finishes (A := A) (s_return n) pre rest args (λ _, n) [] 0.
Proof. intros w Hw Ha Hn _. exists w. rewrite app_nil_r. done. Qed.
Lemma finishes_count {A} (m : Z → SM A) pre rest args :
  (∀ n, finishes (m n) pre rest args (λ _, n) [] 0) → finishes (n ← sget count; m n) pre rest args id [] 0.
Proof. intros Hm w. apply (Hm (count w) w). Qed.
Lemma finishes_chars {A} (m : SM A) pre rest args f st k :
  (Forall nzbyte rest → finishes m pre rest args f st k) → finishes m pre rest args f st k.
Proof. intros Hm w Hw. pose proof (view_chars _ _ _ Hw) as Hz. apply Forall_app in Hz as [_ Hz]. by apply Hm. Qed.

Lemma finishes_lit_stop fuel c more pre rest args ffuel :
  0 < c < 128 → c ≠ CH "%" → isspace c = false → head_char rest ≠ c →
  finishes (scan_loop (S ffuel) fuel (Some (c :: more))) pre rest args (result rest) [] 0.
Proof.
  intros Hc Hp Hs Hh. cbn [scan_loop]. eapply finishes_bind0; [done|apply reads_deref|].
  assert (s8 c = c) as -> by int_lia. replace (c =? 0) with false by lia.
  assert (is_one_of c [CH " "; 12; 9; 11; 10; 13] = false) as ->.
  { assert (isspace c || negb (is_one_of c [CH " "; 12; 9; 11; 10; 13]) = true) as E.
    { refine (interval_forallb (λ c, isspace c || negb (is_one_of c [CH " "; 12; 9; 11; 10; 13])) 1 127 _ c _);
        [vm_compute; reflexivity|lia]. }
    rewrite Hs in E. by apply negb_true_iff in E. }
  replace (c =? CH "%") with false by lia. eapply finishes_bind0; [done|apply reads_tpch|]. cbn [app].
  intros w Hw. assert (u8 (head_char rest) =? u32 c = false) as E.
  { apply Z.eqb_neq. destruct rest as [|d rest]; [cbn; int_lia|]. cbn in *.
    pose proof (view_chars _ _ _ Hw) as Hz. apply Forall_app in Hz as [_ Hz]. inversion_clear Hz as [|? ? Hd _].
    unfold nzbyte in Hd. int_lia. }
  rewrite E. cbn [negb]. exact (finishes_err_out pre rest args w Hw).
Qed.

Lemma directive_head d ch more :
  sdir_ok d → is_conv ch = true → ch ≠ CH "n" →
  ∃ c l, sdir_text d ++ ch :: more = c :: l ∧ s8 c ≠ CH "n".
Proof.
  intros Hd Hch Hn. assert (s8 ch ≠ CH "n") as Hch'.
  { unfold is_conv, is_one_of in Hch. cbn in Hch. int_lia. }
  destruct d as [dis w m]. unfold sdir_text, sdir_ok in *. cbn [sd_discard sd_width sd_mod] in *.
  destruct dis; [by eexists _, _|]. cbn [flag app]. destruct w as [w|]; cbn [app].
  - destruct (width_char w Hd) as (c & ds & -> & Hc & Hs8). eexists c, _. split; [done|].
    rewrite Hs8. apply digit_tests in Hc as [Hc _]. lia.
  - destruct m; cbn [smod_text app]; by eexists _, _.
Qed.

Lemma finishes_eof fuel d ch more pre args ffuel :
  sdir_ok d → is_conv ch = true → ch ≠ CH "n" → (0 < ffuel)%nat →
  finishes (scan_loop (S ffuel) fuel (Some (CH "%" :: sdir_text d ++ ch :: more))) pre [] args (result []) [] 0.
Proof.
  intros Hd Hch Hn Hff. destruct (directive_head d ch more Hd Hch Hn) as (c & l & -> & Hc).
  change (scan_loop (S ffuel) fuel (Some (CH "%" :: c :: l)))
    with (format ← in_scan ffuel fuel (Some (c :: l)) conversion0; scan_loop ffuel fuel format).
  apply finishes_early. destruct ffuel as [|ffuel]; [lia|]. cbn [in_scan].
  eapply finishes_bind0; [done|apply reads_deref|]. eapply finishes_bind0; [done|apply reads_tpch|].
  cbn [app head_char]. replace (s8 c =? CH "n") with false by lia. cbn. apply finishes_err_out.
Qed.

(** No number. *)
Lemma reads_no_digits fuel base width v pre rest args :
  ends (λ c, scan_digit c <? base) rest → reads (scan_digits (S fuel) width base v) pre [] rest args v [] 0 args.
Proof.
  intros He. cbn [scan_digits]. eapply reads_bind0; [lia|apply reads_tpch|]. cbn [app].
  destruct rest as [|c rest]; cbn [head_char] in *.
  - destruct (width =? 0); cbn; apply reads_ret.
  - destruct (_ || _); [apply reads_ret|]. cbn in He. replace (scan_digit c >=? base) with true by lia. apply reads_ret.
Qed.

Lemma finishes_no_int fuel ch cv sp sg neg r pre args :
  is_int_conv ch = true → Forall space sp → sign_str sg neg → ends isspace (sg ++ r) → ends is_sign r → stops 10 r → stops (div_of ch) r →
  (length sp < fuel)%nat →
  finishes (scan_int fuel ch cv) pre (sp ++ sg ++ r) args id [] 0.
Proof.
  intros Hch Hsp Hsg Hes Heg H10 Hdiv Hf. unfold scan_int.
  eapply finishes_bind1; [lia|by apply reads_skip|]. eapply finishes_bind1; [lia|by apply reads_sign|].
  eapply finishes_bind0; [lia|apply reads_tpch|]. cbn [app].
  apply finishes_chars. intros Hz. apply finishes_count. intros n.
  destruct r as [|c r]; cbn [head_char]; [apply finishes_return|].
  inversion_clear Hz as [|? ? Hc Hzr]. unfold nzbyte in Hc. replace (c =? -1) with false by lia.
  eapply finishes_bind0; [lia|apply reads_consumed|].
  assert ((c =? CH "0") = false) as H0.
  { cbn in H10. unfold is_digit in H10. destruct (Z.eqb_spec c (CH "0")) as [->|]; [|done].
    exfalso. apply H10. change (digit_value 48) with 0. lia. }
  assert (∃ base, reads (scan_prefix cv (div_of ch)) ((pre ++ sp) ++ sg) [] (c :: r) args base [] 0 args ∧
    ends (λ c, scan_digit c <? base) (c :: r)) as (base & Hpre & Hend).
  { pose proof (scan_digit_nonneg c) as Hnn.
    assert (∀ b, stops b (c :: r) → b <= 16 → (scan_digit c <? b) = false) as Hst.
    { intros b Hb Hb16. cbn in Hb. unfold is_digit in Hb. pose proof (digit_value_range c).
      destruct (scan_digit_cases c Hc) as [E|[E _]]; lia. }
    assert (div_of ch <= 16) by (unfold div_of; repeat case_match; lia).
    unfold scan_prefix. destruct (s_flag_width cv); [exists (div_of ch); split; [apply reads_ret|by apply Hst]|].
    exists (if div_of ch =? 0 then 10 else div_of ch). split.
    - eapply reads_bind0; [lia|apply reads_tpch|]. cbn [app head_char]. rewrite H0, andb_false_r.
      destruct (div_of ch =? 0); apply reads_ret.
    - destruct (div_of ch =? 0); by apply Hst. }
  eapply finishes_bind0; [lia|exact Hpre|].
  destruct fuel as [|fuel]; [lia|]. eapply finishes_bind0; [lia|by apply reads_no_digits|].
  eapply finishes_bind0; [lia|apply reads_consumed|]. rewrite Z.eqb_refl. apply finishes_return.
Qed.

Lemma finishes_tail fuel t pre rest args ffuel :
  tail_ok t rest → (length rest < fuel)%nat → (length (tail_text t) < ffuel)%nat →
  finishes (scan_loop ffuel fuel (Some (tail_text t))) pre rest args (tail_result t rest) [] 0.
Proof.
  intros Hok Hfuel Hff. destruct ffuel as [|ff]; [lia|].
  destruct t as [|c more|d ch more|d ch sp sg neg more]; cbn [tail_text tail_ok tail_result length] in *.
  - apply finishes_err_out.
  - destruct Hok as (Hc & Hp & Hs & Hh). by apply finishes_lit_stop.
  - destruct Hok as (Hd & Hch & Hn & ->). apply finishes_eof; try done. rewrite length_app in Hff. cbn in Hff. lia.
  - destruct Hok as (Hd & Hch & Hsp & Hsg & r & -> & Hes & Heg & H10 & Hdiv & Hne).
    change (scan_loop (S ff) fuel (Some (CH "%" :: sdir_text d ++ ch :: more)))
      with (format ← in_scan ff fuel (Some (sdir_text d ++ ch :: more)) conversion0; scan_loop ff fuel format).
    apply finishes_early. intros w Hw Ha Hn Hb.
    destruct (skips_directive d ch fuel more Hd (int_conv_is_conv ch Hch) w (view_tpch_ok _ _ _ Hw Hne) ff) as (ff' & Hf' & ->); [lia|].
    destruct ff' as [|ff']; [lia|].
    assert (in_scan (S ff') fuel (Some (ch :: more)) (conv_of d) =
      (t ← sget tpch; if t =? -1 then err_out else _ ← scan_int fuel ch (conv_of d); mret (Some more))) as ->.
    { unfold is_int_conv, is_one_of in Hch. cbn in Hch.
      rewrite !orb_true_iff, !Z.eqb_eq in Hch. destruct Hch as [->|[->|[->|[->|[->|[->|[->|?]]]]]]]; done. }
    rewrite (SM_bind_Ok _ _ _ (tpch w) w) by done.
    pose proof (view_tpch_ok _ _ _ Hw Hne). replace (tpch w =? -1) with false by lia.
    eapply (finishes_early (scan_int fuel ch (conv_of d))); [|exact Hw|exact Ha|exact Hn|exact Hb].
    eapply finishes_no_int; try done. rewrite !length_app in Hfuel. lia.
Qed.

(** The first character. *)
Lemma first_char s args errno :
  Forall nzbyte s → Z.of_nat (length s) + 2 < 2 ^ 32 →
  ∃ w, A_GETC (mk_scan (mk_str s 0) 0 0 0 args [] errno) = Ok (inl (), w) ∧ view [] s w ∧
    sargs w = args ∧ stores w = [] ∧ count w = 0 ∧ serrno w = errno.
Proof.
  intros Hz Hs. unfold A_GETC. cbn [stream getch string_stream]. unfold sgetc. cbn [str text].
  destruct s as [|c s]; cbn [app lookup list_lookup].
  - eexists. split; [done|]. split; [|done]. by split.
  - inversion_clear Hz as [|? ? Hc Hz']. unfold nzbyte in Hc. replace (c =? 0) with false by lia.
    eexists. split; [done|]. split; [|done]. split; try done. by constructor.
Qed.

Lemma vsscanf_ok l t rest args errno :
  Forall nzbyte (inputs l ++ rest) → Z.of_nat (length (inputs l ++ rest)) + 2 < 2 ^ 32 →
  items_ok l (tail_text t) rest → tail_ok t rest → matched l < 2 ^ 31 →
  vsscanf (inputs l ++ rest) (texts l ++ tail_text t) (arguments l ++ args) errno =
    Ok (tail_result t rest (matched l), results 0 l, errno).
Proof.
  intros Hz Hs Hl Ht Hn. unfold vsscanf, __v_scanf.
  destruct (first_char (inputs l ++ rest) (arguments l ++ args) errno Hz Hs) as (w & E & V & A & St & C & R).
  rewrite (SM_bind_Ok _ _ _ _ _ E).
  destruct (finishes_items (length (inputs l ++ rest) + 2) l (tail_text t) [] rest args (tail_result t rest) [] 0
    (S (length (texts l ++ tail_text t)))) with w as (w' & E' & S' & R'); try done; try lia.
  - rewrite length_app. lia.
  - intros ff Hff. apply finishes_tail; [done| |done]. rewrite length_app. lia.
  - rewrite E'. rewrite C, St, app_nil_r in *. by rewrite S', R', R.
Qed.

End parse.

(** Formats without floating point need no doubles. *)
Definition no_double_ops : DoubleOps :=
  {| dbl := unit; d_int _ := tt; d_point_one := tt; d_add _ _ := tt; d_mul _ _ := tt; d_div _ _ := tt; d_neg _ := tt |}.

(** [sscanf("  -12, 0x1F abc", "%d, %llx %2s%nz", ...)] *)
Definition example_items : list sitem :=
  [I_int (mk_sdir false None S_none) (CH "d") 100 (STR "  ") (STR "-") [] (STR "12") true 10; I_lit (CH ",");
   I_space (STR " ") (STR " "); I_int (mk_sdir false None S_ll) (CH "x") 104 [] [] (STR "0x") (STR "1F") false 16;
   I_space (STR " ") (STR " "); I_str (mk_sdir false (Some 2) S_none) 200 [] (STR "ab"); I_count 300].

Lemma example_items_ok : items_ok example_items (STR "z") (STR "c").
Proof.
  cbn [items_ok example_items sitem_ok]. split_and!; try done; try (by repeat constructor);
    try (repeat (apply Forall_cons; split; [unfold byte; lia|]); apply Forall_nil_2).
  - split; try done; try (by repeat constructor).
    right. split; [by left|]. cbn. unfold is_digit. by vm_compute; intros [].
  - split; try done; try (by repeat constructor).
    right. split; [by left|]. cbn. unfold is_digit. by vm_compute; intros [].
Qed.


