(* ===== verification/ScanPrint.v ===== *)
(** * What was printed is read back

    [vsscanf] reads the numbers back that [__v_printf] prints with the same format.  At
    the end, formats and inputs that [__v_scanf] treats wrongly. *)

From S2P Require Import Prelude Mem Ctype Convert ConvertFacts Stdio Printf PrintfSpec PrintfFacts PrintfParse Scanf ScanfFacts ScanfParse.

(** A number of a format: its modifier, its conversion, its value and the address it is
    read back to. *)
Record number : Type := mk_number { n_mod : smod; n_conv : numconv; n_value : Z; n_ptr : Z }.

Definition modifier_of (m : smod) : modifier := match m with S_none => M_none | S_h => M_h | S_l => M_l | S_ll => M_ll end.
Definition plain_dir : directive := mk_dir false false false false No_width No_prec.
Definition read_dir (x : number) : sdirective := mk_sdir false None (n_mod x).

Definition printed_item (x : number) : item := Number plain_dir (modifier_of (n_mod x)) (n_conv x) (n_value x).

(** The numbers with a blank between them. *)
Definition printed_format (l : list number) : list (list Z * item) :=
  match l with
  | [] => []
  | x :: l => ([], printed_item x) :: ((λ y, ([CH " "], printed_item y)) <$> l)
  end.
Definition number_format (l : list number) : list Z := format_text (printed_format l) [].

(** The digits that are read: [%i] and [%u] take a zero for an octal numeral. *)
Definition shown (x : number) : Z := value_of (modifier_of (n_mod x)) (n_conv x) (n_value x).
Definition scan_base (x : number) : Z :=
  match n_conv x with N_i | N_u => if shown x =? 0 then 8 else 10 | c => base_of c end.
Definition read_item (x : number) : sitem :=
  I_int (read_dir x) (conv_char (n_conv x)) (n_ptr x) [] (if shown x <? 0 then [CH "-"] else []) []
    (numeral_of (base_of (n_conv x)) (upper (n_conv x)) (Z.abs (shown x))) (shown x <? 0) (scan_base x).
Definition read_items (l : list number) : list sitem :=
  match l with
  | [] => []
  | x :: l => read_item x :: concat ((λ y, [I_space [CH " "] [CH " "]; read_item y]) <$> l)
  end.

(** What the C type of a short argument holds. *)
Definition number_ok (x : number) : Prop :=
  signed (n_conv x) = true → n_mod x = S_h → - 2 ^ 15 <= n_value x < 2 ^ 15.

Lemma shown_range x : (if signed (n_conv x) then - 2 ^ 63 <= shown x < 2 ^ 63 else 0 <= shown x < 2 ^ 64).
Proof. unfold shown, value_of. destruct x as [m c n p]; cbn. destruct m, c; cbn; int_lia. Qed.

Lemma read_text x : sitem_text (read_item x) = item_text (printed_item x).
Proof. by destruct x as [[] [] n p]. Qed.

Lemma read_input x : sitem_input (read_item x) = render (printed_item x).
Proof.
  destruct x as [m c n p]. unfold read_item, printed_item, shown. cbn [sitem_input render n_mod n_conv n_value app].
  set (v := value_of (modifier_of m) c n).
  unfold justify, digits_of, sign_of, left_of, width_of, prec_of, plain_dir. cbn [d_left d_plus d_space d_zero d_width d_prec].
  rewrite !andb_false_r. cbn [orb andb].
  rewrite fill_neg; [by destruct (v <? 0)|]. pose proof (len_nonneg (if v <? 0 then [CH "-"] else [])).
  pose proof (len_nonneg (numeral_of (base_of c) (upper c) (Z.abs v))). lia.
Qed.

Section scan.
Context `{DoubleOps}.

Definition numeral_start (rest : list Z) : Prop := rest = [] ∨ ∃ r, rest = CH " " :: r.

Lemma read_item_ok x fmt rest : numeral_start rest → sitem_ok (read_item x) fmt rest.
Proof.
  intros Hr. pose proof (shown_range x) as Hrange. cbn [sitem_ok read_item]. set (v := shown x) in *.
  assert (0 <= Z.abs v < 2 ^ 64) as Hv by (destruct (signed (n_conv x)); lia).
  destruct (numeral_facts (base_of (n_conv x)) (upper (n_conv x)) (Z.abs v) (base_of_range _) Hv) as (Hn & Hd & Hz & Hl & Hp).
  set (ds := numeral_of _ _ _) in *.
  assert (v = 0 → ds = [CH "0"]) as H0 by (intros E; subst ds; by rewrite E).
  assert (ds ≠ []) as Hne by (destruct ds; [unfold len in Hl; cbn in Hl; lia|done]).
  assert (num (scan_base x) ds = Z.abs v ∧ Forall (is_digit (scan_base x)) ds) as [Hn' Hd'].
  { unfold scan_base. fold v. destruct (n_conv x); cbn [base_of] in *; try done;
      (destruct (Z.eqb_spec v 0) as [E|E]; [|done]); rewrite (H0 E), E; split; try done; apply Forall_singleton; unfold is_digit; change (digit_value 48) with 0; lia. }
  split; [done|]. split; [by destruct (n_conv x)|].
  split; try done.
  - destruct (v <? 0); constructor.
  - cbn [s_flag_width conv_of read_dir sd_width]. rewrite bool_decide_false by by intros [].
    assert (ends is_x rest) as Hx by by destruct Hr as [->|[r ->]].
    assert (∀ ch, div_of ch = 0 ∨ div_of ch = 16 → scan_base x = (if v =? 0 then if div_of ch =? 0 then 8 else 16 else if div_of ch =? 0 then 10 else 16) →
      prefix_text ch rest false [] ds (scan_base x)) as Hpx.
    { intros ch Hch ->. destruct (Z.eqb_spec v 0) as [E|E]; [rewrite (H0 E); by apply Px_zero|].
      apply Px_plain; [done|]. apply Hp. lia. }
    unfold scan_base in *. fold v in Hpx |- *. destruct (n_conv x); cbn [conv_char base_of] in *.
    + by apply (Px_fixed (CH "d")); right.
    + apply Hpx; [by left|]. by destruct (v =? 0).
    + apply Hpx; [by left|]. by destruct (v =? 0).
    + by apply (Px_fixed (CH "o")); left.
    + apply Hpx; [by right|]. by destruct (v =? 0).
    + apply Hpx; [by right|]. by destruct (v =? 0).
  - right. split; [by left|]. destruct Hr as [->|[r ->]]; [done|]. cbn. unfold is_digit.
    change (digit_value 32) with 240. assert (scan_base x <= 16); [|lia].
    unfold scan_base. destruct (n_conv x), (shown x =? 0); cbn [base_of]; lia.
  - cbn. rewrite Hn'. lia.
  - intros Hneg. cbn. rewrite Hn'. apply Z.ltb_lt in Hneg. destruct (n_conv x); cbn in *; try lia; split; done || lia.
Qed.

(** The numbers behind the first one, with their blanks. *)
Definition more_items (l : list number) : list sitem := concat ((λ y, [I_space [CH " "] [CH " "]; read_item y]) <$> l).

Lemma inputs_app l k : inputs (l ++ k) = inputs l ++ inputs k.
Proof. unfold inputs. by rewrite fmap_app, concat_app. Qed.
Lemma texts_app l k : texts (l ++ k) = texts l ++ texts k.
Proof. unfold texts. by rewrite fmap_app, concat_app. Qed.

Lemma more_texts l : texts (more_items l) = concat ((λ p, p.1 ++ item_text p.2) <$> ((λ y, ([CH " "], printed_item y)) <$> l)).
Proof.
  induction l as [|x l IH]; [done|]. unfold more_items in *. rewrite !fmap_cons. cbn [concat]. rewrite texts_app, IH. f_equal.
  unfold texts. cbn [fmap list_fmap concat]. rewrite read_text, app_nil_r. done.
Qed.
Lemma more_inputs l : inputs (more_items l) = concat ((λ p, p.1 ++ render p.2) <$> ((λ y, ([CH " "], printed_item y)) <$> l)).
Proof.
  induction l as [|x l IH]; [done|]. unfold more_items in *. rewrite !fmap_cons. cbn [concat]. rewrite inputs_app, IH. f_equal.
  unfold inputs. cbn [fmap list_fmap concat]. rewrite read_input, app_nil_r. done.
Qed.

Lemma read_texts l : texts (read_items l) = number_format l.
Proof.
  unfold number_format, format_text. rewrite app_nil_r. destruct l as [|x l]; [done|].
  cbn [read_items printed_format]. fold (more_items l). rewrite fmap_cons. cbn [concat fst snd app].
  rewrite <- more_texts. unfold texts at 1. rewrite fmap_cons. cbn [concat]. by rewrite read_text.
Qed.
Lemma read_inputs l : inputs (read_items l) = rendered (printed_format l) [].
Proof.
  unfold rendered. rewrite app_nil_r. destruct l as [|x l]; [done|].
  cbn [read_items printed_format]. fold (more_items l). rewrite fmap_cons. cbn [concat fst snd app].
  rewrite <- more_inputs. unfold inputs at 1. rewrite fmap_cons. cbn [concat]. by rewrite read_input.
Qed.

Lemma more_start l : numeral_start (inputs (more_items l) ++ []).
Proof. rewrite app_nil_r. destruct l as [|x l]; [by left|right]. unfold more_items. rewrite fmap_cons. by eexists. Qed.

(** A printed number starts with a sign or a digit, its directive with a percent sign. *)
Lemma read_head x rest : ends isspace (sitem_input (read_item x) ++ rest).
Proof.
  destruct (read_item_ok x [] [] (or_introl eq_refl)) as (_ & _ & Hit). cbn [sitem_input read_item app].
  destruct (shown x <? 0); [done|]. cbn [app].
  pose proof (shown_range x) as Hr. assert (0 <= Z.abs (shown x) < 2 ^ 64) as Hv by (destruct (signed (n_conv x)); lia).
  destruct (numeral_facts (base_of (n_conv x)) (upper (n_conv x)) (Z.abs (shown x)) (base_of_range _) Hv) as (_ & Hd & Hz & _ & _).
  pose proof (it_some _ _ _ _ _ _ _ _ _ Hit) as Hne. pose proof (base_of_range (n_conv x)).
  destruct (numeral_of _ _ _) as [|c ds]; [done|]. inversion_clear Hd as [|? ? Hc _]. inversion_clear Hz as [|? ? Hcz _].
  cbn. destruct (digit_head (base_of (n_conv x)) c) as [E _]; [lia|done|done|done].
Qed.

Lemma bytes_text x : Forall byte (sitem_text (read_item x)).
Proof. destruct x as [[] [] n p]; cbn; repeat (apply Forall_cons; split; [unfold byte; lia|]); apply Forall_nil_2. Qed.

Lemma more_ok l : items_ok (more_items l) [] [].
Proof.
  induction l as [|x l IH]; [done|]. unfold more_items in *. rewrite fmap_cons. cbn [concat app]. fold (more_items l) in *.
  cbn [items_ok]. split_and!; [|apply read_item_ok, more_start|done].
  cbn [sitem_ok]. split_and!; try done.
  - rewrite app_nil_r. unfold texts. rewrite fmap_cons. cbn [concat]. constructor; [unfold byte; lia|].
    apply Forall_app. split; [apply bytes_text|]. fold (texts (more_items l)).
    clear. induction l as [|y l IH]; [constructor|]. unfold more_items. rewrite fmap_cons. cbn [concat]. rewrite texts_app.
    apply Forall_app. split; [|done]. unfold texts. cbn [fmap list_fmap concat]. rewrite app_nil_r.
    constructor; [unfold byte; lia|]. apply bytes_text.
  - by constructor.
  - by constructor.
  - unfold inputs. rewrite fmap_cons. cbn [concat]. rewrite <- app_assoc. apply read_head.
Qed.

Lemma read_items_ok l : items_ok (read_items l) [] [].
Proof.
  destruct l as [|x l]; [done|]. cbn [read_items items_ok]. fold (more_items l).
  split; [apply read_item_ok, more_start|apply more_ok].
Qed.

(** The numbers as they are stored, and the pointers to pass. *)
Definition number_stores (l : list number) : list (Z * stored) := (λ x, (n_ptr x, int_value (conv_of (read_dir x)) (n_value x))) <$> l.
Definition number_pointers (l : list number) : list scan_arg := (λ x, int_arg (conv_of (read_dir x)) (n_ptr x)) <$> l.

Lemma read_stores pos x : sitem_stores pos (read_item x) = [(n_ptr x, int_value (conv_of (read_dir x)) (n_value x))].
Proof.
  pose proof (shown_range x) as Hr. assert (0 <= Z.abs (shown x) < 2 ^ 64) as Hv by (destruct (signed (n_conv x)); lia).
  destruct (numeral_facts (base_of (n_conv x)) (upper (n_conv x)) (Z.abs (shown x)) (base_of_range _) Hv) as (Hn & _ & _ & _ & _).
  assert (num (scan_base x) (numeral_of (base_of (n_conv x)) (upper (n_conv x)) (Z.abs (shown x))) = Z.abs (shown x)) as Hn'.
  { unfold scan_base. destruct (n_conv x); try done; (destruct (Z.eqb_spec (shown x) 0) as [E|E]; [by rewrite E|done]). }
  cbn [sitem_stores read_item]. unfold int_stores. cbn [s_discard conv_of read_dir sd_discard]. do 2 f_equal.
  rewrite Hn'. replace (if shown x <? 0 then - Z.abs (shown x) else Z.abs (shown x)) with (shown x)
    by (destruct (Z.ltb_spec (shown x) 0); lia).
  unfold int_value, shown, value_of. destruct x as [m c n p]. cbn [n_mod n_conv n_value].
  destruct m; cbn; f_equal; destruct (signed c); int_lia.
Qed.

Lemma read_results pos l : results pos (read_items l) = number_stores l.
Proof.
  assert (∀ l pos, results pos (more_items l) = number_stores l) as Hm.
  { clear. induction l as [|x l IH]; intros pos; [done|]. unfold more_items, number_stores in *. rewrite !fmap_cons.
    cbn [concat app results]. rewrite read_stores, IH. done. }
  destruct l as [|x l]; [done|]. cbn [read_items results]. fold (more_items l). rewrite read_stores, Hm. done.
Qed.

Lemma read_arguments l : arguments (read_items l) = number_pointers l.
Proof.
  assert (∀ l, arguments (more_items l) = number_pointers l) as Hm.
  { clear. induction l as [|x l IH]; [done|]. unfold more_items, arguments, number_pointers in *. rewrite !fmap_cons.
    cbn [concat]. rewrite fmap_app, concat_app, IH. done. }
  destruct l as [|x l]; [done|]. unfold arguments. cbn [read_items]. fold (more_items l). rewrite fmap_cons. cbn [concat].
  fold (arguments (more_items l)). rewrite Hm. done.
Qed.

Lemma read_matched l : matched (read_items l) = Z.of_nat (length l).
Proof.
  assert (∀ l, matched (more_items l) = Z.of_nat (length l)) as Hm.
  { clear. induction l as [|x l IH]; [done|]. unfold more_items in *. rewrite fmap_cons. cbn [concat app matched].
    rewrite IH. change (sitem_count (read_item x)) with 1. cbn [length sitem_count]. lia. }
  destruct l as [|x l]; [done|]. cbn [read_items matched]. fold (more_items l). rewrite Hm.
  change (sitem_count (read_item x)) with 1. cbn [length]. lia.
Qed.
End scan.

Section round_trip.
Context `{Doubles} `{DoubleOps}.

(** The arguments to print. *)
Definition number_args (l : list number) : list arg := (λ x, number_arg (modifier_of (n_mod x)) (n_value x)) <$> l.

Lemma number_args_ok l : format_args (printed_format l) = number_args l.
Proof.
  assert (∀ l, format_args ((λ y, ([CH " "], printed_item y)) <$> l) = number_args l) as Hm.
  { clear. induction l as [|x l IH]; [done|]. unfold format_args, number_args in *. rewrite !fmap_cons. cbn [concat]. by rewrite IH. }
  destruct l as [|x l]; [done|]. unfold format_args. cbn [printed_format]. rewrite fmap_cons. cbn [concat].
  fold (format_args ((λ y, ([CH " "], printed_item y)) <$> l)). rewrite Hm. done.
Qed.

Lemma printed_ok l : Forall number_ok l → len (rendered (printed_format l) []) < 2 ^ 31 → format_ok (printed_format l) [].
Proof.
  intros Hl Hlen. split; [|split; [constructor|done]].
  assert (∀ x, number_ok x → supported (printed_item x)) as Hs.
  { intros [m c n p] Hx. unfold number_ok in Hx. cbn in Hx. cbn [supported printed_item]. split_and!; try done.
    intros Hsg. destruct m; cbn; try done. apply Hx; [by apply Is_true_true|done]. }
  assert (Forall (λ p, Forall plain_char p.1 ∧ supported p.2) ((λ y, ([CH " "], printed_item y)) <$> l)) as Hm.
  { apply Forall_fmap. eapply Forall_impl; [exact Hl|]. intros x Hx. split; [by repeat constructor|by apply Hs]. }
  destruct l as [|x l]; [done|]. cbn [printed_format]. rewrite fmap_cons in Hm. inversion_clear Hm. inversion_clear Hl.
  constructor; [|done]. split; [constructor|by apply Hs].
Qed.

Lemma read_input_bytes x : Forall nzbyte (sitem_input (read_item x)) ∧ sitem_input (read_item x) ≠ [].
Proof.
  pose proof (shown_range x) as Hr. assert (0 <= Z.abs (shown x) < 2 ^ 64) as Hv by (destruct (signed (n_conv x)); lia).
  destruct (numeral_facts (base_of (n_conv x)) (upper (n_conv x)) (Z.abs (shown x)) (base_of_range _) Hv) as (_ & _ & Hz & Hl & _).
  cbn [sitem_input read_item app]. split.
  - apply Forall_app. split; [|done]. destruct (shown x <? 0); by repeat constructor.
  - intros E. apply app_eq_nil in E as [_ E]. rewrite E in Hl. unfold len in Hl. cbn in Hl. lia.
Qed.

Lemma read_inputs_bytes l : Forall nzbyte (inputs (read_items l)) ∧ (length l <= length (inputs (read_items l)))%nat.
Proof.
  assert (∀ l, Forall nzbyte (inputs (more_items l)) ∧ (length l <= length (inputs (more_items l)))%nat) as Hm.
  { clear. induction l as [|x l [IH1 IH2]]; [by split; [constructor|]|]. unfold more_items in *. rewrite fmap_cons. cbn [concat].
    rewrite inputs_app. unfold inputs at 1 3. cbn [fmap list_fmap concat]. rewrite app_nil_r.
    destruct (read_input_bytes x) as [Hb _]. split.
    - apply Forall_app. split; [|done]. constructor; [unfold nzbyte; lia|done].
    - rewrite length_app. cbn. lia. }
  destruct l as [|x l]; [by split; [constructor|]|]. destruct (Hm l) as [Hm1 Hm2]. destruct (read_input_bytes x) as [Hb Hne].
  unfold inputs in *. cbn [read_items]. fold (more_items l). rewrite fmap_cons. cbn [concat]. split.
  - by apply Forall_app.
  - rewrite length_app. cbn [length]. destruct (sitem_input (read_item x)); [done|cbn [length]; lia].
Qed.

(** C14: numbers that are printed with [%d], [%i], [%u], [%o], [%x] or [%X], without or
    with [h], [l] or [ll], and with blanks between them, are read back with the same
    format: every pointer gets the value that was printed. *)
Theorem printf_scanf_roundtrip (l : list number) (errno errno' : Z)
    (Hl : Forall number_ok l) (Hne : l ≠ []) (Hlen : len (rendered (printed_format l) []) < 2 ^ 31) :
  ∃ pieces, __v_printf (number_format l) (number_args l) errno = Ok (pieces, len (concat pieces), errno) ∧
    vsscanf (concat pieces) (number_format l) (number_pointers l) errno' = Ok (Z.of_nat (length l), number_stores l, errno').
Proof.
  destruct (v_printf_ok (printed_format l) [] [] errno (printed_ok l Hl Hlen)) as (pieces & E & Ec).
  rewrite app_nil_r, number_args_ok in E. exists pieces. rewrite Ec. split; [exact E|].
  destruct (read_inputs_bytes l) as [Hz Hlong]. rewrite read_inputs in Hz, Hlong. unfold len in Hlen.
  pose proof (vsscanf_ok (read_items l) T_end [] [] errno') as Hs. cbn [tail_text] in Hs.
  rewrite !app_nil_r, read_texts, read_inputs, read_arguments, read_results, read_matched in Hs.
  rewrite Hs; [|done|lia|apply read_items_ok|done|lia].
  cbn [tail_result result]. replace (Z.of_nat (length l) =? 0) with false; [done|].
  destruct l; [done|cbn [length]; lia].
Qed.
End round_trip.

(** ** Examples *)

Definition scanned (s format : list Z) (args : list scan_arg) : option (Z * list (Z * stored (H0 := no_double_ops))) :=
  match vsscanf (H := no_double_ops) s format args 0 with Ok (r, st, _) => Some (r, st) | _ => None end.

Lemma printf_scanf_roundtrip_witness :
  ∃ pieces, __v_printf (H := no_doubles) (STR "%d %lX %hu") [A_int (-5); A_long 48879; A_int 0] 0 = Ok (pieces, len (concat pieces), 0) ∧
    vsscanf (H := no_double_ops) (concat pieces) (STR "%d %lX %hu") [P_int 100; P_long 104; P_short 112] 0 =
      Ok (3, [(100, V_int (-5)); (104, V_long 48879); (112, V_short 0)], 0).
Proof.
  refine (printf_scanf_roundtrip (H := no_doubles) (H0 := no_double_ops)
    [mk_number S_none N_d (-5) 100; mk_number S_l N_X 48879 104; mk_number S_h N_u 0 112] 0 0 _ _ _).
  - repeat constructor; done.
  - done.
  - vm_compute. reflexivity.
Defined.

(** *** Flaws *)

(** An overflow is not always seen, and a number that does not fit into [long] is not
    clamped: the clamped value is computed and not used. *)
Lemma scan_overflow :
  scanned (STR "30000000000000000000") (STR "%ld") [P_long 8] = Some (1, [(8, V_long (-6893488147419103232))]) ∧
  scanned (STR "9999999999999999999") (STR "%ld") [P_long 8] = Some (1, [(8, V_long (-8446744073709551617))]).
Proof. vm_compute. by split. Qed.
(** [%u] takes the base from the prefix, and drops a minus sign. *)
Lemma scan_unsigned :
  scanned (STR "010") (STR "%u") [P_int 8] = Some (1, [(8, V_int 8)]) ∧
  scanned (STR "-1") (STR "%u") [P_int 8] = Some (1, [(8, V_int 1)]).
Proof. vm_compute. by split. Qed.
(** With a width, [%u] and [%i] have no base and match nothing. *)
Lemma scan_width_no_base : scanned (STR "123") (STR "%3u") [P_int 8] = Some (0, []).
Proof. vm_compute. reflexivity. Qed.
(** The sign does not count for the width. *)
Lemma scan_width_sign : scanned (STR "-123") (STR "%2d") [P_int 8] = Some (1, [(8, V_int (-12))]).
Proof. vm_compute. reflexivity. Qed.
(** Two signs are one number. *)
Lemma scan_two_signs : scanned (STR "-+5") (STR "%d") [P_int 8] = Some (1, [(8, V_int (-5))]).
Proof. vm_compute. reflexivity. Qed.
(** A set that matches nothing stores an empty string and reading goes on. *)
Lemma scan_set_no_match : scanned (STR "5") (STR "%[a]%d") [P_char 8; P_int 12] = Some (1, [(8, V_char 0); (12, V_int 5)]).
Proof. vm_compute. reflexivity. Qed.
(** The character in front of a dash at the end of a set is lost. *)
Lemma scan_set_dash : scanned (STR "a") (STR "%[a-]") [P_char 8] = Some (0, [(8, V_char 0)]).
Proof. vm_compute. reflexivity. Qed.
(** The end of the input behind white space is not reported as such. *)
Lemma scan_blank_eof : scanned (STR "  ") (STR "%d") [P_int 8] = Some (0, []).
Proof. vm_compute. reflexivity. Qed.
(** Characters outside ASCII in the format match nothing. *)
Lemma scan_literal_high : scanned [0xe4; CH "5"] (0xe4 :: STR "%d") [P_int 8] = Some (0, []).
Proof. vm_compute. reflexivity. Qed.
